(* ===== verification/_CoqProject ===== *)
-Q . S2P
Prelude.v
Encoding.v
Currency.v
Target.v
Crypto.v
Types.v
Codec.v
Marshal.v
Block.v
Signatures.v
ValidTransaction.v
ConsensusDB.v
BlockValidation.v
Difficulty.v
ConsensusValid.v
MapDiffs.v
Diffs.v
ApplyTransaction.v
BlockDiffs.v
Fork.v
Changelog.v
Subscribe.v
Accept.v
Errors.v
Heaviest.v
Replay.v
AllocationFork.v
Conservation.v
Consistency.v
Allocations.v
Genesis.v
Synchronize.v
MapRange.v
Standard.v
FindSets.v
TransactionPool.v
PoolInvariant.v
PoolUpdate.v
PoolOrder.v
PoolSubscribe.v
SplitSetHeap.v
Miner.v
MinerSelect.v
MinerPool.v
MinerFlaws.v
MinerBlock.v
MinerHeaders.v
