(* ===== verification/Prelude.v ===== *)
(** * SiaPrime consensus: a verification library

    SiaPrime is a proof-of-work chain whose blocks carry payments (siacoins),
    shares in the storage tax (siafunds) and file contracts between renters and
    hosts.  This library models the code that decides what the chain is: the
    packages [types], [encoding] and [crypto] as far as consensus uses them,
    and [modules/consensus]; [modules/transactionpool], which decides what is
    offered to miners; and [modules/miner], which makes blocks of it.

    ** How the parts interact

    A block arrives at [managedAcceptBlocks] (accept.go).  Its header, size,
    timestamps and payouts are checked against its parent; it becomes a node
    of the block tree, with the difficulty its children must meet
    (processedblock.go, difficulty.go).  If it outweighs the tip, the chain is
    reorganised (fork.go): blocks are reverted down to the common ancestor by
    undoing their stored diffs, and the blocks of the new branch are applied,
    by their stored diffs or, the first time, by validating and applying every
    transaction and recording diffs (diffs.go, validtransaction.go,
    applytransaction.go, maintenance.go) in a database of outputs, contracts and
    delayed outputs (consensusdb.go).  The change is appended to a persistent
    log (changelog.go) and sent to the subscribers (subscribe.go): wallet,
    transaction pool, miner and so on.

    The transaction pool keeps disjoint sets of dependent transactions.  A new
    set is checked against rules beyond consensus (standard.go) and a fee that
    grows with the pool, merged with the sets it shares objects with, and tried
    on the consensus database ([TryTransactionSet]) before it is stored
    (accept.go).  On a consensus change the pool records the confirmed
    transactions and a fee estimate and adds the rest back one by one
    (update.go); it has subscribers of its own (subscribe.go).

    The miner is a subscriber of both.  It keeps the sets of the pool in two
    heaps, those in the block it assembles, the lowest fee on top, and those
    that did not fit, the highest on top (update.go, splitsetheap.go).  It gives
    out headers of a source block for work, remembers them in a ring, and puts
    the block of a solved header together again to submit it (blockmanager.go).

    ** Files

    - [Prelude]: errors and panics as values, loops, machine integers, sums,
      tactics and hints shared by all files.
    - [Encoding]: little-endian integers, the decoder of types/encoding.go with
      its size limits.  [Codec]: MarshalSia, UnmarshalSia and MarshalSiaSize of
      every consensus object.  [Marshal]: the reflective encoder of
      encoding/marshal.go at every Go type, and length-prefixed messages.
    - [Currency], [Target]: types/currency.go and types/target.go.
    - [Crypto]: crypto/hash.go, merkle.go and signatures.go over the third-party
      functions (class [Crypto]).
    - [Types]: the records of transactions, contracts and blocks, and the
      parameters of a network (class [Net], with the three builds).
      [Allocations]: the addresses and genesis tables of the builds, and the
      parser of the address strings they are written in.
    - [Block]: ids, coinbase, subsidies, taxes.
    - [Signatures], [ValidTransaction]: types/signatures.go and
      types/validtransaction.go.
    - [ConsensusDB]: the buckets and their operations.  [MapDiffs]: logs of
      insertions and deletions on finite maps, for [Diffs] (committing and
      reverting).  [ConsensusValid], [ApplyTransaction], [BlockDiffs]:
      contextual validity, applying, generating the diffs of a block.
    - [BlockValidation], [Difficulty], [Fork]: block rules, block tree and
      weights, reorganisation.
    - [Changelog], [Subscribe]: the log and how subscribers are fed from it.
    - [Accept], [Heaviest], [Replay]: accepting blocks, and what it guarantees
      to the node and to its subscribers.  [AllocationFork]: what the change of
      the siafund allocation at height 7200 does, and that it is not undone.
    - [Errors]: which errors a rejected block can be reported with.
    - [Conservation], [Consistency]: the money supply, and consistency.go which
      counts it.
    - [Genesis]: starting from an empty database, and the queries.
    - [Synchronize]: exchanging blocks with peers (synchronize.go).
    - [MapRange]: iteration over Go maps and sorting, in any order.
    - [Standard], [FindSets]: standard.go, and the grouping of dependent
      transactions in update.go.  [TransactionPool]: the rest of
      modules/transactionpool (accept.go, update.go, subscribe.go, database.go,
      persist.go, transactionpool.go).
    - [PoolInvariant], [PoolUpdate], [PoolOrder], [PoolSubscribe]: what the pool
      guarantees when it accepts a set, after a consensus change, to a miner and
      to its subscribers.
    - [SplitSetHeap]: splitsetheap.go.  [Miner]: the rest of modules/miner
      (update.go, blockmanager.go, testminer.go, miner.go).  [MinerSelect]: the
      invariant of the selection.  [MinerPool], [MinerFlaws]: what the miner
      makes of the diffs of the pool, and three ways in which it goes wrong.
      [MinerBlock]: the validity of its blocks.  [MinerHeaders]: the ring of
      headers.

    ** What is proved

    Data and rules: decoding inverts encoding and is total on every input;
    sizes and field offsets are right; a transaction passes [StandaloneValid]
    and [validSignatures] exactly when it satisfies a specification that does not
    mention maps or loops; a block passes [ValidateBlock] exactly when its
    timestamps, work, size and payouts are right; the coinbase, subsidies and
    taxes add up to the supply that [CalculateNumSiacoins] states.

    Ledger: applying an accepted block and reverting it gives back the database
    (up to empty expiration buckets), and replaying it gives the same database;
    the supply of siacoins and siafunds, the expiration index and the window of
    delayed outputs are invariants.  Excepted are the block at height 7200, blocks
    whose ids collide with existing ones and, for reverting, blocks that spend a
    siafund output whose unlock hash is replaced on reading.  The proofs of these go through [tracks]
    ([BlockDiffs]): while a block is applied, every part of the database is the
    result of running the diffs recorded for it.

    Chain: reorganising away and back over blocks with exact diffs restores the
    database; difficulty moves within its clamps; weights are a strict order;
    after any call of [managedAcceptBlocks] no known block outweighs the tip;
    blocks that do not extend the chain are kept in the tree and change nothing
    else, and any other error leaves the database as it was, because the bolt
    transaction is rolled back.

    Log and subscribers: the linked list in the database implements a list
    (class [LogLaws]); against that interface alone, a subscription returns and
    delivers every change once and in order whatever other threads append
    meanwhile; accepted changes are logged and sent in the same order; a
    subscriber that replays the diffs of the changes has the ledger of the node
    ([Replay]).

    Network: a peer answers a block history with its blocks after a common
    parent that is at most twice as deep as necessary; a node that reads the
    answer knows the tip of the peer and is not outweighed by it, or has stopped
    at a batch that it could not accept.  The encoding round-trips at every Go
    type but pointers to types with their own codec and interfaces, nil pointers
    cannot be encoded, and decoding respects types on any input.

    Transaction pool: accepting a set keeps the sets disjoint, valid on the
    consensus database as consensus judges them (class [ConsensusView]),
    indexed by their objects and measured, loses no transaction and adds all
    unconfirmed ones; a consensus change that continues the chain is processed
    without a panic and leaves a pool with the same invariant for the new
    chain, without confirmed transactions; the transactions of the pool can be
    applied to the ledger one after the other whatever the order of the sets; a
    subscriber that applies the diffs has the sets of the pool.  [findSets]
    computes the connected components of the dependency graph, and the fee of a
    block is the one at the first quarter of its space.

    Miner: the array heap implements a map with a best element; the miner keeps
    in step with the pool as long as no transaction is twice in it, its block consists of complete sets of the pool in
    their order, and a block for work can be applied to the ledger; a block that
    it finds after a consensus change passes every check of the consensus set;
    a header is recognised, with its own block, until the ring has come round,
    whatever the miner does meanwhile.  [MinerFlaws] proves that the promotion of
    sets can panic and that the block can be filled over its limit, and has an
    example of a repeated transaction whose removal drops another one.

    [Genesis] shows that a fresh node of each build, with its hard-coded
    tables, starts in a state with all the invariants.

    ** Modelling decisions

    The release build is modelled: the checks under [build.DEBUG] are absent, and
    what still panics is the value [Panic], apart from errors ([Err]).  Database
    values are kept decoded ([Codec] justifies it).  A bolt transaction that
    returns an error is rolled back.  The clock, the state other threads leave
    between two lock acquisitions, and channels are arguments.  Hashes may
    collide: freshness of ids is an explicit hypothesis where a theorem needs
    it ([no_collisions] and the like), and holds in the examples.  The order in
    which Go ranges over a map, or leaves equal elements when it sorts, is a
    parameter (class [MapOrder]) that may choose differently at every place and
    time.  Floating point constants (the dev fund percentage, the fee multiplier)
    are the exact values of the doubles; the fee curve [math.Pow] of the pool is a
    parameter (class [FeeCurve]).

    Fuel: chain walks get one step per height, which is enough because heights
    fall by one ([Fork]); subscription loops get two rounds per log entry
    ([Subscribe]); the loops over messages get the length of the input or of the
    chain ([Synchronize]); [handleConflicts] runs at most twice ([PoolUpdate]);
    following the forwards of [findSets] takes at most one step per transaction of
    the block ([FindSets]); moving through a heap takes at most one step per
    element ([SplitSetHeap]), and every round of the miner's loops takes an
    element out of a heap; running out of it is [Panic], and the theorems show that it
    does not happen.

    The miner's heaps share pointers to their elements: the position of an element,
    which the code keeps in the element, is a table of the heap.  Its source
    blocks are shared between the headers made of them and written to, so they are
    kept in a store.  The answers of the wallet and random bytes are arguments.

    The block at height 7200, whose diffs are not reversible
    ([AllocationFork.allocation_change_not_reversible]), is excluded from the
    ledger theorems but not from those about the log, the subscribers and the tip.

    The reflective encoder works on descriptions of Go types ([Marshal.GoType]):
    struct fields are exported, and the types with their own codec implement it
    on values, so that pointers to them have it too (of the types encoded here only
    [StorageProof] has it on pointers, and its codec is called directly).

    ** Not modelled

    The third-party hash, Merkle tree and signature functions and the bolt
    database (parameters, or finite maps); JSON and string forms other than
    addresses; logging, files and goroutine scheduling; the CPU mining thread;
    the modules wallet, host, renter and explorer, the mining pool, the gateway,
    the HTTP API and the commands. *)

From stdpp Require Export base tactics list gmap sorting.
From Stdlib Require Export ZArith Lia.
From Stdlib Require Export Strings.Byte.

#[global] Open Scope Z_scope.

(** ** Errors, panics and the result monad

    Go code fails in two ways: it returns a non-nil [error], or it panics (a
    nil-pointer dereference, a slice index out of range, a division by zero in
    [math/big], an explicit [panic]).  [res] keeps the two apart. *)

(** Errors of the modules above consensus and the transaction pool. *)
Inductive moduleError :=
  (* modules/miner, modules/wallet.go *)
  | ErrLockedWallet | errLateHeader
  (* modules/renter/hostdb/hosttree *)
  | errHostExists | errNoSuchHost
  (* modules/host *)
  | errBadContractOutputCounts | errBadContractParent | errBadFileMerkleRoot
  | errBadFileSize | errBadModificationIndex | errBadParentID
  | errBadPayoutUnlockHashes | errBadRevisionNumber | errBadSectorSize
  | errBadUnlockConditions | errBadUnlockHash | errBadWindowEnd | errBadWindowStart
  | errCollateralBudgetExceeded | errEarlyWindow | errEmptyObject
  | errHighRenterMissedOutput | errHighRenterValidOutput | errHostLateRevision
  | errIllegalOffsetAndLength | errLargeDownloadBatch | errLargeSector
  | errLongDuration | errLowHostMissedOutput | errLowHostValidOutput
  | errLowTransactionFees | errLowVoidOutput | errMaxCollateralReached
  | errMismatchedHostPayouts | errRequestOutOfBounds | errRevisionWrongPublicKeyCount
  | errSmallWindow | errUnknownModification
  | errHostPayoutAddress | errLostCollateralAddress
  | errDuplicateStorageObligation | errNoStorageObligation | errObligationLocked
  | errObligationUnlocked | errStopResponse
  | errModuleOther.
#[global] Instance moduleError_eq_dec : EqDecision moduleError.
Proof. intros x y; unfold Decision; decide equality. Defined.

(** The named errors of the modelled packages ([errors.New] values).  The
    errors of third-party packages that the code only passes on are
    [ErrOther]. *)
Inductive error : Type :=
  (* types/currency.go *)
  | ErrNegativeCurrency | ErrUint64Overflow
  (* types/validtransaction.go *)
  | ErrDoubleSpend | ErrFileContractOutputSumViolation
  | ErrFileContractWindowEndViolation | ErrFileContractWindowStartViolation
  | ErrNonZeroClaimStart | ErrNonZeroRevision | ErrStorageProofWithOutputs
  | ErrTimelockNotSatisfied | ErrTransactionTooLarge | ErrZeroMinerFee
  | ErrZeroOutput | ErrZeroRevision
  (* types/signatures.go, crypto/signatures.go *)
  | ErrEntropyKey | ErrFrivolousSignature | ErrInvalidPubKeyIndex
  | ErrMissingSignatures | ErrPrematureSignature | ErrPublicKeyOveruse
  | ErrSortedUniqueViolation | ErrWholeTransactionViolation
  | ErrInvalidSignature
  (* encoding/marshal.go, io *)
  | ErrEOF | ErrUnexpectedEOF | ErrObjectTooLarge (n : Z) | ErrSliceTooLarge (len elemSize : Z)
  | errBadBool | errUnknownType | errPrefixTooLarge
  (* modules/consensus *)
  | errAlteredRevisionPayouts | errInvalidStorageProof | errLateRevision
  | errLowRevisionNumber | errMissingSiacoinOutput | errMissingSiafundOutput
  | errSiacoinInputOutputMismatch | errSiafundInputOutputMismatch
  | errUnfinishedFileContract | errUnrecognizedFileContractID
  | errWrongUnlockConditions | errNilItem
  | errBadMinerPayouts | errEarlyTimestamp | errExtremeFutureTimestamp
  | errFutureTimestamp | errLargeBlock | errNonceRequirements
  | ErrBlockUnsolved | ErrBlockKnown | ErrNonExtendingBlock
  | errDoSBlock | errNoBlockMap | errNonLinearChain | errOrphan
  | errMoreRevertedThanApplied
  | errRepeatDSCOMap | errRepeatDelayedOutput | errDSCOBucketTotal
  | errMissingDSCOBucket | errTooManyDSCOBuckets
  | errWrongNumberOfSiacoins | errWrongNumberOfSiafunds
  | ErrInvalidConsensusChangeID | errNoRecentChange | errWrongGenesis
  | errSendBlocksStalled | errNilProcBlock
  (* modules/transactionpool, modules/transactionpool.go *)
  | errEmptySet | errLowMinerFees | errUnrecognizedKeyType
  | ErrDuplicateTransactionSet | ErrInvalidArbPrefix | ErrLargeTransaction
  | ErrLargeTransactionSet | ErrConsensusConflict
  | errNilConsensusChange | errNilFeeMedian | errNilRecentBlock
  | moduleErr (e : moduleError)
  (* net *)
  | errTimeout
  (* sync *)
  | ErrStopped
  | ErrOther.

#[global] Instance error_eq_dec : EqDecision error.
Proof. intros x y; unfold Decision; decide equality; first [apply Z.eq_dec|apply moduleError_eq_dec]. Defined.
Coercion moduleErr : moduleError >-> error.

Inductive res (A : Type) : Type :=
  | Ok (a : A)
  | Err (e : error)
  | Panic.
Arguments Ok {A} a.
Arguments Err {A} e.
Arguments Panic {A}.

#[global] Instance res_ret : MRet res := fun A a => Ok a.
#[global] Instance res_bind : MBind res := fun A B f r =>
  match r with
  | Ok a => f a
  | Err e => Err e
  | Panic => Panic
  end.

#[global] Instance res_eq_dec `{EqDecision A} : EqDecision (res A).
Proof. solve_decision. Defined.

(** [if cond { return err }] *)
Definition guard_err (b : bool) (e : error) : res unit :=
  if b then Err e else Ok ().

(** A [for _, x := range l] loop whose body may fail, threading a state. *)
Fixpoint foldM {A S} (f : S → A → res S) (s : S) (l : list A) : res S :=
  match l with
  | [] => Ok s
  | x :: l => s' ← f s x; foldM f s' l
  end.

(** The same loop with the range index. *)
Fixpoint foldMi {A S} (f : Z → S → A → res S) (i : Z) (s : S) (l : list A) : res S :=
  match l with
  | [] => Ok s
  | x :: l => s' ← f i s x; foldMi f (i + 1) s' l
  end.

(** A range loop that only checks. *)
Definition checkM {A} (f : A → res unit) (l : list A) : res unit :=
  foldM (λ _ x, f x) () l.

(** ** Machine integers *)

Definition two64 : Z := 2 ^ 64.
(** Conversion to [uint64], and the wrap-around of its arithmetic. *)
Definition u64 (z : Z) : Z := z `mod` 2 ^ 64.
(** Conversion to [int64], and the wrap-around of its arithmetic. *)
Definition i64 (z : Z) : Z := (z + 2 ^ 63) `mod` 2 ^ 64 - 2 ^ 63.

Definition is_u64 (z : Z) : Prop := 0 ≤ z < 2 ^ 64.
Definition is_i64 (z : Z) : Prop := - 2 ^ 63 ≤ z < 2 ^ 63.

Lemma u64_range z : is_u64 (u64 z).
Proof. apply Z.mod_pos_bound. lia. Qed.

Lemma u64_id z : is_u64 z → u64 z = z.
Proof. intros H. apply Z.mod_small. exact H. Qed.

Lemma i64_range z : is_i64 (i64 z).
Proof.
  unfold is_i64, i64.
  pose proof (Z.mod_pos_bound (z + 2 ^ 63) (2 ^ 64)). lia.
Qed.

Lemma i64_id z : is_i64 z → i64 z = z.
Proof. unfold is_i64, i64. intros H. rewrite Z.mod_small; lia. Qed.

Lemma u64_i64 z : u64 (i64 z) = u64 z.
Proof.
  unfold u64, i64. rewrite Zminus_mod, Zmod_mod, <- Zminus_mod.
  f_equal. lia.
Qed.

(** ** Bytes *)

#[global] Instance byte_eq_decision : EqDecision byte := Byte.byte_eq_dec.

#[global] Instance byte_countable : Countable byte.
Proof. by apply (inj_countable Byte.to_N Byte.of_N), Byte.of_to_N. Defined.

Definition Z_of_byte (b : byte) : Z := Z.of_N (Byte.to_N b).
Definition byte_of_Z (z : Z) : byte :=
  match Byte.of_N (Z.to_N (z `mod` 256)) with
  | Some b => b
  | None => x00
  end.

Lemma Z_of_byte_range b : 0 ≤ Z_of_byte b < 256.
Proof. unfold Z_of_byte. pose proof (Byte.to_N_bounded b). lia. Qed.

Lemma Z_of_byte_of_Z z : Z_of_byte (byte_of_Z z) = z `mod` 256.
Proof.
  unfold Z_of_byte, byte_of_Z.
  pose proof (Z.mod_pos_bound z 256 ltac:(lia)).
  destruct (Byte.of_N _) eqn:E.
  - apply Byte.to_of_N in E. rewrite E. lia.
  - apply Byte.of_N_None_iff in E. lia.
Qed.

Lemma byte_of_Z_of_byte b : byte_of_Z (Z_of_byte b) = b.
Proof.
  unfold byte_of_Z. rewrite Z.mod_small by apply Z_of_byte_range.
  unfold Z_of_byte. by rewrite N2Z.id, Byte.of_to_N.
Qed.

Lemma Z_of_byte_inj b1 b2 : Z_of_byte b1 = Z_of_byte b2 → b1 = b2.
Proof. intros H. by rewrite <- (byte_of_Z_of_byte b1), H, byte_of_Z_of_byte. Qed.

(** Go's [copy(dst, src)]: the leading [min(len dst, len src)] elements of
    [dst] are replaced. *)
Definition go_copy {A} (dst src : list A) : list A :=
  take (length dst) src ++ drop (length src) dst.

Lemma length_go_copy {A} (dst src : list A) : length (go_copy dst src) = length dst.
Proof. unfold go_copy. rewrite length_app, length_take, length_drop. lia. Qed.

Lemma go_copy_full {A} (dst src : list A) :
  length src = length dst → go_copy dst src = src.
Proof.
  intros H. unfold go_copy. rewrite <- H, take_ge by lia.
  rewrite drop_ge, app_nil_r by lia. done.
Qed.

(** [len(x)] *)
Definition len {A} (l : list A) : Z := Z.of_nat (length l).

Lemma len_nonneg {A} (l : list A) : 0 ≤ len l.
Proof. unfold len. lia. Qed.
Lemma len_app {A} (l k : list A) : len (l ++ k) = len l + len k.
Proof. unfold len. rewrite length_app. lia. Qed.
Lemma len_cons {A} (x : A) l : len (x :: l) = 1 + len l.
Proof. unfold len. simpl. lia. Qed.
Lemma len_nil {A} : len (@nil A) = 0.
Proof. done. Qed.

(** [l[i]]: an index out of range panics. *)
Definition go_index {A} (l : list A) (i : Z) : res A :=
  if i <? 0 then Panic else
  match l !! Z.to_nat i with Some x => Ok x | None => Panic end.

Lemma go_index_lt {A} (l : list A) i :
  0 ≤ i < len l → ∃ x, go_index l i = Ok x ∧ l !! Z.to_nat i = Some x.
Proof.
  unfold go_index, len. intros Hi. rewrite (proj2 (Z.ltb_ge _ _)) by lia.
  destruct (lookup_lt_is_Some_2 l (Z.to_nat i)) as [x ->]; [lia|]. eauto.
Qed.

(** ** Sums over lists *)

Fixpoint sumZ {A} (f : A → Z) (l : list A) : Z :=
  match l with
  | [] => 0
  | x :: l => f x + sumZ f l
  end.

Section sums.
Context {A : Type}.
Implicit Types (f g : A → Z) (l : list A).

Lemma sumZ_app f l k : sumZ f (l ++ k) = sumZ f l + sumZ f k.
Proof. induction l; simpl; lia. Qed.

Lemma sumZ_perm f l k : l ≡ₚ k → sumZ f l = sumZ f k.
Proof. induction 1; simpl; lia. Qed.

Lemma sumZ_nonneg f l : (∀ x, x ∈ l → 0 ≤ f x) → 0 ≤ sumZ f l.
Proof.
  induction l as [|x l IH]; intros H; simpl; [lia|].
  pose proof (H x ltac:(set_solver)).
  assert (0 ≤ sumZ f l) by (apply IH; set_solver). lia.
Qed.

Lemma sumZ_ext f g l : (∀ x, x ∈ l → f x = g x) → sumZ f l = sumZ g l.
Proof.
  induction l as [|x l IH]; intros H; simpl; [done|].
  rewrite (H x), IH by set_solver. done.
Qed.

Lemma sumZ_add f g l : sumZ (λ x, f x + g x) l = sumZ f l + sumZ g l.
Proof. induction l; simpl; lia. Qed.

Lemma sumZ_mul c f l : sumZ (λ x, c * f x) l = c * sumZ f l.
Proof. induction l as [|x l IH]; simpl; [lia|]. rewrite IH. ring. Qed.

Lemma sumZ_map {B} (h : B → A) f (l : list B) : sumZ f (map h l) = sumZ (λ x, f (h x)) l.
Proof. induction l; simpl; congruence. Qed.

Lemma sumZ_zero l : sumZ (λ _, 0) l = 0.
Proof. induction l; simpl; lia. Qed.

(** The accumulator loops of the code ([sum = sum.Add(x.Value)]). *)
Lemma foldl_sumZ f l a : foldl (λ s x, s + f x) a l = a + sumZ f l.
Proof. revert a. induction l as [|x l IH]; intros a; simpl; [lia|]. rewrite IH. lia. Qed.
End sums.

(** The sum of [f] over the values of a finite map: what a [ForEach] over a
    database bucket adds up, whatever the iteration order. *)
Definition map_sumZ `{Countable K} {A} (f : A → Z) (m : gmap K A) : Z :=
  sumZ (λ kv, f kv.2) (map_to_list m).

Section map_sums.
Context `{Countable K} {A : Type}.
Implicit Types (f g : A → Z) (m : gmap K A).

Lemma map_sumZ_empty f : map_sumZ f (∅ : gmap K A) = 0.
Proof. unfold map_sumZ. by rewrite map_to_list_empty. Qed.

Lemma map_sumZ_insert f m i x :
  m !! i = None → map_sumZ f (<[i:=x]> m) = f x + map_sumZ f m.
Proof.
  intros Hi. unfold map_sumZ.
  by rewrite (sumZ_perm _ _ _ (map_to_list_insert m i x Hi)).
Qed.

Lemma map_sumZ_singleton f i x : map_sumZ f ({[i := x]} : gmap K A) = f x.
Proof. rewrite <- insert_empty, map_sumZ_insert, map_sumZ_empty by apply lookup_empty. lia. Qed.

Lemma map_sumZ_delete f m i x :
  m !! i = Some x → map_sumZ f m = f x + map_sumZ f (delete i m).
Proof.
  intros Hi. unfold map_sumZ.
  by rewrite <- (sumZ_perm _ _ _ (map_to_list_delete m i x Hi)).
Qed.

Lemma map_sumZ_nonneg f m : map_Forall (λ _ x, 0 ≤ f x) m → 0 ≤ map_sumZ f m.
Proof.
  intros Hm. apply sumZ_nonneg. intros [k x] Hin.
  apply elem_of_map_to_list in Hin. by apply (Hm k x).
Qed.

Lemma map_sumZ_ext f g m :
  map_Forall (λ _ x, f x = g x) m → map_sumZ f m = map_sumZ g m.
Proof.
  intros Hm. apply sumZ_ext. intros [k x] Hin.
  apply elem_of_map_to_list in Hin. by apply (Hm k x).
Qed.

Lemma map_sumZ_add f g m : map_sumZ (λ x, f x + g x) m = map_sumZ f m + map_sumZ g m.
Proof. unfold map_sumZ. by rewrite <- sumZ_add. Qed.

Lemma map_sumZ_mul c f m : map_sumZ (λ x, c * f x) m = c * map_sumZ f m.
Proof. unfold map_sumZ. by rewrite <- sumZ_mul. Qed.
End map_sums.

(** ** Automation *)

Create HintDb sia.
Create Rewrite HintDb sia.
#[export] Hint Resolve u64_range i64_range len_nonneg Z_of_byte_range : sia.
#[export] Hint Rewrite @length_app @length_replicate @len_app @len_cons @len_nil : sia.

(** Closes a decidable goal without variables by evaluating its decision. *)
Ltac vm_decide :=
  match goal with |- ?P => refine (bool_decide_eq_true_1 P _); vm_compute; reflexivity end.

(** [lia] with the machine ranges unfolded. *)
Ltac ulia := cbv [is_u64 is_i64] in *; lia.

(** Inverts the monadic binds of a hypothesis [_ = Ok _]. *)
Ltac res_inv :=
  repeat match goal with
  | H : mbind _ ?r = Ok _ |- _ =>
      let E := fresh "E" in
      destruct r eqn:E; simpl in H; try discriminate H
  | H : guard_err ?b _ = Ok _ |- _ =>
      unfold guard_err in H; destruct b eqn:?; try discriminate H
  | H : Ok _ = Ok _ |- _ => injection H as H; try subst
  | u : () |- _ => destruct u
  end.

(** Turns boolean tests in the hypotheses into propositions. *)
Ltac bool_inv :=
  repeat match goal with
  | H : (_ =? _) = true |- _ => apply Z.eqb_eq in H
  | H : (_ =? _) = false |- _ => apply Z.eqb_neq in H
  | H : (_ <? _) = true |- _ => apply Z.ltb_lt in H
  | H : (_ <? _) = false |- _ => apply Z.ltb_ge in H
  | H : (_ <=? _) = true |- _ => apply Z.leb_le in H
  | H : (_ <=? _) = false |- _ => apply Z.leb_gt in H
  | H : bool_decide _ = true |- _ => apply bool_decide_eq_true in H
  | H : bool_decide _ = false |- _ => apply bool_decide_eq_false in H
  | H : negb _ = true |- _ => apply negb_true_iff in H
  | H : negb _ = false |- _ => apply negb_false_iff in H
  | H : _ && _ = true |- _ => apply andb_true_iff in H as [? ?]
  | H : _ || _ = false |- _ => apply orb_false_iff in H as [? ?]
  end.

Lemma guard_err_Ok b e : guard_err b e = Ok () ↔ b = false.
Proof. unfold guard_err. by destruct b. Qed.

Lemma Ok_inj {A} (x y : A) : Ok x = Ok y → x = y.
Proof. by intros [= ->]. Qed.

Lemma bind_Ok {A B} (r : res A) (f : A → res B) b :
  (r ≫= f) = Ok b ↔ ∃ a, r = Ok a ∧ f a = Ok b.
Proof. destruct r; cbn; naive_solver. Qed.

Lemma bind_unit_Ok {B} (r : res unit) (f : unit → res B) b :
  (r ≫= f) = Ok b ↔ r = Ok () ∧ f () = Ok b.
Proof. destruct r as [[]| |]; cbn; naive_solver. Qed.

Section foldM.
Context {A S : Type}.

Lemma foldM_app (f : S → A → res S) s l k :
  foldM f s (l ++ k) = (s' ← foldM f s l; foldM f s' k).
Proof.
  revert s. induction l as [|x l IH]; intros s; simpl; [done|].
  destruct (f s x); simpl; auto.
Qed.

(** An invariant of the loop body is an invariant of the loop. *)
Lemma foldM_inv (P : S → Prop) (f : S → A → res S) s s' l :
  (∀ s x s', x ∈ l → P s → f s x = Ok s' → P s') →
  P s → foldM f s l = Ok s' → P s'.
Proof.
  revert s. induction l as [|x l IH]; intros s Hf Hs H; simpl in H; [by res_inv|].
  res_inv. eapply IH; [| |exact H].
  - intros. eapply Hf; eauto. set_solver.
  - eapply Hf; eauto. set_solver.
Qed.

Lemma foldMi_inv (P : S → Prop) (f : Z → S → A → res S) i s s' l :
  (∀ i s x s', x ∈ l → P s → f i s x = Ok s' → P s') →
  P s → foldMi f i s l = Ok s' → P s'.
Proof.
  revert i s. induction l as [|x l IH]; intros i s Hf Hs H; simpl in H; [by res_inv|].
  res_inv. eapply IH; [| |exact H].
  - intros. eapply Hf; eauto. set_solver.
  - eapply Hf; eauto. set_solver.
Qed.

Lemma checkM_Ok (f : A → res unit) l :
  checkM f l = Ok () ↔ Forall (λ x, f x = Ok ()) l.
Proof.
  unfold checkM. induction l as [|x l IH]; simpl.
  - split; auto.
  - rewrite Forall_cons, <- IH.
    destruct (f x) as [[]| |]; simpl; naive_solver.
Qed.

(** The loop stops at the first element whose check fails. *)
Lemma checkM_Err (f : A → res unit) l e :
  checkM f l = Err e ↔
  ∃ l1 x l2, l = l1 ++ x :: l2 ∧ Forall (λ y, f y = Ok ()) l1 ∧ f x = Err e.
Proof.
  unfold checkM. induction l as [|x l IH]; simpl.
  - split; [done|]. intros ([|] & ? & ? & [=] & _).
  - destruct (f x) as [[]|e'|] eqn:E; simpl.
    + rewrite IH. split.
      * intros (l1 & y & l2 & -> & ? & ?). exists (x :: l1), y, l2. naive_solver.
      * intros ([|z l1] & y & l2 & [=] & Hall & ?); subst; [congruence|].
        apply Forall_cons in Hall as [_ Hall]. eauto 10.
    + split.
      * intros [= ->]. exists [], x, l. naive_solver.
      * intros ([|z l1] & y & l2 & [=] & Hall & ?); subst; [congruence|].
        apply Forall_cons in Hall as [Hz _]. congruence.
    + split; [done|].
      intros ([|z l1] & y & l2 & [=] & Hall & ?); subst; [congruence|].
      apply Forall_cons in Hall as [Hz _]. congruence.
Qed.
End foldM.
