(* ===== verification/Encoding.v ===== *)
(** * The binary encoding primitives

    Models [encoding/integers.go] (fixed-width little-endian integers), the
    byte views of [math/big.Int] the wire format uses, and the stateful
    decoder [decHelper] of [types/encoding.go] with its sticky error and its
    running byte count, reading from a [bytes.Buffer] (the reader
    [encoding.Unmarshal] hands to every [UnmarshalSia]).  Encoders write to a
    buffer or a hasher, which cannot fail, so they are functions to bytes.

    [decodes m bs x] is the specification every codec is proved against: on
    any input that starts with [bs], [m] returns [x] and leaves exactly the
    rest.  [SiaCodec] is the interface [SiaMarshaler]/[SiaUnmarshaler] of
    [encoding/marshal.go] with that law. *)

From S2P Require Import Prelude.

(** ** Positional notation *)

(** The [n] low bytes of [z], least significant first. *)
Fixpoint le_bytes (n : nat) (z : Z) : list byte :=
  match n with
  | O => []
  | S n => byte_of_Z z :: le_bytes n (z / 256)
  end.

Fixpoint le_value (l : list byte) : Z :=
  match l with
  | [] => 0
  | b :: l => Z_of_byte b + 256 * le_value l
  end.

Lemma length_le_bytes n z : length (le_bytes n z) = n.
Proof. revert z. induction n; simpl; auto. Qed.

Lemma le_value_range l : 0 ≤ le_value l < 256 ^ len l.
Proof.
  induction l as [|b l IH]; [done|].
  rewrite len_cons, Z.pow_add_r by (pose proof (len_nonneg l); lia).
  simpl. pose proof (Z_of_byte_range b). nia.
Qed.

Lemma le_value_bytes n z : le_value (le_bytes n z) = z `mod` 256 ^ Z.of_nat n.
Proof.
  revert z. induction n as [|n IH]; intros z; [by rewrite Z.mod_1_r|].
  cbn [le_bytes le_value]. rewrite IH, Z_of_byte_of_Z.
  rewrite Nat2Z.inj_succ, Z.pow_succ_r by lia.
  rewrite Z.rem_mul_r by lia. done.
Qed.

Lemma le_bytes_value l : le_bytes (length l) (le_value l) = l.
Proof.
  induction l as [|b l IH]; [done|].
  cbn [length le_bytes le_value]. pose proof (Z_of_byte_range b).
  f_equal.
  - apply Z_of_byte_inj. rewrite Z_of_byte_of_Z, (Z.mul_comm 256), Z.mod_add by lia.
    by apply Z.mod_small.
  - rewrite (Z.mul_comm 256), Z.div_add, Z.div_small by lia. done.
Qed.

Lemma le_value_app l k : le_value (l ++ k) = le_value l + 256 ^ len l * le_value k.
Proof.
  induction l as [|b l IH]; [unfold len; cbn -[Z.mul Z.pow]; lia|].
  rewrite len_cons, Z.pow_add_r by (pose proof (len_nonneg l); lia).
  cbn [le_value app]. rewrite IH. ring.
Qed.

(** ** [encoding/integers.go] *)

(** [binary.LittleEndian.PutUint64] into a fresh 8-byte slice. *)
Definition EncUint64 (i : Z) : list byte := le_bytes 8 i.

(** Shorter slices are padded with zeros; longer ones are cut. *)
Definition DecUint64 (b : list byte) : Z :=
  le_value (go_copy (replicate 8 x00) b).

Definition EncInt64 (i : Z) : list byte := le_bytes 8 (u64 i).
Definition DecInt64 (b : list byte) : Z :=
  i64 (le_value (go_copy (replicate 8 x00) b)).

Lemma length_EncUint64 i : length (EncUint64 i) = 8%nat.
Proof. apply length_le_bytes. Qed.

Lemma len_EncUint64 i : len (EncUint64 i) = 8.
Proof. unfold len. by rewrite length_EncUint64. Qed.

Lemma DecUint64_EncUint64 i : is_u64 i → DecUint64 (EncUint64 i) = i.
Proof.
  intros Hi. unfold DecUint64. rewrite go_copy_full by apply length_EncUint64.
  unfold EncUint64. rewrite le_value_bytes.
  rewrite Z.mod_small; [done|]. unfold is_u64 in Hi. cbn. lia.
Qed.

Lemma DecInt64_EncInt64_aux i : is_i64 i → DecInt64 (EncInt64 i) = i.
Proof.
  intros Hi. unfold DecInt64, EncInt64.
  rewrite go_copy_full by apply length_le_bytes.
  rewrite le_value_bytes. change (256 ^ Z.of_nat 8) with (2 ^ 64).
  rewrite Z.mod_small by apply u64_range. unfold u64, i64, is_i64 in *.
  rewrite Zplus_mod_idemp_l. rewrite Z.mod_small; lia.
Qed.

Lemma DecUint64_range b : is_u64 (DecUint64 b).
Proof.
  unfold DecUint64. pose proof (le_value_range (go_copy (replicate 8 x00) b)) as H.
  unfold len in H. rewrite length_go_copy, length_replicate in H. exact H.
Qed.

(** ** Byte views of [big.Int] *)

(** Digits in base [b], least significant first, without leading zeros.
    [S (log2 z)] steps are enough: every step at least halves [z]. *)
Fixpoint digits (b : Z) (fuel : nat) (z : Z) : list Z :=
  match fuel with
  | O => []
  | S fuel => if z <=? 0 then [] else z `mod` b :: digits b fuel (z / b)
  end.

Definition big_fuel (z : Z) : nat := S (Z.to_nat (Z.log2 z)).

(** [x.Bits()]: the little-endian 64-bit words of the absolute value. *)
Definition big_Bits (z : Z) : list Z := digits (2 ^ 64) (big_fuel (Z.abs z)) (Z.abs z).
(** [x.Bytes()]: the big-endian bytes of the absolute value. *)
Definition big_Bytes (z : Z) : list byte :=
  rev (map byte_of_Z (digits 256 (big_fuel (Z.abs z)) (Z.abs z))).
(** [x.SetBytes(buf)] *)
Definition big_SetBytes (buf : list byte) : Z := le_value (rev buf).
(** [x.BitLen()] *)
Definition big_BitLen (z : Z) : Z := if z =? 0 then 0 else Z.log2 (Z.abs z) + 1.

Section digits.
Context (b : Z) (Hb : 2 ≤ b).

Lemma big_fuel_enough z : 0 ≤ z → z < b ^ Z.of_nat (big_fuel z).
Proof.
  intros Hz. unfold big_fuel. rewrite Nat2Z.inj_succ, Z2Nat.id by apply Z.log2_nonneg.
  destruct (decide (z = 0)) as [->|]; [change (0 < b ^ 1); lia|].
  apply Z.lt_le_trans with (2 ^ Z.succ (Z.log2 z)).
  - apply Z.log2_spec. lia.
  - apply Z.pow_le_mono_l. lia.
Qed.

(** The [k]-th digit. *)
Lemma digits_lookup fuel z k :
  0 ≤ z < b ^ Z.of_nat fuel →
  default 0 (digits b fuel z !! k) = (z / b ^ Z.of_nat k) `mod` b.
Proof.
  revert z k. induction fuel as [|fuel IH]; intros z k Hz.
  - assert (z = 0) as -> by (change (b ^ Z.of_nat 0) with 1 in Hz; lia). cbn [digits].
    rewrite lookup_nil, Z.div_0_l, Z.mod_0_l by lia. done.
  - cbn [digits]. destruct (Z.leb_spec z 0).
    + assert (z = 0) as -> by lia. rewrite lookup_nil.
      rewrite Z.div_0_l, Z.mod_0_l by lia. done.
    + destruct k as [|k]; [by rewrite Z.div_1_r|].
      cbn [lookup list_lookup]. rewrite IH.
      * rewrite Z.div_div, Nat2Z.inj_succ, Z.pow_succ_r by lia. done.
      * rewrite Nat2Z.inj_succ, Z.pow_succ_r in Hz by lia. split.
        { apply Z.div_pos; lia. }
        { apply Z.div_lt_upper_bound; lia. }
Qed.

(** The digits are as many as needed and no more. *)
Lemma digits_length fuel z :
  0 ≤ z < b ^ Z.of_nat fuel →
  z < b ^ len (digits b fuel z) ∧
  (0 < len (digits b fuel z) → b ^ (len (digits b fuel z) - 1) ≤ z).
Proof.
  revert z. induction fuel as [|fuel IH]; intros z Hz.
  { change (b ^ Z.of_nat 0) with 1 in Hz. change (z < 1 ∧ (0 < 0 → b ^ (0 - 1) ≤ z)). lia. }
  cbn [digits]. destruct (Z.leb_spec z 0).
  { change (z < 1 ∧ (0 < 0 → b ^ (0 - 1) ≤ z)). lia. }
  rewrite Nat2Z.inj_succ, Z.pow_succ_r in Hz by lia.
  destruct (IH (z / b)) as [H1 H2].
  { split; [apply Z.div_pos; lia|apply Z.div_lt_upper_bound; lia]. }
  rewrite len_cons. set (n := len (digits b fuel (z / b))) in *.
  assert (0 ≤ n) by apply len_nonneg.
  pose proof (Z.div_mod z b ltac:(lia)). pose proof (Z.mod_pos_bound z b ltac:(lia)).
  split.
  - rewrite Z.pow_add_r, Z.pow_1_r by lia. nia.
  - intros _. replace (1 + n - 1) with n by lia.
    destruct (decide (n = 0)) as [->|]; [change (1 ≤ z); lia|].
    replace n with (Z.succ (n - 1)) by lia. rewrite Z.pow_succ_r by lia.
    specialize (H2 ltac:(lia)). nia.
Qed.
End digits.

Lemma len_digits_unique b z n m :
  2 ≤ b → 0 ≤ n → 0 ≤ m →
  z < b ^ n → (0 < n → b ^ (n - 1) ≤ z) →
  z < b ^ m → (0 < m → b ^ (m - 1) ≤ z) → n = m.
Proof.
  intros Hb Hn Hm Hn1 Hn2 Hm1 Hm2.
  assert (∀ p q, 0 ≤ p → z < b ^ p → (0 < q → b ^ (q - 1) ≤ z) → q ≤ p).
  { intros p q Hp Hz Hq. destruct (Z.le_gt_cases q p) as [|Hlt]; [done|exfalso].
    pose proof (Z.pow_le_mono_r b p (q - 1) ltac:(lia) ltac:(lia)).
    specialize (Hq ltac:(lia)). lia. }
  apply Z.le_antisymm; eauto.
Qed.

Lemma digits_le_bytes fuel z :
  map byte_of_Z (digits 256 fuel z) = le_bytes (length (digits 256 fuel z)) z.
Proof.
  revert z. induction fuel as [|fuel IH]; intros z; [done|].
  cbn [digits]. destruct (z <=? 0); [done|].
  cbn [map length le_bytes]. f_equal; [|apply IH].
  apply Z_of_byte_inj. rewrite !Z_of_byte_of_Z. by rewrite Z.mod_mod.
Qed.

(** The number of bytes of [x.Bytes()]. *)
Definition big_nbytes (z : Z) : nat := length (big_Bytes z).

Lemma big_nbytes_spec z :
  0 ≤ z →
  z < 256 ^ Z.of_nat (big_nbytes z) ∧
  (0 < Z.of_nat (big_nbytes z) → 256 ^ (Z.of_nat (big_nbytes z) - 1) ≤ z).
Proof.
  intros Hz. unfold big_nbytes, big_Bytes. rewrite length_rev, length_map, Z.abs_eq by done.
  apply digits_length; [lia|]. split; [done|]. by apply big_fuel_enough.
Qed.

Lemma big_nbytes_bound z n :
  0 ≤ z → 0 ≤ n → z < 256 ^ n → Z.of_nat (big_nbytes z) ≤ n.
Proof.
  intros Hz Hn Hlt. destruct (big_nbytes_spec z Hz) as [_ H2].
  destruct (Z.le_gt_cases (Z.of_nat (big_nbytes z)) n) as [|Hgt]; [done|exfalso].
  pose proof (Z.pow_le_mono_r 256 n (Z.of_nat (big_nbytes z) - 1) ltac:(lia) ltac:(lia)).
  specialize (H2 ltac:(lia)). lia.
Qed.

Lemma big_Bytes_le z : 0 ≤ z → big_Bytes z = rev (le_bytes (big_nbytes z) z).
Proof.
  intros Hz. unfold big_nbytes, big_Bytes. rewrite length_rev, length_map.
  rewrite digits_le_bytes. by rewrite Z.abs_eq.
Qed.

Lemma big_SetBytes_Bytes z : 0 ≤ z → big_SetBytes (big_Bytes z) = z.
Proof.
  intros Hz. unfold big_SetBytes. rewrite big_Bytes_le, rev_involutive by done.
  rewrite le_value_bytes, Z.mod_small; [done|]. split; [done|]. by apply big_nbytes_spec.
Qed.

Lemma big_SetBytes_range buf : 0 ≤ big_SetBytes buf < 256 ^ len buf.
Proof.
  unfold big_SetBytes. pose proof (le_value_range (rev buf)) as H.
  unfold len in *. by rewrite length_rev in H.
Qed.

Lemma le_value_zeros l : Forall (λ b, b = x00) l → le_value l = 0.
Proof. induction 1 as [|b l -> _ IH]; [done|]. cbn [le_value]. by rewrite IH. Qed.

Lemma big_SetBytes_zeros n buf :
  big_SetBytes (replicate n x00 ++ buf) = big_SetBytes buf.
Proof.
  unfold big_SetBytes. rewrite rev_app_distr, le_value_app.
  rewrite (le_value_zeros (rev (replicate n x00))); [lia|].
  apply List.Forall_rev. by apply Forall_replicate.
Qed.

(** ** The decoder [decHelper] *)

Definition MaxObjectSize : Z := 12000000.
Definition MaxSliceSize : Z := 5000000.

Record decHelper := mkDec {
  dec_r : list byte;        (* what is left in the underlying buffer *)
  dec_err : option error;   (* the first error, sticky *)
  dec_n : Z;                (* total number of bytes read *)
}.

(** Decoding actions. Like the Go methods they always produce a value, the
    zero one after an error. *)
Definition Dec (A : Type) : Type := decHelper → A * decHelper.

#[global] Instance dec_ret : MRet Dec := λ A a d, (a, d).
#[global] Instance dec_bind : MBind Dec := λ A B f m d, let '(a, d') := m d in f a d'.

(** [d.Read(p)] with [len(p) = k]: what is stored in [p], the error returned,
    and the decoder afterwards.  A [bytes.Buffer] delivers what it has, and
    [io.EOF] only when it is empty and something was asked for. *)
Definition dec_Read (k : nat) (d : decHelper) : list byte * option error * decHelper :=
  match dec_err d with
  | Some e => ([], Some e, d)
  | None =>
      let got := take k (dec_r d) in
      let err := match dec_r d, k with
                 | [], S _ => Some ErrEOF
                 | _, _ => None
                 end in
      let n := dec_n d + len got in
      let err := if MaxObjectSize <? n then Some (ErrObjectTooLarge n) else err in
      (got, err, mkDec (drop k (dec_r d)) err n)
  end.

(** [io.ReadFull(d, p)] with [len(p) = k]: reads until [p] is full or an error
    occurs.  Every read without error delivers a byte, so [S k] rounds are
    enough.  The result is the contents of the (zeroed) slice [p]. *)
Fixpoint io_ReadFull (fuel k : nat) (d : decHelper) : list byte * decHelper :=
  match fuel with
  | O => (replicate k x00, d)
  | S fuel =>
      match k with
      | O => ([], d)
      | S _ =>
          match dec_Read k d with
          | (got, Some _, d') => (go_copy (replicate k x00) got, d')
          | (got, None, d') =>
              let '(more, d'') := io_ReadFull fuel (k - length got) d' in
              (got ++ more, d'')
          end
      end
  end.

Definition dec_ReadFull (k : nat) : Dec (list byte) := λ d,
  match dec_err d with
  | Some _ => (replicate k x00, d)
  | None => io_ReadFull (S k) k d
  end.

Definition dec_NextUint64 : Dec Z := λ d,
  let '(buf, d') := dec_ReadFull 8 d in
  match dec_err d' with
  | Some _ => (0, d')
  | None => (DecUint64 buf, d')
  end.

Definition dec_NextPrefix (elemSize : Z) : Dec Z := λ d,
  let '(n, d') := dec_NextUint64 d in
  match dec_err d' with
  | Some _ => (0, d')
  | None =>
      if (2 ^ 31 - 1 <? n) || (MaxSliceSize <? u64 (n * elemSize))
      then (0, mkDec (dec_r d') (Some (ErrSliceTooLarge n elemSize)) (dec_n d'))
      else (n, d')
  end.

Definition dec_ReadPrefix : Dec (list byte) := λ d,
  let '(n, d') := dec_NextPrefix 1 d in
  let '(b, d'') := dec_ReadFull (Z.to_nat n) d' in
  match dec_err d'' with
  | Some _ => ([], d'')
  | None => (b, d'')
  end.

(** [for i := range s { s[i].UnmarshalSia(d) }] over a slice of [n] elements *)
Fixpoint dec_repeat {A} (m : Dec A) (n : nat) : Dec (list A) :=
  match n with
  | O => mret []
  | S n => x ← m; l ← dec_repeat m n; mret (x :: l)
  end.

(** [make([]T, d.NextPrefix(unsafe.Sizeof(T{})))] followed by that loop *)
Definition dec_slice {A} (elemSize : Z) (m : Dec A) : Dec (list A) :=
  n ← dec_NextPrefix elemSize; dec_repeat m (Z.to_nat n).

(** [encoding.Unmarshal(b, &v)] for a [SiaUnmarshaler]: a fresh decoder; the
    value is meaningful when there is no error. *)
Definition Unmarshal {A} (m : Dec A) (b : list byte) : A * option error :=
  let '(a, d) := m (mkDec b None 0) in (a, dec_err d).

(** ** Specification of decoders *)

(** On an input that starts with [bs], the decoder [m] yields [x] and leaves
    exactly what follows, as long as the object size limit is not exceeded. *)
Definition decodes {A} (m : Dec A) (bs : list byte) (x : A) : Prop :=
  ∀ rest n, 0 ≤ n → n + len bs ≤ MaxObjectSize →
    m (mkDec (bs ++ rest) None n) = (x, mkDec rest None (n + len bs)).

(** Behaviour on arbitrary, possibly hostile, input: nothing happens once an
    error is set; what is read is a prefix of the input and is counted; and
    without an error at most [MaxObjectSize] bytes were read. *)
Definition dec_safe {A} (m : Dec A) : Prop :=
  ∀ d x d', m d = (x, d') →
    (∀ e, dec_err d = Some e → d' = d) ∧
    (∃ bs, dec_r d = bs ++ dec_r d' ∧ dec_n d' = dec_n d + len bs) ∧
    (dec_n d ≤ MaxObjectSize → dec_err d' = None → dec_n d' ≤ MaxObjectSize) ∧
    (dec_err d' = None → dec_err d = None).

Section dec_laws.
Context {A B : Type}.

Lemma decodes_ret (x : A) : decodes (mret x) [] x.
Proof. intros rest n Hn _. rewrite len_nil, Z.add_0_r. done. Qed.

Lemma decodes_bind (m : Dec A) (f : A → Dec B) bs1 bs2 x y :
  decodes m bs1 x → decodes (f x) bs2 y → decodes (x ← m; f x) (bs1 ++ bs2) y.
Proof.
  intros H1 H2 rest n Hn Hle. rewrite len_app in Hle.
  pose proof (len_nonneg bs1). pose proof (len_nonneg bs2).
  unfold mbind, dec_bind. rewrite <- app_assoc, H1, H2, len_app by lia.
  do 2 f_equal. lia.
Qed.

Lemma dec_safe_ret (x : A) : dec_safe (mret x).
Proof.
  intros d y d' [= <- <-]. split_and!; auto.
  exists []. rewrite len_nil. split; [done|lia].
Qed.

Lemma dec_safe_bind (m : Dec A) (f : A → Dec B) :
  dec_safe m → (∀ x, dec_safe (f x)) → dec_safe (x ← m; f x).
Proof.
  intros Hm Hf d y d'' H. unfold mbind, dec_bind in H.
  destruct (m d) as [x d'] eqn:E.
  destruct (Hm _ _ _ E) as (Hs1 & (bs1 & Hr1 & Hn1) & Hb1 & He1).
  destruct (Hf _ _ _ _ H) as (Hs2 & (bs2 & Hr2 & Hn2) & Hb2 & He2).
  split_and!; [| |auto|auto].
  - intros e He. rewrite (Hs1 e He) in Hs2. eauto.
  - exists (bs1 ++ bs2). rewrite Hr1, Hr2, len_app, app_assoc. split; [done|lia].
Qed.
End dec_laws.

Lemma io_ReadFull_prefix fuel bs rest n :
  (length bs < fuel)%nat → 0 ≤ n → n + len bs ≤ MaxObjectSize →
  io_ReadFull fuel (length bs) (mkDec (bs ++ rest) None n) =
  (bs, mkDec rest None (n + len bs)).
Proof.
  intros Hf Hn Hle. destruct fuel as [|[|fuel]]; [lia| |].
  - destruct bs; [|simpl in Hf; lia]. cbn. by rewrite len_nil, Z.add_0_r.
  - destruct bs as [|b bs]; [cbn; by rewrite len_nil, Z.add_0_r|].
    cbn [io_ReadFull length]. unfold dec_Read. cbn [dec_err dec_r dec_n].
    change (S (length bs)) with (length (b :: bs)).
    rewrite take_app_length, drop_app_length.
    rewrite (proj2 (Z.ltb_ge _ _)) by lia. cbn [app length].
    rewrite Nat.sub_diag. cbn. by rewrite app_nil_r.
Qed.

Lemma dec_Read_safe k d got err d' :
  dec_Read k d = (got, err, d') →
  (∀ e, dec_err d = Some e → d' = d) ∧
  (∃ bs, dec_r d = bs ++ dec_r d' ∧ dec_n d' = dec_n d + len bs) ∧
  (dec_n d ≤ MaxObjectSize → dec_err d' = None → dec_n d' ≤ MaxObjectSize) ∧
  (dec_err d' = None → dec_err d = None) ∧ err = dec_err d'.
Proof.
  unfold dec_Read. destruct (dec_err d) as [e|] eqn:E; intros H; simplify_eq.
  - split_and!; auto; [|congruence]. exists []. rewrite len_nil. split; [done|lia].
  - cbn. split_and!; auto; try done.
    + exists (take k (dec_r d)). by rewrite take_drop.
    + intros _. destruct (Z.ltb_spec MaxObjectSize (dec_n d + len (take k (dec_r d)))); [done|lia].
Qed.

Lemma io_ReadFull_safe fuel k d bs d' :
  io_ReadFull fuel k d = (bs, d') →
  (∀ e, dec_err d = Some e → d' = d) ∧
  (∃ bs, dec_r d = bs ++ dec_r d' ∧ dec_n d' = dec_n d + len bs) ∧
  (dec_n d ≤ MaxObjectSize → dec_err d' = None → dec_n d' ≤ MaxObjectSize) ∧
  (dec_err d' = None → dec_err d = None).
Proof.
  assert (Hid : ∀ d : decHelper, ∃ bs, dec_r d = bs ++ dec_r d ∧ dec_n d = dec_n d + len bs).
  { intros ?. exists []. rewrite len_nil. split; [done|lia]. }
  revert k d bs d'. induction fuel as [|fuel IH]; intros k d bs d' H; cbn [io_ReadFull] in H.
  { simplify_eq. by split_and!; auto. }
  destruct k as [|k]; [simplify_eq; by split_and!; auto|].
  destruct (dec_Read (S k) d) as [[got err] d1] eqn:E.
  destruct (dec_Read_safe _ _ _ _ _ E) as (Hs1 & (bs1 & Hr1 & Hn1) & Hb1 & He1 & ->).
  destruct (dec_err d1) as [e1|] eqn:E1.
  - simplify_eq. rewrite E1. split_and!; eauto; done.
  - destruct (io_ReadFull fuel _ d1) as [more d2] eqn:E2. simplify_eq.
    destruct (IH _ _ _ _ E2) as (Hs2 & (bs2 & Hr2 & Hn2) & Hb2 & He2).
    split_and!; auto.
    + intros e He. by rewrite (He1 eq_refl) in He.
    + exists (bs1 ++ bs2). rewrite Hr1, Hr2, len_app, app_assoc. split; [done|lia].
Qed.

Lemma dec_safe_ReadFull k : dec_safe (dec_ReadFull k).
Proof.
  intros d x d' H. unfold dec_ReadFull in H. destruct (dec_err d) eqn:E.
  - simplify_eq. split_and!; auto; [|congruence].
    exists []. rewrite len_nil. split; [done|lia].
  - pose proof (io_ReadFull_safe _ _ _ _ _ H) as Hs. by rewrite E in Hs.
Qed.

Lemma decodes_ReadFull bs k : k = length bs → decodes (dec_ReadFull k) bs bs.
Proof.
  intros -> rest n Hn Hle. unfold dec_ReadFull. cbn [dec_err].
  by apply io_ReadFull_prefix; [lia|..].
Qed.

Lemma decodes_NextUint64 i : is_u64 i → decodes dec_NextUint64 (EncUint64 i) i.
Proof.
  intros Hi rest n Hn Hle. unfold dec_NextUint64.
  rewrite (decodes_ReadFull (EncUint64 i) 8) by (rewrite ?length_EncUint64; done).
  cbn [dec_err]. by rewrite DecUint64_EncUint64.
Qed.

Lemma dec_safe_NextUint64 : dec_safe dec_NextUint64.
Proof.
  intros d x d' H. unfold dec_NextUint64 in H.
  destruct (dec_ReadFull 8 d) as [buf d1] eqn:E.
  assert (d1 = d') as <- by (destruct (dec_err d1); by simplify_eq).
  exact (dec_safe_ReadFull _ _ _ _ E).
Qed.

Lemma decodes_NextPrefix k sz :
  0 ≤ k ≤ 2 ^ 31 - 1 → 0 ≤ sz → k * sz ≤ MaxSliceSize →
  decodes (dec_NextPrefix sz) (EncUint64 k) k.
Proof.
  intros Hk Hsz Hle rest n Hn Hle'. unfold dec_NextPrefix.
  rewrite (decodes_NextUint64 k) by ulia. cbn [dec_err].
  unfold MaxSliceSize in *. rewrite u64_id by (unfold is_u64; nia).
  rewrite (proj2 (Z.ltb_ge _ _)) by lia. by rewrite (proj2 (Z.ltb_ge _ _)) by lia.
Qed.

Lemma dec_safe_NextPrefix sz : dec_safe (dec_NextPrefix sz).
Proof.
  intros d x d' H. unfold dec_NextPrefix in H.
  destruct (dec_NextUint64 d) as [k d1] eqn:E.
  apply dec_safe_NextUint64 in E as (Hs & Hr & Hb & He).
  destruct (dec_err d1) eqn:E1; simplify_eq; [by rewrite E1|].
  case_match; simplify_eq; cbn; [|by split_and!; auto].
  split_and!; auto; try done. intros e Hd. rewrite He in Hd; done.
Qed.

Lemma decodes_ReadPrefix bs :
  len bs ≤ MaxSliceSize → decodes dec_ReadPrefix (EncUint64 (len bs) ++ bs) bs.
Proof.
  intros Hle rest n Hn Hmax. rewrite len_app, len_EncUint64 in Hmax.
  pose proof (len_nonneg bs). unfold MaxSliceSize in *.
  unfold dec_ReadPrefix. rewrite <- app_assoc.
  rewrite (decodes_NextPrefix (len bs) 1) by (rewrite ?len_EncUint64; unfold MaxSliceSize; lia).
  rewrite len_EncUint64. unfold len at 1. rewrite Nat2Z.id.
  rewrite (decodes_ReadFull bs) by (done || lia). cbn [dec_err].
  rewrite len_app, len_EncUint64. do 2 f_equal. lia.
Qed.

Lemma dec_safe_ReadPrefix : dec_safe dec_ReadPrefix.
Proof.
  intros d x d' H. unfold dec_ReadPrefix in H.
  destruct (dec_NextPrefix 1 d) as [k d1] eqn:E1.
  destruct (dec_ReadFull (Z.to_nat k) d1) as [b d2] eqn:E2.
  assert (d2 = d') as <- by (destruct (dec_err d2); by simplify_eq).
  refine (dec_safe_bind (dec_NextPrefix 1) (λ n, dec_ReadFull (Z.to_nat n)) _ _ d b d2 _).
  - apply dec_safe_NextPrefix.
  - intros. apply dec_safe_ReadFull.
  - unfold mbind, dec_bind. by rewrite E1.
Qed.

(** ** The codec interface

    [encoding.SiaMarshaler] and [encoding.SiaUnmarshaler], with what a type
    that implements both promises to the types that contain it. *)
Class SiaCodec (A : Type) := {
  MarshalSia : A → list byte;
  UnmarshalSia : Dec A;
  (** the values the wire format can carry: fixed-width fields within their
      width, slices within the decoder's slice limit *)
  wire_ok : A → Prop;
  codec_decodes : ∀ x, wire_ok x → decodes UnmarshalSia (MarshalSia x) x;
  codec_safe : dec_safe UnmarshalSia;
}.

Section slices.
Context {A : Type} (enc : A → list byte) (dec : Dec A).

(** [e.WriteInt(len(s)); for i := range s { s[i].MarshalSia(e) }] *)
Definition enc_slice (l : list A) : list byte :=
  EncUint64 (len l) ++ concat (map enc l).

Definition slice_ok (sz : Z) (ok : A → Prop) (l : list A) : Prop :=
  Forall ok l ∧ len l ≤ 2 ^ 31 - 1 ∧ len l * sz ≤ MaxSliceSize.

Lemma decodes_repeat (ok : A → Prop) l :
  (∀ x, ok x → decodes dec (enc x) x) → Forall ok l →
  decodes (dec_repeat dec (length l)) (concat (map enc l)) l.
Proof.
  intros Hdec. induction 1 as [|x l Hx _ IH]; [apply decodes_ret|].
  cbn [dec_repeat length map concat].
  apply decodes_bind with x; [by apply Hdec|].
  rewrite <- (app_nil_r (concat _)). apply decodes_bind with l; [done|].
  apply decodes_ret.
Qed.

Lemma decodes_slice (ok : A → Prop) sz l :
  (∀ x, ok x → decodes dec (enc x) x) → 0 ≤ sz → slice_ok sz ok l →
  decodes (dec_slice sz dec) (enc_slice l) l.
Proof.
  intros Hdec Hsz (Hall & H1 & H2). unfold dec_slice, enc_slice.
  apply decodes_bind with (len l).
  - apply decodes_NextPrefix; [|done|done]. pose proof (len_nonneg l). lia.
  - unfold len. rewrite Nat2Z.id. by eapply decodes_repeat.
Qed.

Lemma dec_safe_repeat n : dec_safe dec → dec_safe (dec_repeat dec n).
Proof.
  intros Hs. induction n; cbn [dec_repeat]; [apply dec_safe_ret|].
  apply dec_safe_bind; [done|]. intros x. apply dec_safe_bind; [done|].
  intros l. apply dec_safe_ret.
Qed.

Lemma dec_safe_slice sz : dec_safe dec → dec_safe (dec_slice sz dec).
Proof.
  intros Hs. apply dec_safe_bind; [apply dec_safe_NextPrefix|].
  intros. by apply dec_safe_repeat.
Qed.

Lemma len_enc_slice l : len (enc_slice l) = 8 + sumZ (λ x, len (enc x)) l.
Proof.
  unfold enc_slice. rewrite len_app, len_EncUint64. f_equal.
  induction l as [|x l IH]; [done|]. cbn [map concat sumZ]. by rewrite len_app, IH.
Qed.
End slices.

Create HintDb codec.
#[export] Hint Resolve codec_decodes codec_safe decodes_ReadFull decodes_NextUint64
  decodes_ReadPrefix dec_safe_ReadFull dec_safe_NextUint64 dec_safe_ReadPrefix
  dec_safe_NextPrefix dec_safe_slice dec_safe_ret : codec.

#[global] Arguments EncUint64 : simpl never.
#[global] Arguments enc_slice : simpl never.
