(* ===== verification/Currency.v ===== *)
(** * Currency

    Models [types/currency.go] and the [Currency] part of [types/encoding.go].
    A [Currency] wraps a [big.Int] that the methods keep non-negative; it is a
    [Z] here.  [math/big]'s [Div] and [Mod] panic on a zero divisor, so the
    methods that use them return a [res].  [build.Critical] only prints in the
    release build ([build.DEBUG = false]), so the methods continue after it.
    [Sqrt] is not modelled: it computes in floating point. *)

From S2P Require Import Prelude Encoding.
From Stdlib Require Import QArith.
#[local] Open Scope Z_scope.

Abbreviation Currency := Z (only parsing).

(** ** [types/currency.go] *)

Definition NewCurrency (b : Z) : Currency := if b <? 0 then 0 else b.
Definition NewCurrency64 (x : Z) : Currency := x.
Definition ZeroCurrency : Currency := NewCurrency64 0.

Definition Currency_Add (x y : Currency) : Currency := x + y.
Definition Currency_Cmp (x y : Currency) : Z :=
  match x ?= y with Lt => -1 | Eq => 0 | Gt => 1 end.
Definition Currency_Cmp64 (x : Currency) (y : Z) : Z := Currency_Cmp x (NewCurrency64 y).
Definition Currency_Div (x y : Currency) : res Currency :=
  if y =? 0 then Panic else Ok (x / y).
Definition Currency_Div64 (x : Currency) (y : Z) : res Currency :=
  if y =? 0 then Panic else Ok (x / y).
Definition Currency_Equals (x y : Currency) : bool := Currency_Cmp x y =? 0.
Definition Currency_Equals64 (x : Currency) (y : Z) : bool := Currency_Cmp64 x y =? 0.
Definition Currency_Mul (x y : Currency) : Currency := x * y.
Definition Currency_Mul64 (x : Currency) (y : Z) : Currency := x * y.

(** [big.Rat]: [Num] and [Denom] are only ever divided, so the reduction to
    lowest terms that [math/big] performs is not observable. *)
Definition Rat_floor (r : Q) : Z := Qnum r / Zpos (Qden r).

(** [y] is the exact rational value of the [float64] argument, which is what
    [SetFloat64] produces. *)
Definition Currency_MulFloat (x : Currency) (y : Q) : Currency :=
  if Qnum y <? 0 then 0 else Rat_floor (Qmult (x # 1) y).
Definition Currency_MulRat (x : Currency) (y : Q) : Currency :=
  if Qnum y <? 0 then 0 else x * Qnum y / Zpos (Qden y).
Definition Currency_MulTax (x : Currency) : Currency := x * 39 / 1000.
Definition Currency_RoundDown (x y : Currency) : res Currency :=
  if y =? 0 then Panic else Ok (x - x `mod` y).
Definition Currency_IsZero (x : Currency) : bool := x <=? 0.
Definition Currency_Sub (x y : Currency) : Currency :=
  if Currency_Cmp x y <? 0 then ZeroCurrency else x - y.
Definition Currency_Uint64 (x : Currency) : res Z :=
  if 0 <? Currency_Cmp x (NewCurrency64 (2 ^ 64 - 1)) then Err ErrUint64Overflow else Ok (u64 x).

(** ** The wire format of a [Currency] *)

(** [const _S = 1 << _logS]: bytes per [big.Word] on a 64-bit machine. *)
Definition wordBytes : nat := 8.

(** [bits[i/_S]>>(uint(i%_S)*8)] *)
Definition bits_at (bits : list Z) (i : nat) : Z :=
  Z.shiftr (default 0 (bits !! (i `div` wordBytes)%nat))
           (8 * Z.of_nat (i `mod` wordBytes)%nat).

(** [for i = len(bits)*_S - 1; i >= 0; i-- { if bits_at i != 0 { break } }];
    the result is [i + 1]. *)
Fixpoint seek_top (bits : list Z) (n : nat) : nat :=
  match n with
  | O => O
  | S i => if bits_at bits i =? 0 then seek_top bits i else S i
  end.

(** [for ; i >= 0; i-- { e.append(byte(bits_at i)) }] *)
Fixpoint write_down (bits : list Z) (n : nat) : list byte :=
  match n with
  | O => []
  | S i => byte_of_Z (bits_at bits i) :: write_down bits i
  end.

Definition Currency_MarshalSia (c : Currency) : list byte :=
  let bits := big_Bits c in
  let n := seek_top bits (length bits * wordBytes) in
  EncUint64 (Z.of_nat n) ++ write_down bits n.

(** The inner loop of [MarshalSiaSize] over the bytes of one word; the flag
    says that [break zeros] was reached. *)
Fixpoint size_word (w : Z) (j : nat) (size : Z) : Z * bool :=
  match j with
  | O => (size, false)
  | S j => if Z.shiftr w (8 * Z.of_nat j) =? 0 then size_word w j (size - 1) else (size, true)
  end.

Fixpoint size_words (wordsFromTop : list Z) (size : Z) : Z :=
  match wordsFromTop with
  | [] => size
  | w :: ws =>
      let '(size, stop) := size_word w wordBytes size in
      if stop then size else size_words ws size
  end.

Definition Currency_MarshalSiaSize (c : Currency) : Z :=
  let bits := big_Bits c in
  8 + size_words (rev bits) (len bits * Z.of_nat wordBytes).

Definition Currency_UnmarshalSia : Dec Currency :=
  b ← dec_ReadPrefix; mret (big_SetBytes b).

(** ** The optimised encoder agrees with the reference encoding

    [doc/Encoding.md] encodes a currency as the length-prefixed big-endian
    bytes of the integer; [MarshalSia] reads them off the raw words. *)

Lemma big_Bits_lookup c k :
  0 ≤ c → default 0 (big_Bits c !! k) = (c / 2 ^ (64 * Z.of_nat k)) `mod` 2 ^ 64.
Proof.
  intros Hc. unfold big_Bits. rewrite Z.abs_eq by done.
  rewrite digits_lookup by (try split; try apply big_fuel_enough; lia).
  by rewrite <- Z.pow_mul_r by lia.
Qed.

Lemma bits_at_spec c i :
  0 ≤ c →
  bits_at (big_Bits c) i =
  (c / 2 ^ (64 * (Z.of_nat i / 8))) `mod` 2 ^ 64 / 2 ^ (8 * (Z.of_nat i `mod` 8)).
Proof.
  intros Hc. unfold bits_at, wordBytes. rewrite big_Bits_lookup by done.
  rewrite Nat2Z.inj_div, Nat2Z.inj_mod. change (Z.of_nat 8) with 8.
  rewrite Z.shiftr_div_pow2; [done|]. pose proof (Z.mod_pos_bound (Z.of_nat i) 8). lia.
Qed.

(** Byte [i] of the integer, seen through the words. *)
Lemma bits_at_byte c i :
  0 ≤ c → bits_at (big_Bits c) i `mod` 256 = (c / 256 ^ Z.of_nat i) `mod` 256.
Proof.
  intros Hc. rewrite bits_at_spec by done. set (z := Z.of_nat i).
  pose proof (Z.mod_pos_bound z 8 ltac:(lia)). pose proof (Z.div_mod z 8 ltac:(lia)).
  assert (0 ≤ z / 8) by (apply Z.div_pos; lia).
  change 256 with (2 ^ 8). rewrite <- Z.pow_mul_r by lia.
  set (q := z / 8) in *. set (r := z `mod` 8) in *.
  replace (8 * z) with (64 * q + 8 * r) by lia.
  rewrite Z.pow_add_r, <- Z.div_div by lia.
  rewrite <- !Z.land_ones, <- !Z.shiftr_div_pow2 by lia.
  apply Z.bits_inj'. intros n Hn. rewrite !Z.land_spec, !Z.shiftr_spec by lia.
  rewrite Z.land_spec, !Z.shiftr_spec by lia.
  destruct (decide (n < 8)).
  - rewrite (Z.ones_spec_low 64) by lia. by rewrite andb_true_r.
  - rewrite (Z.ones_spec_high 8) by lia. by rewrite !andb_false_r.
Qed.

(** Above the top byte everything is zero; the top byte is not. *)
Lemma bits_at_zero c i : 0 ≤ c < 256 ^ Z.of_nat i → bits_at (big_Bits c) i = 0.
Proof.
  intros Hc. rewrite bits_at_spec by lia. set (z := Z.of_nat i) in *.
  pose proof (Z.mod_pos_bound z 8 ltac:(lia)). pose proof (Z.div_mod z 8 ltac:(lia)).
  assert (0 ≤ z / 8) by (apply Z.div_pos; lia).
  change 256 with (2 ^ 8) in Hc. rewrite <- Z.pow_mul_r in Hc by lia.
  set (q := z / 8) in *. set (r := z `mod` 8) in *.
  replace (8 * z) with (64 * q + 8 * r) in Hc by lia. rewrite Z.pow_add_r in Hc by lia.
  assert (0 < 2 ^ (64 * q)) by (apply Z.pow_pos_nonneg; lia).
  assert (0 ≤ c / 2 ^ (64 * q) < 2 ^ (8 * r)).
  { split; [apply Z.div_pos; lia|apply Z.div_lt_upper_bound; lia]. }
  assert (2 ^ (8 * r) ≤ 2 ^ 64) by (apply Z.pow_le_mono_r; lia).
  rewrite Z.mod_small by lia. by apply Z.div_small.
Qed.

Lemma bits_at_nonzero c i :
  256 ^ Z.of_nat i ≤ c < 256 ^ Z.of_nat (S i) → bits_at (big_Bits c) i ≠ 0.
Proof.
  intros Hc. assert (0 < 256 ^ Z.of_nat i) by (apply Z.pow_pos_nonneg; lia).
  intros H0. pose proof (bits_at_byte c i ltac:(lia)) as Hb. rewrite H0 in Hb.
  rewrite Nat2Z.inj_succ, Z.pow_succ_r in Hc by lia.
  rewrite (Z.mod_small (c / _)) in Hb.
  - symmetry in Hb. apply Z.div_small_iff in Hb; lia.
  - split; [apply Z.div_pos; lia|apply Z.div_lt_upper_bound; lia].
Qed.

Lemma seek_top_spec c n :
  0 ≤ c → (big_nbytes c ≤ n)%nat → seek_top (big_Bits c) n = big_nbytes c.
Proof.
  intros Hc. destruct (big_nbytes_spec c Hc) as [H1 H2].
  induction n as [|n IH]; intros Hn; cbn [seek_top]; [lia|].
  destruct (decide (big_nbytes c = S n)) as [Heq|Hne].
  - rewrite Heq in *. rewrite (proj2 (Z.eqb_neq _ _)); [done|].
    apply bits_at_nonzero. split; [|done].
    specialize (H2 ltac:(lia)). by replace (Z.of_nat (S n) - 1) with (Z.of_nat n) in H2 by lia.
  - rewrite bits_at_zero, Z.eqb_refl; [apply IH; lia|]. split; [done|].
    eapply Z.lt_le_trans; [exact H1|]. apply Z.pow_le_mono_r; lia.
Qed.

Lemma big_nbytes_words c : 0 ≤ c → (big_nbytes c ≤ length (big_Bits c) * wordBytes)%nat.
Proof.
  intros Hc. unfold wordBytes.
  destruct (digits_length (2 ^ 64) ltac:(lia) (big_fuel c) c) as [H1 _].
  { split; [done|]. apply big_fuel_enough; lia. }
  unfold big_Bits. rewrite Z.abs_eq by done.
  assert (Z.of_nat (big_nbytes c) ≤ 8 * len (digits (2 ^ 64) (big_fuel c) c)).
  { apply big_nbytes_bound; [done|pose proof (len_nonneg (digits (2 ^ 64) (big_fuel c) c)); lia|].
    rewrite Z.pow_mul_r by (pose proof (len_nonneg (digits (2 ^ 64) (big_fuel c) c)); lia).
    exact H1. }
  unfold len in *. lia.
Qed.

Lemma le_bytes_snoc n z : le_bytes (S n) z = le_bytes n z ++ [byte_of_Z (z / 256 ^ Z.of_nat n)].
Proof.
  revert z. induction n as [|n IH]; intros z; [by rewrite Z.div_1_r|].
  change (le_bytes (S (S n)) z) with (byte_of_Z z :: le_bytes (S n) (z / 256)).
  rewrite IH. cbn [le_bytes app]. rewrite Z.div_div, Nat2Z.inj_succ, Z.pow_succ_r by lia. done.
Qed.

Lemma write_down_spec c n : 0 ≤ c → write_down (big_Bits c) n = rev (le_bytes n c).
Proof.
  intros Hc. induction n as [|n IH]; [done|].
  rewrite le_bytes_snoc, rev_app_distr. cbn [write_down rev app]. rewrite IH. f_equal.
  apply Z_of_byte_inj. rewrite !Z_of_byte_of_Z. by apply bits_at_byte.
Qed.

Lemma Currency_MarshalSia_eq c :
  0 ≤ c → Currency_MarshalSia c = EncUint64 (len (big_Bytes c)) ++ big_Bytes c.
Proof.
  intros Hc. unfold Currency_MarshalSia.
  rewrite seek_top_spec by (done || by apply big_nbytes_words).
  rewrite write_down_spec by done. by rewrite <- big_Bytes_le.
Qed.

(** Either the word has a non-zero byte below [j], and both loops stop there,
    or both skip to the start of the word. *)
Lemma size_word_seek bits w k j :
  bits !! k = Some w → (j ≤ wordBytes)%nat →
  let '(size, stop) := size_word w j (Z.of_nat (k * wordBytes + j)) in
  if stop then size = Z.of_nat (seek_top bits (k * wordBytes + j))
  else size = Z.of_nat (k * wordBytes) ∧
       seek_top bits (k * wordBytes + j) = seek_top bits (k * wordBytes).
Proof.
  intros Hw. induction j as [|j IH]; intros Hj; cbn [size_word].
  - by rewrite Nat.add_0_r.
  - assert (bits_at bits (k * wordBytes + j) = Z.shiftr w (8 * Z.of_nat j)) as Hat.
    { unfold bits_at, wordBytes in *.
      rewrite Nat.div_add_l by lia.
      rewrite (Nat.div_small j 8), Nat.add_0_r, Hw by lia.
      rewrite Nat.add_comm, Nat.Div0.mod_add, (Nat.mod_small j 8) by lia. done. }
    replace (k * wordBytes + S j)%nat with (S (k * wordBytes + j)) by lia.
    cbn [seek_top]. rewrite Hat. destruct (Z.shiftr w (8 * Z.of_nat j) =? 0); [|done].
    replace (Z.of_nat (S (k * wordBytes + j)) - 1) with (Z.of_nat (k * wordBytes + j)) by lia.
    apply IH. lia.
Qed.

Lemma size_words_seek bits k :
  (k ≤ length bits)%nat →
  size_words (rev (take k bits)) (Z.of_nat (k * wordBytes)) = Z.of_nat (seek_top bits (k * wordBytes)).
Proof.
  induction k as [|k IH]; intros Hk; [done|].
  destruct (lookup_lt_is_Some_2 bits k ltac:(lia)) as [w Hw].
  rewrite (take_S_r _ _ w Hw), rev_app_distr. cbn [rev app size_words].
  pose proof (size_word_seek bits w k wordBytes Hw ltac:(lia)) as H.
  replace (S k * wordBytes)%nat with (k * wordBytes + wordBytes)%nat by lia.
  destruct (size_word w wordBytes _) as [size [|]]; [done|].
  destruct H as [-> ->]. apply IH. lia.
Qed.

Lemma Currency_MarshalSiaSize_eq c :
  0 ≤ c → Currency_MarshalSiaSize c = len (Currency_MarshalSia c).
Proof.
  intros Hc. unfold Currency_MarshalSiaSize.
  pose proof (size_words_seek (big_Bits c) (length (big_Bits c)) ltac:(lia)) as H.
  rewrite firstn_all in H. unfold len at 1. rewrite <- Nat2Z.inj_mul, H.
  rewrite Currency_MarshalSia_eq, len_app, len_EncUint64 by done.
  by rewrite seek_top_spec by (done || by apply big_nbytes_words).
Qed.

(** ** The [Currency] codec *)

Definition Currency_wire_ok (c : Currency) : Prop :=
  0 ≤ c ∧ Z.of_nat (big_nbytes c) ≤ MaxSliceSize.

Lemma decodes_Currency c :
  Currency_wire_ok c → decodes Currency_UnmarshalSia (Currency_MarshalSia c) c.
Proof.
  intros [Hc Hsz]. unfold Currency_UnmarshalSia.
  rewrite Currency_MarshalSia_eq by done.
  rewrite <- (app_nil_r (_ ++ big_Bytes c)).
  apply decodes_bind with (big_Bytes c).
  - apply decodes_ReadPrefix. exact Hsz.
  - rewrite big_SetBytes_Bytes by done. apply decodes_ret.
Qed.

Lemma dec_safe_Currency : dec_safe Currency_UnmarshalSia.
Proof. apply dec_safe_bind; [apply dec_safe_ReadPrefix|]. intros. apply dec_safe_ret. Qed.

#[export] Hint Resolve decodes_Currency dec_safe_Currency : codec.

(** ** Arithmetic facts the clients use *)

Lemma Currency_Cmp_lt x y : (Currency_Cmp x y <? 0) = (x <? y).
Proof. unfold Currency_Cmp, Z.ltb. by destruct (x ?= y). Qed.

Lemma Currency_Cmp_gt x y : (0 <? Currency_Cmp x y) = (y <? x).
Proof. unfold Currency_Cmp. destruct (Z.compare_spec x y), (Z.ltb_spec y x); (done || lia). Qed.

Lemma Currency_Equals_eqb x y : Currency_Equals x y = (x =? y).
Proof.
  unfold Currency_Equals, Currency_Cmp.
  destruct (Z.compare_spec x y), (Z.eqb_spec x y); (done || lia).
Qed.

Lemma Currency_Cmp_eq x y : Currency_Cmp x y = 0 ↔ x = y.
Proof. unfold Currency_Cmp. destruct (Z.compare_spec x y); lia. Qed.

Lemma Currency_Sub_le x y : y ≤ x → Currency_Sub x y = x - y.
Proof. intros H. unfold Currency_Sub. rewrite Currency_Cmp_lt. by destruct (Z.ltb_spec x y); [lia|]. Qed.

Lemma Currency_Sub_nonneg x y : 0 ≤ x → 0 ≤ y → 0 ≤ Currency_Sub x y ≤ x.
Proof.
  intros. unfold Currency_Sub, ZeroCurrency, NewCurrency64. rewrite Currency_Cmp_lt.
  destruct (Z.ltb_spec x y); lia.
Qed.

#[export] Hint Rewrite Currency_Cmp_lt Currency_Equals_eqb : sia.

(** ** Main properties *)

(** The optimised currency encoder, which finds the top byte by scanning
    the raw words of the integer and writes the bytes downwards, produces the
    documented format (an 8-byte length and the big-endian bytes without
    leading zeros), its size method agrees with it, and decoding gives the
    value back. *)
Lemma Currency_encoding_correct (c : Currency) :
  0 ≤ c →
  Currency_MarshalSia c = EncUint64 (len (big_Bytes c)) ++ big_Bytes c ∧
  Currency_MarshalSiaSize c = len (Currency_MarshalSia c) ∧
  (len (big_Bytes c) ≤ MaxSliceSize →
   Unmarshal Currency_UnmarshalSia (Currency_MarshalSia c) = (c, None)).
Proof.
  intros Hc. split_and!; [by apply Currency_MarshalSia_eq|by apply Currency_MarshalSiaSize_eq|].
  intros Hsz. assert (Currency_wire_ok c) as Hw by done.
  pose proof (decodes_Currency c Hw [] 0 ltac:(lia)) as H. rewrite app_nil_r in H.
  unfold Unmarshal. rewrite H; [done|].
  rewrite Currency_MarshalSia_eq, len_app, len_EncUint64 by done. unfold MaxSliceSize, MaxObjectSize in *. lia.
Qed.

