(* ===== verification/Target.v ===== *)
(** * Targets

    Models [types/target.go]: a [Target] is a 32-byte big-endian integer that
    a block id must not exceed; its inverse is the difficulty.  [big.Rat.Inv]
    panics on zero, so the difficulty arithmetic returns a [res].
    [bytes.Compare], with which the code compares ids to targets, is shown to
    agree with the order of the integers. *)

From S2P Require Import Prelude Encoding Currency.
From Stdlib Require Import QArith.
#[local] Open Scope Z_scope.

Definition HashSize : nat := 32.

(** [crypto.Hash] and the types defined as one: [HashSize] bytes. *)
Abbreviation Hash := (list byte) (only parsing).
Abbreviation Target := (list byte) (only parsing).

Definition zeroHash : Hash := replicate HashSize x00.
Definition hash_ok (h : Hash) : Prop := length h = HashSize.

Definition RootDepth : Target := replicate HashSize xff.

(** ** [bytes.Compare] *)
Fixpoint bytes_Compare (a b : list byte) : Z :=
  match a, b with
  | [], [] => 0
  | [], _ => -1
  | _, [] => 1
  | x :: a, y :: b =>
      if Z_of_byte x <? Z_of_byte y then -1
      else if Z_of_byte y <? Z_of_byte x then 1
      else bytes_Compare a b
  end.

(** ** [types/target.go] *)

Definition Target_Int (x : Target) : Z := big_SetBytes x.
Definition Target_Cmp (x y : Target) : Z := Currency_Cmp (Target_Int x) (Target_Int y).

(** The first guard makes the divisor non-zero. *)
Definition Target_Difficulty (x : Target) : Currency :=
  if decide (x = zeroHash) then NewCurrency (Target_Int RootDepth)
  else NewCurrency (Target_Int RootDepth / Target_Int x).

Definition IntToTarget (i : Z) : Target :=
  if i <? 0 then zeroHash
  else if 256 <? big_BitLen i then RootDepth
  else let b := big_Bytes i in replicate (HashSize - length b) x00 ++ b.

Definition Rat_Inv (r : Q) : res Q := if Qnum r =? 0 then Panic else Ok (Qinv r).
Definition Target_Rat (x : Target) : Q := Target_Int x # 1.
Definition Target_Inverse (x : Target) : res Q := Rat_Inv (Target_Rat x).

Definition RatToTarget (r : Q) : Target :=
  if Qnum r <? 0 then zeroHash else IntToTarget (Rat_floor r).

Definition Target_AddDifficulties (x y : Target) : res Target :=
  ix ← Target_Inverse x; iy ← Target_Inverse y;
  s ← Rat_Inv (Qplus ix iy); Ok (RatToTarget s).

Definition Target_MulDifficulty (x : Target) (y : Q) : res Target :=
  ix ← Target_Inverse x;
  product ← Rat_Inv (Qmult y ix); Ok (RatToTarget product).

Definition Target_SubtractDifficulties (x y : Target) : res Target :=
  ix ← Target_Inverse x; iy ← Target_Inverse y;
  s ← Rat_Inv (Qminus ix iy); Ok (RatToTarget s).

(** ** Integers and targets *)

Lemma le_value_ff n : le_value (replicate n xff) = 256 ^ Z.of_nat n - 1.
Proof.
  induction n as [|n IH]; [done|]. cbn [replicate le_value]. rewrite IH.
  rewrite Nat2Z.inj_succ, Z.pow_succ_r by lia. change (Z_of_byte xff) with 255. lia.
Qed.

Lemma Target_Int_RootDepth : Target_Int RootDepth = 2 ^ 256 - 1.
Proof. by vm_compute. Qed.

Lemma Target_Int_range x : hash_ok x → 0 ≤ Target_Int x < 2 ^ 256.
Proof.
  intros Hx. pose proof (big_SetBytes_range x) as H. unfold len in H. rewrite Hx in H.
  exact H.
Qed.

Lemma big_BitLen_le i n : 0 ≤ i → 0 ≤ n → big_BitLen i ≤ n ↔ i < 2 ^ n.
Proof.
  intros Hi Hn. unfold big_BitLen. destruct (Z.eqb_spec i 0) as [->|].
  - split; [intros _; apply Z.pow_pos_nonneg; lia|lia].
  - rewrite Z.abs_eq by lia. pose proof (Z.log2_lt_pow2 i n). lia.
Qed.

Lemma length_big_Bytes_256 i : 0 ≤ i < 2 ^ 256 → (length (big_Bytes i) ≤ HashSize)%nat.
Proof.
  intros Hi. pose proof (big_nbytes_bound i 32 ltac:(lia) ltac:(lia)) as H.
  change (256 ^ 32) with (2 ^ 256) in H. unfold big_nbytes, HashSize in *. lia.
Qed.

Lemma IntToTarget_ok i : hash_ok (IntToTarget i).
Proof.
  unfold IntToTarget. destruct (Z.ltb_spec i 0); [done|].
  destruct (Z.ltb_spec 256 (big_BitLen i)); [done|].
  assert (i < 2 ^ 256) by (apply big_BitLen_le; lia).
  pose proof (length_big_Bytes_256 i ltac:(lia)).
  unfold hash_ok. rewrite length_app, length_replicate. lia.
Qed.

Lemma RatToTarget_ok r : hash_ok (RatToTarget r).
Proof. unfold RatToTarget. destruct (_ <? _); [done|apply IntToTarget_ok]. Qed.

(** Values that do not fit saturate at [RootDepth]. *)
Lemma Target_Int_IntToTarget i :
  0 ≤ i → Target_Int (IntToTarget i) = Z.min i (2 ^ 256 - 1).
Proof.
  intros Hi. unfold IntToTarget. destruct (Z.ltb_spec i 0); [lia|].
  destruct (Z.ltb_spec 256 (big_BitLen i)) as [Hb|Hb].
  - rewrite Target_Int_RootDepth. rewrite Z.min_r; [done|].
    destruct (Z.lt_ge_cases i (2 ^ 256)) as [Hlt|]; [|lia].
    apply big_BitLen_le in Hlt; lia.
  - apply big_BitLen_le in Hb; [|lia..]. rewrite Z.min_l by lia.
    unfold Target_Int. rewrite big_SetBytes_zeros. by apply big_SetBytes_Bytes.
Qed.

Lemma big_SetBytes_inj x y :
  length x = length y → big_SetBytes x = big_SetBytes y → x = y.
Proof.
  unfold big_SetBytes. intros Hl H. rewrite <- (rev_involutive x), <- (rev_involutive y).
  f_equal. rewrite <- (le_bytes_value (rev x)), <- (le_bytes_value (rev y)), H.
  by rewrite !length_rev, Hl.
Qed.

Lemma IntToTarget_Int x : hash_ok x → IntToTarget (Target_Int x) = x.
Proof.
  intros Hx. apply big_SetBytes_inj.
  - by rewrite Hx, IntToTarget_ok.
  - pose proof (Target_Int_range x Hx).
    pose proof (Target_Int_IntToTarget (Target_Int x) ltac:(lia)) as H1.
    rewrite Z.min_l in H1 by lia. exact H1.
Qed.

Lemma Target_Int_zero x : hash_ok x → Target_Int x = 0 ↔ x = zeroHash.
Proof.
  intros Hx. split; [|by intros ->].
  intros H. apply big_SetBytes_inj; [done|exact H].
Qed.

Lemma Target_Int_RatToTarget r :
  0 ≤ Qnum r → Target_Int (RatToTarget r) = Z.min (Rat_floor r) (2 ^ 256 - 1).
Proof.
  intros Hr. unfold RatToTarget. destruct (Z.ltb_spec (Qnum r) 0); [lia|].
  apply Target_Int_IntToTarget. apply Z.div_pos; lia.
Qed.

(** ** Difficulty arithmetic on the integers *)

Lemma Target_Inverse_pos x :
  0 < Target_Int x → Target_Inverse x = Ok (1 # Z.to_pos (Target_Int x)).
Proof.
  intros Hx. unfold Target_Inverse, Rat_Inv, Target_Rat. cbn [Qnum].
  rewrite (proj2 (Z.eqb_neq _ _)) by lia. f_equal.
  unfold Qinv. cbn [Qnum Qden]. destruct (Target_Int x) as [|p|p]; [lia|done|lia].
Qed.

(** [sum(x, y) = 1/(1/x + 1/y)], rounded down. *)
Lemma AddDifficulties_Int x y :
  0 < Target_Int x < 2 ^ 256 → 0 < Target_Int y < 2 ^ 256 →
  ∃ t, Target_AddDifficulties x y = Ok t ∧ hash_ok t ∧
    Target_Int t = Target_Int x * Target_Int y / (Target_Int x + Target_Int y).
Proof.
  intros Hx Hy. unfold Target_AddDifficulties.
  rewrite !Target_Inverse_pos by lia. cbn [mbind res_bind].
  set (a := Target_Int x) in *. set (b := Target_Int y) in *.
  unfold Rat_Inv, Qplus. cbn [Qnum Qden].
  rewrite !Z2Pos.id by lia. rewrite (proj2 (Z.eqb_neq _ _)) by lia. cbn [mbind res_bind].
  eexists. split; [done|]. split; [apply RatToTarget_ok|].
  assert (Hinv : Qinv (1 * b + 1 * a # Z.to_pos a * Z.to_pos b) =
                 (a * b # Z.to_pos (a + b))).
  { unfold Qinv. cbn [Qnum Qden]. replace (1 * b + 1 * a) with (a + b) by lia.
    destruct (a + b) as [|p|p] eqn:E; [lia| |lia]. cbn [Z.to_pos].
    rewrite Pos2Z.inj_mul, !Z2Pos.id by lia. done. }
  rewrite Hinv. rewrite Target_Int_RatToTarget by (cbn [Qnum]; nia).
  unfold Rat_floor. cbn [Qnum Qden]. rewrite Z2Pos.id by lia.
  apply Z.min_l.
  assert (a * b / (a + b) ≤ a); [|lia].
  apply Z.div_le_upper_bound; nia.
Qed.

(** Multiplying the difficulty by [p/q] divides the target by it. *)
Lemma MulDifficulty_Int x p q :
  0 < Target_Int x → 0 < p →
  ∃ t, Target_MulDifficulty x (p # q) = Ok t ∧ hash_ok t ∧
    Target_Int t = Z.min (Target_Int x * Zpos q / p) (2 ^ 256 - 1).
Proof.
  intros Hx Hp. unfold Target_MulDifficulty.
  rewrite Target_Inverse_pos by lia. cbn [mbind res_bind].
  set (a := Target_Int x) in *. unfold Rat_Inv, Qmult. cbn [Qnum Qden].
  rewrite (proj2 (Z.eqb_neq _ _)) by lia. cbn [mbind res_bind].
  eexists. split; [done|]. split; [apply RatToTarget_ok|].
  assert (Hinv : Qinv (p * 1 # q * Z.to_pos a) = (a * Zpos q # Z.to_pos p)).
  { unfold Qinv. cbn [Qnum Qden]. rewrite Z.mul_1_r.
    destruct p as [|p|p]; [lia| |lia]. cbn [Z.to_pos].
    f_equal. rewrite Pos2Z.inj_mul, Z2Pos.id by lia. ring. }
  rewrite Hinv. rewrite Target_Int_RatToTarget by (cbn [Qnum]; nia).
  unfold Rat_floor. cbn [Qnum Qden]. by rewrite Z2Pos.id by lia.
Qed.

(** A zero target has no inverse: the arithmetic panics. *)
Lemma AddDifficulties_zero x y :
  Target_Int x = 0 ∨ Target_Int y = 0 → Target_AddDifficulties x y = Panic.
Proof.
  unfold Target_AddDifficulties, Target_Inverse, Rat_Inv, Target_Rat. cbn [Qnum].
  intros [->| ->]; [done|]. by destruct (Target_Int x =? 0).
Qed.

(** ** [bytes.Compare] orders equally long byte strings as integers *)

Lemma big_SetBytes_cons b l :
  big_SetBytes (b :: l) = Z_of_byte b * 256 ^ len l + big_SetBytes l.
Proof.
  unfold big_SetBytes. cbn [rev]. rewrite le_value_app. cbn [le_value].
  unfold len. rewrite length_rev. lia.
Qed.

Lemma bytes_Compare_eq a b : bytes_Compare a b = 0 ↔ a = b.
Proof.
  revert b. induction a as [|x a IH]; intros [|y b]; cbn [bytes_Compare]; [done..|].
  destruct (Z.ltb_spec (Z_of_byte x) (Z_of_byte y)), (Z.ltb_spec (Z_of_byte y) (Z_of_byte x));
    try (split; [lia|intros [= -> ->]; lia]).
  rewrite IH. split; [intros ->; f_equal; apply Z_of_byte_inj; lia|by intros [= -> ->]].
Qed.

Lemma bytes_Compare_Int a b :
  length a = length b → bytes_Compare a b = Currency_Cmp (big_SetBytes a) (big_SetBytes b).
Proof.
  revert b. induction a as [|x a IH]; intros [|y b] Hl; try done.
  injection Hl as Hl. cbn [bytes_Compare]. rewrite !big_SetBytes_cons.
  assert (len a = len b) as Hlen by (unfold len; lia). rewrite Hlen.
  pose proof (big_SetBytes_range a). pose proof (big_SetBytes_range b).
  rewrite Hlen in *. set (p := 256 ^ len b) in *.
  unfold Currency_Cmp.
  destruct (Z.ltb_spec (Z_of_byte x) (Z_of_byte y)).
  { rewrite (proj2 (Z.compare_lt_iff _ _)); [done|nia]. }
  destruct (Z.ltb_spec (Z_of_byte y) (Z_of_byte x)).
  { rewrite (proj2 (Z.compare_gt_iff _ _)); [done|nia]. }
  assert (Z_of_byte x = Z_of_byte y) as -> by lia.
  rewrite IH by done. unfold Currency_Cmp.
  by rewrite Z.add_compare_mono_l.
Qed.

(** ** Main properties *)

(** Difficulties add exactly: [AddDifficulties] of two non-zero targets
    never panics and returns the target [xy/(x+y)], rounded down, which is
    non-zero whenever neither target is 1 and is at most half the larger one,
    so work only ever accumulates. *)
Lemma AddDifficulties_exact (x y : Target) :
  hash_ok x → hash_ok y → 1 < Target_Int x → 1 < Target_Int y →
  ∃ t, Target_AddDifficulties x y = Ok t ∧ hash_ok t ∧
    Target_Int t = Target_Int x * Target_Int y / (Target_Int x + Target_Int y) ∧
    0 < Target_Int t ∧ Target_Int t < Target_Int x ∧ Target_Int t < Target_Int y ∧
    2 * Target_Int t ≤ Z.max (Target_Int x) (Target_Int y).
Proof.
  intros Hx Hy Hx1 Hy1. pose proof (Target_Int_range x Hx). pose proof (Target_Int_range y Hy).
  destruct (AddDifficulties_Int x y) as (t & Ht & Hok & E); [lia|lia|].
  exists t. rewrite E. set (a := Target_Int x) in *. set (b := Target_Int y) in *.
  pose proof (Z.div_mod (a * b) (a + b) ltac:(lia)).
  pose proof (Z.mod_pos_bound (a * b) (a + b) ltac:(lia)).
  split_and!; [done|done|done|apply Z.div_str_pos; nia| | |].
  - apply Z.div_lt_upper_bound; nia.
  - apply Z.div_lt_upper_bound; nia.
  - assert (a * b / (a + b) ≤ Z.max a b / 2); [|pose proof (Z.div_mod (Z.max a b) 2 ltac:(lia));
      pose proof (Z.mod_pos_bound (Z.max a b) 2 ltac:(lia)); lia].
    apply Z.div_le_lower_bound; [lia|].
    assert (2 * (a * b) ≤ Z.max a b * (a + b)) by nia.
    apply Z.mul_le_mono_pos_r with (a + b); [lia|]. nia.
Qed.

(** Comparing a block id with a target as byte strings, as the
    proof-of-work check does, is comparing the two 256-bit integers. *)
Lemma id_target_comparison (id target : Hash) :
  hash_ok id → hash_ok target →
  bytes_Compare target id = Target_Cmp target id ∧
  (bytes_Compare target id < 0 ↔ Target_Int target < Target_Int id).
Proof.
  intros H1 H2. assert (bytes_Compare target id = Target_Cmp target id) as E.
  { apply bytes_Compare_Int. by rewrite H1, H2. }
  split; [done|]. rewrite E. unfold Target_Cmp. rewrite <- Z.ltb_lt, Currency_Cmp_lt, Z.ltb_lt. done.
Qed.

