(* ===== verification/Crypto.v ===== *)
(** * Cryptographic primitives

    Models [crypto/hash.go], [crypto/merkle.go] and the verification half of
    [crypto/signatures.go].  The hash function (golang.org/x/crypto/blake2b),
    the Merkle tree package (NebulousLabs/merkletree) and ed25519 are not part
    of the repository: they are the operations of the class [Crypto], with the
    one documented fact the code relies on (the digest size) in [CryptoLaws].
    [toyCrypto] is a concrete instance, for evaluating the model. *)

From S2P Require Import Prelude Encoding Currency Target.

Class Crypto := {
  (** [blake2b.Sum256] *)
  blake2b_Sum256 : list byte → list byte;
  (** [t := merkletree.New(h)], a [t.Push] per leaf, then [t.Root()] *)
  merkletree_Root : list (list byte) → list byte;
  (** [merkletree.VerifyProof(h, root, proofSet, proofIndex, numLeaves)] *)
  merkletree_VerifyProof : list byte → list (list byte) → Z → Z → bool;
  (** [ed25519.Verify(pk, data, sig)] *)
  ed25519_Verify : list byte → list byte → list byte → bool;
}.

Class CryptoLaws (C : Crypto) : Prop := {
  Sum256_length x : length (blake2b_Sum256 x) = HashSize;
}.

Definition SegmentSize : Z := 64.

(** ** [crypto/merkle.go] *)

Definition CalculateLeaves (dataSize : Z) : Z :=
  let numSegments := dataSize / SegmentSize in
  if (dataSize =? 0) || negb (dataSize `mod` SegmentSize =? 0)
  then u64 (numSegments + 1) else numSegments.

(** [for buf.Len() > 0 { t.Push(buf.Next(SegmentSize)) }]: every round takes at
    least one byte, so [length b] rounds are enough. *)
Fixpoint segments (fuel : nat) (b : list byte) : list (list byte) :=
  match fuel, b with
  | S fuel, _ :: _ =>
      take (Z.to_nat SegmentSize) b :: segments fuel (drop (Z.to_nat SegmentSize) b)
  | _, _ => []
  end.

Section crypto.
Context `{C : Crypto}.

(** [crypto.HashBytes] *)
Definition HashBytes (data : list byte) : Hash := blake2b_Sum256 data.
(** [crypto.HashAll(objs...)]: one hash over the concatenated encodings. *)
Definition HashAll (objs : list (list byte)) : Hash := blake2b_Sum256 (concat objs).
(** [crypto.HashObject(obj)] *)
Definition HashObject (obj : list byte) : Hash := blake2b_Sum256 obj.

(** [MerkleTree.Root] after pushing the leaves *)
Definition MerkleTree_Root (leaves : list (list byte)) : Hash :=
  go_copy zeroHash (merkletree_Root leaves).

Definition MerkleRoot (b : list byte) : Hash := MerkleTree_Root (segments (length b) b).

Definition VerifySegment (base : list byte) (hashSet : list Hash)
    (numSegments proofIndex : Z) (root : Hash) : bool :=
  merkletree_VerifyProof root (base :: hashSet) proofIndex numSegments.

(** [crypto.VerifyHash] *)
Definition VerifyHash (data : Hash) (pk sig : list byte) : res unit :=
  if ed25519_Verify pk data sig then Ok () else Err ErrInvalidSignature.

Lemma HashAll_length `{!CryptoLaws C} objs : hash_ok (HashAll objs).
Proof. apply Sum256_length. Qed.

Lemma MerkleTree_Root_ok leaves : hash_ok (MerkleTree_Root leaves).
Proof. unfold hash_ok, MerkleTree_Root. rewrite length_go_copy. done. Qed.
End crypto.

(** The number of leaves [CalculateLeaves] predicts is the number of segments
    [MerkleRoot] pushes, the empty file apart (one leaf, nothing pushed). *)
Lemma segments_length fuel b :
  (length b ≤ fuel)%nat → len (segments fuel b) = (len b + 63) / 64.
Proof.
  revert b. induction fuel as [|fuel IH]; intros b Hb.
  - destruct b; [done|simpl in Hb; lia].
  - destruct b as [|x b]; [done|]. set (l := x :: b) in *.
    cbn [segments]. unfold l at 1. fold l. rewrite len_cons, IH.
    + unfold len in *. rewrite length_drop. change (Z.to_nat SegmentSize) with 64%nat.
      destruct (decide (64 ≤ length l)%nat).
      * rewrite Nat2Z.inj_sub by lia.
        replace (Z.of_nat (length l) + 63) with (Z.of_nat (length l) - Z.of_nat 64 + 63 + 1 * 64) by lia.
        rewrite Z.div_add by lia. lia.
      * replace (length l - 64)%nat with 0%nat by lia. change (Z.of_nat 0) with 0.
        assert (1 ≤ length l)%nat by (unfold l; simpl; lia).
        rewrite Z.div_small by lia. apply (Z.div_unique _ _ 1 (Z.of_nat (length l) - 1)); lia.
    + rewrite length_drop. change (Z.to_nat SegmentSize) with 64%nat.
      unfold l in *. simpl in *. lia.
Qed.

Lemma CalculateLeaves_segments b :
  b ≠ [] → len b < 2 ^ 64 → CalculateLeaves (len b) = len (segments (length b) b).
Proof.
  intros Hne Hlt. rewrite segments_length by lia. unfold CalculateLeaves, SegmentSize.
  assert (0 < len b) by (destruct b as [|x b]; [done|rewrite len_cons; pose proof (len_nonneg b); lia]).
  rewrite (proj2 (Z.eqb_neq (len b) 0)) by lia. cbn [orb].
  pose proof (Z.div_mod (len b) 64 ltac:(lia)).
  pose proof (Z.mod_pos_bound (len b) 64 ltac:(lia)).
  destruct (Z.eqb_spec (len b `mod` 64) 0) as [E|E]; cbn [negb].
  - apply Z.div_unique with 63; lia.
  - rewrite u64_id by (unfold is_u64; lia).
    apply Z.div_unique with (len b `mod` 64 - 1); lia.
Qed.

(** A concrete instance: a polynomial checksum modulo [2^60]. *)
Definition toy_sum (x : list byte) : Z :=
  foldl (λ a b, Z.land (a * 1000003 + Z_of_byte b + 1) 1152921504606846975) 1 x.

Definition toyCrypto : Crypto := {|
  blake2b_Sum256 x := le_bytes HashSize (toy_sum x);
  merkletree_Root leaves := match leaves with [] => [] | _ => le_bytes HashSize (toy_sum (concat leaves)) end;
  merkletree_VerifyProof _ proofSet _ _ := negb (bool_decide (proofSet = []));
  ed25519_Verify pk _ sig := bool_decide (take 2 pk = take 2 sig);
|}.

Lemma toyCrypto_laws : CryptoLaws toyCrypto.
Proof. split. intros x. apply length_le_bytes. Qed.
