(* ===== verification/Types.v ===== *)
(** * The data model

    The structs of [types/] and the package constants of [types/constants.go].
    Field names keep the source's, prefixed by the receiver name the source
    uses for the type.  All the id types are [crypto.Hash]; [BlockHeight],
    [Timestamp] and the [uint64] fields are [Z] within [is_u64].

    The constants that [init] chooses by [build.Release] are the fields of
    [Net]; [standardNet], [devNet] and [testingNet] are the three builds. *)

From S2P Require Import Prelude Encoding Currency Target Crypto.
From Stdlib Require Import QArith.
#[local] Open Scope Z_scope.

Abbreviation BlockHeight := Z (only parsing).
Abbreviation Timestamp := Z (only parsing).
Abbreviation Specifier := (list byte) (only parsing).
Abbreviation UnlockHash := (list byte) (only parsing).
Abbreviation BlockID := (list byte) (only parsing).
Abbreviation TransactionID := (list byte) (only parsing).
Abbreviation SiacoinOutputID := (list byte) (only parsing).
Abbreviation SiafundOutputID := (list byte) (only parsing).
Abbreviation FileContractID := (list byte) (only parsing).

(** ** [types/transactions.go], [types/signatures.go], [types/filecontracts.go] *)

Definition SpecifierLen : nat := 16.

Record SiaPublicKey := mkSPK {
  spk_Algorithm : Specifier;
  spk_Key : list byte;
}.

Record UnlockConditions := mkUC {
  uc_Timelock : BlockHeight;
  uc_PublicKeys : list SiaPublicKey;
  uc_SignaturesRequired : Z;
}.

Record SiacoinInput := mkSCI {
  sci_ParentID : SiacoinOutputID;
  sci_UnlockConditions : UnlockConditions;
}.

Record SiacoinOutput := mkSCO {
  sco_Value : Currency;
  sco_UnlockHash : UnlockHash;
}.

Record SiafundInput := mkSFI {
  sfi_ParentID : SiafundOutputID;
  sfi_UnlockConditions : UnlockConditions;
  sfi_ClaimUnlockHash : UnlockHash;
}.

Record SiafundOutput := mkSFO {
  sfo_Value : Currency;
  sfo_UnlockHash : UnlockHash;
  sfo_ClaimStart : Currency;
}.

Record FileContract := mkFC {
  fc_FileSize : Z;
  fc_FileMerkleRoot : Hash;
  fc_WindowStart : BlockHeight;
  fc_WindowEnd : BlockHeight;
  fc_Payout : Currency;
  fc_ValidProofOutputs : list SiacoinOutput;
  fc_MissedProofOutputs : list SiacoinOutput;
  fc_UnlockHash : UnlockHash;
  fc_RevisionNumber : Z;
}.

Record FileContractRevision := mkFCR {
  fcr_ParentID : FileContractID;
  fcr_UnlockConditions : UnlockConditions;
  fcr_NewRevisionNumber : Z;
  fcr_NewFileSize : Z;
  fcr_NewFileMerkleRoot : Hash;
  fcr_NewWindowStart : BlockHeight;
  fcr_NewWindowEnd : BlockHeight;
  fcr_NewValidProofOutputs : list SiacoinOutput;
  fcr_NewMissedProofOutputs : list SiacoinOutput;
  fcr_NewUnlockHash : UnlockHash;
}.

Record StorageProof := mkSP {
  sp_ParentID : FileContractID;
  sp_Segment : list byte;
  sp_HashSet : list Hash;
}.

Record CoveredFields := mkCF {
  cf_WholeTransaction : bool;
  cf_SiacoinInputs : list Z;
  cf_SiacoinOutputs : list Z;
  cf_FileContracts : list Z;
  cf_FileContractRevisions : list Z;
  cf_StorageProofs : list Z;
  cf_SiafundInputs : list Z;
  cf_SiafundOutputs : list Z;
  cf_MinerFees : list Z;
  cf_ArbitraryData : list Z;
  cf_TransactionSignatures : list Z;
}.

Record TransactionSignature := mkTS {
  ts_ParentID : Hash;
  ts_PublicKeyIndex : Z;
  ts_Timelock : BlockHeight;
  ts_CoveredFields : CoveredFields;
  ts_Signature : list byte;
}.

Record Transaction := mkTxn {
  t_SiacoinInputs : list SiacoinInput;
  t_SiacoinOutputs : list SiacoinOutput;
  t_FileContracts : list FileContract;
  t_FileContractRevisions : list FileContractRevision;
  t_StorageProofs : list StorageProof;
  t_SiafundInputs : list SiafundInput;
  t_SiafundOutputs : list SiafundOutput;
  t_MinerFees : list Currency;
  t_ArbitraryData : list (list byte);
  t_TransactionSignatures : list TransactionSignature;
}.

(** ** [types/block.go] *)

Record Block := mkBlock {
  b_ParentID : BlockID;
  b_Nonce : list byte;
  b_Timestamp : Timestamp;
  b_MinerPayouts : list SiacoinOutput;
  b_Transactions : list Transaction;
}.

Record BlockHeader := mkHeader {
  bh_ParentID : BlockID;
  bh_Nonce : list byte;
  bh_Timestamp : Timestamp;
  bh_MerkleRoot : Hash;
}.

#[export] Instance SiaPublicKey_eq_dec : EqDecision SiaPublicKey.
Proof. solve_decision. Defined.
#[export] Instance UnlockConditions_eq_dec : EqDecision UnlockConditions.
Proof. solve_decision. Defined.
#[export] Instance SiacoinInput_eq_dec : EqDecision SiacoinInput.
Proof. solve_decision. Defined.
#[export] Instance SiacoinOutput_eq_dec : EqDecision SiacoinOutput.
Proof. solve_decision. Defined.
#[export] Instance SiafundInput_eq_dec : EqDecision SiafundInput.
Proof. solve_decision. Defined.
#[export] Instance SiafundOutput_eq_dec : EqDecision SiafundOutput.
Proof. solve_decision. Defined.
#[export] Instance FileContract_eq_dec : EqDecision FileContract.
Proof. solve_decision. Defined.
#[export] Instance FileContractRevision_eq_dec : EqDecision FileContractRevision.
Proof. solve_decision. Defined.
#[export] Instance StorageProof_eq_dec : EqDecision StorageProof.
Proof. solve_decision. Defined.
#[export] Instance CoveredFields_eq_dec : EqDecision CoveredFields.
Proof. solve_decision. Defined.
#[export] Instance TransactionSignature_eq_dec : EqDecision TransactionSignature.
Proof. solve_decision. Defined.
#[export] Instance Transaction_eq_dec : EqDecision Transaction.
Proof. solve_decision. Defined.
#[export] Instance Block_eq_dec : EqDecision Block.
Proof. solve_decision. Defined.

(** The zero values of Go ([SiacoinOutput{}] and so on). *)
Definition zeroSiacoinOutput : SiacoinOutput := mkSCO 0 zeroHash.
Definition zeroSiafundOutput : SiafundOutput := mkSFO 0 zeroHash 0.
Definition zeroFileContract : FileContract := mkFC 0 zeroHash 0 0 0 [] [] zeroHash 0.
Definition zeroTransaction : Transaction := mkTxn [] [] [] [] [] [] [] [] [] [].

(** ** Specifiers *)

(** A Go array literal shorter than the array is padded with zeros. *)
Definition specifier (s : list byte) : Specifier := go_copy (replicate SpecifierLen x00) s.

(** "file contract" *)
Definition SpecifierFileContract : Specifier :=
  specifier [x66; x69; x6c; x65; x20; x63; x6f; x6e; x74; x72; x61; x63; x74].
(** "file contract re" *)
Definition SpecifierFileContractRevision : Specifier :=
  specifier [x66; x69; x6c; x65; x20; x63; x6f; x6e; x74; x72; x61; x63; x74; x20; x72; x65].
(** "siacoin output" *)
Definition SpecifierSiacoinOutput : Specifier :=
  specifier [x73; x69; x61; x63; x6f; x69; x6e; x20; x6f; x75; x74; x70; x75; x74].
(** "siafund output" *)
Definition SpecifierSiafundOutput : Specifier :=
  specifier [x73; x69; x61; x66; x75; x6e; x64; x20; x6f; x75; x74; x70; x75; x74].
(** "storage proof" *)
Definition SpecifierStorageProofOutput : Specifier :=
  specifier [x73; x74; x6f; x72; x61; x67; x65; x20; x70; x72; x6f; x6f; x66].
(** "ed25519" *)
Definition SignatureEd25519 : Specifier := specifier [x65; x64; x32; x35; x35; x31; x39].
(** "entropy" *)
Definition SignatureEntropy : Specifier := specifier [x65; x6e; x74; x72; x6f; x70; x79].

(** ** [types/constants.go] *)

Definition ASICHardforkFactor : Z := 1.
Definition ASICHardforkReplayProtectionPrefix : list byte := [].
Definition BlockSizeLimit : Z := 2000000.
Definition BurnAddressBlockHeight : BlockHeight := 105000.
Definition DevFundEnabled : bool := true.
Definition DevFundInitialBlockHeight : BlockHeight := 1.
Definition DevFundDecayStartBlockHeight : BlockHeight := 30000.
Definition DevFundDecayEndBlockHeight : BlockHeight := 105000.
Definition DevFundInitialPercentage : Z := 20.
Definition DevFundFinalPercentage : Z := 10.
Definition InitialCoinbase : Z := 300000.
Definition SiacoinPrecision : Currency := NewCurrency (10 ^ 24).
Definition AirdropCommunityValue : Currency := Currency_Mul (NewCurrency64 10000000000) SiacoinPrecision.
Definition AirdropPoolValue : Currency := Currency_Mul (NewCurrency64 51840000) SiacoinPrecision.
Definition AirdropNebulousLabsValue : Currency := Currency_Mul (NewCurrency64 300000000) SiacoinPrecision.
Definition AirdropSiaPrimeValue : Currency := Currency_Mul (NewCurrency64 200000000) SiacoinPrecision.
Definition MedianTimestampWindow : Z := 11.
Definition OakHardforkTxnSizeLimit : Z := 64000.
Definition SiafundCount : Currency := NewCurrency64 10000.

Inductive Release := standard | dev | testing.
#[export] Instance Release_eq_dec : EqDecision Release.
Proof. solve_decision. Defined.

(** A fixed-size array from its leading elements, the rest zero. *)
Definition target_literal (l : list byte) : Target := go_copy zeroHash l.

Class Net := {
  build_Release : Release;
  ASICHardforkHeight : BlockHeight;
  ASICHardforkTotalTarget : Target;
  ASICHardforkTotalTime : Z;
  BlockFrequency : BlockHeight;
  MaturityDelay : BlockHeight;
  GenesisTimestamp : Timestamp;
  RootTarget : Target;
  TargetWindow : BlockHeight;
  MaxTargetAdjustmentUp : Q;
  MaxTargetAdjustmentDown : Q;
  FutureThreshold : Timestamp;
  ExtremeFutureThreshold : Timestamp;
  MinimumCoinbase : Z;
  OakHardforkBlock : BlockHeight;
  OakDecayNum : Z;
  OakDecayDenom : Z;
  OakMaxBlockShift : Z;
  OakMaxRise : Q;
  OakMaxDrop : Q;
  TaxHardforkHeight : BlockHeight;
  (** Addresses and genesis allocations, hard-coded as address strings and
      byte arrays. *)
  DevFundUnlockHash : UnlockHash;
  BurnAddressUnlockHash : UnlockHash;
  GenesisAirdropAllocation : list SiacoinOutput;
  GenesisSiafundAllocation : list SiafundOutput;
  ForkedGenesisSiafundAllocation : list SiafundOutput;
}.

(** The hard-coded addresses and allocations of a build. *)
Record Allocations := mkAlloc {
  al_DevFund : UnlockHash;
  al_Burn : UnlockHash;
  al_Airdrop : list SiacoinOutput;
  al_Siafund : list SiafundOutput;
  al_ForkedSiafund : list SiafundOutput;
}.

Definition standardNet (al : Allocations) : Net := {|
  build_Release := standard;
  ASICHardforkHeight := 2 ^ 63 - 1;
  ASICHardforkTotalTarget := target_literal [x00; x00; x00; x00; x00; x00; x00; x00; x20];
  ASICHardforkTotalTime := 120000;
  BlockFrequency := 600;
  MaturityDelay := 144;
  GenesisTimestamp := 1540955779;
  RootTarget := target_literal [x00; x00; x00; x00; x00; x00; x02];
  TargetWindow := 1000;
  MaxTargetAdjustmentUp := 25 # 10;
  MaxTargetAdjustmentDown := 10 # 25;
  FutureThreshold := 3 * 60 * 60;
  ExtremeFutureThreshold := 5 * 60 * 60;
  MinimumCoinbase := 10000;
  OakHardforkBlock := 1500;
  OakDecayNum := 995;
  OakDecayDenom := 1000;
  OakMaxBlockShift := 3;
  OakMaxRise := 1004 # 1000;
  OakMaxDrop := 1000 # 1004;
  TaxHardforkHeight := 21000;
  DevFundUnlockHash := al_DevFund al;
  BurnAddressUnlockHash := al_Burn al;
  GenesisAirdropAllocation := al_Airdrop al;
  GenesisSiafundAllocation := al_Siafund al;
  ForkedGenesisSiafundAllocation := al_ForkedSiafund al;
|}.

(** In the other builds [ForkedGenesisSiafundAllocation = GenesisSiafundAllocation]. *)
Definition devNet (al : Allocations) : Net := {|
  build_Release := dev;
  ASICHardforkHeight := 2 ^ 63 - 1;
  ASICHardforkTotalTarget := target_literal [x00; x00; x00; x08];
  ASICHardforkTotalTime := 800;
  BlockFrequency := 12;
  MaturityDelay := 10;
  GenesisTimestamp := 1528293910;
  RootTarget := target_literal [x00; x00; x02];
  TargetWindow := 20;
  MaxTargetAdjustmentUp := 120 # 100;
  MaxTargetAdjustmentDown := 100 # 120;
  FutureThreshold := 2 * 60;
  ExtremeFutureThreshold := 4 * 60;
  MinimumCoinbase := 30000;
  OakHardforkBlock := 100;
  OakDecayNum := 985;
  OakDecayDenom := 1000;
  OakMaxBlockShift := 3;
  OakMaxRise := 102 # 100;
  OakMaxDrop := 100 # 102;
  TaxHardforkHeight := 10;
  DevFundUnlockHash := al_DevFund al;
  BurnAddressUnlockHash := al_Burn al;
  GenesisAirdropAllocation := al_Airdrop al;
  GenesisSiafundAllocation := al_Siafund al;
  ForkedGenesisSiafundAllocation := al_Siafund al;
|}.

(** [now] is [CurrentTimestamp()] at start-up. *)
Definition testingNet (now : Timestamp) (al : Allocations) : Net := {|
  build_Release := testing;
  ASICHardforkHeight := 2 ^ 63 - 1;
  ASICHardforkTotalTarget := target_literal [xff; xff];
  ASICHardforkTotalTime := 10000;
  BlockFrequency := 1;
  MaturityDelay := 3;
  GenesisTimestamp := u64 (now - 1000000);
  RootTarget := target_literal [x80];
  TargetWindow := 200;
  MaxTargetAdjustmentUp := 10001 # 10000;
  MaxTargetAdjustmentDown := 9999 # 10000;
  FutureThreshold := 3;
  ExtremeFutureThreshold := 6;
  MinimumCoinbase := 299990;
  OakHardforkBlock := 20;
  OakDecayNum := 9999;
  OakDecayDenom := 10000;
  OakMaxBlockShift := 3;
  OakMaxRise := 10001 # 10000;
  OakMaxDrop := 10000 # 10001;
  TaxHardforkHeight := 10;
  DevFundUnlockHash := al_DevFund al;
  BurnAddressUnlockHash := al_Burn al;
  GenesisAirdropAllocation := al_Airdrop al;
  GenesisSiafundAllocation := al_Siafund al;
  ForkedGenesisSiafundAllocation := al_Siafund al;
|}.

(** What the theorems use of the constants; every build satisfies it. *)
Class NetOk (N : Net) : Prop := {
  net_MaturityDelay : 0 < MaturityDelay < 2 ^ 32;
  net_MinimumCoinbase : 0 < MinimumCoinbase ≤ InitialCoinbase;
  net_BlockFrequency : 0 < BlockFrequency < 2 ^ 32;
  net_OakMaxBlockShift : 0 < OakMaxBlockShift < 2 ^ 16;
  net_OakRise : 0 < Zpos (Qden OakMaxRise) < Qnum OakMaxRise;
  net_OakDrop : 0 < Qnum OakMaxDrop < Zpos (Qden OakMaxDrop);
  net_ASICHardforkHeight : 0 ≤ ASICHardforkHeight < 2 ^ 64;
  net_TargetWindow : 2 ≤ TargetWindow < 2 ^ 31;
  net_OakDecay : 0 < OakDecayNum < OakDecayDenom;
  net_TargetAdjustment : 0 < Qnum MaxTargetAdjustmentDown < Zpos (Qden MaxTargetAdjustmentDown) ∧
    Zpos (Qden MaxTargetAdjustmentUp) < Qnum MaxTargetAdjustmentUp;
}.

Lemma standardNet_ok al : NetOk (standardNet al).
Proof. by split. Qed.
Lemma devNet_ok al : NetOk (devNet al).
Proof. by split. Qed.
Lemma testingNet_ok now al : NetOk (testingNet now al).
Proof. by split. Qed.
