(* ===== verification/Codec.v ===== *)
(** * The wire format of the consensus types

    Models the [MarshalSia], [MarshalSiaSize] and [UnmarshalSia] methods of
    [types/encoding.go].  For every type: the three methods as they are
    written, the values the format can carry ([wire_ok] of its [SiaCodec]
    instance), the round trip, the safety of the decoder on arbitrary input,
    and the agreement of the size method with the length of the encoding.

    The [unsafe.Sizeof] element sizes the decoder's slice limit uses are those
    of a 64-bit platform. *)

From S2P Require Import Prelude Encoding Currency Target Crypto Types.

(** [unsafe.Sizeof] *)
Definition sizeof_uint64 : Z := 8.
Definition sizeof_Hash : Z := 32.
Definition sizeof_bytes : Z := 24.
Definition sizeof_Currency : Z := 32.
Definition sizeof_SiacoinOutput : Z := 64.
Definition sizeof_SiaPublicKey : Z := 40.
Definition sizeof_SiacoinInput : Z := 72.
Definition sizeof_FileContract : Z := 176.
Definition sizeof_FileContractRevision : Z := 216.
Definition sizeof_StorageProof : Z := 120.
Definition sizeof_SiafundInput : Z := 104.
Definition sizeof_SiafundOutput : Z := 96.
Definition sizeof_TransactionSignature : Z := 320.
Definition sizeof_Transaction : Z := 240.

(** [e.WritePrefix(p)] *)
Definition enc_WritePrefix (p : list byte) : list byte := EncUint64 (len p) ++ p.

#[global] Arguments enc_WritePrefix : simpl never.

(** ** Encoders *)

Definition SiaPublicKey_MarshalSia (spk : SiaPublicKey) : list byte :=
  spk_Algorithm spk ++ enc_WritePrefix (spk_Key spk).

Definition UnlockConditions_MarshalSia (uc : UnlockConditions) : list byte :=
  EncUint64 (uc_Timelock uc) ++
  enc_slice SiaPublicKey_MarshalSia (uc_PublicKeys uc) ++
  EncUint64 (uc_SignaturesRequired uc).

Definition SiacoinInput_MarshalSia (sci : SiacoinInput) : list byte :=
  sci_ParentID sci ++ UnlockConditions_MarshalSia (sci_UnlockConditions sci).

Definition SiacoinOutput_MarshalSia (sco : SiacoinOutput) : list byte :=
  Currency_MarshalSia (sco_Value sco) ++ sco_UnlockHash sco.

Definition SiafundInput_MarshalSia (sfi : SiafundInput) : list byte :=
  sfi_ParentID sfi ++ UnlockConditions_MarshalSia (sfi_UnlockConditions sfi) ++
  sfi_ClaimUnlockHash sfi.

Definition SiafundOutput_MarshalSia (sfo : SiafundOutput) : list byte :=
  Currency_MarshalSia (sfo_Value sfo) ++ sfo_UnlockHash sfo ++
  Currency_MarshalSia (sfo_ClaimStart sfo).

Definition FileContract_MarshalSia (fc : FileContract) : list byte :=
  EncUint64 (fc_FileSize fc) ++
  fc_FileMerkleRoot fc ++
  EncUint64 (fc_WindowStart fc) ++
  EncUint64 (fc_WindowEnd fc) ++
  Currency_MarshalSia (fc_Payout fc) ++
  enc_slice SiacoinOutput_MarshalSia (fc_ValidProofOutputs fc) ++
  enc_slice SiacoinOutput_MarshalSia (fc_MissedProofOutputs fc) ++
  fc_UnlockHash fc ++
  EncUint64 (fc_RevisionNumber fc).

Definition FileContractRevision_MarshalSia (fcr : FileContractRevision) : list byte :=
  fcr_ParentID fcr ++
  UnlockConditions_MarshalSia (fcr_UnlockConditions fcr) ++
  EncUint64 (fcr_NewRevisionNumber fcr) ++
  EncUint64 (fcr_NewFileSize fcr) ++
  fcr_NewFileMerkleRoot fcr ++
  EncUint64 (fcr_NewWindowStart fcr) ++
  EncUint64 (fcr_NewWindowEnd fcr) ++
  enc_slice SiacoinOutput_MarshalSia (fcr_NewValidProofOutputs fcr) ++
  enc_slice SiacoinOutput_MarshalSia (fcr_NewMissedProofOutputs fcr) ++
  fcr_NewUnlockHash fcr.

Definition StorageProof_MarshalSia (sp : StorageProof) : list byte :=
  sp_ParentID sp ++ sp_Segment sp ++ enc_slice id (sp_HashSet sp).

Definition CoveredFields_MarshalSia (cf : CoveredFields) : list byte :=
  [if cf_WholeTransaction cf then x01 else x00] ++
  enc_slice EncUint64 (cf_SiacoinInputs cf) ++
  enc_slice EncUint64 (cf_SiacoinOutputs cf) ++
  enc_slice EncUint64 (cf_FileContracts cf) ++
  enc_slice EncUint64 (cf_FileContractRevisions cf) ++
  enc_slice EncUint64 (cf_StorageProofs cf) ++
  enc_slice EncUint64 (cf_SiafundInputs cf) ++
  enc_slice EncUint64 (cf_SiafundOutputs cf) ++
  enc_slice EncUint64 (cf_MinerFees cf) ++
  enc_slice EncUint64 (cf_ArbitraryData cf) ++
  enc_slice EncUint64 (cf_TransactionSignatures cf).

#[global] Arguments CoveredFields_MarshalSia : simpl never.

Definition TransactionSignature_MarshalSia (ts : TransactionSignature) : list byte :=
  ts_ParentID ts ++
  EncUint64 (ts_PublicKeyIndex ts) ++
  EncUint64 (ts_Timelock ts) ++
  CoveredFields_MarshalSia (ts_CoveredFields ts) ++
  enc_WritePrefix (ts_Signature ts).

Definition Transaction_MarshalSiaNoSignatures (t : Transaction) : list byte :=
  enc_slice SiacoinInput_MarshalSia (t_SiacoinInputs t) ++
  enc_slice SiacoinOutput_MarshalSia (t_SiacoinOutputs t) ++
  enc_slice FileContract_MarshalSia (t_FileContracts t) ++
  enc_slice FileContractRevision_MarshalSia (t_FileContractRevisions t) ++
  enc_slice StorageProof_MarshalSia (t_StorageProofs t) ++
  enc_slice SiafundInput_MarshalSia (t_SiafundInputs t) ++
  enc_slice SiafundOutput_MarshalSia (t_SiafundOutputs t) ++
  enc_slice Currency_MarshalSia (t_MinerFees t) ++
  enc_slice enc_WritePrefix (t_ArbitraryData t).

Definition Transaction_MarshalSia (t : Transaction) : list byte :=
  Transaction_MarshalSiaNoSignatures t ++
  enc_slice TransactionSignature_MarshalSia (t_TransactionSignatures t).

Definition Block_MarshalSia (b : Block) : list byte :=
  b_ParentID b ++
  b_Nonce b ++
  EncUint64 (b_Timestamp b) ++
  enc_slice SiacoinOutput_MarshalSia (b_MinerPayouts b) ++
  enc_slice Transaction_MarshalSia (b_Transactions b).

(** ** Sizes *)

Definition UnlockConditions_MarshalSiaSize (uc : UnlockConditions) : Z :=
  8 + 8 +
  sumZ (λ spk, len (spk_Algorithm spk) + (8 + len (spk_Key spk))) (uc_PublicKeys uc) + 8.

Definition SiacoinOutputs_size (l : list SiacoinOutput) : Z :=
  sumZ (λ sco, Currency_MarshalSiaSize (sco_Value sco) + len (sco_UnlockHash sco)) l.

Definition FileContract_MarshalSiaSize (fc : FileContract) : Z :=
  8 + len (fc_FileMerkleRoot fc) + (8 + 8) + Currency_MarshalSiaSize (fc_Payout fc) +
  8 + SiacoinOutputs_size (fc_ValidProofOutputs fc) +
  8 + SiacoinOutputs_size (fc_MissedProofOutputs fc) +
  len (fc_UnlockHash fc) + 8.

Definition FileContractRevision_MarshalSiaSize (fcr : FileContractRevision) : Z :=
  len (fcr_ParentID fcr) + UnlockConditions_MarshalSiaSize (fcr_UnlockConditions fcr) +
  8 + 8 + len (fcr_NewFileMerkleRoot fcr) + (8 + 8) +
  8 + SiacoinOutputs_size (fcr_NewValidProofOutputs fcr) +
  8 + SiacoinOutputs_size (fcr_NewMissedProofOutputs fcr) +
  len (fcr_NewUnlockHash fcr).

Definition CoveredFields_MarshalSiaSize (cf : CoveredFields) : Z :=
  1 + (8 + len (cf_SiacoinInputs cf) * 8) + (8 + len (cf_SiacoinOutputs cf) * 8) +
  (8 + len (cf_FileContracts cf) * 8) + (8 + len (cf_FileContractRevisions cf) * 8) +
  (8 + len (cf_StorageProofs cf) * 8) + (8 + len (cf_SiafundInputs cf) * 8) +
  (8 + len (cf_SiafundOutputs cf) * 8) + (8 + len (cf_MinerFees cf) * 8) +
  (8 + len (cf_ArbitraryData cf) * 8) + (8 + len (cf_TransactionSignatures cf) * 8).

Definition Transaction_MarshalSiaSize (t : Transaction) : Z :=
  8 + sumZ (λ sci, len (sci_ParentID sci) +
        UnlockConditions_MarshalSiaSize (sci_UnlockConditions sci)) (t_SiacoinInputs t) +
  8 + SiacoinOutputs_size (t_SiacoinOutputs t) +
  8 + sumZ FileContract_MarshalSiaSize (t_FileContracts t) +
  8 + sumZ FileContractRevision_MarshalSiaSize (t_FileContractRevisions t) +
  8 + sumZ (λ sp, len (sp_ParentID sp) + len (sp_Segment sp) +
        (8 + len (sp_HashSet sp) * Z.of_nat HashSize)) (t_StorageProofs t) +
  8 + sumZ (λ sfi, len (sfi_ParentID sfi) + len (sfi_ClaimUnlockHash sfi) +
        UnlockConditions_MarshalSiaSize (sfi_UnlockConditions sfi)) (t_SiafundInputs t) +
  8 + sumZ (λ sfo, Currency_MarshalSiaSize (sfo_Value sfo) + len (sfo_UnlockHash sfo) +
        Currency_MarshalSiaSize (sfo_ClaimStart sfo)) (t_SiafundOutputs t) +
  8 + sumZ Currency_MarshalSiaSize (t_MinerFees t) +
  8 + sumZ (λ arb, 8 + len arb) (t_ArbitraryData t) +
  8 + sumZ (λ ts, len (ts_ParentID ts) + 8 + 8 +
        CoveredFields_MarshalSiaSize (ts_CoveredFields ts) +
        (8 + len (ts_Signature ts))) (t_TransactionSignatures t).

(** ** Decoders *)

Definition dec_Hash : Dec Hash := dec_ReadFull HashSize.

Definition SiaPublicKey_UnmarshalSia : Dec SiaPublicKey :=
  alg ← dec_ReadFull SpecifierLen; key ← dec_ReadPrefix; mret (mkSPK alg key).

Definition UnlockConditions_UnmarshalSia : Dec UnlockConditions :=
  tl ← dec_NextUint64;
  pks ← dec_slice sizeof_SiaPublicKey SiaPublicKey_UnmarshalSia;
  sr ← dec_NextUint64;
  mret (mkUC tl pks sr).

Definition SiacoinInput_UnmarshalSia : Dec SiacoinInput :=
  id ← dec_Hash; uc ← UnlockConditions_UnmarshalSia; mret (mkSCI id uc).

Definition SiacoinOutput_UnmarshalSia : Dec SiacoinOutput :=
  v ← Currency_UnmarshalSia; uh ← dec_Hash; mret (mkSCO v uh).

Definition SiafundInput_UnmarshalSia : Dec SiafundInput :=
  id ← dec_Hash; uc ← UnlockConditions_UnmarshalSia; cuh ← dec_Hash; mret (mkSFI id uc cuh).

Definition SiafundOutput_UnmarshalSia : Dec SiafundOutput :=
  v ← Currency_UnmarshalSia; uh ← dec_Hash; cs ← Currency_UnmarshalSia; mret (mkSFO v uh cs).

Definition FileContract_UnmarshalSia : Dec FileContract :=
  fs ← dec_NextUint64;
  root ← dec_Hash;
  ws ← dec_NextUint64;
  we ← dec_NextUint64;
  payout ← Currency_UnmarshalSia;
  vpo ← dec_slice sizeof_SiacoinOutput SiacoinOutput_UnmarshalSia;
  mpo ← dec_slice sizeof_SiacoinOutput SiacoinOutput_UnmarshalSia;
  uh ← dec_Hash;
  rn ← dec_NextUint64;
  mret (mkFC fs root ws we payout vpo mpo uh rn).

Definition FileContractRevision_UnmarshalSia : Dec FileContractRevision :=
  id ← dec_Hash;
  uc ← UnlockConditions_UnmarshalSia;
  rn ← dec_NextUint64;
  fs ← dec_NextUint64;
  root ← dec_Hash;
  ws ← dec_NextUint64;
  we ← dec_NextUint64;
  vpo ← dec_slice sizeof_SiacoinOutput SiacoinOutput_UnmarshalSia;
  mpo ← dec_slice sizeof_SiacoinOutput SiacoinOutput_UnmarshalSia;
  uh ← dec_Hash;
  mret (mkFCR id uc rn fs root ws we vpo mpo uh).

Definition StorageProof_UnmarshalSia : Dec StorageProof :=
  id ← dec_Hash;
  seg ← dec_ReadFull (Z.to_nat SegmentSize);
  hs ← dec_slice sizeof_Hash dec_Hash;
  mret (mkSP id seg hs).

Definition dec_uint64s : Dec (list Z) := dec_slice sizeof_uint64 dec_NextUint64.

(** [cf.WholeTransaction = (buf[0] == 1)] *)
Definition dec_flag : Dec bool :=
  buf ← dec_ReadFull 1; mret (bool_decide (buf = [x01])).

Definition CoveredFields_UnmarshalSia : Dec CoveredFields :=
  whole ← dec_flag;
  sci ← dec_uint64s;
  sco ← dec_uint64s;
  fc ← dec_uint64s;
  fcr ← dec_uint64s;
  sp ← dec_uint64s;
  sfi ← dec_uint64s;
  sfo ← dec_uint64s;
  mf ← dec_uint64s;
  arb ← dec_uint64s;
  ts ← dec_uint64s;
  mret (mkCF whole sci sco fc fcr sp sfi sfo mf arb ts).

Definition TransactionSignature_UnmarshalSia : Dec TransactionSignature :=
  id ← dec_Hash;
  pki ← dec_NextUint64;
  tl ← dec_NextUint64;
  cf ← CoveredFields_UnmarshalSia;
  sig ← dec_ReadPrefix;
  mret (mkTS id pki tl cf sig).

Definition Transaction_UnmarshalSia : Dec Transaction :=
  scis ← dec_slice sizeof_SiacoinInput SiacoinInput_UnmarshalSia;
  scos ← dec_slice sizeof_SiacoinOutput SiacoinOutput_UnmarshalSia;
  fcs ← dec_slice sizeof_FileContract FileContract_UnmarshalSia;
  fcrs ← dec_slice sizeof_FileContractRevision FileContractRevision_UnmarshalSia;
  sps ← dec_slice sizeof_StorageProof StorageProof_UnmarshalSia;
  sfis ← dec_slice sizeof_SiafundInput SiafundInput_UnmarshalSia;
  sfos ← dec_slice sizeof_SiafundOutput SiafundOutput_UnmarshalSia;
  mfs ← dec_slice sizeof_Currency Currency_UnmarshalSia;
  arbs ← dec_slice sizeof_bytes dec_ReadPrefix;
  tss ← dec_slice sizeof_TransactionSignature TransactionSignature_UnmarshalSia;
  mret (mkTxn scis scos fcs fcrs sps sfis sfos mfs arbs tss).

Definition Block_UnmarshalSia : Dec Block :=
  pid ← dec_Hash;
  nonce ← dec_ReadFull 8;
  ts ← dec_NextUint64;
  mps ← dec_slice sizeof_SiacoinOutput SiacoinOutput_UnmarshalSia;
  txns ← dec_slice sizeof_Transaction Transaction_UnmarshalSia;
  mret (mkBlock pid nonce ts mps txns).

(** ** What the format can carry *)

Definition SiaPublicKey_wire_ok (spk : SiaPublicKey) : Prop :=
  length (spk_Algorithm spk) = SpecifierLen ∧ len (spk_Key spk) ≤ MaxSliceSize.

Definition UnlockConditions_wire_ok (uc : UnlockConditions) : Prop :=
  is_u64 (uc_Timelock uc) ∧
  slice_ok sizeof_SiaPublicKey SiaPublicKey_wire_ok (uc_PublicKeys uc) ∧
  is_u64 (uc_SignaturesRequired uc).

Definition SiacoinInput_wire_ok (sci : SiacoinInput) : Prop :=
  hash_ok (sci_ParentID sci) ∧ UnlockConditions_wire_ok (sci_UnlockConditions sci).

Definition SiacoinOutput_wire_ok (sco : SiacoinOutput) : Prop :=
  Currency_wire_ok (sco_Value sco) ∧ hash_ok (sco_UnlockHash sco).

Definition SiafundInput_wire_ok (sfi : SiafundInput) : Prop :=
  hash_ok (sfi_ParentID sfi) ∧ UnlockConditions_wire_ok (sfi_UnlockConditions sfi) ∧
  hash_ok (sfi_ClaimUnlockHash sfi).

Definition SiafundOutput_wire_ok (sfo : SiafundOutput) : Prop :=
  Currency_wire_ok (sfo_Value sfo) ∧ hash_ok (sfo_UnlockHash sfo) ∧
  Currency_wire_ok (sfo_ClaimStart sfo).

Definition SiacoinOutputs_wire_ok : list SiacoinOutput → Prop :=
  slice_ok sizeof_SiacoinOutput SiacoinOutput_wire_ok.

Definition FileContract_wire_ok (fc : FileContract) : Prop :=
  is_u64 (fc_FileSize fc) ∧ hash_ok (fc_FileMerkleRoot fc) ∧
  is_u64 (fc_WindowStart fc) ∧ is_u64 (fc_WindowEnd fc) ∧
  Currency_wire_ok (fc_Payout fc) ∧
  SiacoinOutputs_wire_ok (fc_ValidProofOutputs fc) ∧
  SiacoinOutputs_wire_ok (fc_MissedProofOutputs fc) ∧
  hash_ok (fc_UnlockHash fc) ∧ is_u64 (fc_RevisionNumber fc).

Definition FileContractRevision_wire_ok (fcr : FileContractRevision) : Prop :=
  hash_ok (fcr_ParentID fcr) ∧ UnlockConditions_wire_ok (fcr_UnlockConditions fcr) ∧
  is_u64 (fcr_NewRevisionNumber fcr) ∧ is_u64 (fcr_NewFileSize fcr) ∧
  hash_ok (fcr_NewFileMerkleRoot fcr) ∧
  is_u64 (fcr_NewWindowStart fcr) ∧ is_u64 (fcr_NewWindowEnd fcr) ∧
  SiacoinOutputs_wire_ok (fcr_NewValidProofOutputs fcr) ∧
  SiacoinOutputs_wire_ok (fcr_NewMissedProofOutputs fcr) ∧
  hash_ok (fcr_NewUnlockHash fcr).

Definition StorageProof_wire_ok (sp : StorageProof) : Prop :=
  hash_ok (sp_ParentID sp) ∧ length (sp_Segment sp) = Z.to_nat SegmentSize ∧
  slice_ok sizeof_Hash hash_ok (sp_HashSet sp).

Definition uint64s_wire_ok : list Z → Prop := slice_ok sizeof_uint64 is_u64.

Definition CoveredFields_wire_ok (cf : CoveredFields) : Prop :=
  uint64s_wire_ok (cf_SiacoinInputs cf) ∧ uint64s_wire_ok (cf_SiacoinOutputs cf) ∧
  uint64s_wire_ok (cf_FileContracts cf) ∧ uint64s_wire_ok (cf_FileContractRevisions cf) ∧
  uint64s_wire_ok (cf_StorageProofs cf) ∧ uint64s_wire_ok (cf_SiafundInputs cf) ∧
  uint64s_wire_ok (cf_SiafundOutputs cf) ∧ uint64s_wire_ok (cf_MinerFees cf) ∧
  uint64s_wire_ok (cf_ArbitraryData cf) ∧ uint64s_wire_ok (cf_TransactionSignatures cf).

Definition TransactionSignature_wire_ok (ts : TransactionSignature) : Prop :=
  hash_ok (ts_ParentID ts) ∧ is_u64 (ts_PublicKeyIndex ts) ∧ is_u64 (ts_Timelock ts) ∧
  CoveredFields_wire_ok (ts_CoveredFields ts) ∧ len (ts_Signature ts) ≤ MaxSliceSize.

Definition Transaction_wire_ok (t : Transaction) : Prop :=
  slice_ok sizeof_SiacoinInput SiacoinInput_wire_ok (t_SiacoinInputs t) ∧
  SiacoinOutputs_wire_ok (t_SiacoinOutputs t) ∧
  slice_ok sizeof_FileContract FileContract_wire_ok (t_FileContracts t) ∧
  slice_ok sizeof_FileContractRevision FileContractRevision_wire_ok (t_FileContractRevisions t) ∧
  slice_ok sizeof_StorageProof StorageProof_wire_ok (t_StorageProofs t) ∧
  slice_ok sizeof_SiafundInput SiafundInput_wire_ok (t_SiafundInputs t) ∧
  slice_ok sizeof_SiafundOutput SiafundOutput_wire_ok (t_SiafundOutputs t) ∧
  slice_ok sizeof_Currency Currency_wire_ok (t_MinerFees t) ∧
  slice_ok sizeof_bytes (λ b, len b ≤ MaxSliceSize) (t_ArbitraryData t) ∧
  slice_ok sizeof_TransactionSignature TransactionSignature_wire_ok (t_TransactionSignatures t).

Definition Block_wire_ok (b : Block) : Prop :=
  hash_ok (b_ParentID b) ∧ length (b_Nonce b) = 8%nat ∧ is_u64 (b_Timestamp b) ∧
  SiacoinOutputs_wire_ok (b_MinerPayouts b) ∧
  slice_ok sizeof_Transaction Transaction_wire_ok (b_Transactions b).

(** ** Round trips and decoder safety *)

(** The last field of a record. *)
Lemma decodes_map {A B} (m : Dec A) (f : A → B) bs x :
  decodes m bs x → decodes (x ← m; mret (f x)) bs (f x).
Proof.
  intros H. rewrite <- (app_nil_r bs). apply decodes_bind with x; [done|]. apply decodes_ret.
Qed.

Lemma decodes_hash h : hash_ok h → decodes dec_Hash h h.
Proof. intros H. by apply decodes_ReadFull. Qed.

Lemma decodes_flag (b : bool) : decodes dec_flag [if b then x01 else x00] b.
Proof.
  pose proof (decodes_map (dec_ReadFull 1) (λ buf, bool_decide (buf = [x01]))
    [if b then x01 else x00] _ (decodes_ReadFull [if b then x01 else x00] 1 eq_refl)) as H.
  by destruct b.
Qed.

Lemma dec_safe_flag : dec_safe dec_flag.
Proof. apply dec_safe_bind; auto with codec. Qed.

#[export] Hint Resolve decodes_hash decodes_flag dec_safe_flag : codec.
#[export] Hint Resolve decodes_Currency dec_safe_Currency : codec.
#[export] Hint Extern 1 (dec_safe dec_Hash) => apply dec_safe_ReadFull : codec.
(** Decodes a struct field by field. *)
Ltac decode_field :=
  match goal with
  | |- decodes (mbind (fun x => mret _) _) _ _ => apply decodes_map
  | |- decodes (mbind _ _) _ _ => eapply decodes_bind
  | |- decodes dec_Hash _ _ => by apply decodes_hash
  | |- decodes dec_NextUint64 _ _ => by apply decodes_NextUint64
  | |- decodes (dec_ReadFull _) _ _ => by apply decodes_ReadFull
  | |- decodes dec_ReadPrefix _ _ => by apply decodes_ReadPrefix
  | |- decodes (dec_slice _ _) _ _ => eapply decodes_slice; [|done|eassumption]
  | |- ∀ x, _ → decodes _ _ _ => intros ? ?
  | |- decodes _ _ _ => by eauto 2 with codec
  end.
Ltac decode_fields := cbn beta iota; repeat (decode_field; cbn beta).
Ltac safe_fields :=
  repeat match goal with
  | |- dec_safe (mbind _ _) => apply dec_safe_bind; [|intros ?]
  | |- dec_safe (mret _) => apply dec_safe_ret
  | |- dec_safe (dec_slice _ _) => apply dec_safe_slice
  | |- dec_safe _ => by auto 2 with codec
  end.

Lemma decodes_SiaPublicKey spk :
  SiaPublicKey_wire_ok spk → decodes SiaPublicKey_UnmarshalSia (SiaPublicKey_MarshalSia spk) spk.
Proof.
  destruct spk as [alg key]. intros [H1 H2].
  unfold SiaPublicKey_UnmarshalSia, SiaPublicKey_MarshalSia, enc_WritePrefix; cbn in *.
  decode_fields.
Qed.
Lemma dec_safe_SiaPublicKey : dec_safe SiaPublicKey_UnmarshalSia.
Proof. unfold SiaPublicKey_UnmarshalSia. safe_fields. Qed.
#[export] Hint Resolve decodes_SiaPublicKey dec_safe_SiaPublicKey : codec.

Lemma decodes_UnlockConditions uc :
  UnlockConditions_wire_ok uc → decodes UnlockConditions_UnmarshalSia (UnlockConditions_MarshalSia uc) uc.
Proof.
  destruct uc as [tl pks sr]. intros (H1 & H2 & H3).
  unfold UnlockConditions_UnmarshalSia, UnlockConditions_MarshalSia; cbn in *.
  decode_fields.
Qed.
Lemma dec_safe_UnlockConditions : dec_safe UnlockConditions_UnmarshalSia.
Proof. unfold UnlockConditions_UnmarshalSia. safe_fields. Qed.
#[export] Hint Resolve decodes_UnlockConditions dec_safe_UnlockConditions : codec.

Lemma decodes_SiacoinInput sci :
  SiacoinInput_wire_ok sci → decodes SiacoinInput_UnmarshalSia (SiacoinInput_MarshalSia sci) sci.
Proof.
  destruct sci as [id uc]. intros (H1 & H2).
  unfold SiacoinInput_UnmarshalSia, SiacoinInput_MarshalSia; cbn in *.
  decode_fields.
Qed.
Lemma dec_safe_SiacoinInput : dec_safe SiacoinInput_UnmarshalSia.
Proof. unfold SiacoinInput_UnmarshalSia. safe_fields. Qed.
#[export] Hint Resolve decodes_SiacoinInput dec_safe_SiacoinInput : codec.

Lemma decodes_SiacoinOutput sco :
  SiacoinOutput_wire_ok sco → decodes SiacoinOutput_UnmarshalSia (SiacoinOutput_MarshalSia sco) sco.
Proof.
  destruct sco as [v uh]. intros (H1 & H2).
  unfold SiacoinOutput_UnmarshalSia, SiacoinOutput_MarshalSia; cbn in *.
  decode_fields.
Qed.
Lemma dec_safe_SiacoinOutput : dec_safe SiacoinOutput_UnmarshalSia.
Proof. unfold SiacoinOutput_UnmarshalSia. safe_fields. Qed.
#[export] Hint Resolve decodes_SiacoinOutput dec_safe_SiacoinOutput : codec.

Lemma decodes_SiafundInput sfi :
  SiafundInput_wire_ok sfi → decodes SiafundInput_UnmarshalSia (SiafundInput_MarshalSia sfi) sfi.
Proof.
  destruct sfi as [id uc cuh]. intros (H1 & H2 & H3).
  unfold SiafundInput_UnmarshalSia, SiafundInput_MarshalSia; cbn in *.
  decode_fields.
Qed.
Lemma dec_safe_SiafundInput : dec_safe SiafundInput_UnmarshalSia.
Proof. unfold SiafundInput_UnmarshalSia. safe_fields. Qed.
#[export] Hint Resolve decodes_SiafundInput dec_safe_SiafundInput : codec.

Lemma decodes_SiafundOutput sfo :
  SiafundOutput_wire_ok sfo → decodes SiafundOutput_UnmarshalSia (SiafundOutput_MarshalSia sfo) sfo.
Proof.
  destruct sfo as [v uh cs]. intros (H1 & H2 & H3).
  unfold SiafundOutput_UnmarshalSia, SiafundOutput_MarshalSia; cbn in *.
  decode_fields.
Qed.
Lemma dec_safe_SiafundOutput : dec_safe SiafundOutput_UnmarshalSia.
Proof. unfold SiafundOutput_UnmarshalSia. safe_fields. Qed.
#[export] Hint Resolve decodes_SiafundOutput dec_safe_SiafundOutput : codec.

Lemma decodes_FileContract fc :
  FileContract_wire_ok fc → decodes FileContract_UnmarshalSia (FileContract_MarshalSia fc) fc.
Proof.
  destruct fc as [fs root ws we p vpo mpo uh rn]. intros (H1 & H2 & H3 & H4 & H5 & H6 & H7 & H8 & H9).
  unfold FileContract_UnmarshalSia, FileContract_MarshalSia; cbn in *.
  decode_fields.
Qed.
Lemma dec_safe_FileContract : dec_safe FileContract_UnmarshalSia.
Proof. unfold FileContract_UnmarshalSia. safe_fields. Qed.
#[export] Hint Resolve decodes_FileContract dec_safe_FileContract : codec.

Lemma decodes_FileContractRevision fcr :
  FileContractRevision_wire_ok fcr → decodes FileContractRevision_UnmarshalSia (FileContractRevision_MarshalSia fcr) fcr.
Proof.
  destruct fcr as [id uc rn fs root ws we vpo mpo uh]. intros (H1 & H2 & H3 & H4 & H5 & H6 & H7 & H8 & H9 & H10).
  unfold FileContractRevision_UnmarshalSia, FileContractRevision_MarshalSia; cbn in *.
  decode_fields.
Qed.
Lemma dec_safe_FileContractRevision : dec_safe FileContractRevision_UnmarshalSia.
Proof. unfold FileContractRevision_UnmarshalSia. safe_fields. Qed.
#[export] Hint Resolve decodes_FileContractRevision dec_safe_FileContractRevision : codec.

Lemma decodes_StorageProof sp :
  StorageProof_wire_ok sp → decodes StorageProof_UnmarshalSia (StorageProof_MarshalSia sp) sp.
Proof.
  destruct sp as [id seg hs]. intros (H1 & H2 & H3).
  unfold StorageProof_UnmarshalSia, StorageProof_MarshalSia; cbn in *.
  decode_fields.
Qed.
Lemma dec_safe_StorageProof : dec_safe StorageProof_UnmarshalSia.
Proof. unfold StorageProof_UnmarshalSia. safe_fields. Qed.
#[export] Hint Resolve decodes_StorageProof dec_safe_StorageProof : codec.

Lemma decodes_CoveredFields cf :
  CoveredFields_wire_ok cf → decodes CoveredFields_UnmarshalSia (CoveredFields_MarshalSia cf) cf.
Proof.
  destruct cf as [w c1 c2 c3 c4 c5 c6 c7 c8 c9 c10]. intros (H1 & H2 & H3 & H4 & H5 & H6 & H7 & H8 & H9 & H10).
  unfold CoveredFields_UnmarshalSia, CoveredFields_MarshalSia, dec_uint64s; cbn in *.
  match goal with |- decodes _ (?x :: ?l) _ => change (x :: l) with ([x] ++ l) end.
  decode_fields.
Qed.
Lemma dec_safe_CoveredFields : dec_safe CoveredFields_UnmarshalSia.
Proof. unfold CoveredFields_UnmarshalSia, dec_uint64s. safe_fields. Qed.
#[export] Hint Resolve decodes_CoveredFields dec_safe_CoveredFields : codec.

Lemma decodes_TransactionSignature ts :
  TransactionSignature_wire_ok ts → decodes TransactionSignature_UnmarshalSia (TransactionSignature_MarshalSia ts) ts.
Proof.
  destruct ts as [id pki tl cf sig]. intros (H1 & H2 & H3 & H4 & H5).
  unfold TransactionSignature_UnmarshalSia, TransactionSignature_MarshalSia, enc_WritePrefix; cbn in *.
  decode_fields.
Qed.
Lemma dec_safe_TransactionSignature : dec_safe TransactionSignature_UnmarshalSia.
Proof. unfold TransactionSignature_UnmarshalSia. safe_fields. Qed.
#[export] Hint Resolve decodes_TransactionSignature dec_safe_TransactionSignature : codec.

Lemma decodes_Transaction t :
  Transaction_wire_ok t → decodes Transaction_UnmarshalSia (Transaction_MarshalSia t) t.
Proof.
  destruct t as [l1 l2 l3 l4 l5 l6 l7 l8 l9 l10]. intros (H1 & H2 & H3 & H4 & H5 & H6 & H7 & H8 & H9 & H10).
  unfold Transaction_UnmarshalSia, Transaction_MarshalSia, Transaction_MarshalSiaNoSignatures; cbn in *.
  rewrite <- !app_assoc.   decode_fields.
Qed.
Lemma dec_safe_Transaction : dec_safe Transaction_UnmarshalSia.
Proof. unfold Transaction_UnmarshalSia. safe_fields. Qed.
#[export] Hint Resolve decodes_Transaction dec_safe_Transaction : codec.

Lemma decodes_Block b :
  Block_wire_ok b → decodes Block_UnmarshalSia (Block_MarshalSia b) b.
Proof.
  destruct b as [pid nonce ts mps txns]. intros (H1 & H2 & H3 & H4 & H5).
  unfold Block_UnmarshalSia, Block_MarshalSia; cbn in *.
  decode_fields.
Qed.
Lemma dec_safe_Block : dec_safe Block_UnmarshalSia.
Proof. unfold Block_UnmarshalSia. safe_fields. Qed.
#[export] Hint Resolve decodes_Block dec_safe_Block : codec.

(** ** The interface, implemented by every type *)

#[export] Instance Currency_codec : SiaCodec Currency :=
  Build_SiaCodec _ _ _ Currency_wire_ok decodes_Currency dec_safe_Currency.
#[export] Instance SiaPublicKey_codec : SiaCodec SiaPublicKey :=
  Build_SiaCodec _ _ _ SiaPublicKey_wire_ok decodes_SiaPublicKey dec_safe_SiaPublicKey.
#[export] Instance UnlockConditions_codec : SiaCodec UnlockConditions :=
  Build_SiaCodec _ _ _ UnlockConditions_wire_ok decodes_UnlockConditions dec_safe_UnlockConditions.
#[export] Instance SiacoinInput_codec : SiaCodec SiacoinInput :=
  Build_SiaCodec _ _ _ SiacoinInput_wire_ok decodes_SiacoinInput dec_safe_SiacoinInput.
#[export] Instance SiacoinOutput_codec : SiaCodec SiacoinOutput :=
  Build_SiaCodec _ _ _ SiacoinOutput_wire_ok decodes_SiacoinOutput dec_safe_SiacoinOutput.
#[export] Instance SiafundInput_codec : SiaCodec SiafundInput :=
  Build_SiaCodec _ _ _ SiafundInput_wire_ok decodes_SiafundInput dec_safe_SiafundInput.
#[export] Instance SiafundOutput_codec : SiaCodec SiafundOutput :=
  Build_SiaCodec _ _ _ SiafundOutput_wire_ok decodes_SiafundOutput dec_safe_SiafundOutput.
#[export] Instance FileContract_codec : SiaCodec FileContract :=
  Build_SiaCodec _ _ _ FileContract_wire_ok decodes_FileContract dec_safe_FileContract.
#[export] Instance FileContractRevision_codec : SiaCodec FileContractRevision :=
  Build_SiaCodec _ _ _ FileContractRevision_wire_ok decodes_FileContractRevision dec_safe_FileContractRevision.
#[export] Instance StorageProof_codec : SiaCodec StorageProof :=
  Build_SiaCodec _ _ _ StorageProof_wire_ok decodes_StorageProof dec_safe_StorageProof.
#[export] Instance CoveredFields_codec : SiaCodec CoveredFields :=
  Build_SiaCodec _ _ _ CoveredFields_wire_ok decodes_CoveredFields dec_safe_CoveredFields.
#[export] Instance TransactionSignature_codec : SiaCodec TransactionSignature :=
  Build_SiaCodec _ _ _ TransactionSignature_wire_ok decodes_TransactionSignature dec_safe_TransactionSignature.
#[export] Instance Transaction_codec : SiaCodec Transaction :=
  Build_SiaCodec _ _ _ Transaction_wire_ok decodes_Transaction dec_safe_Transaction.
#[export] Instance Block_codec : SiaCodec Block :=
  Build_SiaCodec _ _ _ Block_wire_ok decodes_Block dec_safe_Block.

Section codec_facts.
Context {A : Type} `{SiaCodec A}.

Lemma Unmarshal_MarshalSia (x : A) :
  wire_ok x → len (MarshalSia x) ≤ MaxObjectSize →
  Unmarshal UnmarshalSia (MarshalSia x) = (x, None).
Proof.
  intros Hx Hsz. unfold Unmarshal.
  pose proof (codec_decodes x Hx [] 0 ltac:(lia) ltac:(lia)) as E.
  rewrite app_nil_r in E. by rewrite E.
Qed.

(** No encoding is a proper prefix of another one. *)
Lemma MarshalSia_prefix_free (x y : A) r1 r2 :
  wire_ok x → wire_ok y → len (MarshalSia x) ≤ MaxObjectSize →
  len (MarshalSia y) ≤ MaxObjectSize →
  MarshalSia x ++ r1 = MarshalSia y ++ r2 → x = y ∧ r1 = r2.
Proof.
  intros Hx Hy Hsx Hsy E.
  pose proof (codec_decodes x Hx r1 0 ltac:(lia) ltac:(lia)) as Ex.
  pose proof (codec_decodes y Hy r2 0 ltac:(lia) ltac:(lia)) as Ey.
  rewrite E, Ey in Ex. by injection Ex as -> -> _.
Qed.
End codec_facts.

(** ** Sizes *)

Lemma len_hash h : hash_ok h → len h = 32.
Proof. unfold hash_ok, len. by intros ->. Qed.

Lemma SiacoinOutputs_size_eq l :
  Forall SiacoinOutput_wire_ok l →
  SiacoinOutputs_size l = sumZ (λ x, len (SiacoinOutput_MarshalSia x)) l.
Proof.
  intros Hl. apply sumZ_ext. intros sco Hin. unfold SiacoinOutput_MarshalSia.
  rewrite Forall_forall in Hl. destruct (Hl _ Hin) as [[Hv _] _].
  by rewrite len_app, <- Currency_MarshalSiaSize_eq.
Qed.

Lemma len_enc_WritePrefix p : len (enc_WritePrefix p) = 8 + len p.
Proof. unfold enc_WritePrefix. by rewrite len_app, len_EncUint64. Qed.

(** Two slice sums agree when the summands do on what the wire can carry. *)
Lemma sumZ_slice_ok {A} sz (ok : A → Prop) (f g : A → Z) l :
  slice_ok sz ok l → (∀ x, ok x → f x = g x) → sumZ f l = sumZ g l.
Proof. intros [Hl _] Hfg. rewrite Forall_forall in Hl. apply sumZ_ext. auto. Qed.

Create Rewrite HintDb size.
#[export] Hint Rewrite @len_app @len_enc_slice len_EncUint64 len_enc_WritePrefix : size.

Lemma UnlockConditions_size_eq uc :
  UnlockConditions_wire_ok uc →
  UnlockConditions_MarshalSiaSize uc = len (UnlockConditions_MarshalSia uc).
Proof.
  intros _. unfold UnlockConditions_MarshalSiaSize, UnlockConditions_MarshalSia.
  autorewrite with size.
  rewrite (sumZ_ext (λ x, len (SiaPublicKey_MarshalSia x))
    (λ spk, len (spk_Algorithm spk) + (8 + len (spk_Key spk)))); [lia|].
  intros spk _. unfold SiaPublicKey_MarshalSia. by autorewrite with size.
Qed.

Lemma FileContract_size_eq fc :
  FileContract_wire_ok fc → FileContract_MarshalSiaSize fc = len (FileContract_MarshalSia fc).
Proof.
  intros (_ & _ & _ & _ & [Hp _] & [Hv _] & [Hm _] & _ & _).
  unfold FileContract_MarshalSiaSize, FileContract_MarshalSia. autorewrite with size.
  rewrite !SiacoinOutputs_size_eq, Currency_MarshalSiaSize_eq by done. lia.
Qed.

Lemma FileContractRevision_size_eq fcr :
  FileContractRevision_wire_ok fcr →
  FileContractRevision_MarshalSiaSize fcr = len (FileContractRevision_MarshalSia fcr).
Proof.
  intros (_ & Huc & _ & _ & _ & _ & _ & [Hv _] & [Hm _] & _).
  unfold FileContractRevision_MarshalSiaSize, FileContractRevision_MarshalSia.
  autorewrite with size.
  rewrite !SiacoinOutputs_size_eq, UnlockConditions_size_eq by done. lia.
Qed.

Lemma len_enc_uint64s l : len (enc_slice EncUint64 l) = 8 + len l * 8.
Proof.
  rewrite len_enc_slice. f_equal. induction l as [|x l IH]; [done|].
  cbn [sumZ]. rewrite IH, len_cons, len_EncUint64. lia.
Qed.

Lemma CoveredFields_size_eq cf :
  CoveredFields_MarshalSiaSize cf = len (CoveredFields_MarshalSia cf).
Proof.
  unfold CoveredFields_MarshalSiaSize, CoveredFields_MarshalSia.
  rewrite !len_app, !len_enc_uint64s, len_cons, len_nil. lia.
Qed.

Lemma StorageProof_size_eq sp :
  StorageProof_wire_ok sp →
  len (sp_ParentID sp) + len (sp_Segment sp) + (8 + len (sp_HashSet sp) * Z.of_nat HashSize) =
  len (StorageProof_MarshalSia sp).
Proof.
  intros (_ & _ & [Hh _]). unfold StorageProof_MarshalSia. autorewrite with size.
  enough (sumZ (λ x, len (id x)) (sp_HashSet sp) = len (sp_HashSet sp) * Z.of_nat HashSize) by lia.
  induction Hh as [|h l Hh _ IH]; [done|]. cbn [sumZ]. rewrite IH, len_cons.
  unfold len, id. rewrite Hh. lia.
Qed.

Lemma Transaction_size_eq t :
  Transaction_wire_ok t → Transaction_MarshalSiaSize t = len (Transaction_MarshalSia t).
Proof.
  intros (H1 & [H2 _] & H3 & H4 & H5 & H6 & H7 & H8 & H9 & H10).
  unfold Transaction_MarshalSiaSize, Transaction_MarshalSia, Transaction_MarshalSiaNoSignatures.
  autorewrite with size. rewrite SiacoinOutputs_size_eq by done.
  rewrite (sumZ_slice_ok _ _ _ _ _ H3 FileContract_size_eq).
  rewrite (sumZ_slice_ok _ _ _ _ _ H4 FileContractRevision_size_eq).
  rewrite (sumZ_slice_ok _ _ _ _ _ H5 StorageProof_size_eq).
  rewrite (sumZ_slice_ok _ _ Currency_MarshalSiaSize _ _ H8
    (λ x Hx, Currency_MarshalSiaSize_eq x (proj1 Hx))).
  rewrite (sumZ_ext (λ x, len (enc_WritePrefix x)) (λ arb, 8 + len arb) (t_ArbitraryData t))
    by (intros; apply len_enc_WritePrefix).
  rewrite (sumZ_slice_ok _ _ _ (λ x, len (SiacoinInput_MarshalSia x)) _ H1).
  2: { intros x [_ Hx]. unfold SiacoinInput_MarshalSia. autorewrite with size.
       by rewrite UnlockConditions_size_eq. }
  rewrite (sumZ_slice_ok _ _ _ (λ x, len (SiafundInput_MarshalSia x)) _ H6).
  2: { intros x (_ & Hx & _). unfold SiafundInput_MarshalSia. autorewrite with size.
       rewrite UnlockConditions_size_eq by done. lia. }
  rewrite (sumZ_slice_ok _ _ _ (λ x, len (SiafundOutput_MarshalSia x)) _ H7).
  2: { intros x ([Hx _] & _ & [Hc _]). unfold SiafundOutput_MarshalSia. autorewrite with size.
       rewrite !Currency_MarshalSiaSize_eq by done. lia. }
  rewrite (sumZ_slice_ok _ _ _ (λ x, len (TransactionSignature_MarshalSia x)) _ H10).
  2: { intros x Hx. unfold TransactionSignature_MarshalSia. autorewrite with size.
       rewrite CoveredFields_size_eq. lia. }
  lia.
Qed.

(** ** Fixed offsets

    The consensus database reads two fields out of stored encodings without
    decoding them: the parent id and timestamp of a processed block
    ([minimumValidChildTimestamp]) and the window end of a file contract. *)

(** [b[i:j]] *)
Definition byte_slice (i j : nat) (b : list byte) : list byte := take (j - i) (drop i b).

Lemma byte_slice_app l m r i j :
  length l = i → length m = (j - i)%nat → byte_slice i j (l ++ m ++ r) = m.
Proof. intros <- E. unfold byte_slice. by rewrite drop_app_length, <- E, take_app_length. Qed.

Lemma Block_timestamp_offset b rest :
  Block_wire_ok b →
  byte_slice 0 32 (Block_MarshalSia b ++ rest) = b_ParentID b ∧
  DecUint64 (byte_slice 40 48 (Block_MarshalSia b ++ rest)) = b_Timestamp b.
Proof.
  intros (Hp & Hn & Ht & _). unfold Block_MarshalSia. rewrite <- !app_assoc. split.
  - by apply (byte_slice_app []).
  - rewrite (app_assoc (b_ParentID b)), byte_slice_app.
    + by apply DecUint64_EncUint64.
    + rewrite length_app. rewrite Hn. unfold hash_ok in Hp. by rewrite Hp.
    + by rewrite length_EncUint64.
Qed.

Lemma FileContract_WindowEnd_offset fc :
  FileContract_wire_ok fc →
  DecUint64 (byte_slice 48 56 (FileContract_MarshalSia fc)) = fc_WindowEnd fc.
Proof.
  intros (Hs & Hr & Hws & Hwe & _). unfold FileContract_MarshalSia.
  rewrite (app_assoc (fc_FileMerkleRoot fc)), (app_assoc (EncUint64 _)), byte_slice_app.
  - by apply DecUint64_EncUint64.
  - rewrite !length_app, !length_EncUint64. unfold hash_ok in Hr. by rewrite Hr.
  - by rewrite length_EncUint64.
Qed.

(** ** Main properties *)

(** C21: A block whose fields fit their widths and whose slices respect the
    decoder's limits survives the wire: decoding its encoding gives back the
    same block, with every nested transaction, contract, revision, proof and
    signature, and no error. *)
Theorem Block_roundtrip (b : Block) :
  Block_wire_ok b → len (Block_MarshalSia b) ≤ MaxObjectSize →
  Unmarshal Block_UnmarshalSia (Block_MarshalSia b) = (b, None).
Proof. exact (Unmarshal_MarshalSia b). Qed.

(** Transaction encodings are injective and prefix free: two encodable
    transactions whose encodings start the same byte stream are the same
    transaction and leave the same rest, so hashing the concatenated
    encodings of a block or of a signature's covered fields is unambiguous. *)
Lemma Transaction_encoding_unambiguous (t1 t2 : Transaction) (r1 r2 : list byte) :
  Transaction_wire_ok t1 → Transaction_wire_ok t2 →
  len (Transaction_MarshalSia t1) ≤ MaxObjectSize →
  len (Transaction_MarshalSia t2) ≤ MaxObjectSize →
  Transaction_MarshalSia t1 ++ r1 = Transaction_MarshalSia t2 ++ r2 →
  t1 = t2 ∧ r1 = r2.
Proof. exact (MarshalSia_prefix_free t1 t2 r1 r2). Qed.

(** C34: The block decoder is safe on arbitrary bytes from the network: it
    consumes a prefix of the input and counts exactly what it consumed, does
    nothing once an error is set, and when it reports no error it has read at
    most [MaxObjectSize] bytes. *)
Theorem Block_decoder_safe (input : list byte) (b : Block) (d : decHelper) :
  Block_UnmarshalSia (mkDec input None 0) = (b, d) →
  (∃ consumed, input = consumed ++ dec_r d ∧ dec_n d = len consumed) ∧
  (dec_err d = None → dec_n d ≤ MaxObjectSize) ∧
  Block_UnmarshalSia (mkDec input (Some ErrEOF) 0) =
    ((Block_UnmarshalSia (mkDec input (Some ErrEOF) 0)).1, mkDec input (Some ErrEOF) 0).
Proof.
  intros H. destruct (dec_safe_Block _ _ _ H) as (_ & (bs & Hr & Hn) & Hb & _). split_and!.
  - exists bs. auto.
  - intros He. apply Hb; [unfold MaxObjectSize; cbn; lia|done].
  - destruct (Block_UnmarshalSia (mkDec input (Some ErrEOF) 0)) as [x d'] eqn:E.
    destruct (dec_safe_Block _ _ _ E) as (Hs & _). by rewrite (Hs ErrEOF eq_refl).
Qed.

(** [Transaction.MarshalSiaSize], the optimised size computation that the
    standardness and size rules rely on, is the length of the encoding. *)
Lemma Transaction_MarshalSiaSize_correct (t : Transaction) :
  Transaction_wire_ok t → Transaction_MarshalSiaSize t = len (Transaction_MarshalSia t).
Proof. exact (Transaction_size_eq t). Qed.

(** The byte offsets the consensus code reads without decoding are right:
    bytes 0-32 and 40-48 of a stored processed block (whose encoding starts
    with the block's) are the parent id and the timestamp, and bytes 48-56 of
    a stored file contract are its window end. *)
Lemma stored_field_offsets (b : Block) (rest : list byte) (fc : FileContract) :
  Block_wire_ok b → FileContract_wire_ok fc →
  byte_slice 0 32 (Block_MarshalSia b ++ rest) = b_ParentID b ∧
  DecUint64 (byte_slice 40 48 (Block_MarshalSia b ++ rest)) = b_Timestamp b ∧
  DecUint64 (byte_slice 48 56 (FileContract_MarshalSia fc)) = fc_WindowEnd fc.
Proof.
  intros Hb Hfc. destruct (Block_timestamp_offset b rest Hb).
  split_and!; [done|done|by apply FileContract_WindowEnd_offset].
Qed.

(** *** Witnesses *)

Definition ex_uc : UnlockConditions := mkUC 7 [mkSPK SignatureEd25519 [x01; x02]] 1.
Definition ex_fc : FileContract :=
  mkFC 4096 zeroHash 10 20 1000 [mkSCO 900 zeroHash] [mkSCO 900 zeroHash] zeroHash 0.
Definition ex_txn : Transaction :=
  mkTxn [mkSCI zeroHash ex_uc] [mkSCO 300 zeroHash; mkSCO 70000 zeroHash] [ex_fc]
    [mkFCR zeroHash ex_uc 3 64 zeroHash 11 12 [mkSCO 900 zeroHash] [] zeroHash]
    [mkSP zeroHash (replicate 64 xaa) [zeroHash; zeroHash]]
    [mkSFI zeroHash ex_uc zeroHash] [mkSFO 5 zeroHash 0] [12; 0] [[x61; x62]]
    [mkTS zeroHash 0 0 (mkCF true [] [] [] [] [] [] [] [] [] []) [x05; x06]].
Definition ex_block : Block :=
  mkBlock (replicate 32 x07) (replicate 8 x01) 1540955800 [mkSCO (3 * 10 ^ 29) zeroHash] [ex_txn].

(** Discharges a wire condition on a closed term. *)
Ltac wire_check :=
  repeat first
    [ progress cbv [Currency_wire_ok hash_ok is_u64 slice_ok uint64s_wire_ok SiacoinOutputs_wire_ok
        SiaPublicKey_wire_ok UnlockConditions_wire_ok SiacoinInput_wire_ok SiacoinOutput_wire_ok
        SiafundInput_wire_ok SiafundOutput_wire_ok FileContract_wire_ok FileContractRevision_wire_ok
        StorageProof_wire_ok CoveredFields_wire_ok TransactionSignature_wire_ok Transaction_wire_ok
        Block_wire_ok]
    | match goal with
      | |- _ ∧ _ => split
      | |- Forall _ _ => first [apply Forall_nil; exact I | apply Forall_cons; split]
      | |- _ ≤ _ => vm_compute; discriminate
      | |- _ < _ => vm_compute; reflexivity
      | |- _ = _ => vm_compute; reflexivity
      end ].

Lemma ex_txn_wire_ok : Transaction_wire_ok ex_txn.
Proof. unfold ex_txn, ex_uc, ex_fc. wire_check. Qed.
Lemma ex_block_wire_ok : Block_wire_ok ex_block.
Proof. unfold ex_block, ex_txn, ex_uc, ex_fc. wire_check. Qed.
Lemma ex_fc_wire_ok : FileContract_wire_ok ex_fc.
Proof. unfold ex_fc. wire_check. Qed.

Lemma Block_roundtrip_witness :
  Unmarshal Block_UnmarshalSia (Block_MarshalSia ex_block) = (ex_block, None).
Proof. apply Block_roundtrip; [apply ex_block_wire_ok|vm_compute; discriminate]. Defined.

Lemma Block_decoder_safe_witness :
  ∃ consumed, Block_MarshalSia ex_block = consumed ++
    dec_r (Block_UnmarshalSia (mkDec (Block_MarshalSia ex_block) None 0)).2.
Proof.
  destruct (Block_decoder_safe (Block_MarshalSia ex_block) _ _
    (surjective_pairing (Block_UnmarshalSia (mkDec (Block_MarshalSia ex_block) None 0))))
    as ((bs & H & _) & _).
  exists bs. exact H.
Defined.

