(* ===== verification/Marshal.v ===== *)
(** * The reflective encoder

    Models [encoding/marshal.go] and [encoding/prefix.go]: [Encode] and [Decode]
    walk a value by its Go type.  [GoType] are the kinds the code distinguishes,
    [denote] the values of a type.  [TSia] is a type with its own codec, given
    by its [SiaCodec]: [MarshalSia] has a value receiver, as that of every type
    of the package [types] that is encoded this way but [StorageProof], so that
    pointers to the type implement [SiaMarshaler] too; [UnmarshalSia] has a
    pointer receiver.  Struct fields are exported ones.  Encoders write to a
    buffer, which cannot fail; decoders read from a [bytes.Buffer], as
    [Unmarshal] and [ReadObject] make them.

    Inside [Decode], errors are panics that it recovers: they are [Err] here. *)

From S2P Require Import Prelude Encoding Currency Target Crypto Types Codec.

(** ** Types and their values *)

(** What a variable of an interface type holds: nothing, a value that
    implements [SiaMarshaler], or another value. *)
Inductive Dynamic : Type :=
  | DNil
  | DSia (A : Type) (codec : SiaCodec A) (v : A)
  | DOther.

(** [TOther]: maps, channels, functions, floats. *)
Inductive GoType : Type :=
  | TBool
  | TInt (bits : Z)
  | TUint (bits : Z)
  | TByte
  | TString
  | TSlice (t : GoType)
  | TArray (n : nat) (t : GoType)
  | TStruct (fs : GoFields)
  | TPtr (t : GoType)
  | TSia (A : Type) (codec : SiaCodec A) (zero : A) (size align : Z)
  | TInterface
  | TOther
with GoFields : Type :=
  | FNil
  | FCons (t : GoType) (fs : GoFields).

Scheme GoType_mut := Induction for GoType Sort Prop
  with GoFields_mut := Induction for GoFields Sort Prop.
Combined Scheme GoType_GoFields_ind from GoType_mut, GoFields_mut.

(** A pointer is nil or points to a value of its own. *)
Fixpoint denote (t : GoType) : Type :=
  match t with
  | TBool => bool
  | TInt _ | TUint _ => Z
  | TByte => byte
  | TString => list byte
  | TSlice t | TArray _ t => list (denote t)
  | TStruct fs => denotes fs
  | TPtr t => option (denote t)
  | TSia A _ _ _ _ => A
  | TInterface => Dynamic
  | TOther => unit
  end
with denotes (fs : GoFields) : Type :=
  match fs with
  | FNil => unit
  | FCons t fs => denote t * denotes fs
  end.

(** [reflect.New] and [reflect.MakeSlice] start from zero values. *)
Fixpoint zero (t : GoType) : denote t :=
  match t with
  | TBool => false
  | TInt _ | TUint _ => 0
  | TByte => x00
  | TString => []
  | TSlice t => []
  | TArray n t => replicate n (zero t)
  | TStruct fs => zeros fs
  | TPtr t => None
  | TSia _ _ z _ _ => z
  | TInterface => DNil
  | TOther => ()
  end
with zeros (fs : GoFields) : denotes fs :=
  match fs with
  | FNil => ()
  | FCons t fs => (zero t, zeros fs)
  end.

(** [Type.Size()] and [Type.Align()] on a 64-bit machine. *)
Definition round_up (z a : Z) : Z := (z + a - 1) / a * a.

Fixpoint Align (t : GoType) : Z :=
  match t with
  | TBool | TByte => 1
  | TInt w | TUint w => w / 8
  | TString | TSlice _ | TPtr _ | TInterface | TOther => 8
  | TArray _ t => Align t
  | TStruct fs => Aligns fs
  | TSia _ _ _ _ a => a
  end
with Aligns (fs : GoFields) : Z :=
  match fs with
  | FNil => 1
  | FCons t fs => Z.max (Align t) (Aligns fs)
  end.

Fixpoint Size (t : GoType) : Z :=
  match t with
  | TBool | TByte => 1
  | TInt w | TUint w => w / 8
  | TString | TInterface => 16
  | TSlice _ => 24
  | TPtr _ | TOther => 8
  | TArray n t => Z.of_nat n * Size t
  | TStruct fs => round_up (Sizes 0 fs) (Aligns fs)
  | TSia _ _ _ s _ => s
  end
with Sizes (off : Z) (fs : GoFields) : Z :=
  match fs with
  | FNil => off
  | FCons t fs => Sizes (round_up off (Align t) + Size t) fs
  end.

(** ** Encoding *)

Definition WriteBool (b : bool) : list byte := if b then [x01] else [x00].
Definition WriteUint64 (u : Z) : list byte := EncUint64 u.
Definition WriteInt (i : Z) : list byte := WriteUint64 (u64 i).
Definition Encoder_WritePrefixedBytes (p : list byte) : list byte := WriteInt (len p) ++ p.

(** Elements one after the other. *)
Fixpoint encode_each {A} (f : A → res (list byte)) (l : list A) : res (list byte) :=
  match l with
  | [] => Ok []
  | x :: l => b ← f x; bs ← encode_each f l; Ok (b ++ bs)
  end.

(** Byte arrays are copied. *)
Definition encode_elems (t : GoType) : (denote t → res (list byte)) → list (denote t) → res (list byte) :=
  match t with
  | TByte => λ _ l, Ok l
  | _ => λ f l, encode_each f l
  end.

(** The length, then the elements. *)
Definition encode_slice (t : GoType) (f : denote t → res (list byte)) (l : list (denote t)) : res (list byte) :=
  if len l =? 0 then Ok (WriteInt 0) else bs ← encode_elems t f l; Ok (WriteInt (len l) ++ bs).

(** [val.Interface().(SiaMarshaler)] succeeds for a pointer to a type with its
    own codec. *)
Definition is_sia (t : GoType) : bool := match t with TSia _ _ _ _ _ => true | _ => false end.

(** The test for [SiaMarshaler] comes first, so no flag is written for a pointer
    to a type with its own codec, and a call through a nil one panics.  After the
    zero byte of any other nil pointer, control reaches the panic below the
    switch. *)
Fixpoint encode (t : GoType) : denote t → res (list byte) :=
  match t with
  | TBool => λ b, Ok (WriteBool b)
  | TInt _ => λ z, Ok (WriteUint64 (u64 z))
  | TUint _ => λ z, Ok (WriteUint64 z)
  | TByte => λ b, Ok (WriteUint64 (Z_of_byte b))
  | TString => λ s, Ok (Encoder_WritePrefixedBytes s)
  | TSlice t => λ l, encode_slice t (encode t) l
  | TArray _ t => λ l, encode_elems t (encode t) l
  | TStruct fs => λ v, encode_fields fs v
  | TPtr t => λ v,
      match v with
      | Some x => bs ← encode t x; Ok (if is_sia t then bs else WriteBool true ++ bs)
      | None => Panic
      end
  | TSia _ c _ _ _ => λ v, Ok (MarshalSia v)
  | TInterface => λ v,
      match v with
      | DSia _ _ x => Ok (MarshalSia x)
      | DNil | DOther => Panic
      end
  | TOther => λ _, Panic
  end
with encode_fields (fs : GoFields) : denotes fs → res (list byte) :=
  match fs with
  | FNil => λ _, Ok []
  | FCons t fs => λ v, b ← encode t v.1; bs ← encode_fields fs v.2; Ok (b ++ bs)
  end.

Definition Marshal (t : GoType) (v : denote t) : res (list byte) := encode t v.

(** The arguments of a variadic call. *)
Definition GoValue : Type := {t : GoType & denote t}.
Definition MarshalAll (vs : list GoValue) : res (list byte) := encode_each (λ v, encode (projT1 v) (projT2 v)) vs.

(** ** Decoding *)

Record Decoder := mkDecoder {
  d_r : list byte;        (* the rest of the input *)
  d_buf : list byte;      (* the scratch buffer, 8 bytes *)
  d_err : option error;
  d_n : Z;                (* bytes counted since the start of the object *)
}.

Definition set_d_err (e : error) (d : Decoder) : Decoder := mkDecoder (d_r d) (d_buf d) (Some e) (d_n d).
Definition set_d_buf (b : list byte) (d : Decoder) : Decoder := mkDecoder (d_r d) b (d_err d) (d_n d).

(** Counting past the limit is an error, whatever happened before. *)
Definition count (k : Z) (d : Decoder) : Decoder :=
  let n := d_n d + k in
  mkDecoder (d_r d) (d_buf d) (if MaxObjectSize <? n then Some (ErrObjectTooLarge n) else d_err d) n.

(** [d.ReadFull(p)]: [p] before and after. *)
Definition ReadFull (p : list byte) (d : Decoder) : list byte * Decoder :=
  match d_err d with
  | Some _ => (p, d)
  | None =>
      let got := take (length p) (d_r d) in
      let err := if decide (length got = length p) then None
                 else Some (match got with [] => ErrEOF | _ => ErrUnexpectedEOF end) in
      (got ++ drop (length got) p, count (len got) (mkDecoder (drop (length p) (d_r d)) (d_buf d) err (d_n d)))
  end.

(** Reading into the first [k] bytes of the scratch buffer. *)
Definition ReadBuf (k : nat) (d : Decoder) : Decoder :=
  let '(p, d') := ReadFull (take k (d_buf d)) d in set_d_buf (p ++ drop k (d_buf d)) d'.

Definition NextUint64 (d : Decoder) : Z * Decoder :=
  let d := ReadBuf 8 d in
  match d_err d with
  | Some _ => (0, d)
  | None => (DecUint64 (d_buf d), d)
  end.

Definition NextBool (d : Decoder) : bool * Decoder :=
  let d := ReadBuf 1 d in
  let b := Z_of_byte (default x00 (d_buf d !! 0%nat)) in
  (b =? 1, if (1 <? b) && bool_decide (d_err d = None) then set_d_err errBadBool d else d).

Definition NextPrefix (elemSize : Z) (d : Decoder) : Z * Decoder :=
  let '(n, d) := NextUint64 d in
  if (2 ^ 31 - 1 <? n) || (MaxSliceSize <? u64 (n * elemSize))
  then (0, set_d_err (ErrSliceTooLarge n elemSize) d)
  else (n, d).

(** [buf.Next(n)] is what there is, up to [n] bytes. *)
Definition ReadPrefixedBytes (d : Decoder) : list byte * Decoder :=
  let '(n, d) := NextPrefix 1 d in
  let b := take (Z.to_nat n) (d_r d) in
  let err := if (len b <? n) && bool_decide (d_err d = None) then Some ErrUnexpectedEOF else d_err d in
  (b, mkDecoder (drop (Z.to_nat n) (d_r d)) (d_buf d) err (d_n d + len b)).

(** Decoding code that may panic. *)
Definition DecP (A : Type) : Type := Decoder → res A * Decoder.

#[global] Instance decp_ret : MRet DecP := λ A a d, (Ok a, d).
#[global] Instance decp_bind : MBind DecP := λ A B f m d,
  match m d with
  | (Ok a, d) => f a d
  | (Err e, d) => (Err e, d)
  | (Panic, d) => (Panic, d)
  end.

Definition lift {A} (m : Decoder → A * Decoder) : DecP A := λ d, let '(a, d') := m d in (Ok a, d').

(** [if d.err != nil { panic(d.err) }] *)
Definition check_err : DecP unit := λ d, match d_err d with Some e => (Err e, d) | None => (Ok (), d) end.
Definition checked {A} (m : DecP A) : DecP A := a ← m; _ ← check_err; mret a.

(** [u.UnmarshalSia(d.r)]: its own count, its own errors. *)
Definition decode_sia {A} (c : SiaCodec A) : DecP A := λ d,
  let '(a, h) := UnmarshalSia (mkDec (d_r d) None 0) in
  let d := mkDecoder (dec_r h) (d_buf d) (d_err d) (d_n d) in
  match dec_err h with Some e => (Err e, d) | None => (Ok a, d) end.

(** Elements one after the other, into those that are there. *)
Fixpoint decode_each {A} (f : A → DecP A) (old : list A) : DecP (list A) :=
  match old with
  | [] => mret []
  | x :: old => y ← f x; ys ← decode_each f old; mret (y :: ys)
  end.

Definition decode_elems (t : GoType) : (denote t → DecP (denote t)) → list (denote t) → DecP (list (denote t)) :=
  match t with
  | TByte => λ _ p, lift (ReadFull p)
  | _ => λ f l, decode_each f l
  end.

(** [reflect.SetInt] and [SetUint] keep the low bits. *)
Definition wrap_int (w z : Z) : Z := (z + 2 ^ (w - 1)) `mod` 2 ^ w - 2 ^ (w - 1).
Definition wrap_uint (w z : Z) : Z := z `mod` 2 ^ w.

(** [old] is what the variable holds: an empty slice and a nil pointer on the
    wire leave it as it is. *)
Fixpoint decode (t : GoType) : denote t → DecP (denote t) :=
  match t with
  | TBool => λ _, checked (lift NextBool)
  | TInt w => λ _, checked (u ← lift NextUint64; mret (wrap_int w (i64 u)))
  | TUint w => λ _, checked (u ← lift NextUint64; mret (wrap_uint w u))
  | TByte => λ _, checked (u ← lift NextUint64; mret (byte_of_Z u))
  | TString => λ _, checked (lift ReadPrefixedBytes)
  | TSlice t => λ old,
      checked (n ← lift (NextPrefix (Size t));
        if n =? 0 then mret old else decode_elems t (decode t) (replicate (Z.to_nat n) (zero t)))
  | TArray _ t => λ old, checked (decode_elems t (decode t) old)
  | TStruct fs => λ old, checked (decode_fields fs old)
  | TPtr t => λ old,
      checked (valid ← lift NextBool;
        if negb valid then mret old else x ← decode t (default (zero t) old); mret (Some x))
  | TSia _ c _ _ _ => λ _, decode_sia c
  | TInterface | TOther => λ _ d, (Err errUnknownType, d)
  end
with decode_fields (fs : GoFields) : denotes fs → DecP (denotes fs) :=
  match fs with
  | FNil => λ old, mret old
  | FCons t fs => λ old, x ← decode t old.1; y ← decode_fields fs old.2; mret (x, y)
  end.

Definition NewDecoder (b : list byte) : Decoder := mkDecoder b (replicate 8 x00) None 0.

(** [d.Decode(&v)] *)
Definition Decode (t : GoType) (old : denote t) : DecP (denote t) := λ d,
  decode t old (mkDecoder (d_r d) (d_buf d) (d_err d) 0).

Fixpoint DecodeAll (vs : list GoValue) : DecP (list GoValue) :=
  match vs with
  | [] => mret []
  | v :: vs => x ← Decode (projT1 v) (projT2 v); xs ← DecodeAll vs; mret (existT (projT1 v) x :: xs)
  end.

(** The value is that of the variable afterwards; trailing bytes are ignored. *)
Definition Unmarshal_into (t : GoType) (old : denote t) (b : list byte) : res (denote t) := (Decode t old (NewDecoder b)).1.
Definition UnmarshalAll (b : list byte) (vs : list GoValue) : res (list GoValue) := (DecodeAll vs (NewDecoder b)).1.

(** ** Length-prefixed messages ([encoding/prefix.go])

    A reader delivers some bytes, and then an error: [io.EOF], or the error of
    a connection that was closed or timed out. *)

Record Reader := mkReader { rd_bytes : list byte; rd_end : error }.

Definition io_ReadFull_from (k : nat) (r : Reader) : res (list byte) * Reader :=
  let got := take k (rd_bytes r) in
  let err := match rd_end r, got with ErrEOF, _ :: _ => ErrUnexpectedEOF | e, _ => e end in
  (if decide (length got = k) then Ok got else Err err, mkReader (drop k (rd_bytes r)) (rd_end r)).

Definition prefix_ReadPrefixedBytes (r : Reader) (maxLen : Z) : res (list byte) * Reader :=
  match io_ReadFull_from 8 r with
  | (Ok prefix, r) =>
      let dataLen := DecUint64 prefix in
      if maxLen <? dataLen then (Err errPrefixTooLarge, r) else io_ReadFull_from (Z.to_nat dataLen) r
  | (x, r) => (x, r)
  end.

Definition ReadObject (t : GoType) (old : denote t) (r : Reader) (maxLen : Z) : res (denote t) * Reader :=
  match prefix_ReadPrefixedBytes r maxLen with
  | (Ok data, r) => (Unmarshal_into t old data, r)
  | (Err e, r) => (Err e, r)
  | (Panic, r) => (Panic, r)
  end.

(** What is written. *)
Definition prefix_WritePrefixedBytes (data : list byte) : list byte := WriteInt (len data) ++ data.
Definition WriteObject (t : GoType) (v : denote t) : res (list byte) := data ← Marshal t v; Ok (prefix_WritePrefixedBytes data).

(** ** Specification *)

(** Values that can be encoded and read back: no nil pointer, no pointer to a
    type with its own codec, no interface, numbers within their width, slices
    within the limits of the decoder. *)
Fixpoint encodable (t : GoType) : denote t → Prop :=
  match t with
  | TBool | TByte => λ _, True
  | TInt w => λ z, 0 < w ≤ 64 ∧ - 2 ^ (w - 1) ≤ z < 2 ^ (w - 1)
  | TUint w => λ z, 0 < w ≤ 64 ∧ 0 ≤ z < 2 ^ w
  | TString => λ s, len s ≤ MaxSliceSize
  | TSlice t => λ l, len l ≤ 2 ^ 31 - 1 ∧ 0 ≤ Size t ∧ len l * Size t ≤ MaxSliceSize ∧ Forall (encodable t) l
  | TArray n t => λ l, length l = n ∧ Forall (encodable t) l
  | TStruct fs => λ v, encodables fs v
  | TPtr t => λ v, match v with Some x => is_sia t = false ∧ encodable t x | None => False end
  | TSia _ c _ _ _ => λ v, wire_ok v ∧ len (MarshalSia v) ≤ MaxObjectSize
  | TInterface | TOther => λ _, False
  end
with encodables (fs : GoFields) : denotes fs → Prop :=
  match fs with
  | FNil => λ _, True
  | FCons t fs => λ v, encodable t v.1 ∧ encodables fs v.2
  end.

Definition counted_elems (t : GoType) : (denote t → Z) → list (denote t) → Z :=
  match t with
  | TByte => λ _ l, len l
  | _ => λ f l, sumZ f l
  end.

(** The bytes that the decoder counts: those of types with their own decoder
    are not. *)
Fixpoint counted (t : GoType) : denote t → Z :=
  match t with
  | TBool => λ _, 1
  | TInt _ | TUint _ | TByte => λ _, 8
  | TString => λ s, 8 + len s
  | TSlice t => λ l, 8 + counted_elems t (counted t) l
  | TArray _ t => λ l, counted_elems t (counted t) l
  | TStruct fs => λ v, counteds fs v
  | TPtr t => λ v, match v with Some x => 1 + counted t x | None => 1 end
  | TSia _ _ _ _ _ | TInterface | TOther => λ _, 0
  end
with counteds (fs : GoFields) : denotes fs → Z :=
  match fs with
  | FNil => λ _, 0
  | FCons t fs => λ v, counted t v.1 + counteds fs v.2
  end.

(** What the type checker of Go guarantees of a variable. *)
Fixpoint typed (t : GoType) : denote t → Prop :=
  match t with
  | TBool | TByte | TString | TSia _ _ _ _ _ | TInterface | TOther => λ _, True
  | TInt w => λ z, 0 < w → - 2 ^ (w - 1) ≤ z < 2 ^ (w - 1)
  | TUint w => λ z, 0 < w → 0 ≤ z < 2 ^ w
  | TSlice t => λ l, Forall (typed t) l
  | TArray n t => λ l, length l = n ∧ Forall (typed t) l
  | TStruct fs => λ v, typeds fs v
  | TPtr t => λ v, match v with Some x => typed t x | None => True end
  end
with typeds (fs : GoFields) : denotes fs → Prop :=
  match fs with
  | FNil => λ _, True
  | FCons t fs => λ v, typed t v.1 ∧ typeds fs v.2
  end.

(** ** Decoding what was encoded *)

(** On an input that starts with [bs], the decoder yields [x], leaves the rest
    and has counted [k] bytes. *)
Definition reads {A} (m : DecP A) (bs : list byte) (k : Z) (x : A) : Prop :=
  0 ≤ k ∧ ∀ rest buf n, length buf = 8%nat → 0 ≤ n → n + k ≤ MaxObjectSize →
    ∃ buf', length buf' = 8%nat ∧
      m (mkDecoder (bs ++ rest) buf None n) = (Ok x, mkDecoder rest buf' None (n + k)).

Lemma reads_ret {A} (x : A) : reads (mret x) [] 0 x.
Proof. split; [done|]. intros rest buf n Hb _ _. exists buf. by rewrite Z.add_0_r. Qed.

Section reads.
Context {A B : Type}.

Lemma reads_bind (m : DecP A) (f : A → DecP B) bs1 bs2 k1 k2 x y :
  reads m bs1 k1 x → reads (f x) bs2 k2 y → reads (x ← m; f x) (bs1 ++ bs2) (k1 + k2) y.
Proof.
  intros [H0 H1] [H0' H2]. split; [lia|]. intros rest buf n Hb Hn Hle. rewrite <- app_assoc.
  destruct (H1 (bs2 ++ rest) buf n) as (buf1 & Hb1 & E1); [done|lia|lia|].
  destruct (H2 rest buf1 (n + k1)) as (buf2 & Hb2 & E2); [done|lia|lia|].
  exists buf2. split; [done|]. unfold mbind, decp_bind. rewrite E1, E2. do 2 f_equal. lia.
Qed.

Lemma reads_checked (m : DecP A) bs k x : reads m bs k x → reads (checked m) bs k x.
Proof.
  intros [H0 H]. split; [done|]. intros rest buf n Hb Hn Hle. destruct (H rest buf n) as (buf' & Hb' & E); [done..|].
  exists buf'. split; [done|]. unfold checked, mbind, decp_bind. by rewrite E.
Qed.

Lemma reads_map (m : DecP A) (f : A → B) bs k x : reads m bs k x → reads (a ← m; mret (f a)) bs k (f x).
Proof.
  intros H. rewrite <- (app_nil_r bs), <- (Z.add_0_r k). apply (reads_bind m (λ a, mret (f a)) _ _ _ _ _ _ H), reads_ret.
Qed.
End reads.

Lemma ReadFull_prefix p bs rest buf n :
  length bs = length p → n + len bs ≤ MaxObjectSize →
  ReadFull p (mkDecoder (bs ++ rest) buf None n) = (bs, mkDecoder rest buf None (n + len bs)).
Proof.
  intros Hl Hle. unfold ReadFull, count. cbn [d_err d_r d_buf d_n]. rewrite <- Hl, take_app_length, drop_app_length.
  rewrite decide_True by done. rewrite (drop_ge p), app_nil_r by lia. by rewrite (proj2 (Z.ltb_ge _ _)) by lia.
Qed.

Lemma reads_ReadFull p bs : length bs = length p → reads (lift (ReadFull p)) bs (len bs) bs.
Proof.
  intros Hl. split; [apply len_nonneg|]. intros rest buf n Hb Hn Hle. exists buf. split; [done|].
  unfold lift. by rewrite ReadFull_prefix.
Qed.

Lemma ReadBuf_prefix k bs rest buf n :
  length bs = k → length buf = 8%nat → (k ≤ 8)%nat → n + len bs ≤ MaxObjectSize →
  ReadBuf k (mkDecoder (bs ++ rest) buf None n) = mkDecoder rest (bs ++ drop k buf) None (n + len bs).
Proof.
  intros Hl Hb Hk Hle. unfold ReadBuf. cbn [d_buf].
  rewrite ReadFull_prefix by (rewrite ?length_take; lia). done.
Qed.

Lemma reads_NextUint64 u : is_u64 u → reads (lift NextUint64) (EncUint64 u) 8 u.
Proof.
  intros Hu. split; [done|]. intros rest buf n Hb Hn Hle. exists (EncUint64 u).
  split; [apply length_EncUint64|]. unfold lift, NextUint64.
  rewrite ReadBuf_prefix by (rewrite ?length_EncUint64, ?len_EncUint64; lia).
  rewrite drop_ge, app_nil_r by lia. cbn [d_err d_buf]. by rewrite DecUint64_EncUint64, len_EncUint64.
Qed.

Lemma reads_NextBool b : reads (lift NextBool) (WriteBool b) 1 b.
Proof.
  split; [done|]. intros rest buf n Hb Hn Hle. exists (WriteBool b ++ drop 1 buf).
  split; [rewrite length_app, length_drop; destruct b; cbn; lia|]. unfold lift, NextBool.
  rewrite ReadBuf_prefix; [by destruct b|by destruct b|done|lia|by destruct b].
Qed.

Lemma reads_NextPrefix k sz :
  0 ≤ k ≤ 2 ^ 31 - 1 → 0 ≤ sz → k * sz ≤ MaxSliceSize → reads (lift (NextPrefix sz)) (EncUint64 k) 8 k.
Proof.
  intros Hk Hsz Hle. destruct (reads_NextUint64 k ltac:(ulia)) as [H0 H]. split; [done|].
  intros rest buf n Hb Hn Hn'. destruct (H rest buf n Hb Hn Hn') as (buf' & Hb' & E). exists buf'. split; [done|].
  unfold lift, NextPrefix in *. destruct (NextUint64 _) as [k' d']. injection E as -> ->.
  unfold MaxSliceSize in *. rewrite u64_id by (unfold is_u64; nia).
  rewrite (proj2 (Z.ltb_ge _ k)) by lia. by rewrite (proj2 (Z.ltb_ge _ _)) by lia.
Qed.

Lemma reads_ReadPrefixedBytes s :
  len s ≤ MaxSliceSize → reads (lift ReadPrefixedBytes) (EncUint64 (len s) ++ s) (8 + len s) s.
Proof.
  intros Hs. pose proof (len_nonneg s). destruct (reads_NextPrefix (len s) 1) as [_ HP]; [unfold MaxSliceSize in *; lia..|].
  split; [lia|]. intros rest buf n Hb Hn Hle. rewrite <- app_assoc.
  destruct (HP (s ++ rest) buf n Hb Hn ltac:(lia)) as (buf' & Hb' & E). exists buf'. split; [done|].
  unfold lift, ReadPrefixedBytes in *. destruct (NextPrefix 1 _) as [k' d']. injection E as -> ->. cbn [d_r d_err d_buf d_n].
  assert (Z.to_nat (len s) = length s) as -> by (unfold len; lia).
  rewrite take_app_length, drop_app_length, Z.ltb_irrefl. cbn [andb].
  do 2 f_equal. lia.
Qed.

Lemma reads_sia {A} (c : SiaCodec A) (v : A) :
  wire_ok v → len (MarshalSia v) ≤ MaxObjectSize → reads (decode_sia c) (MarshalSia v) 0 v.
Proof.
  intros Hv Hl. split; [done|]. intros rest buf n Hb _ _. exists buf. split; [done|]. unfold decode_sia. cbn [d_r].
  rewrite (codec_decodes v Hv rest 0) by (done || lia). cbn [dec_err dec_r]. by rewrite Z.add_0_r.
Qed.

(** *** Elements *)

Definition is_byte (t : GoType) : bool := match t with TByte => true | _ => false end.

Lemma encode_elems_other t f l : is_byte t = false → encode_elems t f l = encode_each f l.
Proof. by destruct t. Qed.
Lemma decode_elems_other t f l : is_byte t = false → decode_elems t f l = decode_each f l.
Proof. by destruct t. Qed.
Lemma counted_elems_other t f l : is_byte t = false → counted_elems t f l = sumZ f l.
Proof. by destruct t. Qed.

Lemma reads_each {A} (enc : A → res (list byte)) (dec : A → DecP A) (cnt : A → Z) (ok : A → Prop) z l :
  (∀ v, ok v → ∃ bs, enc v = Ok bs ∧ reads (dec z) bs (cnt v) v) → Forall ok l →
  ∃ bs, encode_each enc l = Ok bs ∧ reads (decode_each dec (replicate (length l) z)) bs (sumZ cnt l) l.
Proof.
  intros H Hl. induction Hl as [|v l Hv _ (bs & E & HR)]; cbn [encode_each decode_each replicate length sumZ].
  { exists []. split; [done|apply reads_ret]. }
  destruct (H v Hv) as (b & Eb & Hb). exists (b ++ bs). rewrite Eb, E. split; [done|].
  apply (reads_bind _ _ _ _ _ _ _ _ Hb). by apply (reads_map (decode_each dec _) (λ ys, v :: ys)).
Qed.

Lemma reads_elems t l :
  (∀ v, encodable t v → ∃ bs, encode t v = Ok bs ∧ reads (decode t (zero t)) bs (counted t v) v) →
  Forall (encodable t) l →
  ∃ bs, encode_elems t (encode t) l = Ok bs ∧
    reads (decode_elems t (decode t) (replicate (length l) (zero t))) bs (counted_elems t (counted t) l) l.
Proof.
  intros H Hl. destruct (is_byte t) eqn:E.
  - destruct t; try done. exists l. split; [done|]. cbn [decode_elems]. apply reads_ReadFull. by rewrite length_replicate.
  - rewrite encode_elems_other, decode_elems_other, counted_elems_other by done. by eapply reads_each.
Qed.

Lemma wrap_int_i64 w z : 0 < w ≤ 64 → - 2 ^ (w - 1) ≤ z < 2 ^ (w - 1) → wrap_int w (i64 (u64 z)) = z.
Proof.
  intros Hw Hz. pose proof (Z.pow_le_mono_r 2 (w - 1) 63 ltac:(lia) ltac:(lia)).
  assert (i64 (u64 z) = z) as ->.
  { unfold i64, u64. rewrite Zplus_mod_idemp_l, Z.mod_small; lia. }
  unfold wrap_int. assert (2 ^ w = 2 * 2 ^ (w - 1)) by (rewrite <- Z.pow_succ_r by lia; f_equal; lia).
  rewrite Z.mod_small; lia.
Qed.

Lemma len_0 {A} (l : list A) : len l = 0 → l = [].
Proof. by destruct l. Qed.

Lemma reads_slice t (l : list (denote t)) :
  (∀ v, encodable t v → ∃ bs, encode t v = Ok bs ∧ reads (decode t (zero t)) bs (counted t v) v) →
  encodable (TSlice t) l →
  ∃ bs, encode (TSlice t) l = Ok bs ∧ reads (decode (TSlice t) []) bs (counted (TSlice t) l) l.
Proof.
  intros IH (Hl & Hs0 & Hs & Hv). destruct (reads_elems t l IH Hv) as (bs & E & HR). pose proof (len_nonneg l) as Hl0.
  cbn [encode decode counted]. unfold encode_slice. change (len l ≤ 2 ^ 31 - 1) in Hl. change (len l * Size t ≤ MaxSliceSize) in Hs.
  remember (len l) as k eqn:Ek.
  assert (WriteInt k = EncUint64 k) as EW by (unfold WriteInt, WriteUint64; rewrite u64_id by ulia; done).
  destruct (Z.eqb_spec k 0) as [E0|Hne].
  - rewrite E0 in Ek. symmetry in Ek. apply len_0 in Ek as ->. exists (WriteInt 0). split; [done|]. apply reads_checked.
    rewrite <- (app_nil_r (WriteInt 0)). assert (counted_elems t (counted t) [] = 0) as E1 by (by destruct t). rewrite E1.
    apply (reads_bind _ _ _ _ _ _ 0); [apply reads_NextPrefix; unfold MaxSliceSize; lia|apply reads_ret].
  - exists (WriteInt k ++ bs). rewrite E. split; [done|]. rewrite EW. apply reads_checked.
    apply (reads_bind _ _ _ _ _ _ k); [by apply reads_NextPrefix|].
    rewrite (proj2 (Z.eqb_neq _ _)) by done. rewrite Ek. unfold len. by rewrite Nat2Z.id.
Qed.

Lemma decode_encode :
  (∀ t v, encodable t v → ∃ bs, encode t v = Ok bs ∧ reads (decode t (zero t)) bs (counted t v) v) ∧
  (∀ fs v, encodables fs v → ∃ bs, encode_fields fs v = Ok bs ∧ reads (decode_fields fs (zeros fs)) bs (counteds fs v) v).
Proof.
  apply GoType_GoFields_ind; cbn [encodable encodables encode encode_fields decode decode_fields counted counteds denote denotes].
  - intros v _. eexists. split; [done|]. apply reads_checked, reads_NextBool.
  - intros w z [Hw Hz]. eexists. split; [done|]. apply reads_checked.
    rewrite <- (wrap_int_i64 w z Hw Hz) at 2. apply (reads_map (lift NextUint64) (λ u, wrap_int w (i64 u))), reads_NextUint64, u64_range.
  - intros w z [Hw Hz]. eexists. split; [done|]. apply reads_checked.
    pose proof (Z.pow_le_mono_r 2 w 64 ltac:(lia) ltac:(lia)).
    rewrite <- (Z.mod_small z (2 ^ w)) at 2 by lia. apply (reads_map (lift NextUint64) (wrap_uint w)), reads_NextUint64. ulia.
  - intros b _. eexists. split; [done|]. apply reads_checked.
    rewrite <- (byte_of_Z_of_byte b) at 2. apply (reads_map (lift NextUint64) byte_of_Z), reads_NextUint64.
    pose proof (Z_of_byte_range b). ulia.
  - intros s Hs. eexists. split; [done|]. apply reads_checked. unfold Encoder_WritePrefixedBytes, WriteInt, WriteUint64.
    pose proof (len_nonneg s). rewrite u64_id by (unfold is_u64, MaxSliceSize in *; lia). by apply reads_ReadPrefixedBytes.
  - intros t IH l Hv. exact (reads_slice t l IH Hv).
  - intros n t IH l [<- Hv]. destruct (reads_elems t l IH Hv) as (bs & E & HR). exists bs. split; [done|]. by apply reads_checked.
  - intros fs IH v Hv. destruct (IH v Hv) as (bs & E & HR). exists bs. split; [done|]. by apply reads_checked.
  - intros t IH [x|] Hv; [|done]. destruct Hv as [Hs Hv], (IH x Hv) as (bs & E & HR). exists (WriteBool true ++ bs). rewrite E, Hs.
    split; [done|].
    apply reads_checked. apply (reads_bind _ _ _ _ _ _ true); [apply reads_NextBool|]. by apply (reads_map (decode t (zero t)) Some).
  - intros A c z sz al v [Hv Hl]. eexists. split; [done|]. by apply reads_sia.
  - done.
  - done.
  - intros [] _. exists []. split; [done|]. apply reads_ret.
  - intros t IH fs IH' [x y] [Hx Hy]. cbn [fst snd] in *. destruct (IH x Hx) as (b & Eb & Hb), (IH' y Hy) as (bs & E & HR).
    exists (b ++ bs). rewrite Eb, E. split; [done|]. apply (reads_bind _ _ _ _ _ _ _ _ Hb). by apply (reads_map _ (pair x)).
Qed.

(** ** Pointers that are not read back *)

Lemma NextBool_cons b bs buf n :
  length buf = 8%nat → n + 1 ≤ MaxObjectSize →
  NextBool (mkDecoder (b :: bs) buf None n) =
    (Z_of_byte b =? 1, mkDecoder bs (b :: drop 1 buf) (if 1 <? Z_of_byte b then Some errBadBool else None) (n + 1)).
Proof.
  intros Hb Hn. unfold NextBool. change (b :: bs) with ([b] ++ bs).
  rewrite (ReadBuf_prefix 1) by (first [done|lia]). change (len [b]) with 1. cbn. by destruct (1 <? Z_of_byte b).
Qed.

(** The first byte of the input is the flag of a pointer. *)
Lemma decode_ptr_flag t b bs :
  (decode (TPtr t) None (mkDecoder (b :: bs) (replicate 8 x00) None 0)).1 =
    if 1 <? Z_of_byte b then Err errBadBool
    else (checked (if negb (Z_of_byte b =? 1) then mret None else x ← decode t (zero t); mret (Some x))
      (mkDecoder bs (b :: replicate 7 x00) None 1)).1.
Proof.
  cbn [decode]. unfold checked, mbind, decp_bind, lift.
  rewrite NextBool_cons by (unfold MaxObjectSize; done || lia). cbn [drop replicate default].
  destruct (Z.ltb_spec 1 (Z_of_byte b)); [|done]. by rewrite (proj2 (Z.eqb_neq _ 1)) by lia.
Qed.

(** ** Types are respected *)

(** What holds of every value a decoder returns. *)
Definition yields {A} (m : DecP A) (P : A → Prop) : Prop := ∀ d x d', m d = (Ok x, d') → P x.

Lemma yields_ret {A} (x : A) (P : A → Prop) : P x → yields (mret x) P.
Proof. by intros H d y d' [= <- <-]. Qed.

Lemma yields_any {A} (m : DecP A) : yields m (λ _, True).
Proof. done. Qed.

Lemma yields_bind {A B} (m : DecP A) (f : A → DecP B) (P : A → Prop) (Q : B → Prop) :
  yields m P → (∀ x, P x → yields (f x) Q) → yields (x ← m; f x) Q.
Proof.
  intros Hm Hf d y d' H. unfold mbind, decp_bind in H. destruct (m d) as [[x| |] d1] eqn:E; [|done..].
  exact (Hf x (Hm _ _ _ E) _ _ _ H).
Qed.

Lemma yields_checked {A} (m : DecP A) (P : A → Prop) : yields m P → yields (checked m) P.
Proof.
  intros H. apply (yields_bind m _ P P H). intros x Hx. apply (yields_bind _ _ _ _ (yields_any _)). intros _ _. by apply yields_ret.
Qed.

Lemma yields_each {A} (f : A → DecP A) (P : A → Prop) old :
  (∀ x, P x → yields (f x) P) → Forall P old → yields (decode_each f old) (λ l, length l = length old ∧ Forall P l).
Proof.
  intros Hf Hold. induction Hold as [|x old Hx _ IH]; cbn [decode_each]; [by apply yields_ret|].
  apply (yields_bind _ _ _ _ (Hf x Hx)). intros y Hy. apply (yields_bind _ _ _ _ IH). intros ys [Hl Hys].
  apply yields_ret. split; [cbn; by rewrite Hl|by constructor].
Qed.

Lemma yields_bytes p : yields (lift (ReadFull p)) (λ l, length l = length p).
Proof.
  intros d x d'. unfold lift, ReadFull. destruct (d_err d); [by intros [= <- <-]|]. intros [= <- <-].
  rewrite length_app, length_drop, length_take. lia.
Qed.

Lemma yields_elems t old :
  (∀ x, typed t x → yields (decode t x) (typed t)) → Forall (typed t) old →
  yields (decode_elems t (decode t) old) (λ l, length l = length old ∧ Forall (typed t) l).
Proof.
  intros IH Hold. destruct (is_byte t) eqn:E.
  - destruct t; try done. intros d x d' H. split; [exact (yields_bytes old d x d' H)|by apply Forall_true].
  - rewrite decode_elems_other by done. by apply yields_each.
Qed.

Lemma zero_typed : (∀ t, typed t (zero t)) ∧ (∀ fs, typeds fs (zeros fs)).
Proof.
  apply GoType_GoFields_ind; cbn [typed typeds zero zeros]; try done.
  - intros w Hw. pose proof (Z.pow_pos_nonneg 2 (w - 1)). lia.
  - intros w Hw. pose proof (Z.pow_pos_nonneg 2 w). lia.
  - intros n t IH. split; [apply length_replicate|by apply Forall_replicate].
Qed.

Lemma decode_typed :
  (∀ t old, typed t old → yields (decode t old) (typed t)) ∧
  (∀ fs old, typeds fs old → yields (decode_fields fs old) (typeds fs)).
Proof.
  apply GoType_GoFields_ind; cbn [typed typeds decode decode_fields]; try done.
  - intros w old _. apply yields_checked, (yields_bind _ _ _ _ (yields_any _)). intros u _. apply yields_ret. intros Hw.
    unfold wrap_int. assert (2 ^ w = 2 * 2 ^ (w - 1)) by (rewrite <- Z.pow_succ_r by lia; f_equal; lia).
    pose proof (Z.mod_pos_bound (i64 u + 2 ^ (w - 1)) (2 ^ w)). pose proof (Z.pow_pos_nonneg 2 (w - 1)). lia.
  - intros w old _. apply yields_checked, (yields_bind _ _ _ _ (yields_any _)). intros u _. apply yields_ret. intros Hw.
    apply Z.mod_pos_bound. apply Z.pow_pos_nonneg; lia.
  - intros t IH old Hold. apply yields_checked, (yields_bind _ _ _ _ (yields_any _)). intros n _.
    destruct (n =? 0); [by apply yields_ret|]. intros d l d' H.
    assert (Forall (typed t) (replicate (Z.to_nat n) (zero t))) as Hz by apply Forall_replicate, zero_typed.
    exact (proj2 (yields_elems t _ IH Hz d l d' H)).
  - intros n t IH old [Hn Hold]. apply yields_checked. intros d l d' H.
    destruct (yields_elems t old IH Hold d l d' H) as [Hl Hv]. split; [by etrans|done].
  - intros fs IH old Hold. apply yields_checked. by apply IH.
  - intros t IH old Hold. apply yields_checked, (yields_bind _ _ _ _ (yields_any _)). intros valid _.
    destruct (negb valid); [by apply yields_ret|]. apply (yields_bind _ _ (typed t)).
    + apply IH. destruct old; [done|apply zero_typed].
    + intros x Hx. by apply yields_ret.
  - intros t IH fs IH' [x y] [Hx Hy]. apply (yields_bind _ _ _ _ (IH x Hx)). intros x' Hx'.
    apply (yields_bind _ _ _ _ (IH' y Hy)). intros y' Hy'. by apply yields_ret.
Qed.

(** ** Messages *)

Lemma io_ReadFull_from_app bs rest e : io_ReadFull_from (length bs) (mkReader (bs ++ rest) e) = (Ok bs, mkReader rest e).
Proof. unfold io_ReadFull_from. cbn [rd_bytes rd_end]. rewrite take_app_length, drop_app_length. by rewrite decide_True. Qed.

(** A message within the limit of the reader arrives, and the next message
    starts where it ends; a longer one is refused. *)
Lemma ReadObject_WriteObject t (v : denote t) maxLen rest e :
  encodable t v → counted t v ≤ MaxObjectSize → maxLen < 2 ^ 64 →
  ∃ data, Marshal t v = Ok data ∧ WriteObject t v = Ok (prefix_WritePrefixedBytes data) ∧
    (len data ≤ maxLen → ReadObject t (zero t) (mkReader (prefix_WritePrefixedBytes data ++ rest) e) maxLen = (Ok v, mkReader rest e)) ∧
    (maxLen < len data < 2 ^ 64 →
     ReadObject t (zero t) (mkReader (prefix_WritePrefixedBytes data ++ rest) e) maxLen =
       (Err errPrefixTooLarge, mkReader (data ++ rest) e)).
Proof.
  intros Hv Hc Hmax. destruct (proj1 decode_encode t v Hv) as (data & E & H0 & HR). exists data. unfold WriteObject, Marshal. rewrite E.
  split; [done|]. split; [done|]. pose proof (len_nonneg data). unfold ReadObject, prefix_WritePrefixedBytes, WriteInt, WriteUint64, prefix_ReadPrefixedBytes.
  pose proof (io_ReadFull_from_app (EncUint64 (u64 (len data))) (data ++ rest) e) as Ep. rewrite length_EncUint64 in Ep.
  rewrite <- app_assoc, Ep. split; intros Hle.
  - rewrite u64_id, DecUint64_EncUint64 by ulia. rewrite (proj2 (Z.ltb_ge _ _)) by lia. unfold len. rewrite Nat2Z.id.
    rewrite io_ReadFull_from_app. destruct (HR [] (replicate 8 x00) 0) as (buf' & _ & ER); [done|lia|lia|].
    unfold Unmarshal_into, Decode, NewDecoder. cbn [d_r d_buf d_err]. rewrite app_nil_r in ER. by rewrite ER.
  - rewrite u64_id, DecUint64_EncUint64 by ulia. by rewrite (proj2 (Z.ltb_lt _ _)) by lia.
Qed.

(** ** Main properties *)

(** C22: The reflective encoding round-trips for integers of any width, strings,
    slices, arrays, structs, types with their own codec and non-nil pointers to
    types without one, nested in any way: decoding the encoding of a value into
    a zero variable gives back the value, whatever follows it.  Slices and
    objects must be within the limits of the decoder. *)
Theorem Unmarshal_Marshal (t : GoType) (v : denote t) (rest : list byte) :
  encodable t v → counted t v ≤ MaxObjectSize →
  ∃ data, Marshal t v = Ok data ∧ Unmarshal_into t (zero t) (data ++ rest) = Ok v.
Proof.
  intros Hv Hc. destruct (proj1 decode_encode t v Hv) as (data & E & H0 & HR). exists data. split; [done|].
  destruct (HR rest (replicate 8 x00) 0) as (buf' & _ & ER); [done|lia|lia|].
  unfold Unmarshal_into, Decode, NewDecoder. cbn [d_r d_buf d_err]. by rewrite ER.
Qed.

(** C36: Two kinds of pointers are not read back.  A nil pointer cannot be
    encoded at all: [Marshal] panics, although the document of the encoding
    gives it a zero byte.  A pointer to a type with its own codec is encoded
    without the leading flag, but decoding reads one: where the encoding starts
    with a zero byte the result is a nil pointer without any error, and where it
    starts with a byte above one it is an error. *)
Theorem pointers_not_read_back (A : Type) (codec : SiaCodec A) (z : A) (size align : Z) (t : GoType) (v : A) :
  let T := TSia A codec z size align in
  Marshal (TPtr t) None = Panic ∧
  Marshal (TPtr T) (Some v) = Marshal T v ∧
  ∀ b bs, Marshal (TPtr T) (Some v) = Ok (b :: bs) →
    (Z_of_byte b = 0 → Unmarshal_into (TPtr T) None (b :: bs) = Ok None) ∧
    (1 < Z_of_byte b → Unmarshal_into (TPtr T) None (b :: bs) = Err errBadBool).
Proof.
  cbn zeta. split_and!; [done..|]. intros b bs _. unfold Unmarshal_into, Decode, NewDecoder. cbn [d_r d_buf d_err].
  rewrite decode_ptr_flag. split; intros Hb; [by rewrite Hb|]. by rewrite (proj2 (Z.ltb_lt 1 _)) by done.
Qed.

(** C35: Decoding respects types, on any input: what [Unmarshal] stores in a
    well-typed variable without an error is a value of its type, with numbers
    truncated to their width and arrays of their length, however the bytes were
    chosen. *)
Theorem Unmarshal_well_typed (t : GoType) (old v : denote t) (b : list byte) :
  typed t old → Unmarshal_into t old b = Ok v → typed t v.
Proof.
  intros Hold H. unfold Unmarshal_into in H. destruct (Decode t old (NewDecoder b)) as [r d] eqn:E. cbn in H. subst r.
  exact (proj1 decode_typed t old Hold _ _ _ E).
Qed.

Module example_struct.
(** [struct { B bool; I int32; Is []uint16; S string; H [3]byte; P *int }] *)
Definition ty : GoType :=
  TStruct (FCons TBool (FCons (TInt 32) (FCons (TSlice (TUint 16)) (FCons TString (FCons (TArray 3 TByte) (FCons (TPtr (TInt 64)) FNil)))))).
Definition value : denote ty := (true, (-7, ([1; 65535], ([x66; x6f; x6f], ([x01; x02; x03], (Some 42, ())))))).
Definition nil_ptr : denote ty := (true, (-7, ([], ([], ([x01; x02; x03], (None, ())))))).

Lemma encodable_value : encodable ty value.
Proof. cbn. unfold MaxSliceSize. repeat split; repeat constructor; vm_compute; done. Qed.
End example_struct.

Lemma Unmarshal_Marshal_witness :
  ∃ data, Marshal example_struct.ty example_struct.value = Ok data ∧
    Unmarshal_into example_struct.ty (zero example_struct.ty) (data ++ [x07]) = Ok example_struct.value.
Proof.
  apply (Unmarshal_Marshal example_struct.ty example_struct.value [x07] example_struct.encodable_value). by vm_compute.
Defined.

Lemma Unmarshal_well_typed_witness : typed (TInt 8) 0 ∧ typed (TInt 8) (-1).
Proof.
  split; [done|]. apply (Unmarshal_well_typed (TInt 8) 0 (-1) [xff; xff; xff; xff; xff; xff; xff; xff]); [done|].
  vm_compute. reflexivity.
Defined.

(** The amount zero comes back as a nil pointer, the amount 256 as an error. *)
Lemma pointers_not_read_back_witness :
  let T := TSia Currency Currency_codec 0 32 8 in
  Unmarshal_into (TPtr T) None (replicate 8 x00) = Ok None ∧
  Unmarshal_into (TPtr T) None (EncUint64 2 ++ [x01; x00]) = Err errBadBool.
Proof.
  cbn zeta. split.
  - apply (pointers_not_read_back Currency Currency_codec 0 32 8 TBool 0); vm_compute; reflexivity.
  - change (EncUint64 2 ++ [x01; x00]) with (x02 :: replicate 7 x00 ++ [x01; x00]).
    apply (pointers_not_read_back Currency Currency_codec 0 32 8 TBool 256); vm_compute; reflexivity.
Defined.
