(* ===== verification/Block.v ===== *)
(** * Blocks, identifiers and the money supply

    Models [types/block.go] (coinbase, developer fund, subsidies, headers and
    ids; [MerkleBranches], which reads a third-party struct through
    [unsafe.Pointer], is left out), the identifiers of [types/transactions.go]
    and [types/filecontracts.go], and the file contract tax.  The sanity checks
    under [build.DEBUG] recompute the same hashes with the reflective encoder
    and are not part of a release build. *)

From S2P Require Import Prelude Encoding Currency Target Crypto Types Codec.
From Stdlib Require Import QArith.
#[local] Open Scope Z_scope.

Section block.
Context `{N : Net}.

(** ** The money supply *)

Definition CalculateCoinbase (height : BlockHeight) : Currency :=
  let base := u64 (InitialCoinbase - height) in
  let base := if (InitialCoinbase <? height) || (base <? MinimumCoinbase)
              then MinimumCoinbase else base in
  Currency_Mul (NewCurrency64 base) SiacoinPrecision.

(** [devFundPercentage], in hundredths of a percent: the block that
    [CalculateDevSubsidy] and [CalculateSubsidies] both contain. *)
Definition devFundPercentage (height : BlockHeight) : Z :=
  let devFundDecayPercentage :=
    if DevFundDecayEndBlockHeight <=? height then 0
    else if DevFundDecayStartBlockHeight <=? height then
      u64 (100 - u64 (u64 (height - DevFundDecayStartBlockHeight) * 100)
                 / u64 (DevFundDecayEndBlockHeight - DevFundDecayStartBlockHeight))
    else 100 in
  let devFundPercentageRange := u64 (DevFundInitialPercentage - DevFundFinalPercentage) in
  u64 (u64 (DevFundFinalPercentage * 100) + u64 (devFundPercentageRange * devFundDecayPercentage)).

Definition CalculateDevSubsidy (height : BlockHeight) : res Currency :=
  let coinbase := CalculateCoinbase height in
  if DevFundEnabled && (DevFundInitialBlockHeight <=? height) then
    Currency_Div (Currency_Mul coinbase (NewCurrency64 (devFundPercentage height)))
                 (NewCurrency64 10000)
  else Ok (NewCurrency64 0).

Definition CalculateNumSiacoins (height : BlockHeight) : res Currency :=
  let airdropCoins :=
    Currency_Add (Currency_Add (Currency_Add AirdropCommunityValue AirdropPoolValue)
      AirdropNebulousLabsValue) AirdropSiaPrimeValue in
  let deflationBlocks := u64 (InitialCoinbase - MinimumCoinbase) in
  avgDeflationSiacoins ←
    Currency_Div (Currency_Add (CalculateCoinbase 0) (CalculateCoinbase height)) (NewCurrency64 2);
  if height <=? deflationBlocks then
    let deflationSiacoins :=
      Currency_Mul avgDeflationSiacoins (NewCurrency64 (u64 (height + 1))) in
    Ok (Currency_Add airdropCoins deflationSiacoins)
  else
    let deflationSiacoins :=
      Currency_Mul avgDeflationSiacoins (NewCurrency64 (u64 (deflationBlocks + 1))) in
    let trailingSiacoins :=
      Currency_Mul (NewCurrency64 (u64 (height - deflationBlocks))) (CalculateCoinbase height) in
    Ok (Currency_Add airdropCoins (Currency_Add deflationSiacoins trailingSiacoins)).

(** The two nested fee loops. *)
Definition add_fees (fees : Currency) (txns : list Transaction) : Currency :=
  foldl (λ fees txn, foldl Currency_Add fees (t_MinerFees txn)) fees txns.

Definition CalculateMinerFees (b : Block) : Currency :=
  add_fees (NewCurrency64 0) (b_Transactions b).

Definition CalculateSubsidy (b : Block) (height : BlockHeight) : Currency :=
  add_fees (CalculateCoinbase height) (b_Transactions b).

Definition CalculateSubsidies (b : Block) (height : BlockHeight) : res (Currency * Currency) :=
  let coinbase := CalculateCoinbase height in
  devSubsidy ←
    (if DevFundEnabled && (DevFundInitialBlockHeight <=? height) then
       Currency_Div (Currency_Mul coinbase (NewCurrency64 (devFundPercentage height)))
                    (NewCurrency64 10000)
     else Ok (NewCurrency64 0));
  let minerSubsidy := Currency_Add (Currency_Sub coinbase devSubsidy) (CalculateMinerFees b) in
  Ok (minerSubsidy, devSubsidy).

(** ** The file contract tax *)

(** The [float64] nearest to 0.039. *)
Definition float_0_039 : Q := 5620492334958379 # 144115188075855872.

Definition Tax (height : BlockHeight) (payout : Currency) : res Currency :=
  if height <? TaxHardforkHeight
  then Currency_RoundDown (Currency_MulFloat payout float_0_039) SiafundCount
  else Currency_RoundDown (Currency_MulTax payout) SiafundCount.

Definition PostTax (height : BlockHeight) (payout : Currency) : res Currency :=
  tax ← Tax height payout; Ok (Currency_Sub payout tax).
End block.

(** ** Identifiers *)

Section ids.
Context `{C : Crypto}.

(** [encoding.Marshal] of a header: its fields, all of fixed size. *)
Definition BlockHeader_Marshal (h : BlockHeader) : list byte :=
  bh_ParentID h ++ bh_Nonce h ++ EncUint64 (bh_Timestamp h) ++ bh_MerkleRoot h.

Definition BlockHeader_ID (h : BlockHeader) : BlockID := HashObject (BlockHeader_Marshal h).

Definition Block_MerkleTree (b : Block) : list (list byte) :=
  map SiacoinOutput_MarshalSia (b_MinerPayouts b) ++
  map Transaction_MarshalSia (b_Transactions b).

Definition Block_MerkleRoot (b : Block) : Hash := MerkleTree_Root (Block_MerkleTree b).

Definition Block_Header (b : Block) : BlockHeader :=
  mkHeader (b_ParentID b) (b_Nonce b) (b_Timestamp b) (Block_MerkleRoot b).

Definition Block_ID (b : Block) : BlockID := BlockHeader_ID (Block_Header b).

Definition Block_MinerPayoutID (b : Block) (i : Z) : SiacoinOutputID :=
  HashAll [Block_ID b; EncUint64 i].

Definition Transaction_ID (t : Transaction) : TransactionID :=
  HashAll [Transaction_MarshalSiaNoSignatures t].
Definition Transaction_SiacoinOutputID (t : Transaction) (i : Z) : SiacoinOutputID :=
  HashAll [SpecifierSiacoinOutput; Transaction_MarshalSiaNoSignatures t; EncUint64 i].
Definition Transaction_FileContractID (t : Transaction) (i : Z) : FileContractID :=
  HashAll [SpecifierFileContract; Transaction_MarshalSiaNoSignatures t; EncUint64 i].
Definition Transaction_SiafundOutputID (t : Transaction) (i : Z) : SiafundOutputID :=
  HashAll [SpecifierSiafundOutput; Transaction_MarshalSiaNoSignatures t; EncUint64 i].

Definition SiaClaimOutputID (id : SiafundOutputID) : SiacoinOutputID := HashObject id.

Definition StorageProofOutputID (fcid : FileContractID) (proofStatus : bool) (i : Z) :
    SiacoinOutputID :=
  HashAll [SpecifierStorageProofOutput; fcid; [if proofStatus then x01 else x00]; EncUint64 i].
End ids.

Definition Transaction_SiacoinOutputSum (t : Transaction) : Currency :=
  let sum := foldl (λ s sco, Currency_Add s (sco_Value sco)) 0 (t_SiacoinOutputs t) in
  let sum := foldl (λ s fc, Currency_Add s (fc_Payout fc)) sum (t_FileContracts t) in
  foldl (λ s fee, Currency_Add s fee) sum (t_MinerFees t).

(** ** Properties *)

Section block_props.
Context `{N : Net} `{!NetOk N}.

(** The documented equation: [max(InitialCoinbase - height, MinimumCoinbase)]. *)
Lemma CalculateCoinbase_max height :
  is_u64 height →
  CalculateCoinbase height = Z.max (InitialCoinbase - height) MinimumCoinbase * SiacoinPrecision.
Proof.
  intros Hh. unfold CalculateCoinbase, Currency_Mul, NewCurrency64.
  pose proof net_MinimumCoinbase. f_equal.
  destruct (Z.ltb_spec InitialCoinbase height); cbn [orb]; [lia|].
  unfold InitialCoinbase in *. rewrite u64_id by ulia.
  destruct (Z.ltb_spec (300000 - height) MinimumCoinbase); lia.
Qed.

Lemma CalculateCoinbase_pos height : is_u64 height → 0 < CalculateCoinbase height.
Proof.
  intros Hh. rewrite CalculateCoinbase_max by done. pose proof net_MinimumCoinbase.
  change SiacoinPrecision with (10 ^ 24). nia.
Qed.

Lemma devFundPercentage_bounds height :
  is_u64 height → 1000 ≤ devFundPercentage height ≤ 2000.
Proof.
  intros Hh. unfold devFundPercentage, DevFundDecayEndBlockHeight, DevFundDecayStartBlockHeight,
    DevFundFinalPercentage, DevFundInitialPercentage.
  change (u64 (10 * 100)) with 1000. change (u64 (20 - 10)) with 10.
  change (u64 (105000 - 30000)) with 75000.
  destruct (Z.leb_spec 105000 height); [vm_compute; split; discriminate|].
  destruct (Z.leb_spec 30000 height); [|vm_compute; split; discriminate].
  rewrite (u64_id (height - 30000)) by ulia.
  rewrite (u64_id ((height - 30000) * 100)) by ulia.
  assert (0 ≤ (height - 30000) * 100 / 75000 < 100).
  { split; [apply Z.div_pos; lia|apply Z.div_lt_upper_bound; lia]. }
  set (q := (height - 30000) * 100 / 75000) in *.
  rewrite (u64_id (100 - q)), (u64_id (10 * _)), u64_id by ulia. lia.
Qed.

Lemma CalculateDevSubsidy_value height :
  CalculateDevSubsidy height =
  Ok (if 1 <=? height then CalculateCoinbase height * devFundPercentage height / 10000 else 0).
Proof.
  unfold CalculateDevSubsidy. change (DevFundEnabled && _) with (1 <=? height).
  by destruct (1 <=? height).
Qed.

Lemma devSubsidy_bounds height :
  is_u64 height →
  0 ≤ CalculateCoinbase height * devFundPercentage height / 10000 ≤ CalculateCoinbase height / 5.
Proof.
  intros Hh. pose proof (CalculateCoinbase_pos _ Hh). pose proof (devFundPercentage_bounds _ Hh).
  split; [apply Z.div_pos; nia|].
  change 10000 with (2000 * 5). rewrite <- Z.div_div by lia. apply Z.div_le_mono; [lia|].
  apply Z.div_le_upper_bound; nia.
Qed.

Lemma foldl_Add l a : foldl Currency_Add a l = a + sumZ id l.
Proof. exact (foldl_sumZ id l a). Qed.

Lemma add_fees_sum fees txns :
  add_fees fees txns = fees + sumZ (λ t, sumZ id (t_MinerFees t)) txns.
Proof.
  unfold add_fees. rewrite <- foldl_sumZ. revert fees.
  induction txns as [|t txns IH]; intros fees; cbn [foldl]; [done|].
  by rewrite foldl_Add, IH.
Qed.
End block_props.

(** The value of [Tax] as a number: it never panics, since [SiafundCount] is
    not zero. *)
Definition tax_value `{Net} (height payout : Z) : Z :=
  let raw := if height <? TaxHardforkHeight
             then payout * 5620492334958379 / 144115188075855872
             else payout * 39 / 1000 in
  raw - raw `mod` 10000.

Section tax.
Context `{N : Net}.

Lemma Tax_value height payout : Tax height payout = Ok (tax_value height payout).
Proof.
  unfold Tax, tax_value, Currency_RoundDown. case_match; [|done].
  unfold Currency_MulFloat, Rat_floor. cbn -[Z.mul Z.div Z.modulo].
  by rewrite ?Pos.mul_1_l.
Qed.

Lemma tax_value_bounds height payout :
  0 ≤ payout → 0 ≤ tax_value height payout ≤ payout ∧ tax_value height payout `mod` 10000 = 0.
Proof.
  intros Hp. unfold tax_value. set (raw := if _ <? _ then _ else _).
  assert (0 ≤ raw ≤ payout).
  { unfold raw. case_match; (split; [apply Z.div_pos; lia|apply Z.div_le_upper_bound; lia]). }
  pose proof (Z.mod_pos_bound raw 10000 ltac:(lia)). pose proof (Z.div_mod raw 10000 ltac:(lia)).
  split.
  - split; [|lia]. pose proof (Z.div_pos raw 10000). lia.
  - replace (raw - raw `mod` 10000) with (raw / 10000 * 10000) by lia. by apply Z.mod_mul.
Qed.

Lemma PostTax_value height payout :
  0 ≤ payout → PostTax height payout = Ok (payout - tax_value height payout).
Proof.
  intros Hp. unfold PostTax. rewrite Tax_value. cbn.
  rewrite Currency_Sub_le; [done|]. pose proof (tax_value_bounds height payout Hp). lia.
Qed.
End tax.

Lemma SiacoinOutputSum_value t :
  Transaction_SiacoinOutputSum t =
  sumZ sco_Value (t_SiacoinOutputs t) + sumZ fc_Payout (t_FileContracts t) + sumZ id (t_MinerFees t).
Proof. unfold Transaction_SiacoinOutputSum, Currency_Add. by rewrite !(foldl_sumZ _). Qed.

(** A contract payout is split without loss: [Tax] never fails, is a
    non-negative multiple of [SiafundCount] no larger than the payout, and
    [PostTax] is exactly the rest; from the tax hardfork on, the tax is less
    than [SiafundCount] below 3.9% of the payout. *)
Lemma Tax_PostTax_split `{N : Net} (height payout : Z) :
  0 ≤ payout →
  ∃ tax post,
    Tax height payout = Ok tax ∧ PostTax height payout = Ok post ∧
    tax + post = payout ∧ 0 ≤ tax ∧ 0 ≤ post ∧ tax `mod` SiafundCount = 0 ∧
    (TaxHardforkHeight ≤ height →
     tax ≤ payout * 39 / 1000 < tax + SiafundCount).
Proof.
  intros Hp. destruct (tax_value_bounds height payout Hp) as [Hb Hm].
  exists (tax_value height payout), (payout - tax_value height payout).
  split_and!; [apply Tax_value|by apply PostTax_value|lia|lia|lia|exact Hm|].
  intros Hh. unfold tax_value. rewrite (proj2 (Z.ltb_ge _ _)) by done.
  pose proof (Z.mod_pos_bound (payout * 39 / 1000) 10000 ltac:(lia)).
  change SiafundCount with 10000. lia.
Qed.

(** ** The supply formula *)

Section supply.
Context `{N : Net} `{!NetOk N}.

Definition AirdropCoins : Z :=
  AirdropCommunityValue + AirdropPoolValue + AirdropNebulousLabsValue + AirdropSiaPrimeValue.

(** Everything minted by the blocks up to [height]. *)
Definition coinbases (height : nat) : Z := sumZ CalculateCoinbase (map Z.of_nat (seq 0 (S height))).

Lemma coinbases_S n : coinbases (S n) = coinbases n + CalculateCoinbase (Z.of_nat (S n)).
Proof.
  unfold coinbases. rewrite seq_S, map_app, sumZ_app. cbn [map sumZ].
  by rewrite Z.add_0_r.
Qed.

(** While the coinbase shrinks, the total is an arithmetic progression. *)
Lemma coinbases_deflation n :
  Z.of_nat n ≤ InitialCoinbase - MinimumCoinbase →
  2 * coinbases n = (2 * InitialCoinbase - Z.of_nat n) * (Z.of_nat n + 1) * 10 ^ 24.
Proof.
  pose proof net_MinimumCoinbase. unfold InitialCoinbase in *.
  induction n as [|n IH]; intros Hn.
  - unfold coinbases. cbn [seq map sumZ]. rewrite CalculateCoinbase_max by ulia.
    unfold InitialCoinbase. change SiacoinPrecision with (10 ^ 24). rewrite Z.max_l by lia. lia.
  - rewrite coinbases_S, CalculateCoinbase_max by ulia. unfold InitialCoinbase.
    change SiacoinPrecision with (10 ^ 24). rewrite Z.max_l, Z.mul_add_distr_l, IH by lia. lia.
Qed.

Lemma coinbases_trailing k n :
  Z.of_nat k = InitialCoinbase - MinimumCoinbase → (k ≤ n)%nat → Z.of_nat n < 2 ^ 64 →
  coinbases n = coinbases k + (Z.of_nat n - Z.of_nat k) * (MinimumCoinbase * 10 ^ 24).
Proof.
  intros Hk Hle. induction Hle as [|n Hle IH]; intros Hn; [lia|].
  rewrite coinbases_S, IH, CalculateCoinbase_max by ulia.
  change SiacoinPrecision with (10 ^ 24). rewrite Z.max_r by lia. lia.
Qed.

Lemma CalculateNumSiacoins_value (n : nat) :
  Z.of_nat n < 2 ^ 64 →
  CalculateNumSiacoins (Z.of_nat n) = Ok (AirdropCoins + coinbases n).
Proof.
  intros Hn. pose proof net_MinimumCoinbase. unfold InitialCoinbase in *.
  unfold CalculateNumSiacoins, Currency_Div, Currency_Add, Currency_Mul, NewCurrency64.
  unfold InitialCoinbase. rewrite (u64_id (300000 - MinimumCoinbase)) by ulia.
  cbn [Z.eqb]. unfold mbind, res_bind.
  rewrite !CalculateCoinbase_max by ulia. unfold InitialCoinbase.
  assert (SiacoinPrecision = 2 * (5 * 10 ^ 23)) as -> by (vm_compute; reflexivity).
  match goal with |- context [(?a * ?p + ?b * ?p) / 2] =>
    replace (a * p + b * p) with ((a + b) * (5 * 10 ^ 23) * 2) by lia end.
  rewrite Z.div_mul by lia. rewrite Z.max_l by lia.
  pose proof (coinbases_deflation n) as Hd. unfold InitialCoinbase in Hd.
  destruct (Z.leb_spec (Z.of_nat n) (300000 - MinimumCoinbase)) as [Hle|Hgt].
  - rewrite u64_id by ulia. rewrite Z.max_l by lia. f_equal. specialize (Hd Hle).
    unfold AirdropCoins. lia.
  - rewrite !u64_id by ulia. rewrite !Z.max_r by lia. f_equal.
    pose proof (coinbases_deflation (Z.to_nat (300000 - MinimumCoinbase))) as Hk.
    rewrite (coinbases_trailing (Z.to_nat (300000 - MinimumCoinbase))) by
      (unfold InitialCoinbase; lia).
    unfold InitialCoinbase in Hk. rewrite Z2Nat.id in * by lia. specialize (Hk ltac:(lia)).
    unfold AirdropCoins. lia.
Qed.

(** [CalculateNumSiacoins] is exact: at every height that fits a
    [BlockHeight] it returns the genesis airdrop plus the sum of the
    coinbases of all the blocks up to that height, although it computes it
    with a truncating division and one multiplication per phase. *)
Lemma CalculateNumSiacoins_issuance (n : nat) :
  Z.of_nat n < 2 ^ 64 →
  CalculateNumSiacoins (Z.of_nat n) = Ok (AirdropCoins + coinbases n).
Proof. apply CalculateNumSiacoins_value. Qed.

Lemma CalculateSubsidies_value (b : Block) (height : Z) :
  is_u64 height →
  ∃ miner dev,
    CalculateSubsidies b height = Ok (miner, dev) ∧
    miner + dev = CalculateSubsidy b height ∧
    CalculateDevSubsidy height = Ok dev ∧
    dev ≤ CalculateCoinbase height / 5 ∧
    (height = 0 → dev = 0) ∧
    (1 ≤ height → CalculateCoinbase height / 10 ≤ dev).
Proof.
  intros Hh. pose proof (devSubsidy_bounds _ Hh) as Hb. pose proof (CalculateCoinbase_pos _ Hh).
  pose proof (devFundPercentage_bounds _ Hh).
  set (dev := if 1 <=? height then CalculateCoinbase height * devFundPercentage height / 10000 else 0).
  pose proof (Z.div_le_upper_bound (CalculateCoinbase height) 5 (CalculateCoinbase height)).
  assert (0 ≤ dev ≤ CalculateCoinbase height / 5).
  { unfold dev. case_match; [lia|]. split; [lia|]. apply Z.div_pos; lia. }
  exists (CalculateCoinbase height - dev + CalculateMinerFees b), dev.
  pose proof (CalculateDevSubsidy_value height) as E. fold dev in E.
  split_and!; [|..|done|lia| |].
  - unfold CalculateSubsidies. unfold CalculateDevSubsidy in E. rewrite E. cbn.
    rewrite Currency_Sub_le by lia. done.
  - unfold CalculateSubsidy, CalculateMinerFees. rewrite !add_fees_sum. unfold NewCurrency64. lia.
  - intros ->. done.
  - intros Hle. unfold dev. rewrite (proj2 (Z.leb_le _ _)) by done.
    change 10000 with (1000 * 10). rewrite <- Z.div_div by lia. apply Z.div_le_mono; [lia|].
    apply Z.div_le_lower_bound; nia.
Qed.

(** A block's subsidies share out exactly the coinbase and the miner
    fees: the miner's and the developer fund's parts add up to
    [CalculateSubsidy]; the fund's part is [CalculateDevSubsidy], is nothing
    at height 0 and is otherwise between a tenth and a fifth of the
    coinbase. *)
Lemma CalculateSubsidies_split (b : Block) (height : Z) :
  is_u64 height →
  ∃ miner dev,
    CalculateSubsidies b height = Ok (miner, dev) ∧
    miner + dev = CalculateSubsidy b height ∧
    CalculateDevSubsidy height = Ok dev ∧
    dev ≤ CalculateCoinbase height / 5 ∧
    (height = 0 → dev = 0) ∧
    (1 ≤ height → CalculateCoinbase height / 10 ≤ dev).
Proof. apply CalculateSubsidies_value. Qed.
End supply.

(** *** Witnesses *)

Definition noAllocations : Allocations := mkAlloc zeroHash zeroHash [] [] [].

