(* ===== verification/Signatures.v ===== *)
(** * Transaction signatures

    Models [types/signatures.go]: unlock hashes, the hash a signature covers
    (the whole transaction or chosen fields), the rules for covered fields and
    [validSignatures], with its map from spent parents to the signatures they
    still need.  An index of a covered field out of range would panic; the
    model keeps that ([go_index]) and [validSignatures_no_panic] shows that the
    earlier check rules it out.  [validSignatures_spec] characterises the
    accepted transactions without reference to the map or the loops. *)

From S2P Require Import Prelude Encoding Currency Target Crypto Types Codec Block.

Section sighash.
Context `{N : Net} `{C : Crypto}.

Definition UnlockConditions_UnlockHash (uc : UnlockConditions) : UnlockHash :=
  MerkleTree_Root
    ([EncUint64 (uc_Timelock uc)] ++ map SiaPublicKey_MarshalSia (uc_PublicKeys uc) ++
     [EncUint64 (uc_SignaturesRequired uc)]).

(** [if height >= ASICHardforkHeight { e.Write(ASICHardforkReplayProtectionPrefix) }] *)
Definition replayPrefix (height : BlockHeight) : list byte :=
  if ASICHardforkHeight <=? height then ASICHardforkReplayProtectionPrefix else [].

(** [for _, i := range idxs { l[i].MarshalSia(h) }] *)
Definition marshal_at {A} (enc : A → list byte) (l : list A) (idxs : list Z) : res (list byte) :=
  foldM (λ h i, x ← go_index l i; Ok (h ++ enc x)) [] idxs.

Definition wholeSigHash (t : Transaction) (sig : TransactionSignature) (height : BlockHeight) :
    res Hash :=
  sigs ← marshal_at TransactionSignature_MarshalSia (t_TransactionSignatures t)
           (cf_TransactionSignatures (ts_CoveredFields sig));
  Ok (HashAll [
    enc_slice (λ sci, replayPrefix height ++ SiacoinInput_MarshalSia sci) (t_SiacoinInputs t);
    enc_slice SiacoinOutput_MarshalSia (t_SiacoinOutputs t);
    enc_slice FileContract_MarshalSia (t_FileContracts t);
    enc_slice FileContractRevision_MarshalSia (t_FileContractRevisions t);
    enc_slice StorageProof_MarshalSia (t_StorageProofs t);
    enc_slice (λ sfi, replayPrefix height ++ SiafundInput_MarshalSia sfi) (t_SiafundInputs t);
    enc_slice SiafundOutput_MarshalSia (t_SiafundOutputs t);
    enc_slice Currency_MarshalSia (t_MinerFees t);
    enc_slice enc_WritePrefix (t_ArbitraryData t);
    ts_ParentID sig; EncUint64 (ts_PublicKeyIndex sig); EncUint64 (ts_Timelock sig);
    sigs]).

Definition partialSigHash (t : Transaction) (cf : CoveredFields) (height : BlockHeight) : res Hash :=
  scis ← marshal_at (λ sci, replayPrefix height ++ SiacoinInput_MarshalSia sci)
           (t_SiacoinInputs t) (cf_SiacoinInputs cf);
  scos ← marshal_at SiacoinOutput_MarshalSia (t_SiacoinOutputs t) (cf_SiacoinOutputs cf);
  fcs ← marshal_at FileContract_MarshalSia (t_FileContracts t) (cf_FileContracts cf);
  fcrs ← marshal_at FileContractRevision_MarshalSia (t_FileContractRevisions t)
           (cf_FileContractRevisions cf);
  sps ← marshal_at StorageProof_MarshalSia (t_StorageProofs t) (cf_StorageProofs cf);
  sfis ← marshal_at (λ sfi, replayPrefix height ++ SiafundInput_MarshalSia sfi)
           (t_SiafundInputs t) (cf_SiafundInputs cf);
  sfos ← marshal_at SiafundOutput_MarshalSia (t_SiafundOutputs t) (cf_SiafundOutputs cf);
  fees ← marshal_at Currency_MarshalSia (t_MinerFees t) (cf_MinerFees cf);
  arbs ← marshal_at enc_WritePrefix (t_ArbitraryData t) (cf_ArbitraryData cf);
  sigs ← marshal_at TransactionSignature_MarshalSia (t_TransactionSignatures t)
           (cf_TransactionSignatures cf);
  Ok (HashAll [scis; scos; fcs; fcrs; sps; sfis; sfos; fees; arbs; sigs]).

Definition SigHash (t : Transaction) (i : Z) (height : BlockHeight) : res Hash :=
  sig ← go_index (t_TransactionSignatures t) i;
  if cf_WholeTransaction (ts_CoveredFields sig)
  then wholeSigHash t sig height
  else partialSigHash t (ts_CoveredFields sig) height.
End sighash.

(** ** Covered fields *)

(** The loop of [sortedUnique]: [None] is the early [return false]. *)
Fixpoint ascending (biggest : Z) (elems : list Z) : option Z :=
  match elems with
  | [] => Some biggest
  | elem :: elems => if elem <=? biggest then None else ascending elem elems
  end.

Definition sortedUnique (elems : list Z) (max : Z) : bool :=
  match elems with
  | [] => true
  | e :: elems =>
      match ascending e elems with
      | None => false
      | Some biggest => negb (u64 max <=? biggest)
      end
  end.

(** The [fieldMaxs] table. *)
Definition fieldMaxs (t : Transaction) (cf : CoveredFields) : list (list Z * Z) := [
  (cf_SiacoinInputs cf, len (t_SiacoinInputs t));
  (cf_SiacoinOutputs cf, len (t_SiacoinOutputs t));
  (cf_FileContracts cf, len (t_FileContracts t));
  (cf_FileContractRevisions cf, len (t_FileContractRevisions t));
  (cf_StorageProofs cf, len (t_StorageProofs t));
  (cf_SiafundInputs cf, len (t_SiafundInputs t));
  (cf_SiafundOutputs cf, len (t_SiafundOutputs t));
  (cf_MinerFees cf, len (t_MinerFees t));
  (cf_ArbitraryData cf, len (t_ArbitraryData t));
  (cf_TransactionSignatures cf, len (t_TransactionSignatures t)) ].

Definition isEmpty (fieldMax : list Z * Z) : bool := len fieldMax.1 =? 0.

Definition validCoveredFields_sig (t : Transaction) (sig : TransactionSignature) : res unit :=
  let cf := ts_CoveredFields sig in
  let fms := fieldMaxs t cf in
  _ ← (if cf_WholeTransaction cf then
         checkM (λ fm, guard_err (negb (isEmpty fm)) ErrWholeTransactionViolation)
           (take (length fms - 1) fms)
       else guard_err (forallb isEmpty fms) ErrWholeTransactionViolation);
  checkM (λ fm, guard_err (negb (sortedUnique fm.1 fm.2)) ErrSortedUniqueViolation) fms.

Definition validCoveredFields (t : Transaction) : res unit :=
  checkM (validCoveredFields_sig t) (t_TransactionSignatures t).

(** ** [validSignatures] *)

Record inputSignatures := mkIS {
  is_remainingSignatures : Z;
  is_possibleKeys : list SiaPublicKey;
  is_usedKeys : gset Z;
  is_index : Z;
}.

Abbreviation SigMap := (gmap Hash inputSignatures) (only parsing).

(** The body of the three loops that fill [sigMap]. *)
Definition register (id : Hash) (uc : UnlockConditions) (i : Z) (sigMap : SigMap) : res SigMap :=
  match sigMap !! id with
  | Some _ => Err ErrDoubleSpend
  | None => Ok (<[id := mkIS (uc_SignaturesRequired uc) (uc_PublicKeys uc) ∅ i]> sigMap)
  end.

Section validSignatures.
Context `{N : Net} `{C : Crypto}.

Definition PublicKeySize : nat := 32.
Definition SignatureSize : nat := 64.

(** The [switch publicKey.Algorithm]. *)
Definition checkKey (t : Transaction) (currentHeight : BlockHeight) (i : Z)
    (sig : TransactionSignature) (publicKey : SiaPublicKey) : res unit :=
  if decide (spk_Algorithm publicKey = SignatureEntropy) then Err ErrEntropyKey
  else if decide (spk_Algorithm publicKey = SignatureEd25519) then
    let edPK := go_copy (replicate PublicKeySize x00) (spk_Key publicKey) in
    let edSig := go_copy (replicate SignatureSize x00) (ts_Signature sig) in
    sigHash ← SigHash t i currentHeight;
    VerifyHash sigHash edPK edSig
  else Ok ().

Definition checkSignature (t : Transaction) (currentHeight : BlockHeight) (i : Z)
    (sigMap : SigMap) (sig : TransactionSignature) : res SigMap :=
  match sigMap !! ts_ParentID sig with
  | None => Err ErrFrivolousSignature
  | Some inSig =>
      _ ← guard_err (is_remainingSignatures inSig =? 0) ErrFrivolousSignature;
      _ ← guard_err (bool_decide (ts_PublicKeyIndex sig ∈ is_usedKeys inSig)) ErrPublicKeyOveruse;
      _ ← guard_err (len (is_possibleKeys inSig) <=? ts_PublicKeyIndex sig) ErrInvalidPubKeyIndex;
      _ ← guard_err (currentHeight <? ts_Timelock sig) ErrPrematureSignature;
      publicKey ← go_index (is_possibleKeys inSig) (ts_PublicKeyIndex sig);
      _ ← checkKey t currentHeight i sig publicKey;
      Ok (<[ts_ParentID sig :=
             mkIS (u64 (is_remainingSignatures inSig - 1)) (is_possibleKeys inSig)
                  ({[ts_PublicKeyIndex sig]} ∪ is_usedKeys inSig) (is_index inSig)]> sigMap)
  end.

Definition buildSigMap (t : Transaction) : res SigMap :=
  sigMap ← foldMi (λ i m sci, register (sci_ParentID sci) (sci_UnlockConditions sci) i m)
             0 ∅ (t_SiacoinInputs t);
  sigMap ← foldMi (λ i m fcr, register (fcr_ParentID fcr) (fcr_UnlockConditions fcr) i m)
             0 sigMap (t_FileContractRevisions t);
  foldMi (λ i m sfi, register (sfi_ParentID sfi) (sfi_UnlockConditions sfi) i m)
    0 sigMap (t_SiafundInputs t).

Definition validSignatures (t : Transaction) (currentHeight : BlockHeight) : res unit :=
  _ ← validCoveredFields t;
  sigMap ← buildSigMap t;
  sigMap ← foldMi (checkSignature t currentHeight) 0 sigMap (t_TransactionSignatures t);
  guard_err (negb (bool_decide (map_Forall (λ _ s, is_remainingSignatures s = 0) sigMap)))
    ErrMissingSignatures.
End validSignatures.

(** ** Covered fields: what the checks mean *)

Lemma ascending_spec b l m :
  ascending b l = Some m →
  StronglySorted Z.lt (b :: l) ∧ m ∈ b :: l ∧ Forall (λ x, x ≤ m) (b :: l).
Proof.
  revert b. induction l as [|x l IH]; intros b H; cbn in H.
  - simplify_eq. split_and!; [by repeat constructor|set_solver|]. repeat constructor. lia.
  - destruct (Z.leb_spec x b); [done|]. destruct (IH _ H) as (Hs & Hin & Hall).
    apply Forall_cons in Hall as Hxm. destruct Hxm as [Hxm _].
    split_and!; [|set_solver|constructor; [lia|done]].
    constructor; [done|]. apply StronglySorted_inv in Hs as [_ Hs].
    constructor; [lia|]. eapply Forall_impl; [exact Hs|]. cbn. lia.
Qed.

Lemma ascending_sorted b l : StronglySorted Z.lt (b :: l) → is_Some (ascending b l).
Proof.
  revert b. induction l as [|x l IH]; intros b H; cbn; [by eexists|].
  apply StronglySorted_inv in H as [H1 H2]. apply Forall_cons in H2 as [H2 _].
  destruct (Z.leb_spec x b); [lia|]. by apply IH.
Qed.

Lemma sortedUnique_spec l max :
  is_u64 max → sortedUnique l max = true ↔ StronglySorted Z.lt l ∧ Forall (λ x, x < max) l.
Proof.
  intros Hmax. unfold sortedUnique. destruct l as [|e l].
  { split; [by repeat constructor|done]. }
  rewrite u64_id by done. destruct (ascending e l) as [m|] eqn:E.
  - destruct (ascending_spec _ _ _ E) as (Hs & Hin & Hall).
    rewrite negb_true_iff, Z.leb_gt. split.
    + intros Hlt. split; [done|]. eapply Forall_impl; [exact Hall|]. cbn. lia.
    + intros [_ Hl]. rewrite Forall_forall in Hl. by apply Hl.
  - split; [done|]. intros [Hs _]. destruct (ascending_sorted _ _ Hs) as [m Hm]. congruence.
Qed.

(** The rule for one signature's covered fields. *)
Definition covered_ok (t : Transaction) (cf : CoveredFields) : Prop :=
  (if cf_WholeTransaction cf
   then Forall (λ fm, fm.1 = []) (take 9 (fieldMaxs t cf))
   else Exists (λ fm, fm.1 ≠ []) (fieldMaxs t cf)) ∧
  Forall (λ fm, StronglySorted Z.lt fm.1 ∧ Forall (λ x, x < fm.2) fm.1) (fieldMaxs t cf).

(** The slices of a transaction that was decoded are far shorter than [2^64]. *)
Definition field_lengths_ok (t : Transaction) : Prop :=
  Forall is_u64 [len (t_SiacoinInputs t); len (t_SiacoinOutputs t); len (t_FileContracts t);
    len (t_FileContractRevisions t); len (t_StorageProofs t); len (t_SiafundInputs t);
    len (t_SiafundOutputs t); len (t_MinerFees t); len (t_ArbitraryData t);
    len (t_TransactionSignatures t)].

Lemma fieldMaxs_u64 t cf : field_lengths_ok t → Forall (λ fm, is_u64 fm.2) (fieldMaxs t cf).
Proof. unfold field_lengths_ok, fieldMaxs. intros H. by repeat (apply Forall_cons in H as [? H]; constructor; [done|]). Qed.

Lemma isEmpty_true fm : isEmpty fm = true ↔ fm.1 = [].
Proof.
  unfold isEmpty. destruct fm as [[|x l] m]; cbn; [by rewrite len_nil|].
  rewrite len_cons, Z.eqb_eq. pose proof (len_nonneg l). split; [lia|done].
Qed.

Lemma forallb_isEmpty_false l : forallb isEmpty l = false ↔ Exists (λ fm, fm.1 ≠ []) l.
Proof.
  induction l as [|fm l IH]; cbn; [split; [done|by intros ?%Exists_nil]|].
  rewrite andb_false_iff, Exists_cons, IH, <- not_true_iff_false, isEmpty_true. done.
Qed.

Lemma validCoveredFields_sig_spec t sig :
  field_lengths_ok t →
  validCoveredFields_sig t sig = Ok () ↔ covered_ok t (ts_CoveredFields sig).
Proof.
  intros Ht. unfold validCoveredFields_sig, covered_ok.
  set (cf := ts_CoveredFields sig). pose proof (fieldMaxs_u64 t cf Ht) as Hu.
  change (length (fieldMaxs t cf) - 1)%nat with 9%nat.
  rewrite bind_unit_Ok, checkM_Ok. f_equiv.
  - destruct (cf_WholeTransaction cf).
    + rewrite checkM_Ok. apply Forall_proper; [|done]. intros fm.
      by rewrite guard_err_Ok, negb_false_iff, isEmpty_true.
    + by rewrite guard_err_Ok, forallb_isEmpty_false.
  - rewrite !Forall_forall. rewrite Forall_forall in Hu. apply forall_proper. intros fm.
    apply forall_proper. intros Hin. rewrite guard_err_Ok, negb_false_iff.
    apply sortedUnique_spec. by apply Hu.
Qed.

Lemma validCoveredFields_spec t :
  field_lengths_ok t →
  validCoveredFields t = Ok () ↔
  Forall (λ sig, covered_ok t (ts_CoveredFields sig)) (t_TransactionSignatures t).
Proof.
  intros Ht. unfold validCoveredFields. rewrite checkM_Ok.
  apply Forall_proper; [|done]. intros sig. by apply validCoveredFields_sig_spec.
Qed.

(** ** Signature hashes of checked covered fields *)

Lemma marshal_at_Ok {A} (enc : A → list byte) l idxs :
  Forall (λ i, 0 ≤ i < len l) idxs → ∃ h, marshal_at enc l idxs = Ok h.
Proof.
  intros H. unfold marshal_at. generalize (@nil byte). induction H as [|i idxs Hi _ IH]; intros h.
  - by exists h.
  - cbn [foldM]. destruct (go_index_lt l i Hi) as (x & -> & _). cbn. apply IH.
Qed.

Section sighash_ok.
Context `{N : Net} `{C : Crypto}.

(** The indices of a decoded covered fields object are unsigned. *)
Definition indices_ok (t : Transaction) (cf : CoveredFields) : Prop :=
  Forall (λ fm, Forall (λ i, 0 ≤ i) fm.1) (fieldMaxs t cf).

Lemma covered_ok_indices t cf :
  covered_ok t cf → indices_ok t cf →
  Forall (λ fm, Forall (λ i, 0 ≤ i < fm.2) fm.1) (fieldMaxs t cf).
Proof.
  intros [_ H1] H2. unfold indices_ok in H2. rewrite Forall_forall in *.
  intros fm Hin. destruct (H1 fm Hin) as [_ Hlt]. pose proof (H2 fm Hin) as Hge.
  rewrite Forall_forall in *. auto.
Qed.

Lemma SigHash_Ok t i sig height :
  0 ≤ i → t_TransactionSignatures t !! Z.to_nat i = Some sig →
  covered_ok t (ts_CoveredFields sig) → indices_ok t (ts_CoveredFields sig) →
  ∃ h, SigHash t i height = Ok h.
Proof.
  intros Hi Hsig Hcov Hidx. pose proof (covered_ok_indices _ _ Hcov Hidx) as Hr.
  unfold fieldMaxs in Hr. cbn in Hr. rewrite !Forall_cons in Hr. cbn in Hr.
  destruct Hr as (R1 & R2 & R3 & R4 & R5 & R6 & R7 & R8 & R9 & R10 & _).
  unfold SigHash, go_index. rewrite (proj2 (Z.ltb_ge _ _)), Hsig by lia. cbn.
  destruct (marshal_at_Ok TransactionSignature_MarshalSia _ _ R10) as [h10 E10].
  destruct (cf_WholeTransaction _).
  - unfold wholeSigHash. rewrite E10. cbn. eauto.
  - unfold partialSigHash.
    repeat match goal with
    | |- context [marshal_at ?e ?l ?i ≫= _] =>
        let h := fresh "h" in let E := fresh "E" in
        destruct (marshal_at_Ok e l i) as [h E]; [assumption|]; rewrite E; cbn [mbind res_bind]
    end.
    eauto.
Qed.
End sighash_ok.

(** ** The signature map *)

(** What a transaction unlocks: parent ids with their conditions. *)
Definition unlocks (t : Transaction) : list (Hash * UnlockConditions) :=
  map (λ sci, (sci_ParentID sci, sci_UnlockConditions sci)) (t_SiacoinInputs t) ++
  map (λ fcr, (fcr_ParentID fcr, fcr_UnlockConditions fcr)) (t_FileContractRevisions t) ++
  map (λ sfi, (sfi_ParentID sfi, sfi_UnlockConditions sfi)) (t_SiafundInputs t).

(** [m] is the map built for the parents [cs]. *)
Definition sigMap_for (cs : list (Hash * UnlockConditions)) (m : SigMap) : Prop :=
  ∀ id, match m !! id with
        | None => id ∉ cs.*1
        | Some s => ∃ uc i, (id, uc) ∈ cs ∧
            s = mkIS (uc_SignaturesRequired uc) (uc_PublicKeys uc) ∅ i
        end.

Lemma sigMap_for_elem cs m id uc :
  NoDup cs.*1 → sigMap_for cs m → (id, uc) ∈ cs →
  ∃ i, m !! id = Some (mkIS (uc_SignaturesRequired uc) (uc_PublicKeys uc) ∅ i).
Proof.
  intros Hnd Hm Hin. specialize (Hm id). destruct (m !! id) as [s|].
  - destruct Hm as (uc' & i & Hin' & ->).
    apply list_elem_of_lookup in Hin as [j Hj]. apply list_elem_of_lookup in Hin' as [k Hk].
    assert (j = k) as ->.
    { eapply NoDup_lookup; [exact Hnd| |]; rewrite list_lookup_fmap, ?Hj, ?Hk; done. }
    rewrite Hj in Hk. simplify_eq. eauto.
  - exfalso. apply Hm. apply list_elem_of_fmap. by exists (id, uc).
Qed.

Lemma register_spec cs m id uc i :
  sigMap_for cs m →
  (id ∉ cs.*1 → ∃ m', register id uc i m = Ok m' ∧ sigMap_for (cs ++ [(id, uc)]) m') ∧
  (id ∈ cs.*1 → register id uc i m = Err ErrDoubleSpend).
Proof.
  intros Hm. unfold register. pose proof (Hm id) as Hid. destruct (m !! id) as [s|].
  - destruct Hid as (uc' & j & Hin & _). split; [|done]. intros [].
    apply list_elem_of_fmap. by exists (id, uc').
  - split; [|done]. intros Hnin. eexists. split; [done|]. intros id'.
    destruct (decide (id' = id)) as [->|Hne].
    + rewrite lookup_insert_eq. exists uc, i. set_solver.
    + rewrite lookup_insert_ne by done. specialize (Hm id'). destruct (m !! id').
      * destruct Hm as (uc' & j & ? & ?). exists uc', j. set_solver.
      * rewrite fmap_app. cbn. set_solver.
Qed.

Lemma register_loop {A} (f : A → Hash * UnlockConditions) l i cs m :
  NoDup cs.*1 → sigMap_for cs m →
  let loop := foldMi (λ i m x, register (f x).1 (f x).2 i m) i m l in
  (∃ m', loop = Ok m' ∧ NoDup (cs ++ map f l).*1 ∧ sigMap_for (cs ++ map f l) m') ∨
  (loop = Err ErrDoubleSpend ∧ ¬ NoDup (cs ++ map f l).*1).
Proof.
  revert i cs m. induction l as [|x l IH]; intros i cs m Hnd Hm; cbn.
  { left. exists m. by rewrite app_nil_r. }
  destruct (f x) as [id uc] eqn:Ef. cbn.
  destruct (register_spec cs m id uc i Hm) as [H1 H2].
  destruct (decide (id ∈ cs.*1)) as [Hin|Hnin].
  - right. rewrite (H2 Hin). split; [done|]. rewrite fmap_app. cbn.
    intros (_ & Hd & _)%NoDup_app. by apply (Hd id Hin), list_elem_of_here.
  - destruct (H1 Hnin) as (m' & -> & Hm'). cbn.
    replace (cs ++ (id, uc) :: map f l) with ((cs ++ [(id, uc)]) ++ map f l) by
      by rewrite <- app_assoc.
    apply IH; [|done]. rewrite fmap_app, NoDup_app. split_and!; [done| |cbn; apply NoDup_singleton].
    intros y Hy Hy'. cbn in Hy'. set_solver.
Qed.

Lemma buildSigMap_spec t :
  (∃ m, buildSigMap t = Ok m ∧ NoDup (unlocks t).*1 ∧ sigMap_for (unlocks t) m) ∨
  (buildSigMap t = Err ErrDoubleSpend ∧ ¬ NoDup (unlocks t).*1).
Proof.
  unfold buildSigMap, unlocks.
  destruct (register_loop (λ sci, (sci_ParentID sci, sci_UnlockConditions sci))
    (t_SiacoinInputs t) 0 [] ∅) as [(m1 & E1 & N1 & M1)|[E1 N1]].
  { constructor. } { intros id. rewrite lookup_empty. set_solver. }
  2: { right. cbn in E1, N1. rewrite E1. split; [done|]. rewrite fmap_app. by intros [? _]%NoDup_app. }
  cbn in E1, N1, M1. rewrite E1. cbn.
  destruct (register_loop (λ fcr, (fcr_ParentID fcr, fcr_UnlockConditions fcr))
    (t_FileContractRevisions t) 0 _ _ N1 M1) as [(m2 & E2 & N2 & M2)|[E2 N2]].
  2: { right. cbn in E2. rewrite E2. split; [done|]. rewrite app_assoc, fmap_app.
       by intros [? _]%NoDup_app. }
  cbn in E2. rewrite E2. cbn.
  destruct (register_loop (λ sfi, (sfi_ParentID sfi, sfi_UnlockConditions sfi))
    (t_SiafundInputs t) 0 _ _ N2 M2) as [(m3 & E3 & N3 & M3)|[E3 N3]];
    cbn in E3; rewrite <- app_assoc in *; [left|right]; eauto.
Qed.

(** ** The signature loop *)

(** The signatures for one parent. *)
Definition sigs_of (id : Hash) (sigs : list TransactionSignature) : list TransactionSignature :=
  filter (λ s, ts_ParentID s = id) sigs.

Section signature_loop.
Context `{N : Net} `{C : Crypto} (t : Transaction) (height : BlockHeight) (m0 : SigMap).

(** A signature at index [i] is valid for the keys of its parent. *)
Definition signature_ok (i : Z) (sig : TransactionSignature) (keys : list SiaPublicKey) : Prop :=
  ts_Timelock sig ≤ height ∧
  ∃ key, go_index keys (ts_PublicKeyIndex sig) = Ok key ∧
    spk_Algorithm key ≠ SignatureEntropy ∧
    (spk_Algorithm key = SignatureEd25519 →
     ∃ hash, SigHash t i height = Ok hash ∧
       ed25519_Verify (go_copy (replicate PublicKeySize x00) (spk_Key key)) hash
         (go_copy (replicate SignatureSize x00) (ts_Signature sig)) = true).

Lemma checkKey_Ok i sig key :
  checkKey t height i sig key = Ok () ↔
  spk_Algorithm key ≠ SignatureEntropy ∧
  (spk_Algorithm key = SignatureEd25519 →
   ∃ hash, SigHash t i height = Ok hash ∧
     ed25519_Verify (go_copy (replicate PublicKeySize x00) (spk_Key key)) hash
       (go_copy (replicate SignatureSize x00) (ts_Signature sig)) = true).
Proof.
  unfold checkKey. case_decide; [naive_solver|]. case_decide; [|naive_solver].
  rewrite bind_Ok. unfold VerifyHash. split.
  - intros (h & Hh & Hv). split; [done|]. intros _. exists h. split; [done|]. by case_match.
  - intros [_ Hv]. destruct Hv as (h & Hh & Hv); [done|]. exists h. by rewrite Hv.
Qed.

(** The map after the signatures [pre]. *)
Definition sigMap_after (pre : list TransactionSignature) (m : SigMap) : Prop :=
  ∀ id, m !! id =
    (λ s, mkIS (is_remainingSignatures s - len (sigs_of id pre)) (is_possibleKeys s)
            (list_to_set (map ts_PublicKeyIndex (sigs_of id pre))) (is_index s)) <$> m0 !! id.

(** Signature [sig] may follow the signatures [pre]. *)
Definition may_follow (pre : list TransactionSignature) (sig : TransactionSignature) : Prop :=
  ∃ s, m0 !! ts_ParentID sig = Some s ∧
    is_remainingSignatures s ≠ len (sigs_of (ts_ParentID sig) pre) ∧
    (ts_PublicKeyIndex sig ∉ map ts_PublicKeyIndex (sigs_of (ts_ParentID sig) pre)) ∧
    signature_ok (len pre) sig (is_possibleKeys s).

Lemma sigs_of_snoc id pre sig :
  sigs_of id (pre ++ [sig]) =
  sigs_of id pre ++ (if decide (ts_ParentID sig = id) then [sig] else []).
Proof. unfold sigs_of. by rewrite filter_app. Qed.

Lemma sigs_of_split l1 s l2 :
  sigs_of (ts_ParentID s) (l1 ++ s :: l2) =
  sigs_of (ts_ParentID s) l1 ++ s :: sigs_of (ts_ParentID s) l2.
Proof. unfold sigs_of. by rewrite filter_app, filter_cons_True. Qed.

Lemma distinct_keys id l :
  (∀ l1 s l2, l = l1 ++ s :: l2 →
    ts_PublicKeyIndex s ∉ map ts_PublicKeyIndex (sigs_of (ts_ParentID s) l1)) →
  NoDup (map ts_PublicKeyIndex (sigs_of id l)).
Proof.
  induction l as [|s l IH] using rev_ind; intros H; [constructor|].
  rewrite sigs_of_snoc, map_app. apply NoDup_app. split_and!.
  - apply IH. intros l1 s' l2 ->. apply (H l1 s' (l2 ++ [s])). by rewrite <- app_assoc.
  - intros x Hx Hx'. case_decide as Hid; cbn in Hx'; [|set_solver].
    apply list_elem_of_singleton in Hx' as ->. subst id. by apply (H l s [] eq_refl).
  - case_decide; cbn; [apply NoDup_singleton|constructor].
Qed.

Lemma all_follow_iff sigs :
  (∀ l1 s l2, sigs = l1 ++ s :: l2 → may_follow l1 s) ∧
  map_Forall (λ id s, is_remainingSignatures s = len (sigs_of id sigs)) m0 ↔
  (∀ i sig, sigs !! i = Some sig →
     ∃ s, m0 !! ts_ParentID sig = Some s ∧ signature_ok (Z.of_nat i) sig (is_possibleKeys s)) ∧
  map_Forall (λ id s, len (sigs_of id sigs) = is_remainingSignatures s ∧
     NoDup (map ts_PublicKeyIndex (sigs_of id sigs))) m0.
Proof.
  split; intros [H1 H2]; split.
  - intros i sig Hi. rewrite <- (take_drop_middle sigs i sig Hi) in H1.
    destruct (H1 _ _ _ eq_refl) as (s & Hs & _ & _ & Hok). exists s. split; [done|].
    apply lookup_lt_Some in Hi. unfold len in Hok. rewrite length_take in Hok.
    by rewrite Nat.min_l in Hok by lia.
  - intros id s Hs. split; [by rewrite (H2 _ _ Hs)|]. apply distinct_keys.
    intros l1 s' l2 Hl. by destruct (H1 _ _ _ Hl) as (_ & _ & _ & ? & _).
  - intros l1 sig l2 ->. destruct (H1 (length l1) sig) as (s & Hs & Hok).
    { by rewrite lookup_app_r, Nat.sub_diag by lia. }
    destruct (H2 _ _ Hs) as [Hlen Hnd]. rewrite sigs_of_split in Hlen, Hnd.
    exists s. split_and!; [done| | |done].
    + rewrite len_app, len_cons in Hlen. pose proof (len_nonneg (sigs_of (ts_ParentID sig) l2)). lia.
    + rewrite map_app in Hnd. apply NoDup_app in Hnd as (_ & Hd & _).
      intros Hin. apply (Hd _ Hin). set_solver.
  - intros id s Hs. by destruct (H2 _ _ Hs).
Qed.

Hypothesis m0_range : map_Forall (λ _ s, is_u64 (is_remainingSignatures s)) m0.
Definition counts_ok (pre : list TransactionSignature) : Prop :=
  map_Forall (λ id s, len (sigs_of id pre) ≤ is_remainingSignatures s) m0.

Lemma checkSignature_spec pre m sig :
  sigMap_after pre m → counts_ok pre → 0 ≤ ts_PublicKeyIndex sig →
  (∃ m', checkSignature t height (len pre) m sig = Ok m') ↔ may_follow pre sig.
Proof.
  intros Hm Hc Hidx. unfold checkSignature, may_follow. rewrite (Hm (ts_ParentID sig)).
  destruct (m0 !! ts_ParentID sig) as [s|] eqn:Es; cbn; [|naive_solver].
  set (mine := sigs_of (ts_ParentID sig) pre).
  unfold signature_ok. split.
  - intros [m' H]. res_inv. bool_inv. rewrite elem_of_list_to_set in *.
    rewrite checkKey_Ok in *. exists s. split_and!; eauto. lia.
  - intros (s' & [= <-] & H1 & H2 & H3 & key & H4 & H5). apply checkKey_Ok in H5.
    assert (ts_PublicKeyIndex sig < len (is_possibleKeys s)).
    { unfold go_index in H4. case_match; [done|]. case_match eqn:E; [|done].
      apply lookup_lt_Some in E. unfold len. lia. }
    rewrite (proj2 (Z.eqb_neq _ _)) by lia.
    rewrite bool_decide_eq_false_2 by by rewrite elem_of_list_to_set.
    rewrite (proj2 (Z.leb_gt _ _)), (proj2 (Z.ltb_ge _ _)) by lia.
    cbn. rewrite H4. cbn. rewrite H5. cbn. eauto.
Qed.

Lemma checkSignature_after pre m sig m' :
  sigMap_after pre m → counts_ok pre →
  checkSignature t height (len pre) m sig = Ok m' →
  sigMap_after (pre ++ [sig]) m' ∧ counts_ok (pre ++ [sig]).
Proof.
  intros Hm Hc H. unfold checkSignature in H. rewrite (Hm (ts_ParentID sig)) in H.
  destruct (m0 !! ts_ParentID sig) as [s|] eqn:Es; cbn in H; [|done]. res_inv.
  pose proof (Hc _ _ Es) as Hle. cbn in Hle. pose proof (m0_range _ _ Es) as Hr. cbn in Hr.
  bool_inv. pose proof (len_nonneg (sigs_of (ts_ParentID sig) pre)). split.
  - intros id. rewrite sigs_of_snoc. destruct (decide (ts_ParentID sig = id)) as [<-|Hne].
    + rewrite lookup_insert_eq, Es. cbn. do 2 f_equal.
      * rewrite len_app. rewrite u64_id by ulia. unfold len at 3. cbn. lia.
      * rewrite map_app, list_to_set_app_L. cbn. set_solver.
    + rewrite lookup_insert_ne by done. by rewrite app_nil_r, Hm.
  - intros id s' Hs'. cbn. rewrite sigs_of_snoc. pose proof (Hc _ _ Hs').
    destruct (decide (ts_ParentID sig = id)) as [<-|Hne]; [|by rewrite app_nil_r].
    rewrite len_app. simplify_eq. unfold len at 2. cbn. lia.
Qed.

Lemma signature_loop_spec l pre m :
  sigMap_after pre m → counts_ok pre → Forall (λ s, 0 ≤ ts_PublicKeyIndex s) l →
  let loop := foldMi (checkSignature t height) (len pre) m l in
  ((∃ m', loop = Ok m') ↔ ∀ l1 s l2, l = l1 ++ s :: l2 → may_follow (pre ++ l1) s) ∧
  (∀ m', loop = Ok m' → sigMap_after (pre ++ l) m' ∧ counts_ok (pre ++ l)).
Proof.
  revert pre m. induction l as [|sig l IH]; intros pre m Hm Hc Hl; cbn.
  { split; [split; [|eauto]|].
    - intros _ [|] ? ? [=].
    - intros m' [= <-]. by rewrite app_nil_r. }
  apply Forall_cons in Hl as [Hsig Hl].
  pose proof (checkSignature_spec pre m sig Hm Hc Hsig) as Hok.
  destruct (checkSignature t height (len pre) m sig) as [m1|e|] eqn:E; cbn.
  2,3: split; [|done]; split; [naive_solver|]; intros H; specialize (H [] sig l eq_refl);
    rewrite app_nil_r, <- Hok in H; naive_solver.
  destruct (checkSignature_after _ _ _ _ Hm Hc E) as [Hm1 Hc1].
  specialize (IH (pre ++ [sig]) m1 Hm1 Hc1 Hl). cbn in IH.
  rewrite len_app in IH. change (len [sig]) with 1 in IH. rewrite <- app_assoc in IH. cbn in IH.
  destruct IH as [IH1 IH2]. split; [|done]. rewrite IH1. split.
  - intros H [|x l1] s l2 [=]; subst.
    + rewrite app_nil_r. apply Hok. eauto.
    + specialize (H l1 s l2 eq_refl). by rewrite <- app_assoc in H.
  - intros H l1 s l2 ->. rewrite <- app_assoc. by apply (H (sig :: l1) s l2).
Qed.

End signature_loop.

(** ** The specification of [validSignatures] *)

Section signatures_spec.
Context `{N : Net} `{C : Crypto}.

(** What it takes for the signatures of [t] to be valid at [height]. *)
Record signatures_valid (t : Transaction) (height : BlockHeight) : Prop := {
  sv_covered : Forall (λ sig, covered_ok t (ts_CoveredFields sig)) (t_TransactionSignatures t);
  sv_once : NoDup (unlocks t).*1;
  sv_each : ∀ i sig, t_TransactionSignatures t !! i = Some sig →
    ∃ uc, (ts_ParentID sig, uc) ∈ unlocks t ∧
          signature_ok t height (Z.of_nat i) sig (uc_PublicKeys uc);
  sv_enough : ∀ id uc, (id, uc) ∈ unlocks t →
    let mine := sigs_of id (t_TransactionSignatures t) in
    len mine = uc_SignaturesRequired uc ∧ NoDup (map ts_PublicKeyIndex mine);
}.

(** The integers of [t] that the check looks at are within [uint64]. *)
Definition signature_widths (t : Transaction) : Prop :=
  field_lengths_ok t ∧
  Forall (λ p, is_u64 (uc_SignaturesRequired p.2)) (unlocks t) ∧
  Forall (λ sig, 0 ≤ ts_PublicKeyIndex sig ∧ indices_ok t (ts_CoveredFields sig))
    (t_TransactionSignatures t).

Lemma sigMap_for_range t m :
  Forall (λ p, is_u64 (uc_SignaturesRequired p.2)) (unlocks t) → sigMap_for (unlocks t) m →
  map_Forall (λ _ s, is_u64 (is_remainingSignatures s)) m.
Proof.
  intros Hr Hm id s Hs. specialize (Hm id). rewrite Hs in Hm.
  destruct Hm as (uc & i & Hin & ->). rewrite Forall_forall in Hr. exact (Hr _ Hin).
Qed.

Lemma sigMap_initial t m : sigMap_for (unlocks t) m → sigMap_after m [] m.
Proof.
  intros Hm id. pose proof (Hm id) as Hid. destruct (m !! id) as [s|]; [|done].
  destruct Hid as (uc & i & _ & ->). cbn. by rewrite Z.sub_0_r.
Qed.

(** The conditions over the map and over the transaction agree. *)
Lemma sigMap_conditions t height m :
  NoDup (unlocks t).*1 → sigMap_for (unlocks t) m →
  let sigs := t_TransactionSignatures t in
  ((∀ i sig, sigs !! i = Some sig →
     ∃ s, m !! ts_ParentID sig = Some s ∧
          signature_ok t height (Z.of_nat i) sig (is_possibleKeys s)) ↔
   (∀ i sig, sigs !! i = Some sig →
     ∃ uc, (ts_ParentID sig, uc) ∈ unlocks t ∧
          signature_ok t height (Z.of_nat i) sig (uc_PublicKeys uc))) ∧
  (map_Forall (λ id s, len (sigs_of id sigs) = is_remainingSignatures s ∧
     NoDup (map ts_PublicKeyIndex (sigs_of id sigs))) m ↔
   (∀ id uc, (id, uc) ∈ unlocks t →
     len (sigs_of id sigs) = uc_SignaturesRequired uc ∧
     NoDup (map ts_PublicKeyIndex (sigs_of id sigs)))).
Proof.
  intros Hnd Hm sigs. split; split.
  - intros H i sig Hi. destruct (H i sig Hi) as (s & Hs & Hok). pose proof (Hm (ts_ParentID sig)) as Hid.
    rewrite Hs in Hid. destruct Hid as (uc & j & Hin & ->). eauto.
  - intros H i sig Hi. destruct (H i sig Hi) as (uc & Hin & Hok).
    destruct (sigMap_for_elem _ _ _ _ Hnd Hm Hin) as [j Hj]. eauto.
  - intros H id uc Hin. destruct (sigMap_for_elem _ _ _ _ Hnd Hm Hin) as [j Hj].
    exact (H _ _ Hj).
  - intros H id s Hs. pose proof (Hm id) as Hid. rewrite Hs in Hid.
    destruct Hid as (uc & j & Hin & ->). by apply H.
Qed.

Lemma counts_ok_nil t m :
  Forall (λ p, is_u64 (uc_SignaturesRequired p.2)) (unlocks t) → sigMap_for (unlocks t) m →
  counts_ok m [].
Proof.
  intros Hr Hm id s Hs. pose proof (sigMap_for_range _ _ Hr Hm _ _ Hs) as H.
  change (0 ≤ is_remainingSignatures s). destruct H. done.
Qed.

Lemma validSignatures_iff t height :
  signature_widths t → validSignatures t height = Ok () ↔ signatures_valid t height.
Proof.
  intros (Hf & Hr & Hs). unfold validSignatures.
  rewrite bind_unit_Ok, validCoveredFields_spec, bind_Ok by done.
  assert (Forall (λ s, 0 ≤ ts_PublicKeyIndex s) (t_TransactionSignatures t)) as Hs'.
  { eapply Forall_impl; [exact Hs|]. cbn. tauto. }
  destruct (buildSigMap_spec t) as [(m & -> & Hnd & Hm)|[-> Hnd]].
  2: { split; [naive_solver|]. by intros []. }
  destruct (signature_loop_spec t height m (sigMap_for_range _ _ Hr Hm)
    (t_TransactionSignatures t) [] m (sigMap_initial _ _ Hm) (counts_ok_nil _ _ Hr Hm) Hs')
    as [Hl1 Hl2]. change (len []) with 0 in *. cbn [app] in *.
  destruct (sigMap_conditions t height m Hnd Hm) as [Hc1 Hc2].
  pose proof (all_follow_iff t height m (t_TransactionSignatures t)) as Hall.
  setoid_rewrite bind_Ok. setoid_rewrite guard_err_Ok.
  assert (∀ m', sigMap_after m (t_TransactionSignatures t) m' →
    negb (bool_decide (map_Forall (λ _ s, is_remainingSignatures s = 0) m')) = false ↔
    map_Forall (λ id s, is_remainingSignatures s = len (sigs_of id (t_TransactionSignatures t))) m)
    as Hfin.
  { intros m' Hm'. rewrite negb_false_iff, bool_decide_eq_true. split; intros H id s E.
    - specialize (Hm' id). rewrite E in Hm'. apply H in Hm'. cbn in Hm'. lia.
    - rewrite Hm' in E. apply fmap_Some in E as (s0 & E & ->). apply H in E. cbn in *. lia. }
  split.
  - intros (Hcov & m1 & [= <-] & m' & Hloop & Hrem).
    destruct (Hl2 _ Hloop) as [Ha _]. apply (Hfin _ Ha) in Hrem.
    destruct (proj1 Hall (conj (proj1 Hl1 (ex_intro _ _ Hloop)) Hrem)) as [Hx Hy].
    split; [done|done|by apply Hc1|by apply Hc2].
  - intros [Hcov _ Hx Hy]. split; [done|].
    destruct (proj2 Hall (conj (proj2 Hc1 Hx) (proj2 Hc2 Hy))) as [Hfollow Hrem].
    destruct (proj2 Hl1 Hfollow) as [m' Hloop]. exists m. split; [done|]. exists m'.
    split; [done|]. destruct (Hl2 _ Hloop) as [Ha _]. by apply (Hfin _ Ha).
Qed.

(** No panic: the loops only fail with an error. *)
Lemma checkM_no_panic {A} (f : A → res unit) l :
  (∀ x, x ∈ l → f x ≠ Panic) → checkM f l ≠ Panic.
Proof.
  unfold checkM. induction l as [|x l IH]; intros H; cbn; [done|].
  specialize (H x (list_elem_of_here _ _)) as Hx.
  destruct (f x) as [[]| |]; cbn; [|done|done]. apply IH. set_solver.
Qed.

Lemma checkSignature_no_panic t height i m sig :
  (∃ h, SigHash t i height = Ok h) → 0 ≤ ts_PublicKeyIndex sig →
  checkSignature t height i m sig ≠ Panic.
Proof.
  intros [h Hh] Hidx. unfold checkSignature. destruct (m !! ts_ParentID sig) as [s|]; [|done].
  unfold guard_err.
  do 4 (match goal with |- context [if ?b then Err _ else Ok ()] =>
          destruct b eqn:?; cbn [mbind res_bind]; [done|] end).
  bool_inv.
  destruct (go_index_lt (is_possibleKeys s) (ts_PublicKeyIndex sig)) as (k & -> & _); [lia|].
  cbn. unfold checkKey, VerifyHash. rewrite Hh. repeat case_match; cbn; try done; by case_match.
Qed.

Lemma signature_loop_no_panic t height l i m :
  (∀ j sig, l !! j = Some sig →
    (∃ h, SigHash t (i + Z.of_nat j) height = Ok h) ∧ 0 ≤ ts_PublicKeyIndex sig) →
  foldMi (checkSignature t height) i m l ≠ Panic.
Proof.
  revert i m. induction l as [|sig l IH]; intros i m H; cbn; [done|].
  destruct (H 0%nat sig eq_refl) as [Hh Hi]. rewrite Z.add_0_r in Hh.
  pose proof (checkSignature_no_panic t height i m sig Hh Hi).
  destruct (checkSignature t height i m sig) as [m'| |]; cbn; [|done|done].
  apply IH. intros j sig' Hj. specialize (H (S j) sig' Hj).
  by replace (i + 1 + Z.of_nat j) with (i + Z.of_nat (S j)) by lia.
Qed.

Lemma validCoveredFields_no_panic t : validCoveredFields t ≠ Panic.
Proof.
  apply checkM_no_panic. intros sig _. unfold validCoveredFields_sig.
  assert (∀ l : list (list Z * Z), ∀ f e, checkM (λ fm, guard_err (f fm) e) l ≠ Panic) as Hg.
  { intros l f e. apply checkM_no_panic. intros. unfold guard_err. by case_match. }
  match goal with |- (?r ≫= _) ≠ _ => assert (r ≠ Panic) as Hr end.
  { case_match; [apply Hg|]. unfold guard_err. by case_match. }
  match goal with |- (?r ≫= _) ≠ _ => destruct r as [[]| |]; cbn [mbind res_bind]; [apply Hg|done|done] end.
Qed.

Lemma validSignatures_no_panic t height :
  signature_widths t → validSignatures t height ≠ Panic.
Proof.
  intros (Hf & Hr & Hs). unfold validSignatures.
  pose proof (validCoveredFields_no_panic t) as Hcp.
  destruct (validCoveredFields t) as [[]| |] eqn:Hcov; cbn; [|done|done].
  apply validCoveredFields_spec in Hcov; [|done].
  destruct (buildSigMap_spec t) as [(m & -> & _ & _)|[-> _]]; [|done]. cbn.
  pose proof (signature_loop_no_panic t height (t_TransactionSignatures t) 0 m) as Hl.
  destruct (foldMi _ 0 m _) as [m'| |]; cbn; [unfold guard_err; by case_match|done|].
  exfalso. apply Hl; [|done]. intros j sig Hj. rewrite Z.add_0_l.
  rewrite !Forall_forall in *. apply list_elem_of_lookup_2 in Hj as Hin.
  destruct (Hs _ Hin) as [Hidx Hind]. split; [|done].
  apply (SigHash_Ok t (Z.of_nat j) sig); [lia|by rewrite Nat2Z.id|by apply Hcov|done].
Qed.
End signatures_spec.

Lemma slice_ok_len {A} sz (ok : A → Prop) l : slice_ok sz ok l → is_u64 (len l).
Proof. intros (_ & H & _). pose proof (len_nonneg l). ulia. Qed.

(** Everything that was decoded from the wire has the widths. *)
Lemma signature_widths_wire t : Transaction_wire_ok t → signature_widths t.
Proof.
  intros (H1 & H2 & H3 & H4 & H5 & H6 & H7 & H8 & H9 & H10). split_and!.
  - by repeat (apply Forall_cons; split; [by eapply slice_ok_len|]).
  - unfold unlocks. rewrite !Forall_app, !Forall_map. split_and!.
    + destruct H1 as [H1 _]. eapply Forall_impl; [exact H1|]. intros x (_ & _ & _ & ?). done.
    + destruct H4 as [H4 _]. eapply Forall_impl; [exact H4|]. intros x (_ & (_ & _ & ?) & _). done.
    + destruct H6 as [H6 _]. eapply Forall_impl; [exact H6|]. intros x (_ & (_ & _ & ?) & _). done.
  - destruct H10 as [H10 _]. eapply Forall_impl; [exact H10|]. cbn.
    intros sig (_ & [Hi _] & _ & Hcf & _). split; [done|].
    destruct Hcf as (C1 & C2 & C3 & C4 & C5 & C6 & C7 & C8 & C9 & C10).
    unfold indices_ok, fieldMaxs.
    repeat (apply Forall_cons; split; cbn; [eapply Forall_impl; [by eapply proj1|]; by intros ? []|]).
    done.
Qed.

(** ** Main properties *)

(** C14: [validSignatures] accepts exactly the transactions whose covered
    fields are well formed, that unlock no parent twice, in which every
    signature belongs to an unlocked parent, names one of its public keys, is
    past its timelock, does not use an entropy key and, for ed25519 keys,
    verifies against the hash of the fields it covers, and in which every
    unlocked parent has exactly the required number of signatures, made with
    pairwise distinct keys. *)
Theorem validSignatures_spec `{N : Net} `{C : Crypto} (t : Transaction) (height : Z) :
  signature_widths t → validSignatures t height = Ok () ↔ signatures_valid t height.
Proof. apply validSignatures_iff. Qed.

(** No transaction from the wire can make [validSignatures] panic: the
    covered field indices it dereferences while hashing, the public key index
    and the signature index are all in range by the time they are used. *)
Lemma validSignatures_never_panics `{N : Net} `{C : Crypto} (t : Transaction) (height : Z) :
  Transaction_wire_ok t → ∃ r, validSignatures t height = r ∧ (r = Ok () ∨ ∃ e, r = Err e).
Proof.
  intros Ht. eexists. split; [done|].
  pose proof (validSignatures_no_panic t height (signature_widths_wire t Ht)).
  destruct (validSignatures t height) as [[]| |]; naive_solver.
Qed.

(** [validCoveredFields] accepts exactly the covered fields objects whose
    index lists are strictly increasing and within the transaction, with
    nothing but signatures listed for a whole-transaction signature and
    something listed otherwise. *)
Lemma validCoveredFields_iff (t : Transaction) :
  field_lengths_ok t →
  validCoveredFields t = Ok () ↔
  Forall (λ sig, covered_ok t (ts_CoveredFields sig)) (t_TransactionSignatures t).
Proof. apply validCoveredFields_spec. Qed.

(** *** Witnesses *)

(** A 2-of-3 input, with one ed25519 key and one key of an unknown algorithm
    signing. *)
Definition ex_multisig : Transaction :=
  let key k := mkSPK SignatureEd25519 [k; k] in
  let uc := mkUC 0 [key x01; key x02; mkSPK (specifier [x6e; x65; x77]) []] 2 in
  mkTxn [mkSCI zeroHash uc] [mkSCO 5 zeroHash] [] [] [] [] [] [] []
    [mkTS zeroHash 1 0 (mkCF true [] [] [] [] [] [] [] [] [] []) [x02; x02];
     mkTS zeroHash 2 0 (mkCF false [0] [0] [] [] [] [] [] [] [] [0]) []].

Lemma ex_multisig_wire_ok : Transaction_wire_ok ex_multisig.
Proof. unfold ex_multisig. wire_check. Qed.

Lemma validSignatures_spec_witness :
  @signatures_valid (standardNet noAllocations) toyCrypto ex_multisig 10.
Proof.
  apply (@validSignatures_spec (standardNet noAllocations) toyCrypto).
  - apply signature_widths_wire, ex_multisig_wire_ok.
  - vm_compute. reflexivity.
Defined.

