(* ===== verification/ValidTransaction.v ===== *)
(** * Standalone transaction rules

    Models [types/validtransaction.go]: the rules a transaction must follow in
    any context ([StandaloneValid]). *)

From S2P Require Import Prelude Encoding Currency Target Crypto Types Codec Block Signatures.

Section validtransaction.
Context `{N : Net} `{C : Crypto}.

(** The loops that add up proof outputs. *)
Definition outputs_sum (outputs : list SiacoinOutput) : Currency :=
  foldl (λ s sco, Currency_Add s (sco_Value sco)) 0 outputs.

Definition correctFileContracts (t : Transaction) (currentHeight : BlockHeight) : res unit :=
  checkM (λ fc,
    _ ← guard_err (fc_WindowStart fc <=? currentHeight) ErrFileContractWindowStartViolation;
    _ ← guard_err (fc_WindowEnd fc <=? fc_WindowStart fc) ErrFileContractWindowEndViolation;
    let validProofOutputSum := outputs_sum (fc_ValidProofOutputs fc) in
    let missedProofOutputSum := outputs_sum (fc_MissedProofOutputs fc) in
    outputPortion ← PostTax currentHeight (fc_Payout fc);
    _ ← guard_err (negb (Currency_Cmp validProofOutputSum outputPortion =? 0))
          ErrFileContractOutputSumViolation;
    guard_err (negb (Currency_Cmp missedProofOutputSum outputPortion =? 0))
          ErrFileContractOutputSumViolation)
    (t_FileContracts t).

Definition correctFileContractRevisions (t : Transaction) (currentHeight : BlockHeight) : res unit :=
  checkM (λ fcr,
    _ ← guard_err (fcr_NewWindowStart fcr <=? currentHeight) ErrFileContractWindowStartViolation;
    _ ← guard_err (fcr_NewWindowEnd fcr <=? fcr_NewWindowStart fcr) ErrFileContractWindowEndViolation;
    let validProofOutputSum := outputs_sum (fcr_NewValidProofOutputs fcr) in
    let missedProofOutputSum := outputs_sum (fcr_NewMissedProofOutputs fcr) in
    guard_err (negb (Currency_Cmp validProofOutputSum missedProofOutputSum =? 0))
      ErrFileContractOutputSumViolation)
    (t_FileContractRevisions t).

Definition fitsInABlock (t : Transaction) (currentHeight : BlockHeight) : res unit :=
  let size := u64 (Transaction_MarshalSiaSize t) in
  _ ← guard_err (BlockSizeLimit - 5000 <? size) ErrTransactionTooLarge;
  if OakHardforkBlock <=? currentHeight
  then guard_err (OakHardforkTxnSizeLimit <? size) ErrTransactionTooLarge
  else Ok ().

Definition followsMinimumValues (t : Transaction) : res unit :=
  _ ← checkM (λ sco, guard_err (Currency_IsZero (sco_Value sco)) ErrZeroOutput) (t_SiacoinOutputs t);
  _ ← checkM (λ fc, guard_err (Currency_IsZero (fc_Payout fc)) ErrZeroOutput) (t_FileContracts t);
  _ ← checkM (λ sfo,
        _ ← guard_err (negb (Currency_IsZero (sfo_ClaimStart sfo))) ErrNonZeroClaimStart;
        guard_err (Currency_IsZero (sfo_Value sfo)) ErrZeroOutput) (t_SiafundOutputs t);
  checkM (λ fee, guard_err (Currency_IsZero fee) ErrZeroMinerFee) (t_MinerFees t).

Definition followsStorageProofRules (t : Transaction) : res unit :=
  if len (t_StorageProofs t) =? 0 then Ok () else
  _ ← guard_err (negb (len (t_SiacoinOutputs t) =? 0)) ErrStorageProofWithOutputs;
  _ ← guard_err (negb (len (t_FileContracts t) =? 0)) ErrStorageProofWithOutputs;
  _ ← guard_err (negb (len (t_FileContractRevisions t) =? 0)) ErrStorageProofWithOutputs;
  guard_err (negb (len (t_SiafundOutputs t) =? 0)) ErrStorageProofWithOutputs.

(** The loops of [noRepeats]: a set of the ids seen so far. *)
Definition see_once (seen : gset Hash) (id : Hash) : res (gset Hash) :=
  if decide (id ∈ seen) then Err ErrDoubleSpend else Ok ({[id]} ∪ seen).

Definition noRepeats (t : Transaction) : res unit :=
  _ ← foldM (λ seen sci, see_once seen (sci_ParentID sci)) ∅ (t_SiacoinInputs t);
  doneFileContracts ← foldM (λ seen sp, see_once seen (sp_ParentID sp)) ∅ (t_StorageProofs t);
  _ ← foldM (λ seen fcr, see_once seen (fcr_ParentID fcr)) doneFileContracts
        (t_FileContractRevisions t);
  _ ← foldM (λ seen sfi, see_once seen (sfi_ParentID sfi)) ∅ (t_SiafundInputs t);
  Ok ().

Definition validUnlockConditions (uc : UnlockConditions) (currentHeight : BlockHeight) : res unit :=
  guard_err (currentHeight <? uc_Timelock uc) ErrTimelockNotSatisfied.

Definition Transaction_validUnlockConditions (t : Transaction) (currentHeight : BlockHeight) :
    res unit :=
  _ ← checkM (λ sci, validUnlockConditions (sci_UnlockConditions sci) currentHeight)
        (t_SiacoinInputs t);
  _ ← checkM (λ fcr, validUnlockConditions (fcr_UnlockConditions fcr) currentHeight)
        (t_FileContractRevisions t);
  checkM (λ sfi, validUnlockConditions (sfi_UnlockConditions sfi) currentHeight)
        (t_SiafundInputs t).

Definition StandaloneValid (t : Transaction) (currentHeight : BlockHeight) : res unit :=
  _ ← fitsInABlock t currentHeight;
  _ ← followsStorageProofRules t;
  _ ← noRepeats t;
  _ ← followsMinimumValues t;
  _ ← correctFileContracts t currentHeight;
  _ ← correctFileContractRevisions t currentHeight;
  _ ← Transaction_validUnlockConditions t currentHeight;
  validSignatures t currentHeight.
End validtransaction.

(** ** What the checks mean *)

Lemma see_once_loop {A} (f : A → Hash) l seen :
  (∃ seen', foldM (λ seen x, see_once seen (f x)) seen l = Ok seen' ∧
     seen' = list_to_set (map f l) ∪ seen ∧ NoDup (map f l) ∧
     (∀ x, x ∈ map f l → x ∉ seen)) ∨
  (foldM (λ seen x, see_once seen (f x)) seen l = Err ErrDoubleSpend ∧
   ¬ (NoDup (map f l) ∧ ∀ x, x ∈ map f l → x ∉ seen)).
Proof.
  revert seen. induction l as [|x l IH]; intros seen; cbn.
  { left. exists seen. split_and!; [done|set_solver|constructor|set_solver]. }
  assert (see_once seen (f x) =
    if decide (f x ∈ seen) then Err ErrDoubleSpend else Ok ({[f x]} ∪ seen)) as -> by done.
  case_decide as Hin; cbn.
  - right. split; [done|]. intros [_ H]. apply (H (f x)); [set_solver|done].
  - destruct (IH ({[f x]} ∪ seen)) as [(s' & -> & -> & Hnd & Hd)|[-> Hn]]; [left|right].
    + eexists. split_and!; [done|set_solver| |set_solver].
      constructor; [|done]. intros Hx. apply (Hd _ Hx). set_solver.
    + split; [done|]. intros [Hnd Hd]. apply Hn. apply NoDup_cons in Hnd as [Hx Hnd].
      split; [done|]. intros y Hy. specialize (Hd y). set_solver.
Qed.

Definition no_repeats (t : Transaction) : Prop :=
  NoDup (map sci_ParentID (t_SiacoinInputs t)) ∧
  NoDup (map sp_ParentID (t_StorageProofs t) ++ map fcr_ParentID (t_FileContractRevisions t)) ∧
  NoDup (map sfi_ParentID (t_SiafundInputs t)).

Lemma noRepeats_spec t :
  (noRepeats t = Ok () ∧ no_repeats t) ∨ (noRepeats t = Err ErrDoubleSpend ∧ ¬ no_repeats t).
Proof.
  unfold noRepeats, no_repeats.
  destruct (see_once_loop sci_ParentID (t_SiacoinInputs t) ∅) as [(s1 & -> & _ & H1 & _)|[-> H1]];
    [cbn|right; split; [done|]; intros (? & _ & _); apply H1; set_solver].
  destruct (see_once_loop sp_ParentID (t_StorageProofs t) ∅) as [(s2 & -> & -> & H2 & _)|[-> H2]];
    [cbn|right; split; [done|]; intros (_ & [? _]%NoDup_app & _); apply H2; set_solver].
  destruct (see_once_loop fcr_ParentID (t_FileContractRevisions t)
    (list_to_set (map sp_ParentID (t_StorageProofs t)) ∪ ∅)) as [(s3 & -> & -> & H3 & D3)|[-> H3]].
  2: { right; split; [done|]. intros (_ & (_ & Hd & ?)%NoDup_app & _). apply H3.
       split; [done|]. intros x Hx Hx'. apply (Hd x); set_solver. }
  cbn.
  destruct (see_once_loop sfi_ParentID (t_SiafundInputs t) ∅) as [(s4 & -> & _ & H4 & _)|[-> H4]];
    [cbn|right; split; [done|]; intros (_ & _ & ?); apply H4; set_solver].
  left. split_and!; [done|done| |done]. apply NoDup_app. split_and!; [done| |done].
  intros x Hx Hx'. apply (D3 x Hx'). set_solver.
Qed.

Lemma outputs_sum_value l : outputs_sum l = sumZ sco_Value l.
Proof. unfold outputs_sum, Currency_Add. by rewrite (foldl_sumZ sco_Value). Qed.

Lemma Cmp_neq_false x y : negb (Currency_Cmp x y =? 0) = false ↔ x = y.
Proof. by rewrite negb_false_iff, Z.eqb_eq, Currency_Cmp_eq. Qed.

(** Every value of a decoded transaction is a natural number. *)
Definition values_nonneg (t : Transaction) : Prop :=
  Forall (λ sco, 0 ≤ sco_Value sco) (t_SiacoinOutputs t) ∧
  Forall (λ fc, 0 ≤ fc_Payout fc ∧ Forall (λ sco, 0 ≤ sco_Value sco) (fc_ValidProofOutputs fc) ∧
    Forall (λ sco, 0 ≤ sco_Value sco) (fc_MissedProofOutputs fc)) (t_FileContracts t) ∧
  Forall (λ fcr, Forall (λ sco, 0 ≤ sco_Value sco) (fcr_NewValidProofOutputs fcr) ∧
    Forall (λ sco, 0 ≤ sco_Value sco) (fcr_NewMissedProofOutputs fcr)) (t_FileContractRevisions t) ∧
  Forall (λ sfo, 0 ≤ sfo_Value sfo ∧ 0 ≤ sfo_ClaimStart sfo) (t_SiafundOutputs t) ∧
  Forall (λ fee, 0 ≤ fee) (t_MinerFees t).

Lemma values_nonneg_wire t : Transaction_wire_ok t → values_nonneg t.
Proof.
  assert (∀ l, SiacoinOutputs_wire_ok l → Forall (λ sco, 0 ≤ sco_Value sco) l) as Hs.
  { intros l [Hl _]. eapply Forall_impl; [exact Hl|]. by intros ? [[? _] _]. }
  intros (_ & H2 & [H3 _] & [H4 _] & _ & _ & [H7 _] & [H8 _] & _ & _). split_and!; [by apply Hs|..].
  - eapply Forall_impl; [exact H3|]. intros fc (_ & _ & _ & _ & [? _] & ? & ? & _). auto.
  - eapply Forall_impl; [exact H4|]. intros fcr (_ & _ & _ & _ & _ & _ & _ & ? & ? & _). auto.
  - eapply Forall_impl; [exact H7|]. intros sfo ([? _] & _ & [? _]). auto.
  - eapply Forall_impl; [exact H8|]. by intros fee [? _].
Qed.

Section standalone.
Context `{N : Net} `{C : Crypto}.

(** A new contract: a window in the future, and both payouts equal to the
    payout after tax. *)
Definition contract_ok (height : BlockHeight) (fc : FileContract) : Prop :=
  height < fc_WindowStart fc < fc_WindowEnd fc ∧
  sumZ sco_Value (fc_ValidProofOutputs fc) = fc_Payout fc - tax_value height (fc_Payout fc) ∧
  sumZ sco_Value (fc_MissedProofOutputs fc) = fc_Payout fc - tax_value height (fc_Payout fc).

Definition revision_ok (height : BlockHeight) (fcr : FileContractRevision) : Prop :=
  height < fcr_NewWindowStart fcr < fcr_NewWindowEnd fcr ∧
  sumZ sco_Value (fcr_NewValidProofOutputs fcr) = sumZ sco_Value (fcr_NewMissedProofOutputs fcr).

Record standalone_valid (t : Transaction) (height : BlockHeight) : Prop := {
  sa_size : len (Transaction_MarshalSia t) ≤ BlockSizeLimit - 5000 ∧
    (OakHardforkBlock ≤ height → len (Transaction_MarshalSia t) ≤ OakHardforkTxnSizeLimit);
  sa_proofs : t_StorageProofs t ≠ [] → t_SiacoinOutputs t = [] ∧ t_FileContracts t = [] ∧
    t_FileContractRevisions t = [] ∧ t_SiafundOutputs t = [];
  sa_repeats : no_repeats t;
  sa_outputs : Forall (λ sco, 0 < sco_Value sco) (t_SiacoinOutputs t);
  sa_payouts : Forall (λ fc, 0 < fc_Payout fc) (t_FileContracts t);
  sa_siafunds : Forall (λ sfo, sfo_ClaimStart sfo = 0 ∧ 0 < sfo_Value sfo) (t_SiafundOutputs t);
  sa_fees : Forall (λ fee, 0 < fee) (t_MinerFees t);
  sa_contracts : Forall (contract_ok height) (t_FileContracts t);
  sa_revisions : Forall (revision_ok height) (t_FileContractRevisions t);
  sa_timelocks : Forall (λ p, uc_Timelock p.2 ≤ height) (unlocks t);
  sa_signatures : signatures_valid t height;
}.

Lemma fitsInABlock_Ok t height :
  Transaction_wire_ok t → len (Transaction_MarshalSia t) < 2 ^ 64 →
  fitsInABlock t height = Ok () ↔
  len (Transaction_MarshalSia t) ≤ BlockSizeLimit - 5000 ∧
  (OakHardforkBlock ≤ height → len (Transaction_MarshalSia t) ≤ OakHardforkTxnSizeLimit).
Proof.
  intros Ht Hlen. unfold fitsInABlock. rewrite Transaction_size_eq by done.
  pose proof (len_nonneg (Transaction_MarshalSia t)). rewrite u64_id by ulia.
  rewrite bind_unit_Ok, guard_err_Ok, Z.ltb_ge. f_equiv.
  destruct (Z.leb_spec OakHardforkBlock height).
  - rewrite guard_err_Ok, Z.ltb_ge. tauto.
  - split; [lia|done].
Qed.

Lemma len_zero {A} (l : list A) : len l = 0 ↔ l = [].
Proof. destruct l; cbn; [by rewrite len_nil|]. rewrite len_cons. pose proof (len_nonneg l). split; [lia|done]. Qed.

Lemma followsStorageProofRules_Ok t :
  followsStorageProofRules t = Ok () ↔
  (t_StorageProofs t ≠ [] → t_SiacoinOutputs t = [] ∧ t_FileContracts t = [] ∧
    t_FileContractRevisions t = [] ∧ t_SiafundOutputs t = []).
Proof.
  unfold followsStorageProofRules. destruct (Z.eqb_spec (len (t_StorageProofs t)) 0) as [E|E].
  - apply len_zero in E. by rewrite E.
  - rewrite !bind_unit_Ok, !guard_err_Ok, !negb_false_iff, !Z.eqb_eq, !len_zero.
    rewrite len_zero in E. tauto.
Qed.

Lemma correctFileContracts_Ok t height :
  values_nonneg t →
  correctFileContracts t height = Ok () ↔ Forall (contract_ok height) (t_FileContracts t).
Proof.
  intros (_ & Hv & _). unfold correctFileContracts. rewrite checkM_Ok, !Forall_forall.
  rewrite Forall_forall in Hv. apply forall_proper. intros fc. apply forall_proper. intros Hin.
  destruct (Hv fc Hin) as [Hp _]. rewrite PostTax_value by done. cbn [mbind res_bind].
  rewrite !bind_unit_Ok, !guard_err_Ok, !Cmp_neq_false, !outputs_sum_value, !Z.leb_gt.
  unfold contract_ok. tauto.
Qed.

Lemma correctFileContractRevisions_Ok t height :
  correctFileContractRevisions t height = Ok () ↔
  Forall (revision_ok height) (t_FileContractRevisions t).
Proof.
  unfold correctFileContractRevisions. rewrite checkM_Ok. apply Forall_proper; [|done].
  intros fcr. rewrite !bind_unit_Ok, !guard_err_Ok, !Cmp_neq_false, !outputs_sum_value, !Z.leb_gt.
  unfold revision_ok. tauto.
Qed.

Lemma Transaction_validUnlockConditions_Ok t height :
  Transaction_validUnlockConditions t height = Ok () ↔
  Forall (λ p, uc_Timelock p.2 ≤ height) (unlocks t).
Proof.
  unfold Transaction_validUnlockConditions, unlocks, validUnlockConditions.
  rewrite !bind_unit_Ok, !checkM_Ok, !Forall_app, !Forall_map.
  f_equiv; [|f_equiv]; apply Forall_iff; intros x; by rewrite guard_err_Ok, Z.ltb_ge.
Qed.

Lemma followsMinimumValues_Ok t :
  values_nonneg t →
  followsMinimumValues t = Ok () ↔
  Forall (λ sco, 0 < sco_Value sco) (t_SiacoinOutputs t) ∧
  Forall (λ fc, 0 < fc_Payout fc) (t_FileContracts t) ∧
  Forall (λ sfo, sfo_ClaimStart sfo = 0 ∧ 0 < sfo_Value sfo) (t_SiafundOutputs t) ∧
  Forall (λ fee, 0 < fee) (t_MinerFees t).
Proof.
  intros (_ & _ & _ & Hsf & _). unfold followsMinimumValues, Currency_IsZero.
  rewrite !bind_unit_Ok, !checkM_Ok. rewrite Forall_forall in Hsf.
  f_equiv; [|f_equiv; [|f_equiv]];
    try (apply Forall_iff; intros x; rewrite guard_err_Ok, Z.leb_gt; done).
  rewrite !Forall_forall. apply forall_proper. intros sfo. apply forall_proper. intros Hin.
  destruct (Hsf sfo Hin). rewrite bind_unit_Ok, !guard_err_Ok, negb_false_iff, Z.leb_le, Z.leb_gt.
  f_equiv. lia.
Qed.

Lemma StandaloneValid_iff t height :
  Transaction_wire_ok t → len (Transaction_MarshalSia t) < 2 ^ 64 →
  StandaloneValid t height = Ok () ↔ standalone_valid t height.
Proof.
  intros Ht Hlen. unfold StandaloneValid. pose proof (values_nonneg_wire t Ht) as Hv.
  rewrite !bind_unit_Ok, fitsInABlock_Ok, followsStorageProofRules_Ok, followsMinimumValues_Ok,
    correctFileContracts_Ok, correctFileContractRevisions_Ok,
    Transaction_validUnlockConditions_Ok by done.
  rewrite validSignatures_iff by by apply signature_widths_wire.
  assert (noRepeats t = Ok () ↔ no_repeats t) as ->.
  { destruct (noRepeats_spec t) as [[-> ?]|[-> ?]]; naive_solver. }
  split; [intros (? & ? & ? & (? & ? & ? & ?) & ? & ? & ? & ?); by split|].
  intros []. repeat first [assumption | split].
Qed.

Lemma StandaloneValid_signatures t height :
  StandaloneValid t height = Ok () → validSignatures t height = Ok ().
Proof. unfold StandaloneValid. rewrite !bind_unit_Ok. tauto. Qed.

Lemma bind_no_panic {A B} (r : res A) (f : A → res B) :
  r ≠ Panic → (∀ a, r = Ok a → f a ≠ Panic) → (r ≫= f) ≠ Panic.
Proof. destruct r; cbn; auto. Qed.

Lemma guard_no_panic b e : guard_err b e ≠ Panic.
Proof. unfold guard_err. by destruct b. Qed.

Ltac seq_no_panic :=
  match goal with
  | |- (_ ≫= _) ≠ Panic => apply bind_no_panic; [|intros ? _; seq_no_panic]
  | _ => idtac
  end.

Lemma StandaloneValid_no_panic t height :
  Transaction_wire_ok t → StandaloneValid t height ≠ Panic.
Proof.
  intros Ht. unfold StandaloneValid.
  seq_no_panic.
  - apply bind_no_panic; [apply guard_no_panic|]. intros _ _. case_match; [apply guard_no_panic|done].
  - unfold followsStorageProofRules. case_match; [done|].
    repeat (apply bind_no_panic; [apply guard_no_panic|intros _ _]). apply guard_no_panic.
  - destruct (noRepeats_spec t) as [[-> ?]|[-> ?]]; done.
  - unfold followsMinimumValues.
    repeat (apply bind_no_panic; [apply checkM_no_panic; intros|intros _ _]);
      [..|apply checkM_no_panic; intros];
      repeat (apply bind_no_panic; [|intros _ _]); apply guard_no_panic.
  - apply checkM_no_panic. intros fc Hin.
    destruct (values_nonneg_wire t Ht) as (_ & Hv & _). rewrite Forall_forall in Hv.
    destruct (Hv fc Hin) as [Hp _]. rewrite PostTax_value by done.
    repeat (apply bind_no_panic; [first [apply guard_no_panic|done]|intros ? _]).
    apply guard_no_panic.
  - apply checkM_no_panic. intros fcr _.
    repeat (apply bind_no_panic; [apply guard_no_panic|intros ? _]). apply guard_no_panic.
  - repeat (apply bind_no_panic; [apply checkM_no_panic; intros; apply guard_no_panic|intros _ _]).
    apply checkM_no_panic; intros; apply guard_no_panic.
  - by apply validSignatures_no_panic, signature_widths_wire.
Qed.
End standalone.

(** ** Main properties *)

(** C16: [StandaloneValid] accepts exactly the transactions that follow the
    rules of validtransaction.go: at most 1,995,000 bytes, and 64,000 from the
    Oak hardfork on (the documents of the rules say that the consensus does not
    limit the size of a transaction); nothing but inputs and fees next to
    storage proofs, no parent object used twice, positive values and zero
    claim starts, contracts and revisions with a window in the future and
    output sums that equal the payout after tax (contracts) or each other
    (revisions), timelocks that have passed, and valid signatures. *)
Theorem StandaloneValid_spec `{N : Net} `{C : Crypto} (t : Transaction) (height : Z) :
  Transaction_wire_ok t → len (Transaction_MarshalSia t) < 2 ^ 64 →
  StandaloneValid t height = Ok () ↔ standalone_valid t height.
Proof. apply StandaloneValid_iff. Qed.

(** No transaction from the wire can crash [StandaloneValid]. *)
Lemma StandaloneValid_never_panics `{N : Net} `{C : Crypto} (t : Transaction) (height : Z) :
  Transaction_wire_ok t → StandaloneValid t height ≠ Panic.
Proof. apply StandaloneValid_no_panic. Qed.

(** [noRepeats], which walks over four lists with three sets of ids, fails
    exactly when a siacoin output, a siafund output or a file contract (by
    storage proof or revision) is used twice, and then with
    [ErrDoubleSpend]. *)
Lemma noRepeats_iff (t : Transaction) :
  (noRepeats t = Ok () ↔ no_repeats t) ∧ (noRepeats t = Err ErrDoubleSpend ↔ ¬ no_repeats t).
Proof. destruct (noRepeats_spec t) as [[-> ?]|[-> ?]]; naive_solver. Qed.

(** *** Witnesses *)

Lemma StandaloneValid_spec_witness :
  @standalone_valid (standardNet noAllocations) toyCrypto ex_multisig 10.
Proof.
  apply (@StandaloneValid_spec (standardNet noAllocations) toyCrypto).
  - apply ex_multisig_wire_ok.
  - vm_compute. reflexivity.
  - vm_compute. reflexivity.
Defined.

