(* ===== verification/ConsensusDB.v ===== *)
(** * The consensus database

    Models [modules/consensus/consensusdb.go] and the diff types of
    [modules/consensus.go].  The bolt buckets are finite maps; the buckets
    [dsco_<height>] and [fcex_<height>], which come and go, are maps from the
    height to the bucket.  Values are kept decoded: [Codec] shows that what is
    stored decodes to what was put, and that the fields the code reads from
    stored bytes directly (the window end, bytes 48-56) are where it looks.

    As in a release build ([build.DEBUG = false]) the sanity checks are absent:
    an insertion overwrites, a deletion of something absent does nothing.  What
    still panics is modelled as [Panic]: using a bucket that does not exist
    ([addDSCO], [removeDSCO]), slicing the bytes of a contract that is not there
    and finding no expiration entry ([removeFileContract]). *)

From S2P Require Import Prelude Encoding Currency Target Crypto Types Codec Block.

(** ** Diffs *)

Abbreviation DiffDirection := bool (only parsing).
Definition DiffApply : DiffDirection := true.
Definition DiffRevert : DiffDirection := false.

Record SiacoinOutputDiff := mkSCOD {
  scod_Direction : DiffDirection;
  scod_ID : SiacoinOutputID;
  scod_SiacoinOutput : SiacoinOutput;
}.

Record FileContractDiff := mkFCD {
  fcd_Direction : DiffDirection;
  fcd_ID : FileContractID;
  fcd_FileContract : FileContract;
}.

Record SiafundOutputDiff := mkSFOD {
  sfod_Direction : DiffDirection;
  sfod_ID : SiafundOutputID;
  sfod_SiafundOutput : SiafundOutput;
}.

Record DelayedSiacoinOutputDiff := mkDSCOD {
  dscod_Direction : DiffDirection;
  dscod_ID : SiacoinOutputID;
  dscod_SiacoinOutput : SiacoinOutput;
  dscod_MaturityHeight : BlockHeight;
}.

Record SiafundPoolDiff := mkSFPD {
  sfpd_Direction : DiffDirection;
  sfpd_Previous : Currency;
  sfpd_Adjusted : Currency;
}.

(** [ConsensusChange] of [modules/consensus.go], without the closure
    [TryTransactionSet], which is [tryTransactionSet] of the same set. *)
Record ConsensusChange := mkCC {
  cc_ID : Hash;
  cc_RevertedBlocks : list Block;
  cc_AppliedBlocks : list Block;
  cc_SiacoinOutputDiffs : list SiacoinOutputDiff;
  cc_FileContractDiffs : list FileContractDiff;
  cc_SiafundOutputDiffs : list SiafundOutputDiff;
  cc_DelayedSiacoinOutputDiffs : list DelayedSiacoinOutputDiff;
  cc_SiafundPoolDiffs : list SiafundPoolDiff;
  cc_ChildTarget : Target;
  cc_MinimumValidChildTimestamp : Timestamp;
  cc_Synced : bool;
}.

(** [processedBlock] of [modules/consensus/processedblock.go] *)
Record processedBlock := mkPB {
  pb_Block : Block;
  pb_Height : BlockHeight;
  pb_Depth : Target;
  pb_ChildTarget : Target;
  pb_DiffsGenerated : bool;
  pb_SiacoinOutputDiffs : list SiacoinOutputDiff;
  pb_FileContractDiffs : list FileContractDiff;
  pb_SiafundOutputDiffs : list SiafundOutputDiff;
  pb_DelayedSiacoinOutputDiffs : list DelayedSiacoinOutputDiff;
  pb_SiafundPoolDiffs : list SiafundPoolDiff;
  pb_ConsensusChecksum : Hash;
}.

(** [processedBlock{}] *)
Definition zeroProcessedBlock : processedBlock :=
  mkPB (mkBlock zeroHash (replicate 8 x00) 0 [] []) 0 zeroHash zeroHash false [] [] [] [] [] zeroHash.

(** The database as one transaction sees it. *)
Record DB := mkDB {
  db_BlockHeight : BlockHeight; (* height of the current block *)
  db_BlockMap : gmap BlockID processedBlock; (* every processed block, by id *)
  db_BlockPath : gmap BlockHeight BlockID; (* the current path *)
  db_SiacoinOutputs : gmap SiacoinOutputID SiacoinOutput; (* unspent siacoin outputs *)
  db_FileContracts : gmap FileContractID FileContract; (* open contracts *)
  db_SiafundOutputs : gmap SiafundOutputID SiafundOutput; (* unspent siafund outputs *)
  db_SiafundPool : Currency; (* the siafund pool *)
  db_DSCO : gmap BlockHeight (gmap SiacoinOutputID SiacoinOutput); (* the dsco_<height> buckets: delayed outputs *)
  db_FCEX : gmap BlockHeight (gset FileContractID); (* the fcex_<height> buckets: expirations *)
  db_Oak : gmap BlockID (Z * Target); (* total time and target, by block *)
}.

(** *** Field updates *)

Definition set_db_BlockHeight (v : BlockHeight) (db : DB) : DB :=
  mkDB v (db_BlockMap db) (db_BlockPath db) (db_SiacoinOutputs db) (db_FileContracts db) (db_SiafundOutputs db) (db_SiafundPool db) (db_DSCO db) (db_FCEX db) (db_Oak db).
Definition set_db_BlockMap (v : gmap BlockID processedBlock) (db : DB) : DB :=
  mkDB (db_BlockHeight db) v (db_BlockPath db) (db_SiacoinOutputs db) (db_FileContracts db) (db_SiafundOutputs db) (db_SiafundPool db) (db_DSCO db) (db_FCEX db) (db_Oak db).
Definition set_db_BlockPath (v : gmap BlockHeight BlockID) (db : DB) : DB :=
  mkDB (db_BlockHeight db) (db_BlockMap db) v (db_SiacoinOutputs db) (db_FileContracts db) (db_SiafundOutputs db) (db_SiafundPool db) (db_DSCO db) (db_FCEX db) (db_Oak db).
Definition set_db_SiacoinOutputs (v : gmap SiacoinOutputID SiacoinOutput) (db : DB) : DB :=
  mkDB (db_BlockHeight db) (db_BlockMap db) (db_BlockPath db) v (db_FileContracts db) (db_SiafundOutputs db) (db_SiafundPool db) (db_DSCO db) (db_FCEX db) (db_Oak db).
Definition set_db_FileContracts (v : gmap FileContractID FileContract) (db : DB) : DB :=
  mkDB (db_BlockHeight db) (db_BlockMap db) (db_BlockPath db) (db_SiacoinOutputs db) v (db_SiafundOutputs db) (db_SiafundPool db) (db_DSCO db) (db_FCEX db) (db_Oak db).
Definition set_db_SiafundOutputs (v : gmap SiafundOutputID SiafundOutput) (db : DB) : DB :=
  mkDB (db_BlockHeight db) (db_BlockMap db) (db_BlockPath db) (db_SiacoinOutputs db) (db_FileContracts db) v (db_SiafundPool db) (db_DSCO db) (db_FCEX db) (db_Oak db).
Definition set_db_SiafundPool (v : Currency) (db : DB) : DB :=
  mkDB (db_BlockHeight db) (db_BlockMap db) (db_BlockPath db) (db_SiacoinOutputs db) (db_FileContracts db) (db_SiafundOutputs db) v (db_DSCO db) (db_FCEX db) (db_Oak db).
Definition set_db_DSCO (v : gmap BlockHeight (gmap SiacoinOutputID SiacoinOutput)) (db : DB) : DB :=
  mkDB (db_BlockHeight db) (db_BlockMap db) (db_BlockPath db) (db_SiacoinOutputs db) (db_FileContracts db) (db_SiafundOutputs db) (db_SiafundPool db) v (db_FCEX db) (db_Oak db).
Definition set_db_FCEX (v : gmap BlockHeight (gset FileContractID)) (db : DB) : DB :=
  mkDB (db_BlockHeight db) (db_BlockMap db) (db_BlockPath db) (db_SiacoinOutputs db) (db_FileContracts db) (db_SiafundOutputs db) (db_SiafundPool db) (db_DSCO db) v (db_Oak db).
Definition set_db_Oak (v : gmap BlockID (Z * Target)) (db : DB) : DB :=
  mkDB (db_BlockHeight db) (db_BlockMap db) (db_BlockPath db) (db_SiacoinOutputs db) (db_FileContracts db) (db_SiafundOutputs db) (db_SiafundPool db) (db_DSCO db) (db_FCEX db) v.

Definition set_pb_ChildTarget (v : Target) (pb : processedBlock) : processedBlock :=
  mkPB (pb_Block pb) (pb_Height pb) (pb_Depth pb) v (pb_DiffsGenerated pb) (pb_SiacoinOutputDiffs pb) (pb_FileContractDiffs pb) (pb_SiafundOutputDiffs pb) (pb_DelayedSiacoinOutputDiffs pb) (pb_SiafundPoolDiffs pb) (pb_ConsensusChecksum pb).
Definition set_pb_DiffsGenerated (v : bool) (pb : processedBlock) : processedBlock :=
  mkPB (pb_Block pb) (pb_Height pb) (pb_Depth pb) (pb_ChildTarget pb) v (pb_SiacoinOutputDiffs pb) (pb_FileContractDiffs pb) (pb_SiafundOutputDiffs pb) (pb_DelayedSiacoinOutputDiffs pb) (pb_SiafundPoolDiffs pb) (pb_ConsensusChecksum pb).
Definition set_pb_SiacoinOutputDiffs (v : list SiacoinOutputDiff) (pb : processedBlock) : processedBlock :=
  mkPB (pb_Block pb) (pb_Height pb) (pb_Depth pb) (pb_ChildTarget pb) (pb_DiffsGenerated pb) v (pb_FileContractDiffs pb) (pb_SiafundOutputDiffs pb) (pb_DelayedSiacoinOutputDiffs pb) (pb_SiafundPoolDiffs pb) (pb_ConsensusChecksum pb).
Definition set_pb_FileContractDiffs (v : list FileContractDiff) (pb : processedBlock) : processedBlock :=
  mkPB (pb_Block pb) (pb_Height pb) (pb_Depth pb) (pb_ChildTarget pb) (pb_DiffsGenerated pb) (pb_SiacoinOutputDiffs pb) v (pb_SiafundOutputDiffs pb) (pb_DelayedSiacoinOutputDiffs pb) (pb_SiafundPoolDiffs pb) (pb_ConsensusChecksum pb).
Definition set_pb_SiafundOutputDiffs (v : list SiafundOutputDiff) (pb : processedBlock) : processedBlock :=
  mkPB (pb_Block pb) (pb_Height pb) (pb_Depth pb) (pb_ChildTarget pb) (pb_DiffsGenerated pb) (pb_SiacoinOutputDiffs pb) (pb_FileContractDiffs pb) v (pb_DelayedSiacoinOutputDiffs pb) (pb_SiafundPoolDiffs pb) (pb_ConsensusChecksum pb).
Definition set_pb_DelayedSiacoinOutputDiffs (v : list DelayedSiacoinOutputDiff) (pb : processedBlock) : processedBlock :=
  mkPB (pb_Block pb) (pb_Height pb) (pb_Depth pb) (pb_ChildTarget pb) (pb_DiffsGenerated pb) (pb_SiacoinOutputDiffs pb) (pb_FileContractDiffs pb) (pb_SiafundOutputDiffs pb) v (pb_SiafundPoolDiffs pb) (pb_ConsensusChecksum pb).
Definition set_pb_SiafundPoolDiffs (v : list SiafundPoolDiff) (pb : processedBlock) : processedBlock :=
  mkPB (pb_Block pb) (pb_Height pb) (pb_Depth pb) (pb_ChildTarget pb) (pb_DiffsGenerated pb) (pb_SiacoinOutputDiffs pb) (pb_FileContractDiffs pb) (pb_SiafundOutputDiffs pb) (pb_DelayedSiacoinOutputDiffs pb) v (pb_ConsensusChecksum pb).

(** [pb.SiacoinOutputDiffs = append(pb.SiacoinOutputDiffs, d)], and so on *)
Definition append_SiacoinOutputDiffs (d : SiacoinOutputDiff) (pb : processedBlock) : processedBlock :=
  set_pb_SiacoinOutputDiffs (pb_SiacoinOutputDiffs pb ++ [d]) pb.
Definition append_FileContractDiffs (d : FileContractDiff) (pb : processedBlock) : processedBlock :=
  set_pb_FileContractDiffs (pb_FileContractDiffs pb ++ [d]) pb.
Definition append_SiafundOutputDiffs (d : SiafundOutputDiff) (pb : processedBlock) : processedBlock :=
  set_pb_SiafundOutputDiffs (pb_SiafundOutputDiffs pb ++ [d]) pb.
Definition append_DelayedSiacoinOutputDiffs (d : DelayedSiacoinOutputDiff) (pb : processedBlock) : processedBlock :=
  set_pb_DelayedSiacoinOutputDiffs (pb_DelayedSiacoinOutputDiffs pb ++ [d]) pb.
Definition append_SiafundPoolDiffs (d : SiafundPoolDiff) (pb : processedBlock) : processedBlock :=
  set_pb_SiafundPoolDiffs (pb_SiafundPoolDiffs pb ++ [d]) pb.

(** [tx.Bucket(b).ForEach]: bolt iterates in the byte order of the keys. *)
Definition key_le {A} (p q : list byte * A) : Prop := bytes_Compare p.1 q.1 ≤ 0.
#[export] Instance key_le_dec {A} : RelDecision (@key_le A).
Proof. intros p q. unfold key_le. apply _. Defined.

Definition bucket_items {A} (m : gmap (list byte) A) : list (list byte * A) :=
  merge_sort key_le (map_to_list m).
Definition bucket_keys (s : gset (list byte)) : list (list byte) :=
  map fst (merge_sort key_le (map (λ k, (k, ())) (elements s))).

Lemma bucket_items_perm {A} (m : gmap (list byte) A) : bucket_items m ≡ₚ map_to_list m.
Proof. apply merge_sort_Permutation. Qed.

Lemma bucket_keys_perm s : bucket_keys s ≡ₚ elements s.
Proof.
  unfold bucket_keys. rewrite merge_sort_Permutation, map_map. cbn. by rewrite map_id.
Qed.

Section consensusdb.
Context `{N : Net} `{C : Crypto}.

(** ** Heights, paths and blocks *)

Definition blockHeight (tx : DB) : BlockHeight := db_BlockHeight tx.

Definition getPath (tx : DB) (height : BlockHeight) : res BlockID :=
  match db_BlockPath tx !! height with
  | None => Err errNilItem
  | Some id => Ok id
  end.

(** The error is ignored: the id is the zero id then. *)
Definition currentBlockID (tx : DB) : BlockID :=
  match getPath tx (blockHeight tx) with Ok id => id | _ => zeroHash end.

Definition getBlockMap (tx : DB) (id : BlockID) : res processedBlock :=
  match db_BlockMap tx !! id with
  | None => Err errNilItem
  | Some pb => Ok pb
  end.

Definition addBlockMap (tx : DB) (pb : processedBlock) : DB :=
  set_db_BlockMap (<[Block_ID (pb_Block pb) := pb]> (db_BlockMap tx)) tx.

(** A nil pointer is returned when the block is missing; every use of it
    dereferences it. *)
Definition currentProcessedBlock (tx : DB) : res processedBlock :=
  match getBlockMap tx (currentBlockID tx) with Ok pb => Ok pb | _ => Panic end.

Definition pushPath (tx : DB) (bid : BlockID) : DB :=
  let newHeight := u64 (db_BlockHeight tx + 1) in
  let tx := set_db_BlockHeight newHeight tx in
  set_db_BlockPath (<[newHeight := bid]> (db_BlockPath tx)) tx.

Definition popPath (tx : DB) : DB :=
  let oldHeight := db_BlockHeight tx in
  let tx := set_db_BlockHeight (u64 (oldHeight - 1)) tx in
  set_db_BlockPath (delete oldHeight (db_BlockPath tx)) tx.

(** ** Siacoin outputs *)

Definition isSiacoinOutput (tx : DB) (id : SiacoinOutputID) : bool :=
  bool_decide (is_Some (db_SiacoinOutputs tx !! id)).

Definition getSiacoinOutput (tx : DB) (id : SiacoinOutputID) : res SiacoinOutput :=
  match db_SiacoinOutputs tx !! id with
  | None => Err errNilItem
  | Some sco => Ok sco
  end.

Definition addSiacoinOutput (tx : DB) (id : SiacoinOutputID) (sco : SiacoinOutput) : DB :=
  set_db_SiacoinOutputs (<[id := sco]> (db_SiacoinOutputs tx)) tx.

Definition removeSiacoinOutput (tx : DB) (id : SiacoinOutputID) : DB :=
  set_db_SiacoinOutputs (delete id (db_SiacoinOutputs tx)) tx.

(** ** File contracts *)

Definition getFileContract (tx : DB) (id : FileContractID) : res FileContract :=
  match db_FileContracts tx !! id with
  | None => Err errNilItem
  | Some fc => Ok fc
  end.

Definition addFileContract (tx : DB) (id : FileContractID) (fc : FileContract) : DB :=
  let tx := set_db_FileContracts (<[id := fc]> (db_FileContracts tx)) tx in
  let expirationBucket := default ∅ (db_FCEX tx !! fc_WindowEnd fc) in
  set_db_FCEX (<[fc_WindowEnd fc := {[id]} ∪ expirationBucket]> (db_FCEX tx)) tx.

Definition removeFileContract (tx : DB) (id : FileContractID) : res DB :=
  match db_FileContracts tx !! id with
  | None => Panic
  | Some fc =>
      let tx := set_db_FileContracts (delete id (db_FileContracts tx)) tx in
      match db_FCEX tx !! fc_WindowEnd fc with
      | None => Panic
      | Some expirationBucket =>
          if decide (id ∈ expirationBucket) then
            Ok (set_db_FCEX (<[fc_WindowEnd fc := expirationBucket ∖ {[id]}]> (db_FCEX tx)) tx)
          else Panic
      end
  end.

(** ** Siafund outputs *)

Definition devAddr : UnlockHash := map byte_of_Z
  [243; 113; 199; 11; 206; 158; 184; 151; 156; 213; 9; 159; 89; 158; 196; 228; 252; 177; 78; 10;
   252; 243; 31; 151; 145; 224; 62; 100; 150; 164; 192; 179].

Definition getSiafundOutput (tx : DB) (id : SiafundOutputID) : res SiafundOutput :=
  match db_SiafundOutputs tx !! id with
  | None => Err errNilItem
  | Some sfo =>
      lastGsa ← go_index GenesisSiafundAllocation (len GenesisSiafundAllocation - 1);
      if bool_decide (sfo_UnlockHash sfo = sfo_UnlockHash lastGsa) && (10000 <? blockHeight tx)
      then Ok (mkSFO (sfo_Value sfo) devAddr (sfo_ClaimStart sfo))
      else Ok sfo
  end.

Definition addSiafundOutput (tx : DB) (id : SiafundOutputID) (sfo : SiafundOutput) : DB :=
  set_db_SiafundOutputs (<[id := sfo]> (db_SiafundOutputs tx)) tx.

Definition removeSiafundOutput (tx : DB) (id : SiafundOutputID) : DB :=
  set_db_SiafundOutputs (delete id (db_SiafundOutputs tx)) tx.

Definition getSiafundPool (tx : DB) : Currency := db_SiafundPool tx.
Definition setSiafundPool (tx : DB) (c : Currency) : DB := set_db_SiafundPool c tx.

(** ** Delayed siacoin outputs *)

Definition addDSCO (tx : DB) (bh : BlockHeight) (id : SiacoinOutputID) (sco : SiacoinOutput) : res DB :=
  match db_DSCO tx !! bh with
  | None => Panic
  | Some dscoBucket => Ok (set_db_DSCO (<[bh := <[id := sco]> dscoBucket]> (db_DSCO tx)) tx)
  end.

Definition removeDSCO (tx : DB) (bh : BlockHeight) (id : SiacoinOutputID) : res DB :=
  match db_DSCO tx !! bh with
  | None => Panic
  | Some dscoBucket => Ok (set_db_DSCO (<[bh := delete id dscoBucket]> (db_DSCO tx)) tx)
  end.

(** [tx.CreateBucket] fails, without effect, when the bucket exists. *)
Definition createDSCOBucket (tx : DB) (bh : BlockHeight) : DB :=
  match db_DSCO tx !! bh with
  | None => set_db_DSCO (<[bh := ∅]> (db_DSCO tx)) tx
  | Some _ => tx
  end.

Definition deleteDSCOBucket (tx : DB) (bh : BlockHeight) : DB :=
  set_db_DSCO (delete bh (db_DSCO tx)) tx.

(** ** Initialisation *)

Definition emptyDB : DB := mkDB 0 ∅ ∅ ∅ ∅ ∅ 0 ∅ ∅ ∅.
End consensusdb.
