(* ===== verification/BlockValidation.v ===== *)
(** * Block validity

    Models [modules/consensus/block_rules.go] (the median-of-eleven rule for
    timestamps), [modules/consensus/block_validation.go] (payouts, proof of
    work, size and timestamps of a block) and the two header checks of
    [modules/consensus/accept.go].  The clock is an argument [now]. *)

From S2P Require Import Prelude Encoding Currency Target Crypto Types Codec Block ConsensusDB.

Section validation.
Context `{N : Net} `{C : Crypto}.

(** ** [block_rules.go] *)

(** The timestamps after the first of the window, walking up [n] parents.  The
    code reads the parent id and the timestamp from the stored bytes, which
    are missing (a panic) when the block is. *)
Fixpoint parentTimes (blockMap : gmap BlockID processedBlock) (n : nat)
    (parent : BlockID) (last : Timestamp) : res (list Timestamp) :=
  match n with
  | O => Ok []
  | S n =>
      if bool_decide (parent = zeroHash) then
        rest ← parentTimes blockMap n parent last; Ok (last :: rest)
      else
        match blockMap !! parent with
        | None => Panic
        | Some ppb =>
            let time := b_Timestamp (pb_Block ppb) in
            rest ← parentTimes blockMap n (b_ParentID (pb_Block ppb)) time; Ok (time :: rest)
        end
  end.

(** [sort.Sort(windowTimes)] *)
Definition sortTimes (l : list Timestamp) : list Timestamp := merge_sort Z.le l.

Definition minimumValidChildTimestamp (blockMap : gmap BlockID processedBlock)
    (pb : processedBlock) : res Timestamp :=
  let time := b_Timestamp (pb_Block pb) in
  rest ← parentTimes blockMap (Z.to_nat MedianTimestampWindow - 1) (b_ParentID (pb_Block pb)) time;
  let windowTimes := sortTimes (time :: rest) in
  go_index windowTimes (len windowTimes / 2).

(** ** [block_validation.go] *)

(** The loop both payout checks share: [None] is [return false]. *)
Fixpoint sumPayouts (payoutSum : Currency) (payouts : list SiacoinOutput) : option Currency :=
  match payouts with
  | [] => Some payoutSum
  | payout :: payouts =>
      if Currency_IsZero (sco_Value payout) then None
      else sumPayouts (Currency_Add payoutSum (sco_Value payout)) payouts
  end.

Definition checkMinerPayoutsWithoutDevFund (b : Block) (height : BlockHeight) : bool :=
  match sumPayouts 0 (b_MinerPayouts b) with
  | None => false
  | Some payoutSum => Currency_Equals (CalculateSubsidy b height) payoutSum
  end.

Definition checkMinerPayoutsWithDevFund (b : Block) (height : BlockHeight) : res bool :=
  let n := len (b_MinerPayouts b) in
  if n <? 2 then Ok false else
  match sumPayouts 0 (take (Z.to_nat (n - 1)) (b_MinerPayouts b)) with
  | None => Ok false
  | Some minerPayoutSum =>
      devSubsidyPayout ← go_index (b_MinerPayouts b) (n - 1);
      '(minerBlockSubsidy, devBlockSubsidy) ← CalculateSubsidies b height;
      if negb (Currency_Equals (sco_Value devSubsidyPayout) devBlockSubsidy) then Ok false else
      let subsidyUnlockHash :=
        if negb (BurnAddressBlockHeight =? 0) && (BurnAddressBlockHeight <=? height)
        then BurnAddressUnlockHash else DevFundUnlockHash in
      if negb (bytes_Compare (sco_UnlockHash devSubsidyPayout) subsidyUnlockHash =? 0) then Ok false else
      Ok (Currency_Equals minerBlockSubsidy minerPayoutSum)
  end.

Definition checkMinerPayouts (b : Block) (height : BlockHeight) : res bool :=
  if DevFundEnabled && (DevFundInitialBlockHeight <=? height)
  then checkMinerPayoutsWithDevFund b height
  else Ok (checkMinerPayoutsWithoutDevFund b height).

Definition checkTarget (b : Block) (id : BlockID) (target : Target) : bool :=
  0 <=? bytes_Compare target id.

Definition ValidateBlock (now : Timestamp) (b : Block) (id : BlockID) (minTimestamp : Timestamp)
    (target : Target) (height : BlockHeight) : res unit :=
  _ ← guard_err (b_Timestamp b <? minTimestamp) errEarlyTimestamp;
  _ ← guard_err ((ASICHardforkHeight <=? height) &&
        negb (DecUint64 (b_Nonce b) `mod` ASICHardforkFactor =? 0)) errNonceRequirements;
  _ ← guard_err (negb (checkTarget b id target)) ErrBlockUnsolved;
  let blockSize := len (Block_MarshalSia b) in
  _ ← guard_err (BlockSizeLimit <? u64 blockSize) errLargeBlock;
  _ ← guard_err (u64 (now + ExtremeFutureThreshold) <? b_Timestamp b) errExtremeFutureTimestamp;
  payoutsOk ← checkMinerPayouts b height;
  _ ← guard_err (negb payoutsOk) errBadMinerPayouts;
  guard_err (u64 (now + FutureThreshold) <? b_Timestamp b) errFutureTimestamp.

(** ** Header checks of [accept.go] *)

Definition checkHeaderTarget (h : BlockHeader) (target : Target) : bool :=
  0 <=? bytes_Compare target (BlockHeader_ID h).

Definition validateHeader (dosBlocks : gset BlockID) (now : Timestamp) (tx : DB) (h : BlockHeader) : res unit :=
  let id := BlockHeader_ID h in
  _ ← guard_err (bool_decide (id ∈ dosBlocks)) errDoSBlock;
  let blockMap := db_BlockMap tx in
  _ ← guard_err (bool_decide (is_Some (blockMap !! id))) ErrBlockKnown;
  match blockMap !! bh_ParentID h with
  | None => Err errOrphan
  | Some parent =>
      _ ← guard_err ((ASICHardforkHeight <? pb_Height parent) &&
            negb (DecUint64 (bh_Nonce h) `mod` ASICHardforkFactor =? 0)) errNonceRequirements;
      _ ← guard_err (negb (checkHeaderTarget h (pb_ChildTarget parent))) ErrBlockUnsolved;
      minTimestamp ← minimumValidChildTimestamp blockMap parent;
      _ ← guard_err (bh_Timestamp h <? minTimestamp) errEarlyTimestamp;
      guard_err (u64 (now + ExtremeFutureThreshold) <? bh_Timestamp h) errExtremeFutureTimestamp
  end.

(** The payout sum of the debugging code of [validateHeaderAndBlock] is unused. *)
Definition validateHeaderAndBlock (dosBlocks : gset BlockID) (now : Timestamp) (tx : DB) (b : Block)
    (id : BlockID) : res processedBlock :=
  _ ← guard_err (bool_decide (id ∈ dosBlocks)) errDoSBlock;
  let blockMap := db_BlockMap tx in
  _ ← guard_err (bool_decide (is_Some (blockMap !! id))) ErrBlockKnown;
  match blockMap !! b_ParentID b with
  | None => Err errOrphan
  | Some parent =>
      minTimestamp ← minimumValidChildTimestamp blockMap parent;
      _ ← ValidateBlock now b id minTimestamp (pb_ChildTarget parent) (u64 (pb_Height parent + 1));
      Ok parent
  end.
End validation.

(** ** Payouts *)

Section payouts.
Context `{N : Net} `{C : Crypto} `{!NetOk N}.

Lemma sumPayouts_value s l s' :
  sumPayouts s l = Some s' ↔ s' = s + sumZ sco_Value l ∧ Forall (λ p, 0 < sco_Value p) l.
Proof.
  revert s. induction l as [|p l IH]; intros s; cbn.
  { split; [intros [= <-]; split; [lia|done]|intros [-> _]; f_equal; lia]. }
  rewrite Forall_cons. unfold Currency_IsZero. destruct (Z.leb_spec (sco_Value p) 0).
  - split; [done|lia].
  - rewrite IH. unfold Currency_Add. split; intros [-> ?]; (split; [lia|tauto]).
Qed.

Lemma sumPayouts_None s l : sumPayouts s l = None ↔ ¬ Forall (λ p, 0 < sco_Value p) l.
Proof.
  split.
  - intros E Hp. pose proof (proj2 (sumPayouts_value s l (s + sumZ sco_Value l)) (conj eq_refl Hp)).
    congruence.
  - destruct (sumPayouts s l) as [s'|] eqn:E; [|done]. apply sumPayouts_value in E. tauto.
Qed.

Lemma last_split {A} (l : list A) n :
  len l = n → 1 ≤ n → ∃ k x, l = k ++ [x] ∧ take (Z.to_nat (n - 1)) l = k ∧ go_index l (n - 1) = Ok x.
Proof.
  intros Hl Hn. destruct l as [|x k _] using rev_ind; [rewrite len_nil in Hl; lia|].
  rewrite len_app, len_cons, len_nil in Hl. exists k, x. split; [done|].
  replace (Z.to_nat (n - 1)) with (length k) by (unfold len in Hl; lia). split.
  - by rewrite take_app_length.
  - unfold go_index. destruct (Z.ltb_spec (n - 1) 0); [pose proof (len_nonneg k); lia|].
    replace (Z.to_nat (n - 1)) with (length k) by (unfold len in Hl; lia).
    by rewrite list_lookup_middle.
Qed.

Definition devFundHash (height : BlockHeight) : UnlockHash :=
  if BurnAddressBlockHeight <=? height then BurnAddressUnlockHash else DevFundUnlockHash.

(** What the payouts of a block at [height] must be.  From height 1 on the last
    payout is the developer fund's; the others are the miner's. *)
Definition payouts_valid (b : Block) (height : BlockHeight) : Prop :=
  sumZ sco_Value (b_MinerPayouts b) = CalculateSubsidy b height ∧
  if 1 <=? height then
    ∃ miners dev, b_MinerPayouts b = miners ++ [dev] ∧ miners ≠ [] ∧
      Forall (λ p, 0 < sco_Value p) miners ∧
      CalculateDevSubsidy height = Ok (sco_Value dev) ∧ sco_UnlockHash dev = devFundHash height
  else Forall (λ p, 0 < sco_Value p) (b_MinerPayouts b).

Lemma payouts_without_dev b height :
  checkMinerPayoutsWithoutDevFund b height = true ↔
  sumZ sco_Value (b_MinerPayouts b) = CalculateSubsidy b height ∧
  Forall (λ p, 0 < sco_Value p) (b_MinerPayouts b).
Proof.
  unfold checkMinerPayoutsWithoutDevFund.
  destruct (sumPayouts 0 (b_MinerPayouts b)) as [s|] eqn:E.
  - apply sumPayouts_value in E as [-> Hp]. rewrite Currency_Equals_eqb, Z.eqb_eq. intuition lia.
  - apply sumPayouts_None in E. naive_solver.
Qed.

Lemma payouts_with_dev b height ms dev :
  is_u64 height → b_MinerPayouts b = ms ++ [dev] → ms ≠ [] →
  ∃ ok, checkMinerPayoutsWithDevFund b height = Ok ok ∧
    (ok = true ↔ sumZ sco_Value (b_MinerPayouts b) = CalculateSubsidy b height ∧
      Forall (λ p, 0 < sco_Value p) ms ∧ CalculateDevSubsidy height = Ok (sco_Value dev) ∧
      sco_UnlockHash dev = devFundHash height).
Proof.
  intros Hh El Hne. unfold checkMinerPayoutsWithDevFund.
  assert (2 ≤ len (b_MinerPayouts b)) as Hn.
  { rewrite El, len_app, len_cons, len_nil. destruct ms as [|m ms]; [done|].
    rewrite len_cons. pose proof (len_nonneg ms). lia. }
  rewrite (proj2 (Z.ltb_ge _ _) Hn).
  destruct (last_split (b_MinerPayouts b) _ eq_refl ltac:(lia)) as (ms' & dev' & El' & -> & ->).
  rewrite El in El'. apply app_inj_tail in El' as [<- <-]. cbn [mbind res_bind].
  destruct (CalculateSubsidies_value b height Hh) as (miner & ds & -> & Hs & -> & _).
  destruct (sumPayouts 0 ms) as [s|] eqn:E.
  2: { apply sumPayouts_None in E. naive_solver. }
  apply sumPayouts_value in E as [-> Hp]. cbn [mbind res_bind].
  change (negb (BurnAddressBlockHeight =? 0)) with true. cbn [andb]. fold (devFundHash height).
  rewrite Currency_Equals_eqb, El, sumZ_app. cbn [sumZ].
  destruct (Z.eqb_spec (sco_Value dev) ds) as [<-|]; cbn [negb]; [|naive_solver].
  destruct (Z.eqb_spec (bytes_Compare (sco_UnlockHash dev) (devFundHash height)) 0) as [Eb|Eb];
    rewrite bytes_Compare_eq in Eb; cbn [negb]; [|naive_solver].
  eexists. split; [done|]. rewrite Currency_Equals_eqb, Z.eqb_eq. intuition lia.
Qed.

Lemma checkMinerPayouts_valid b height :
  is_u64 height →
  ∃ ok, checkMinerPayouts b height = Ok ok ∧ (ok = true ↔ payouts_valid b height).
Proof.
  intros Hh. unfold checkMinerPayouts, payouts_valid. cbn [DevFundEnabled andb].
  change DevFundInitialBlockHeight with 1. destruct (1 <=? height).
  2: { eexists. split; [done|]. apply payouts_without_dev. }
  destruct (b_MinerPayouts b) as [|dev ms _] eqn:El using rev_ind.
  { unfold checkMinerPayoutsWithDevFund. rewrite El. eexists. split; [done|]. split; [done|].
    intros (_ & ms & dev & E & _). by destruct ms. }
  destruct (decide (ms = [])) as [->|Hne].
  - unfold checkMinerPayoutsWithDevFund. rewrite El. eexists. split; [done|]. split; [done|].
    intros (_ & ms & dev' & E & Hne & _). apply (app_inj_tail []) in E as [<- _]. done.
  - destruct (payouts_with_dev b height ms dev Hh El Hne) as (ok & -> & Hok). exists ok.
    split; [done|]. rewrite Hok, El. f_equiv. split; [intros (?&?&?); by exists ms, dev|].
    intros (ms' & dev' & E & _ & H). by apply app_inj_tail in E as [<- <-].
Qed.
End payouts.

(** ** The median timestamp *)

Section median.
Context `{N : Net} `{C : Crypto}.

Lemma parentTimes_length bm n parent last rest :
  parentTimes bm n parent last = Ok rest → length rest = n.
Proof.
  revert parent last rest. induction n as [|n IH]; intros parent last rest; cbn.
  { by intros [= <-]. }
  case_bool_decide.
  - intros H1. apply bind_Ok in H1 as (r & Hr & [= <-]). cbn. by rewrite (IH _ _ _ Hr).
  - destruct (bm !! parent); [|done]. intros H1. apply bind_Ok in H1 as (r & Hr & [= <-]).
    cbn. by rewrite (IH _ _ _ Hr).
Qed.

(** Every stored block's parent is stored, up to the genesis block, whose
    parent is the zero id. *)
Definition parents_known (bm : gmap BlockID processedBlock) (pb : processedBlock) : Prop :=
  let known p := b_ParentID (pb_Block p) = zeroHash ∨ is_Some (bm !! b_ParentID (pb_Block p)) in
  known pb ∧ map_Forall (λ _ p, known p) bm.

Lemma parentTimes_total bm n pb last :
  parents_known bm pb → ∃ rest, parentTimes bm n (b_ParentID (pb_Block pb)) last = Ok rest.
Proof.
  intros [Hpb Hbm]. revert pb last Hpb. induction n as [|n IH]; intros pb last Hpb; cbn; [eauto|].
  case_bool_decide as E.
  - destruct (IH pb last Hpb) as [r ->]. cbn. eauto.
  - destruct Hpb as [|[ppb Hp]]; [done|]. rewrite Hp.
    destruct (IH ppb (b_Timestamp (pb_Block ppb))) as [r ->]; [by apply (Hbm _ _ Hp)|]. cbn. eauto.
Qed.

Lemma filter_all_length {A} (P : A → Prop) `{!∀ x, Decision (P x)} l k :
  (∀ x, x ∈ l → P x) → (length l ≤ length (filter P (l ++ k)))%nat ∧ (length l ≤ length (filter P (k ++ l)))%nat.
Proof.
  intros Hl. rewrite !filter_app, !length_app.
  assert (filter P l = l) as ->; [|lia]. induction l as [|x l IH]; [done|].
  rewrite filter_cons_True by set_solver. f_equal. apply IH. set_solver.
Qed.

(** In the sorted list, the elements up to position [k] are at most the one
    there, and the elements from there on are at least it. *)
Lemma sorted_median (l : list Z) k m :
  sortTimes l !! k = Some m →
  m ∈ l ∧ (S k ≤ length (filter (λ t, (t ≤ m)%Z) l))%nat ∧
  (length l - k ≤ length (filter (λ t, (m ≤ t)%Z) l))%nat.
Proof.
  intros Hk. pose proof (merge_sort_Permutation Z.le l) as Hp. fold (sortTimes l) in Hp.
  assert (m ∈ l) as Hin by (rewrite <- Hp; by eapply list_elem_of_lookup_2).
  split; [done|].
  rewrite <- (Permutation_length (filter_Permutation (λ t, t ≤ m) _ _ Hp)),
    <- (Permutation_length (filter_Permutation (λ t, m ≤ t) _ _ Hp)), <- (Permutation_length Hp).
  assert (StronglySorted Z.le (sortTimes l)) as Hs.
  { apply StronglySorted_merge_sort; [exact Z.le_trans|]. intros x y. lia. }
  pose proof (lookup_lt_Some _ _ _ Hk) as Hlt. pose proof (take_drop_middle _ _ _ Hk) as E.
  rewrite <- E in Hs. apply StronglySorted_app in Hs as (Hlow & _ & Hs).
  inversion_clear Hs as [|? ? _ Hhigh]. rewrite Forall_forall in Hhigh.
  split.
  - rewrite <- E at 1. rewrite cons_middle, app_assoc.
    destruct (filter_all_length (λ t, t ≤ m) (take k (sortTimes l) ++ [m]) (drop (S k) (sortTimes l))) as [H1 _].
    { intros x [Hx|Hx%list_elem_of_singleton]%elem_of_app; [|lia]. apply Hlow; set_solver. }
    rewrite length_app, length_take in H1. cbn in H1. lia.
  - rewrite <- E at 2. destruct (filter_all_length (λ t, m ≤ t) (m :: drop (S k) (sortTimes l)) (take k (sortTimes l))) as [_ H2].
    { intros x [->|Hx]%elem_of_cons; [lia|]. by apply Hhigh. }
    cbn [length] in H2. rewrite length_drop in H2. lia.
Qed.
End median.

(** ** Main properties *)

(** Every rule that a block has to meet. *)
Lemma ValidateBlock_rules `{N : Net} `{!NetOk N}
    (now minTimestamp : Timestamp) (b : Block) (id : BlockID) (target : Target) (height : BlockHeight) :
  is_u64 height →
  ValidateBlock now b id minTimestamp target height ≠ Panic ∧
  (ValidateBlock now b id minTimestamp target height = Ok () ↔
    minTimestamp ≤ b_Timestamp b ∧
    (ASICHardforkHeight ≤ height → DecUint64 (b_Nonce b) `mod` ASICHardforkFactor = 0) ∧
    0 ≤ bytes_Compare target id ∧
    u64 (len (Block_MarshalSia b)) ≤ BlockSizeLimit ∧
    b_Timestamp b ≤ u64 (now + ExtremeFutureThreshold) ∧
    payouts_valid b height ∧
    b_Timestamp b ≤ u64 (now + FutureThreshold)).
Proof.
  intros Hh. destruct (checkMinerPayouts_valid b height Hh) as (ok & Hok & Hval).
  unfold ValidateBlock, checkTarget. rewrite Hok. split.
  { unfold guard_err. by repeat (case_match; cbn; try done). }
  cbn [mbind res_bind]. rewrite <- Hval, !bind_unit_Ok, !guard_err_Ok, !Z.ltb_ge, !negb_false_iff, Z.leb_le.
  rewrite andb_false_iff, Z.leb_gt, negb_false_iff, Z.eqb_eq.
  assert (∀ P : Prop, (height < ASICHardforkHeight ∨ P) ↔ (ASICHardforkHeight ≤ height → P)) as Hor.
  { intros P. destruct (Z.le_gt_cases ASICHardforkHeight height); intuition lia. }
  rewrite Hor. intuition.
Qed.


(** The miner payouts of every block that [ValidateBlock] accepts add up to
    exactly the coinbase plus the fees of its transactions. *)
Lemma ValidateBlock_payouts `{N : Net} `{!NetOk N}
    (now minTimestamp : Timestamp) (b : Block) (bid : BlockID) (target : Target) (height : BlockHeight) :
  is_u64 height →
  ValidateBlock now b bid minTimestamp target height = Ok () →
  sumZ sco_Value (b_MinerPayouts b) =
  CalculateCoinbase height + sumZ (λ t, sumZ id (t_MinerFees t)) (b_Transactions b).
Proof.
  intros Hh H. unfold ValidateBlock in H. rewrite !bind_unit_Ok, bind_Ok in H.
  destruct H as (_ & _ & _ & _ & _ & ok & Hok & H).
  rewrite bind_unit_Ok, guard_err_Ok, negb_false_iff in H. destruct H as [-> _].
  destruct (checkMinerPayouts_valid b height Hh) as (ok & Hok' & Hval).
  rewrite Hok in Hok'. injection Hok' as <-. destruct (proj1 Hval eq_refl) as [-> _].
  apply add_fees_sum.
Qed.

(** The minimum timestamp of a child is the median of eleven: when the
    ancestors are stored it is found, it is one of the eleven timestamps that
    [parentTimes] collects, at least six of them are not later and at least six
    not earlier. *)
Lemma minimumValidChildTimestamp_median (bm : gmap BlockID processedBlock) (pb : processedBlock) :
  parents_known bm pb →
  ∃ rest m, parentTimes bm 10 (b_ParentID (pb_Block pb)) (b_Timestamp (pb_Block pb)) = Ok rest ∧
    minimumValidChildTimestamp bm pb = Ok m ∧
    let times := b_Timestamp (pb_Block pb) :: rest in
    length times = 11%nat ∧ m ∈ times ∧
    (6 ≤ length (filter (λ t, (t ≤ m)%Z) times))%nat ∧ (6 ≤ length (filter (λ t, (m ≤ t)%Z) times))%nat.
Proof.
  intros Hk. destruct (parentTimes_total bm 10 pb (b_Timestamp (pb_Block pb)) Hk) as [rest Hr].
  pose proof (parentTimes_length _ _ _ _ _ Hr) as Hlen.
  unfold minimumValidChildTimestamp. change (Z.to_nat MedianTimestampWindow - 1)%nat with 10%nat.
  rewrite Hr. cbn [mbind res_bind]. set (times := _ :: rest).
  assert (length times = 11%nat) as Hl by (cbn; by rewrite Hlen).
  assert (len (sortTimes times) = 11) as Hs.
  { unfold len, sortTimes. rewrite (Permutation_length (merge_sort_Permutation Z.le times)), Hl. done. }
  destruct (go_index_lt (sortTimes times) 5) as (m & Hm & Hlk); [lia|].
  exists rest, m. split; [done|]. rewrite Hs. split; [exact Hm|].
  destruct (sorted_median times 5 m Hlk) as (? & ? & ?). rewrite Hl in *. auto.
Qed.

Module example_block.
Definition key (b : byte) : Hash := replicate 32 b.
Definition net : Net := testingNet 2000000000 (mkAlloc (key x0d) (key x0b) [] [mkSFO 10000 (key x0a) 0] []).
Definition fees : Transaction := mkTxn [] [] [] [] [] [] [] [7; 5] [] [].
Definition dev : Z := match @CalculateDevSubsidy net 21 with Ok d => d | _ => 0 end.
Definition block : Block :=
  mkBlock (key x01) (replicate 8 x00) 1999999999
    [mkSCO (@CalculateCoinbase net 21 + 12 - dev) (key x05); mkSCO dev (key x0d)] [fees].

Lemma valid : @ValidateBlock net 2000000000 block (key x01) 1999999990 (key x80) 21 = Ok ().
Proof. vm_compute. reflexivity. Qed.

Definition at_time (id parent : BlockID) (time : Timestamp) : BlockID * processedBlock :=
  (id, mkPB (mkBlock parent (replicate 8 x00) time [] []) 0 zeroHash zeroHash true [] [] [] [] [] zeroHash).
Definition blocks : gmap BlockID processedBlock :=
  list_to_map [at_time (key x01) zeroHash 100; at_time (key x02) (key x01) 400; at_time (key x03) (key x02) 200].
End example_block.


