(* ===== verification/Difficulty.v ===== *)
(** * Difficulty adjustment and the weight of blocks

    Models [modules/consensus/difficulty.go] (the Oak algorithm; [initOak], which
    migrates old databases, is in [Genesis]) and [modules/consensus/processedblock.go].
    [int64] arithmetic wraps around and its division truncates; the rational
    arithmetic of [math/big] is exact. *)

From S2P Require Import Prelude Encoding Currency Target Crypto Types Codec Block ConsensusDB.
From Stdlib Require Import QArith.
#[local] Open Scope Z_scope.

(** [new(big.Rat).SetFrac(a, b)], [big.NewRat(a, b)] *)
Definition Rat_SetFrac (a b : Z) : res Q :=
  if b =? 0 then Panic
  else if 0 <? b then Ok (a # Z.to_pos b) else Ok (- a # Z.to_pos (- b)).

(** [r.Cmp(s) > 0] *)
Definition Rat_gt (r s : Q) : bool := negb (Qle_bool r s).

Section difficulty.
Context `{N : Net} `{C : Crypto}.

(** ** [difficulty.go] *)

(** The clamped time the next block should take. *)
Definition oakTargetBlockTime (parentHeight : BlockHeight) (parentTimestamp : Timestamp) : Z :=
  let expectedTime := i64 (i64 (u64 (BlockFrequency * parentHeight)) + i64 GenesisTimestamp) in
  let delta := i64 (expectedTime - i64 parentTimestamp) in
  let square := i64 (delta * delta) in
  let square := if delta <? 0 then i64 (square * -1) else square in
  let shift := Z.quot square 10000000 in
  let targetBlockTime := i64 (i64 BlockFrequency + shift) in
  let targetBlockTime :=
    if targetBlockTime <? Z.quot (i64 BlockFrequency) OakMaxBlockShift
    then Z.quot (i64 BlockFrequency) OakMaxBlockShift else targetBlockTime in
  if i64 (i64 BlockFrequency * OakMaxBlockShift) <? targetBlockTime
  then i64 (i64 BlockFrequency * OakMaxBlockShift) else targetBlockTime.

Definition childTargetOak (parentTotalTime : Z) (parentTotalTarget currentTarget : Target)
    (parentHeight : BlockHeight) (parentTimestamp : Timestamp) : res Target :=
  let targetBlockTime := oakTargetBlockTime parentHeight parentTimestamp in
  let parentTotalTime := if parentTotalTime <? 1 then 1 else parentTotalTime in
  visibleHashrate ← Currency_Div64 (Target_Difficulty parentTotalTarget) (u64 parentTotalTime);
  let visibleHashrate := if Currency_IsZero visibleHashrate
                         then Currency_Add visibleHashrate (NewCurrency64 1) else visibleHashrate in
  let targetBlockTime := if targetBlockTime =? 0 then 1 else targetBlockTime in
  maxNewTarget ← Target_MulDifficulty currentTarget OakMaxRise;
  minNewTarget ← Target_MulDifficulty currentTarget OakMaxDrop;
  frac ← Rat_SetFrac (Target_Int RootDepth) (Currency_Mul64 visibleHashrate (u64 targetBlockTime));
  let newTarget := RatToTarget frac in
  let notFork := negb (u64 (parentHeight + 1) =? ASICHardforkHeight) in
  let newTarget := if (Target_Cmp newTarget maxNewTarget <? 0) && notFork then maxNewTarget else newTarget in
  let newTarget := if (0 <? Target_Cmp newTarget minNewTarget) && notFork then minNewTarget else newTarget in
  Ok newTarget.

(** The bytes of a missing entry are sliced: a panic. *)
Definition getBlockTotals (tx : DB) (id : BlockID) : res (Z * Target) :=
  match db_Oak tx !! id with None => Panic | Some totals => Ok totals end.

Definition storeBlockTotals (tx : DB) (currentHeight : BlockHeight) (currentBlockID : BlockID)
    (prevTotalTime : Z) (parentTimestamp currentTimestamp : Timestamp)
    (prevTotalTarget targetOfCurrentBlock : Target) : res (DB * Z * Target) :=
  let newTotalTime := i64 (Z.quot (i64 (prevTotalTime * OakDecayNum)) OakDecayDenom +
                           i64 (i64 currentTimestamp - i64 parentTimestamp)) in
  decay ← Rat_SetFrac OakDecayNum OakDecayDenom;
  decayed ← Target_MulDifficulty prevTotalTarget decay;
  newTotalTarget ← Target_AddDifficulties decayed targetOfCurrentBlock;
  let '(newTotalTime, newTotalTarget) :=
    if u64 (currentHeight + 1) =? ASICHardforkHeight
    then (ASICHardforkTotalTime, ASICHardforkTotalTarget) else (newTotalTime, newTotalTarget) in
  Ok (set_db_Oak (<[currentBlockID := (newTotalTime, newTotalTarget)]> (db_Oak tx)) tx,
      newTotalTime, newTotalTarget).

(** ** [processedblock.go] *)

Definition SurpassThreshold : Q := 20 # 100.

Definition heavierThan (pb cmp : processedBlock) : res bool :=
  t ← Target_MulDifficulty (pb_ChildTarget cmp) SurpassThreshold;
  requirement ← Target_AddDifficulties (pb_Depth cmp) t;
  Ok (0 <? Target_Cmp requirement (pb_Depth pb)).

Definition childDepth (pb : processedBlock) : res Target :=
  Target_AddDifficulties (pb_Depth pb) (pb_ChildTarget pb).

(** The loop of [targetAdjustmentBase]: at most [n] steps to the parent;
    returns the number of steps and the block reached. *)
Fixpoint windowStart (blockMap : gmap BlockID processedBlock) (n : nat) (windowSize : Z)
    (current parent : BlockID) : res (Z * BlockID) :=
  match n with
  | O => Ok (windowSize, current)
  | S n =>
      if bool_decide (parent = zeroHash) then Ok (windowSize, current)
      else
        match blockMap !! parent with
        | None => Panic
        | Some ppb => windowStart blockMap n (windowSize + 1) parent (b_ParentID (pb_Block ppb))
        end
  end.

Definition targetAdjustmentBase (blockMap : gmap BlockID processedBlock) (pb : processedBlock) : res Q :=
  '(windowSize, current) ← windowStart blockMap (Z.to_nat TargetWindow) 0
     (Block_ID (pb_Block pb)) (b_ParentID (pb_Block pb));
  match blockMap !! current with
  | None => Panic
  | Some cpb =>
      let timestamp := b_Timestamp (pb_Block cpb) in
      let timePassed := u64 (b_Timestamp (pb_Block pb) - timestamp) in
      let expectedTimePassed := u64 (BlockFrequency * windowSize) in
      Rat_SetFrac (i64 timePassed) (i64 expectedTimePassed)
  end.

Definition clampTargetAdjustment (base : Q) : Q :=
  if Rat_gt base MaxTargetAdjustmentUp then MaxTargetAdjustmentUp
  else if Rat_gt MaxTargetAdjustmentDown base then MaxTargetAdjustmentDown
  else base.

(** In a release build a parent that is missing decodes to the zero value. *)
Definition setChildTarget (blockMap : gmap BlockID processedBlock) (pb : processedBlock) : res processedBlock :=
  let parent := default zeroProcessedBlock (blockMap !! b_ParentID (pb_Block pb)) in
  if negb (pb_Height pb `mod` (TargetWindow / 2) =? 0)
  then Ok (set_pb_ChildTarget (pb_ChildTarget parent) pb)
  else
    base ← targetAdjustmentBase blockMap pb;
    let adjustment := clampTargetAdjustment base in
    let adjustedRatTarget := Qmult (Target_Rat (pb_ChildTarget parent)) adjustment in
    Ok (set_pb_ChildTarget (RatToTarget adjustedRatTarget) pb).

Definition newChild (tx : DB) (pb : processedBlock) (b : Block) : res (DB * processedBlock) :=
  let childID := Block_ID b in
  depth ← childDepth pb;
  let child := mkPB b (u64 (pb_Height pb + 1)) depth zeroHash false [] [] [] [] [] zeroHash in
  '(prevTotalTime, prevTotalTarget) ← getBlockTotals tx (b_ParentID b);
  '(tx, _, _) ← storeBlockTotals tx (pb_Height child) childID prevTotalTime
       (b_Timestamp (pb_Block pb)) (b_Timestamp b) prevTotalTarget (pb_ChildTarget pb);
  child ←
    (if pb_Height pb <? OakHardforkBlock then setChildTarget (db_BlockMap tx) child
     else
       target ← childTargetOak prevTotalTime prevTotalTarget (pb_ChildTarget pb) (pb_Height pb)
                  (b_Timestamp (pb_Block pb));
       Ok (set_pb_ChildTarget target child));
  Ok (set_db_BlockMap (<[childID := child]> (db_BlockMap tx)) tx, child).
End difficulty.

(** ** The order of weights *)

Section weight.
Context `{N : Net}.

(** The targets a stored block carries: proper hashes, not zero. *)
Definition weighed (pb : processedBlock) : Prop :=
  hash_ok (pb_Depth pb) ∧ 0 < Target_Int (pb_Depth pb) ∧
  hash_ok (pb_ChildTarget pb) ∧ 0 < Target_Int (pb_ChildTarget pb).

(** What [cmp] can be outweighed by: its depth with a fifth of the difficulty of
    its child added. *)
Definition surpass (cmp : processedBlock) : Z :=
  let d := Target_Int (pb_Depth cmp) in
  let t := Z.min (5 * Target_Int (pb_ChildTarget cmp)) (2 ^ 256 - 1) in
  d * t / (d + t).

Lemma heavierThan_value pb cmp :
  weighed cmp → heavierThan pb cmp = Ok (Target_Int (pb_Depth pb) <? surpass cmp).
Proof.
  intros (H1 & H2 & H3 & H4). unfold heavierThan, SurpassThreshold.
  destruct (MulDifficulty_Int (pb_ChildTarget cmp) 20 100 H4 ltac:(lia)) as (t & -> & Ht & Et).
  cbn [mbind res_bind]. pose proof (Target_Int_range _ H1). pose proof (Target_Int_range _ H3).
  assert (Target_Int (pb_ChildTarget cmp) * 100 / 20 = 5 * Target_Int (pb_ChildTarget cmp)) as E5.
  { replace (Target_Int (pb_ChildTarget cmp) * 100) with (5 * Target_Int (pb_ChildTarget cmp) * 20) by lia.
    by apply Z.div_mul. }
  rewrite E5 in Et. destruct (AddDifficulties_Int (pb_Depth cmp) t) as (r & -> & _ & Er); [lia|lia|].
  cbn [mbind res_bind]. rewrite Et in Er. fold (surpass cmp) in Er.
  unfold Target_Cmp. by rewrite Currency_Cmp_gt, Er.
Qed.

Lemma surpass_le pb : weighed pb → surpass pb ≤ Target_Int (pb_Depth pb).
Proof.
  intros (H1 & H2 & H3 & H4). unfold surpass. set (t := Z.min _ _). assert (0 < t) by (unfold t; lia).
  apply Z.div_le_upper_bound; nia.
Qed.
End weight.

(** ** The Oak clamp *)

Section oak.
Context `{N : Net} `{!NetOk N}.

Lemma oakTargetBlockTime_bounds h ts :
  0 ≤ oakTargetBlockTime h ts ≤ BlockFrequency * OakMaxBlockShift.
Proof.
  pose proof net_BlockFrequency. pose proof net_OakMaxBlockShift. unfold oakTargetBlockTime.
  rewrite (i64_id BlockFrequency) by (unfold is_i64; lia).
  assert (0 ≤ BlockFrequency * OakMaxBlockShift < 2 ^ 32 * 2 ^ 16) by nia.
  rewrite (i64_id (BlockFrequency * OakMaxBlockShift)) by (unfold is_i64; lia).
  assert (0 ≤ Z.quot BlockFrequency OakMaxBlockShift) by (apply Z.quot_pos; lia).
  assert (Z.quot BlockFrequency OakMaxBlockShift ≤ BlockFrequency * OakMaxBlockShift).
  { rewrite Z.quot_div_nonneg by lia. apply Z.div_le_upper_bound; [lia|]. nia. }
  set (t := i64 (BlockFrequency + _)).
  destruct (Z.ltb_spec t (Z.quot BlockFrequency OakMaxBlockShift)).
  - destruct (Z.ltb_spec (BlockFrequency * OakMaxBlockShift) (Z.quot BlockFrequency OakMaxBlockShift)); lia.
  - destruct (Z.ltb_spec (BlockFrequency * OakMaxBlockShift) t); lia.
Qed.

Lemma Target_Difficulty_nonneg t : hash_ok t → 0 ≤ Target_Difficulty t.
Proof.
  intros Ht. unfold Target_Difficulty. rewrite Target_Int_RootDepth.
  pose proof (Target_Int_range t Ht). case_decide as E; [done|].
  assert (Target_Int t ≠ 0) by (by rewrite Target_Int_zero).
  assert (0 ≤ (2 ^ 256 - 1) / Target_Int t) by (apply Z.div_pos; lia). unfold NewCurrency. case_match; lia.
Qed.

(** The hashrate estimate is at least one, the block time at least one second:
    the unclamped target is well defined. *)
Lemma oak_frac total time h ts :
  hash_ok total → is_i64 time →
  ∃ r frac,
    Currency_Div64 (Target_Difficulty total) (u64 (if time <? 1 then 1 else time)) = Ok r ∧
    Rat_SetFrac (Target_Int RootDepth) (Currency_Mul64
      (if Currency_IsZero r then Currency_Add r (NewCurrency64 1) else r)
      (u64 (if oakTargetBlockTime h ts =? 0 then 1 else oakTargetBlockTime h ts))) = Ok frac ∧ 0 ≤ Qnum frac.
Proof.
  intros Ht Hi. pose proof (Target_Difficulty_nonneg _ Ht) as Hd.
  set (time' := if time <? 1 then 1 else time).
  assert (1 ≤ time' < 2 ^ 63) as Ht' by (unfold time', is_i64 in *; case_match eqn:E; bool_inv; lia).
  rewrite (u64_id time') by ulia. unfold Currency_Div64. rewrite (proj2 (Z.eqb_neq _ _)) by lia.
  set (r := Target_Difficulty total / time'). assert (0 ≤ r) by (apply Z.div_pos; lia). exists r.
  set (r' := if Currency_IsZero r then _ else _).
  assert (1 ≤ r') by (unfold r', Currency_IsZero, Currency_Add, NewCurrency64; case_match eqn:E; bool_inv; lia).
  pose proof (oakTargetBlockTime_bounds h ts). pose proof net_BlockFrequency. pose proof net_OakMaxBlockShift.
  assert (BlockFrequency * OakMaxBlockShift < 2 ^ 32 * 2 ^ 16) by nia.
  set (t := if oakTargetBlockTime h ts =? 0 then _ else _).
  assert (1 ≤ t < 2 ^ 64) by (unfold t; case_match eqn:E; bool_inv; lia).
  rewrite (u64_id t) by ulia. unfold Currency_Mul64. exists (Target_Int RootDepth # Z.to_pos (r' * t)).
  split; [done|]. unfold Rat_SetFrac. rewrite (proj2 (Z.eqb_neq (r' * t) 0)), (proj2 (Z.ltb_lt 0 (r' * t))) by nia.
  split; [done|]. cbn [Qnum]. rewrite Target_Int_RootDepth. lia.
Qed.

Definition oak_lower (cur : Z) : Z := cur * Zpos (Qden OakMaxRise) / Qnum OakMaxRise.
Definition oak_upper (cur : Z) : Z := Z.min (cur * Zpos (Qden OakMaxDrop) / Qnum OakMaxDrop) (2 ^ 256 - 1).

Lemma oak_bounds_order cur : 0 < cur < 2 ^ 256 → oak_lower cur ≤ cur ≤ oak_upper cur.
Proof.
  intros Hc. pose proof net_OakRise. pose proof net_OakDrop. unfold oak_lower, oak_upper. split.
  - apply Z.div_le_upper_bound; nia.
  - apply Z.min_glb; [|lia]. apply Z.div_le_lower_bound; nia.
Qed.

Lemma childTargetOak_clamped total time cur h ts :
  hash_ok total → is_i64 time → hash_ok cur → 0 < Target_Int cur →
  ∃ t, childTargetOak time total cur h ts = Ok t ∧ hash_ok t ∧
    (u64 (h + 1) ≠ ASICHardforkHeight →
     oak_lower (Target_Int cur) ≤ Target_Int t ≤ oak_upper (Target_Int cur)).
Proof.
  intros Ht Hi Hc Hp. destruct (oak_frac total time h ts Ht Hi) as (r & frac & E1 & E2 & Hq).
  unfold childTargetOak. rewrite E1. cbn [mbind res_bind]. pose proof (Target_Int_range _ Hc).
  pose proof net_OakRise. pose proof net_OakDrop. pose proof (oak_bounds_order (Target_Int cur) ltac:(lia)) as [Hlo Hup].
  destruct OakMaxRise as [p q] eqn:Er, OakMaxDrop as [p' q'] eqn:Ed.
  unfold oak_lower, oak_upper in *. rewrite Er, Ed in *. cbn [Qnum Qden] in *.
  destruct (MulDifficulty_Int cur p q Hp ltac:(lia)) as (mx & -> & Hmx & Emx).
  destruct (MulDifficulty_Int cur p' q' Hp ltac:(lia)) as (mn & -> & Hmn & Emn).
  cbn [mbind res_bind]. rewrite E2. cbn [mbind res_bind]. rewrite (Z.min_l _ (2 ^ 256 - 1)) in Emx by lia.
  unfold Target_Cmp. rewrite Currency_Cmp_lt, Currency_Cmp_gt.
  destruct (Z.eqb_spec (u64 (h + 1)) ASICHardforkHeight) as [|Hne]; cbn [negb].
  { rewrite !andb_false_r. eexists. split; [done|]. split; [apply RatToTarget_ok|done]. }
  rewrite !andb_true_r. eexists. split; [done|].
  set (t1 := if _ <? _ then mx else RatToTarget frac).
  assert (hash_ok t1 ∧ Target_Int mx ≤ Target_Int t1) as [Hok1 Hle1].
  { unfold t1. destruct (Z.ltb_spec (Target_Int (RatToTarget frac)) (Target_Int mx)); (split; [|lia]); [done|].
    apply RatToTarget_ok. }
  destruct (Z.ltb_spec (Target_Int mn) (Target_Int t1)); (split; [done|]); intros _; lia.
Qed.
End oak.

(** ** The old adjustment *)

Section window.
Context `{N : Net} `{C : Crypto} `{!NetOk N}.

(** [floor (cur * r)] as [RatToTarget] saturates it. *)
Definition scaled (cur : Z) (r : Q) : Z := Z.min (cur * Qnum r / Zpos (Qden r)) (2 ^ 256 - 1).

Lemma RatToTarget_scaled t r :
  hash_ok t → 0 ≤ Qnum r →
  Target_Int (RatToTarget (Qmult (Target_Rat t) r)) = scaled (Target_Int t) r.
Proof.
  intros Ht Hr. pose proof (Target_Int_range t Ht). destruct r as [p q]. cbn [Qnum] in Hr.
  rewrite Target_Int_RatToTarget; [|cbn [Target_Rat Qmult Qnum Qden]; nia].
  unfold Rat_floor, Target_Rat, scaled. cbn [Qmult Qnum Qden]. by rewrite Pos.mul_1_l.
Qed.

Lemma scaled_mono cur r s :
  0 ≤ cur → Qle r s → scaled cur r ≤ scaled cur s.
Proof.
  intros Hc Hle. unfold scaled, Qle in *. apply Z.min_le_compat_r. destruct r as [p q], s as [p' q']. cbn in *.
  rewrite <- (Z.div_mul_cancel_r (cur * p) (Zpos q) (Zpos q')), <- (Z.div_mul_cancel_r (cur * p') (Zpos q') (Zpos q)) by lia.
  rewrite (Z.mul_comm (Zpos q') (Zpos q)). apply Z.div_le_mono; nia.
Qed.

Lemma clamp_range base :
  Qle MaxTargetAdjustmentDown (clampTargetAdjustment base) ∧ Qle (clampTargetAdjustment base) MaxTargetAdjustmentUp.
Proof.
  destruct net_TargetAdjustment as [Hd Hu].
  assert (Qle MaxTargetAdjustmentDown MaxTargetAdjustmentUp) as Hle.
  { unfold Qle. destruct MaxTargetAdjustmentDown, MaxTargetAdjustmentUp. cbn in *. nia. }
  unfold clampTargetAdjustment, Rat_gt. destruct (Qle_bool base MaxTargetAdjustmentUp) eqn:E1; cbn [negb].
  - apply Qle_bool_iff in E1. destruct (Qle_bool MaxTargetAdjustmentDown base) eqn:E2; cbn [negb].
    + by apply Qle_bool_iff in E2.
    + split; [apply Qle_refl|done].
  - split; [done|apply Qle_refl].
Qed.

Lemma clamp_pos base : 0 ≤ Qnum (clampTargetAdjustment base).
Proof.
  destruct net_TargetAdjustment as [Hd Hu]. destruct (clamp_range base) as [H _]. unfold Qle in H.
  destruct MaxTargetAdjustmentDown as [p q], (clampTargetAdjustment base) as [p' q']. cbn in *. nia.
Qed.

Lemma windowStart_total bm n size current pb :
  (b_ParentID (pb_Block pb) = zeroHash ∨ is_Some (bm !! b_ParentID (pb_Block pb))) →
  map_Forall (λ _ p, b_ParentID (pb_Block p) = zeroHash ∨ is_Some (bm !! b_ParentID (pb_Block p))) bm →
  0 ≤ size →
  ∃ size' current', windowStart bm n size current (b_ParentID (pb_Block pb)) = Ok (size', current') ∧
    size ≤ size' ≤ size + Z.of_nat n ∧
    ((current' = current ∧ size' = size) ∨ (is_Some (bm !! current') ∧ size < size')) ∧
    (b_ParentID (pb_Block pb) ≠ zeroHash → (0 < n)%nat → size < size').
Proof.
  intros Hpb Hbm Hs. revert pb current size Hpb Hs. induction n as [|n IH]; intros pb current size Hpb Hs; cbn [windowStart].
  { exists size, current. split_and!; [done|lia|lia|by left|lia]. }
  case_bool_decide as E.
  { exists size, current. split_and!; [done|lia|lia|by left|done]. }
  destruct Hpb as [|[ppb Hp]]; [done|]. rewrite Hp.
  destruct (IH ppb (b_ParentID (pb_Block pb)) (size + 1) (Hbm _ _ Hp) ltac:(lia)) as (s' & c' & -> & Hr & Hc & _).
  exists s', c'. split; [done|]. split; [lia|]. split; [right|lia].
  destruct Hc as [[-> ->]|[? ?]]; (split; [eauto|lia]).
Qed.

(** Every stored block's parent is stored, up to the genesis block. *)
Definition ancestors_stored (bm : gmap BlockID processedBlock) : Prop :=
  map_Forall (λ _ p, b_ParentID (pb_Block p) = zeroHash ∨ is_Some (bm !! b_ParentID (pb_Block p))) bm.

Lemma targetAdjustmentBase_total bm pb :
  ancestors_stored bm → is_Some (bm !! b_ParentID (pb_Block pb)) → b_ParentID (pb_Block pb) ≠ zeroHash →
  ∃ base, targetAdjustmentBase bm pb = Ok base.
Proof.
  intros Hbm Hp Hne. pose proof net_TargetWindow. pose proof net_BlockFrequency. unfold targetAdjustmentBase.
  destruct (windowStart_total bm (Z.to_nat TargetWindow) 0 (Block_ID (pb_Block pb)) pb (or_intror Hp) Hbm ltac:(lia))
    as (size & cur & -> & Hr & Hc & Hpos).
  specialize (Hpos Hne ltac:(lia)). cbn [mbind res_bind].
  destruct Hc as [[_ ?]|[[cpb Hcpb] _]]; [lia|]. rewrite Hcpb.
  assert (0 < BlockFrequency * size < 2 ^ 63) by nia.
  rewrite (u64_id (BlockFrequency * size)), (i64_id (BlockFrequency * size)) by (unfold is_u64, is_i64; lia).
  unfold Rat_SetFrac. rewrite (proj2 (Z.eqb_neq (BlockFrequency * size) 0)) by lia.
  destruct (0 <? BlockFrequency * size); eauto.
Qed.

Lemma setChildTarget_scaled bm pb parent :
  ancestors_stored bm → bm !! b_ParentID (pb_Block pb) = Some parent → b_ParentID (pb_Block pb) ≠ zeroHash →
  hash_ok (pb_ChildTarget parent) →
  ∃ t, setChildTarget bm pb = Ok (set_pb_ChildTarget t pb) ∧ hash_ok t ∧
    (pb_Height pb `mod` (TargetWindow / 2) ≠ 0 → t = pb_ChildTarget parent) ∧
    (pb_Height pb `mod` (TargetWindow / 2) = 0 →
     scaled (Target_Int (pb_ChildTarget parent)) MaxTargetAdjustmentDown ≤ Target_Int t ≤
     scaled (Target_Int (pb_ChildTarget parent)) MaxTargetAdjustmentUp).
Proof.
  intros Hbm Hp Hne Hok. unfold setChildTarget. rewrite Hp. cbn [default from_option id].
  destruct (Z.eqb_spec (pb_Height pb `mod` (TargetWindow / 2)) 0) as [E|E]; cbn [negb].
  2: { eexists. split; [done|]. split_and!; [done|done|done]. }
  destruct (targetAdjustmentBase_total bm pb Hbm ltac:(by rewrite Hp) Hne) as [base ->]. cbn [mbind res_bind].
  eexists. split; [done|]. split; [apply RatToTarget_ok|]. split; [done|]. intros _.
  rewrite RatToTarget_scaled by (done || apply clamp_pos). destruct (clamp_range base) as [H1 H2].
  pose proof (Target_Int_range _ Hok). split; apply scaled_mono; (lia || done).
Qed.

Lemma storeBlockTotals_total tx h id time pts ts total target :
  hash_ok total → 0 < Target_Int total → hash_ok target → 0 < Target_Int target →
  ∃ tt, storeBlockTotals tx h id time pts ts total target =
    Ok (set_db_Oak (<[id := tt]> (db_Oak tx)) tx, tt.1, tt.2).
Proof.
  intros H1 H2 H3 H4. pose proof net_OakDecay as [Hdn Hdd]. unfold storeBlockTotals, Rat_SetFrac.
  rewrite (proj2 (Z.eqb_neq OakDecayDenom 0)), (proj2 (Z.ltb_lt 0 OakDecayDenom)) by lia. cbn [mbind res_bind].
  destruct (MulDifficulty_Int total OakDecayNum (Z.to_pos OakDecayDenom) H2 Hdn) as (d & -> & Hd & Ed).
  cbn [mbind res_bind]. rewrite Z2Pos.id in Ed by lia. pose proof (Target_Int_range _ H1). pose proof (Target_Int_range _ H3).
  assert (Target_Int total ≤ Target_Int total * OakDecayDenom / OakDecayNum) by (apply Z.div_le_lower_bound; nia).
  destruct (AddDifficulties_Int d target) as (t & -> & _); [lia|lia|]. cbn [mbind res_bind].
  case_match; by eexists (_, _).
Qed.

(** Adding a block under its parent. *)
Lemma newChild_total tx pb b time total :
  ancestors_stored (db_BlockMap tx) → db_BlockMap tx !! b_ParentID b = Some pb → b_ParentID b ≠ zeroHash →
  weighed pb → db_Oak tx !! b_ParentID b = Some (time, total) →
  is_i64 time → hash_ok total → 0 < Target_Int total →
  ∃ depth target tt,
    let child := mkPB b (u64 (pb_Height pb + 1)) depth target false [] [] [] [] [] zeroHash in
    newChild tx pb b = Ok (set_db_BlockMap (<[Block_ID b := child]> (db_BlockMap tx))
                             (set_db_Oak (<[Block_ID b := tt]> (db_Oak tx)) tx), child) ∧
    hash_ok depth ∧ Target_Int depth < Target_Int (pb_Depth pb) ∧ hash_ok target.
Proof.
  intros Hbm Hp Hne (W1 & W2 & W3 & W4) Hoak Hi Ht Htp. unfold newChild, childDepth.
  pose proof (Target_Int_range _ W1). pose proof (Target_Int_range _ W3).
  destruct (AddDifficulties_Int (pb_Depth pb) (pb_ChildTarget pb)) as (depth & -> & Hd & Ed); [lia|lia|].
  cbn [mbind res_bind]. unfold getBlockTotals. rewrite Hoak. cbn [mbind res_bind].
  destruct (storeBlockTotals_total tx (u64 (pb_Height pb + 1)) (Block_ID b) time (b_Timestamp (pb_Block pb))
    (b_Timestamp b) total (pb_ChildTarget pb)) as (tt & Hst); [done..|]. cbn [pb_Height]. rewrite Hst. cbn [mbind res_bind].
  assert (Target_Int depth < Target_Int (pb_Depth pb)).
  { rewrite Ed. apply Z.div_lt_upper_bound; nia. }
  destruct (pb_Height pb <? OakHardforkBlock).
  - destruct (setChildTarget_scaled (db_BlockMap tx)
      (mkPB b (u64 (pb_Height pb + 1)) depth zeroHash false [] [] [] [] [] zeroHash) pb) as (t & Hs & Htk & _); [done..|].
    cbn [db_BlockMap set_db_Oak]. rewrite Hs. cbn [mbind res_bind]. by exists depth, t, tt.
  - destruct (childTargetOak_clamped total time (pb_ChildTarget pb) (pb_Height pb) (b_Timestamp (pb_Block pb)))
      as (t & -> & Htk & _); [done..|]. cbn [mbind res_bind]. by exists depth, t, tt.
Qed.
End window.

(** ** Main properties *)

(** [heavierThan] is a strict order on weighed blocks: it never panics, no
    block outweighs itself, two blocks never outweigh each other, and it is
    transitive; a block that outweighs another has strictly more accumulated
    work (a smaller depth).  So reorganising cannot go back and forth between
    two chains. *)
Lemma heavierThan_strict_order (a b c : processedBlock) :
  weighed a → weighed b → weighed c →
  (∃ r, heavierThan a b = Ok r) ∧ heavierThan a a = Ok false ∧
  (heavierThan a b = Ok true →
    Target_Int (pb_Depth a) < Target_Int (pb_Depth b) ∧ heavierThan b a = Ok false ∧
    (heavierThan b c = Ok true → heavierThan a c = Ok true)).
Proof.
  intros Ha Hb Hc. rewrite !heavierThan_value by done.
  pose proof (surpass_le a Ha). pose proof (surpass_le b Hb). pose proof (surpass_le c Hc).
  split_and!; [eauto|f_equal; apply Z.ltb_ge; lia|]. intros [= L1%Z.ltb_lt].
  split_and!; [lia|f_equal; apply Z.ltb_ge; lia|]. intros [= L2%Z.ltb_lt]. f_equal. apply Z.ltb_lt. lia.
Qed.

(** C31: One block changes the difficulty by at most the Oak clamp: the target
    that [childTargetOak] computes is at least the current one divided by
    [OakMaxRise] and at most the current one divided by [OakMaxDrop] (0.4% each
    way on the standard network), whatever the timestamps are and however the
    [int64] arithmetic overflows; it never panics.  The one exception is the
    block of the ASIC hardfork. *)
Theorem childTargetOak_bounds `{N : Net} `{!NetOk N} (parentTotalTime : Z) (parentTotalTarget currentTarget : Target)
    (parentHeight : BlockHeight) (parentTimestamp : Timestamp) :
  hash_ok parentTotalTarget → is_i64 parentTotalTime → hash_ok currentTarget → 0 < Target_Int currentTarget →
  ∃ t, childTargetOak parentTotalTime parentTotalTarget currentTarget parentHeight parentTimestamp = Ok t ∧
    hash_ok t ∧
    (u64 (parentHeight + 1) ≠ ASICHardforkHeight →
     Target_Int currentTarget * Zpos (Qden OakMaxRise) / Qnum OakMaxRise ≤ Target_Int t ≤
     Target_Int currentTarget * Zpos (Qden OakMaxDrop) / Qnum OakMaxDrop).
Proof.
  intros H1 H2 H3 H4.
  destruct (childTargetOak_clamped _ _ _ parentHeight parentTimestamp H1 H2 H3 H4) as (t & E & Hok & Hb).
  exists t. split_and!; [done|done|]. intros Hne. specialize (Hb Hne). unfold oak_lower, oak_upper in Hb. lia.
Qed.

(** Before the Oak hardfork the target changes only every half window, and
    then by the clamped ratio of the time passed: between
    [MaxTargetAdjustmentDown] and [MaxTargetAdjustmentUp] times the old one. *)
Lemma setChildTarget_bounds `{N : Net} `{C : Crypto} `{!NetOk N}
    (bm : gmap BlockID processedBlock) (pb parent : processedBlock) :
  ancestors_stored bm → bm !! b_ParentID (pb_Block pb) = Some parent → b_ParentID (pb_Block pb) ≠ zeroHash →
  hash_ok (pb_ChildTarget parent) →
  ∃ t, setChildTarget bm pb = Ok (set_pb_ChildTarget t pb) ∧ hash_ok t ∧
    (pb_Height pb `mod` (TargetWindow / 2) ≠ 0 → t = pb_ChildTarget parent) ∧
    (pb_Height pb `mod` (TargetWindow / 2) = 0 →
     scaled (Target_Int (pb_ChildTarget parent)) MaxTargetAdjustmentDown ≤ Target_Int t ≤
     scaled (Target_Int (pb_ChildTarget parent)) MaxTargetAdjustmentUp).
Proof. apply setChildTarget_scaled. Qed.

(** [newChild] succeeds on every block whose parent is stored with its
    totals, and puts it under its id one above the parent, with strictly more
    accumulated work; no other block, and nothing else but the new totals, is
    touched. *)
Lemma newChild_extends `{N : Net} `{C : Crypto} `{!NetOk N}
    (tx : DB) (pb : processedBlock) (b : Block) (time : Z) (total : Target) :
  ancestors_stored (db_BlockMap tx) → db_BlockMap tx !! b_ParentID b = Some pb → b_ParentID b ≠ zeroHash →
  weighed pb → db_Oak tx !! b_ParentID b = Some (time, total) →
  is_i64 time → hash_ok total → 0 < Target_Int total →
  ∃ tx' child, newChild tx pb b = Ok (tx', child) ∧
    pb_Block child = b ∧ pb_Height child = u64 (pb_Height pb + 1) ∧ pb_DiffsGenerated child = false ∧
    Target_Int (pb_Depth child) < Target_Int (pb_Depth pb) ∧
    db_BlockMap tx' = <[Block_ID b := child]> (db_BlockMap tx) ∧
    (∀ id, id ≠ Block_ID b → db_Oak tx' !! id = db_Oak tx !! id) ∧
    tx = set_db_BlockMap (db_BlockMap tx) (set_db_Oak (db_Oak tx) tx').
Proof.
  intros Hbm Hp Hne Hw Hoak Hi Ht Htp.
  destruct (newChild_total tx pb b time total Hbm Hp Hne Hw Hoak Hi Ht Htp) as (d & t & tt & E & _ & Hlt & _).
  do 2 eexists. split; [exact E|]. split_and!; try done; [|by destruct tx].
  intros id Hid. cbn. by rewrite lookup_insert_ne.
Qed.

(** Three blocks on a small chain. *)
Module example_weight.
Definition key (b : byte) : Hash := replicate 32 b.
Definition net : Net := testingNet 2000000000 (mkAlloc (key x0d) (key x0b) [] [] []).
Definition at_depth (depth : Z) (parent : BlockID) (time : Timestamp) (height : BlockHeight) : processedBlock :=
  mkPB (mkBlock parent (replicate 8 x00) time [] []) height (IntToTarget depth) (IntToTarget 1000) true [] [] [] [] [] zeroHash.
Definition parent : processedBlock := at_depth 500 zeroHash 1999000000 30.
Definition tx : DB :=
  mkDB 30 {[key x01 := parent]} ∅ ∅ ∅ ∅ 0 ∅ ∅ {[key x01 := (50, IntToTarget 900)]}.

Lemma weighed_depth d p t h : 0 < d < 2 ^ 256 → weighed (at_depth d p t h).
Proof.
  intros Hd. split_and!; [apply IntToTarget_ok| |apply IntToTarget_ok|by vm_compute].
  change (0 < Target_Int (IntToTarget d)). rewrite Target_Int_IntToTarget; lia.
Qed.

Lemma stored : ancestors_stored (db_BlockMap tx).
Proof. unfold ancestors_stored. vm_decide. Qed.
End example_weight.

Lemma childTargetOak_bounds_witness :
  ∃ t, @childTargetOak example_weight.net 50 (IntToTarget 900) (IntToTarget 20008) 30 1999000000 = Ok t ∧
    20005 ≤ Target_Int t ≤ 20010.
Proof.
  destruct (childTargetOak_bounds (N := example_weight.net) (NetOk0 := testingNet_ok _ _) 50 (IntToTarget 900)
    (IntToTarget 20008) 30 1999000000) as (t & E & _ & H);
    [apply IntToTarget_ok|by vm_compute|apply IntToTarget_ok|by vm_compute|].
  exists t. split; [exact E|]. apply H. by vm_compute.
Defined.

