(* ===== verification/ConsensusValid.v ===== *)
(** * Transaction validity in the context of the consensus set

    Models the validity checks of [modules/consensus/validtransaction.go]:
    inputs exist and are unlocked by the right conditions, money in equals
    money out, storage proofs prove the right segment, revisions are newer and
    keep the payout. *)

From S2P Require Import Prelude Encoding Currency Target Crypto Types Codec Block Signatures ValidTransaction ConsensusDB.

Section valid.
Context `{N : Net} `{C : Crypto}.

Definition validSiacoins (tx : DB) (t : Transaction) : res unit :=
  inputSum ← foldM (λ inputSum sci,
    match db_SiacoinOutputs tx !! sci_ParentID sci with
    | None => Err errMissingSiacoinOutput
    | Some sco =>
        _ ← guard_err (negb (bool_decide
              (UnlockConditions_UnlockHash (sci_UnlockConditions sci) = sco_UnlockHash sco)))
              errWrongUnlockConditions;
        Ok (Currency_Add inputSum (sco_Value sco))
    end) 0 (t_SiacoinInputs t);
  guard_err (negb (Currency_Equals inputSum (Transaction_SiacoinOutputSum t)))
    errSiacoinInputOutputMismatch.

(** [big.Int.Mod] is Euclidean and panics on a zero modulus. *)
Definition storageProofSegment (tx : DB) (fcid : FileContractID) : res Z :=
  match db_FileContracts tx !! fcid with
  | None => Err errUnrecognizedFileContractID
  | Some fc =>
      let triggerHeight := u64 (fc_WindowStart fc - 1) in
      _ ← guard_err (blockHeight tx <? triggerHeight) errUnfinishedFileContract;
      let triggerID := go_copy zeroHash (default [] (db_BlockPath tx !! triggerHeight)) in
      let seed := HashAll [triggerID; fcid] in
      let numSegments := i64 (CalculateLeaves (fc_FileSize fc)) in
      let seedInt := big_SetBytes seed in
      if numSegments =? 0 then Panic else Ok (u64 (seedInt `mod` Z.abs numSegments))
  end.

(** [sp.Segment[:segmentLen]] of the 64-byte array *)
Definition segmentPrefix (sp : StorageProof) (segmentLen : Z) : res (list byte) :=
  if SegmentSize <? segmentLen then Panic else Ok (take (Z.to_nat segmentLen) (sp_Segment sp)).

Definition validStorageProofs100e3 (tx : DB) (t : Transaction) : res unit :=
  checkM (λ sp,
    segmentIndex ← storageProofSegment tx (sp_ParentID sp);
    fc ← getFileContract tx (sp_ParentID sp);
    let leaves := CalculateLeaves (fc_FileSize fc) in
    let segmentLen := SegmentSize in
    let segmentLen := if segmentIndex =? u64 (leaves - 1)
                      then fc_FileSize fc `mod` SegmentSize else segmentLen in
    let segmentLen :=
      if (bool_decide (build_Release = standard) && (blockHeight tx <? 21000)) ||
         (bool_decide (build_Release = testing) && (blockHeight tx <? 10))
      then SegmentSize else segmentLen in
    base ← segmentPrefix sp segmentLen;
    let verified := VerifySegment base (sp_HashSet sp) leaves segmentIndex (fc_FileMerkleRoot fc) in
    guard_err (negb verified) errInvalidStorageProof) (t_StorageProofs t).

Definition validStorageProofs (tx : DB) (t : Transaction) : res unit :=
  if (bool_decide (build_Release = standard) && (blockHeight tx <? 100000)) ||
     (bool_decide (build_Release = testing) && (blockHeight tx <? 10))
  then validStorageProofs100e3 tx t
  else
    checkM (λ sp,
      segmentIndex ← storageProofSegment tx (sp_ParentID sp);
      fc ← getFileContract tx (sp_ParentID sp);
      let leaves := CalculateLeaves (fc_FileSize fc) in
      let segmentLen := SegmentSize in
      let segmentLen := if segmentIndex =? u64 (leaves - 1)
                        then fc_FileSize fc `mod` SegmentSize else segmentLen in
      let segmentLen := if segmentLen =? 0 then SegmentSize else segmentLen in
      base ← segmentPrefix sp segmentLen;
      let verified := VerifySegment base (sp_HashSet sp) leaves segmentIndex (fc_FileMerkleRoot fc) in
      guard_err (negb verified && (0 <? fc_FileSize fc)) errInvalidStorageProof) (t_StorageProofs t).

Definition validFileContractRevisions (tx : DB) (t : Transaction) : res unit :=
  checkM (λ fcr,
    fc ← getFileContract tx (fcr_ParentID fcr);
    _ ← guard_err (fc_WindowStart fc <? blockHeight tx) errLateRevision;
    _ ← guard_err (fcr_NewRevisionNumber fcr <=? fc_RevisionNumber fc) errLowRevisionNumber;
    _ ← guard_err (negb (bool_decide
          (UnlockConditions_UnlockHash (fcr_UnlockConditions fcr) = fc_UnlockHash fc)))
          errWrongUnlockConditions;
    let validPayout := outputs_sum (fcr_NewValidProofOutputs fcr) in
    let missedPayout := outputs_sum (fcr_NewMissedProofOutputs fcr) in
    let oldPayout := outputs_sum (fc_ValidProofOutputs fc) in
    _ ← guard_err (negb (Currency_Equals validPayout oldPayout)) errAlteredRevisionPayouts;
    guard_err (negb (Currency_Equals missedPayout oldPayout)) errAlteredRevisionPayouts)
    (t_FileContractRevisions t).

Definition validSiafunds (tx : DB) (t : Transaction) : res unit :=
  siafundInputSum ← foldM (λ s sfi,
    sfo ← getSiafundOutput tx (sfi_ParentID sfi);
    _ ← guard_err (negb (bool_decide
          (UnlockConditions_UnlockHash (sfi_UnlockConditions sfi) = sfo_UnlockHash sfo)))
          errWrongUnlockConditions;
    Ok (Currency_Add s (sfo_Value sfo))) 0 (t_SiafundInputs t);
  let siafundOutputSum := foldl (λ s sfo, Currency_Add s (sfo_Value sfo)) 0 (t_SiafundOutputs t) in
  guard_err (negb (Currency_Equals siafundOutputSum siafundInputSum)) errSiafundInputOutputMismatch.

Definition validTransaction (tx : DB) (t : Transaction) : res unit :=
  _ ← StandaloneValid t (blockHeight tx);
  _ ← validSiacoins tx t;
  _ ← validStorageProofs tx t;
  _ ← validFileContractRevisions tx t;
  validSiafunds tx t.
End valid.

(** ** What the checks establish *)

Section valid_facts.
Context `{N : Net} `{C : Crypto}.

Definition sco_value_of (tx : DB) (id : SiacoinOutputID) : Z :=
  default 0 (sco_Value <$> db_SiacoinOutputs tx !! id).
Definition sfo_value_of (tx : DB) (id : SiafundOutputID) : Z :=
  default 0 (sfo_Value <$> db_SiafundOutputs tx !! id).

(** An accumulating loop whose body adds a value or fails. *)
Lemma foldM_sum {A} (f : Z → A → res Z) (g : A → Z) (P : A → Prop) l s s' :
  (∀ s x s', f s x = Ok s' → s' = s + g x ∧ P x) →
  foldM f s l = Ok s' → s' = s + sumZ g l ∧ Forall P l.
Proof.
  intros Hf. revert s. induction l as [|x l IH]; intros s Hl; cbn in *.
  - injection Hl as ->. split; [lia|done].
  - res_inv. apply Hf in E as [-> HP]. apply IH in Hl as [-> Hl]. split; [lia|by constructor].
Qed.

Lemma validSiacoins_Ok tx t :
  validSiacoins tx t = Ok () →
  Forall (λ sci, ∃ sco, db_SiacoinOutputs tx !! sci_ParentID sci = Some sco ∧
    UnlockConditions_UnlockHash (sci_UnlockConditions sci) = sco_UnlockHash sco) (t_SiacoinInputs t) ∧
  sumZ (λ sci, sco_value_of tx (sci_ParentID sci)) (t_SiacoinInputs t) =
  sumZ sco_Value (t_SiacoinOutputs t) + sumZ fc_Payout (t_FileContracts t) + sumZ id (t_MinerFees t).
Proof.
  unfold validSiacoins. rewrite bind_Ok. intros (s & Hl & Hg).
  rewrite guard_err_Ok, negb_false_iff, Currency_Equals_eqb, Z.eqb_eq, SiacoinOutputSum_value in Hg.
  eapply (foldM_sum _ (λ sci, sco_value_of tx (sci_ParentID sci))) in Hl as [Hs Hall].
  { split; [exact Hall|]. lia. }
  intros s0 sci s1 H. unfold sco_value_of.
  destruct (db_SiacoinOutputs tx !! sci_ParentID sci) as [sco|]; [|done]. res_inv. bool_inv.
  split; [done|]. eauto.
Qed.

Lemma getSiafundOutput_Ok tx id sfo :
  getSiafundOutput tx id = Ok sfo →
  ∃ raw, db_SiafundOutputs tx !! id = Some raw ∧
    sfo_Value raw = sfo_Value sfo ∧ sfo_ClaimStart raw = sfo_ClaimStart sfo.
Proof.
  unfold getSiafundOutput. destruct (db_SiafundOutputs tx !! id) as [raw|]; [|done].
  intros H. res_inv. exists raw. case_match; simplify_eq; done.
Qed.

Lemma getSiafundOutput_Err tx id e :
  getSiafundOutput tx id = Err e → db_SiafundOutputs tx !! id = None.
Proof.
  unfold getSiafundOutput. destruct (db_SiafundOutputs tx !! id) as [raw|]; [|done].
  unfold go_index. destruct (len _ - 1 <? 0); [done|]. destruct (GenesisSiafundAllocation !! _); [|done].
  cbn [mbind res_bind]. by destruct (_ && _).
Qed.

Lemma validSiafunds_Ok tx t :
  validSiafunds tx t = Ok () →
  Forall (λ sfi, ∃ sfo, getSiafundOutput tx (sfi_ParentID sfi) = Ok sfo ∧
    UnlockConditions_UnlockHash (sfi_UnlockConditions sfi) = sfo_UnlockHash sfo) (t_SiafundInputs t) ∧
  sumZ (λ sfi, sfo_value_of tx (sfi_ParentID sfi)) (t_SiafundInputs t) =
  sumZ sfo_Value (t_SiafundOutputs t).
Proof.
  unfold validSiafunds. rewrite bind_Ok. intros (s & Hl & Hg).
  rewrite guard_err_Ok, negb_false_iff, Currency_Equals_eqb, Z.eqb_eq in Hg.
  unfold Currency_Add in Hg. rewrite (foldl_sumZ sfo_Value) in Hg.
  eapply (foldM_sum _ (λ sfi, sfo_value_of tx (sfi_ParentID sfi))) in Hl as [Hs Hall].
  { split; [exact Hall|]. lia. }
  intros s0 sfi s1 H. res_inv. bool_inv.
  destruct (getSiafundOutput_Ok _ _ _ E) as (raw & Hraw & Hv & _).
  unfold sfo_value_of. rewrite Hraw. cbn. rewrite Hv. split; [done|]. eauto.
Qed.

Lemma validFileContractRevisions_Ok tx t :
  validFileContractRevisions tx t = Ok () ↔
  Forall (λ fcr, ∃ fc, db_FileContracts tx !! fcr_ParentID fcr = Some fc ∧
    blockHeight tx ≤ fc_WindowStart fc ∧ fc_RevisionNumber fc < fcr_NewRevisionNumber fcr ∧
    UnlockConditions_UnlockHash (fcr_UnlockConditions fcr) = fc_UnlockHash fc ∧
    sumZ sco_Value (fcr_NewValidProofOutputs fcr) = sumZ sco_Value (fc_ValidProofOutputs fc) ∧
    sumZ sco_Value (fcr_NewMissedProofOutputs fcr) = sumZ sco_Value (fc_ValidProofOutputs fc))
    (t_FileContractRevisions t).
Proof.
  unfold validFileContractRevisions. rewrite checkM_Ok. apply Forall_iff. intros fcr.
  unfold getFileContract.
  destruct (db_FileContracts tx !! fcr_ParentID fcr) as [fc|]; cbn [mbind res_bind]; [|naive_solver].
  rewrite !bind_unit_Ok, !guard_err_Ok, !negb_false_iff, bool_decide_eq_true, !Currency_Equals_eqb,
    !Z.eqb_eq, Z.ltb_ge, Z.leb_gt, !outputs_sum_value.
  naive_solver.
Qed.

Lemma storageProofSegment_contract tx id i :
  storageProofSegment tx id = Ok i → is_Some (db_FileContracts tx !! id).
Proof. unfold storageProofSegment. by destruct (db_FileContracts tx !! id). Qed.

Lemma validStorageProofs_contracts tx t :
  validStorageProofs tx t = Ok () →
  Forall (λ sp, is_Some (db_FileContracts tx !! sp_ParentID sp)) (t_StorageProofs t).
Proof.
  unfold validStorageProofs, validStorageProofs100e3.
  destruct (_ || _); rewrite checkM_Ok; intros H; (eapply Forall_impl; [exact H|]); cbn;
    intros sp Hsp; apply bind_Ok in Hsp as (i & Hi & _); by eapply storageProofSegment_contract.
Qed.
End valid_facts.
