(* ===== verification/MapDiffs.v ===== *)
(** * Diffs of finite maps

    The generic theory behind the diff lists of a processed block: a diff
    inserts or deletes one key; a list of diffs is run forwards to apply it and
    backwards, with every direction flipped, to revert it.  Used for the siacoin
    output, siafund output and file contract buckets, and for the nested
    buckets of delayed outputs. *)

From S2P Require Import Prelude.

Section kv.
Context `{Countable K} {V D : Type}.
Context (dirOf : D → bool) (keyOf : D → K) (valOf : D → V).
Implicit Types (m : gmap K V) (d : D) (l : list D).

(** Committing one diff in direction [dir]. *)
Definition kv_step (dir : bool) m d : gmap K V :=
  if Bool.eqb (dirOf d) dir then <[keyOf d := valOf d]> m else delete (keyOf d) m.

Definition kv_run (dir : bool) m l : gmap K V := foldl (kv_step dir) m l.

(** [P] holds of every diff in the state it is applied to. *)
Fixpoint kv_all (P : gmap K V → D → Prop) m l : Prop :=
  match l with
  | [] => True
  | d :: l => P m d ∧ kv_all P (kv_step true m d) l
  end.

(** An insertion does not overwrite (what a debug build checks). *)
Definition fresh m d : Prop := dirOf d = true → m !! keyOf d = None.
(** A deletion carries what it deletes, up to [R]. *)
Definition present (R : V → V → Prop) m d : Prop :=
  dirOf d = false → ∃ v, m !! keyOf d = Some v ∧ R v (valOf d).

#[export] Instance fresh_dec m d : Decision (fresh m d).
Proof. unfold fresh. apply _. Defined.
#[export] Instance present_dec (R : V → V → Prop) `{!RelDecision R} m d : Decision (present R m d).
Proof.
  unfold present. destruct (dirOf d); [by left|].
  destruct (m !! keyOf d) as [v|].
  - destruct (decide (R v (valOf d))) as [HR|HR]; [left; eauto|right; naive_solver].
  - right. intros Hp. by destruct (Hp eq_refl) as (? & ? & _).
Defined.
#[export] Instance kv_all_dec P `{!∀ m d, Decision (P m d)} m l : Decision (kv_all P m l).
Proof. revert m. induction l as [|d l IH]; intros m; cbn; apply _. Defined.

Definition kv_fresh := kv_all fresh.
Definition kv_present (R : V → V → Prop) := kv_all (present R).
#[export] Instance kv_fresh_dec m l : Decision (kv_fresh m l).
Proof. unfold kv_fresh. apply _. Defined.
#[export] Instance kv_present_dec (R : V → V → Prop) `{!RelDecision R} m l : Decision (kv_present R m l).
Proof. unfold kv_present. apply _. Defined.

Lemma kv_run_app dir m l k : kv_run dir m (l ++ k) = kv_run dir (kv_run dir m l) k.
Proof. apply foldl_app. Qed.

(** A key is what the last diff that concerns it makes of it. *)
Lemma kv_run_other dir m l k : Forall (λ d, keyOf d ≠ k) l → kv_run dir m l !! k = m !! k.
Proof.
  intros Hl. revert m. induction Hl as [|d l Hd _ IH]; intros m; [done|]. unfold kv_run in *. cbn [foldl]. rewrite IH.
  unfold kv_step. case_match; [by rewrite lookup_insert_ne|by rewrite lookup_delete_ne].
Qed.

Lemma kv_run_last dir m l1 d l2 :
  Forall (λ d', keyOf d' ≠ keyOf d) l2 →
  kv_run dir m (l1 ++ d :: l2) !! keyOf d = if Bool.eqb (dirOf d) dir then Some (valOf d) else None.
Proof.
  intros Hl. rewrite kv_run_app. change (kv_run dir (kv_run dir m l1) (d :: l2)) with (kv_run dir (kv_step dir (kv_run dir m l1) d) l2).
  rewrite kv_run_other by done. unfold kv_step. case_match; [by rewrite lookup_insert_eq|by rewrite lookup_delete_eq].
Qed.

Lemma kv_all_app P m l k : kv_all P m (l ++ k) ↔ kv_all P m l ∧ kv_all P (kv_run true m l) k.
Proof.
  revert m. induction l as [|d l IH]; intros m; cbn; [tauto|]. rewrite IH. tauto.
Qed.

Lemma kv_all_snoc P m l d : kv_all P m (l ++ [d]) ↔ kv_all P m l ∧ P (kv_run true m l) d.
Proof. rewrite kv_all_app. cbn. tauto. Qed.

Lemma kv_present_impl (R R' : V → V → Prop) m l :
  (∀ v v', R v v' → R' v v') → kv_present R m l → kv_present R' m l.
Proof.
  intros HR. revert m. induction l as [|d l IH]; intros m; cbn; [done|].
  intros [Hp Hl]. split; [|by apply IH]. intros Hd. destruct (Hp Hd) as (v & ? & ?). eauto.
Qed.

(** An exact diff is undone by committing it in the other direction. *)
Lemma kv_step_undo m d :
  fresh m d → present eq m d → kv_step false (kv_step true m d) d = m.
Proof.
  unfold fresh, present, kv_step. destruct (dirOf d); cbn; intros Hf Hp.
  - apply delete_insert_id. by apply Hf.
  - destruct (Hp eq_refl) as (v & Hv & <-). apply map_eq. intros k.
    destruct (decide (keyOf d = k)) as [<-|Hne].
    + by rewrite lookup_insert_eq.
    + by rewrite lookup_insert_ne, lookup_delete_ne.
Qed.

(** Reverting a run of exact diffs restores the map. *)
Lemma kv_revert m l :
  kv_fresh m l → kv_present eq m l → kv_run false (kv_run true m l) (rev l) = m.
Proof.
  induction l as [|d l IH] using rev_ind; [done|].
  unfold kv_fresh, kv_present. rewrite !kv_all_snoc. intros [Hf Hf'] [Hp Hp'].
  rewrite kv_run_app, rev_app_distr. cbn.
  change (kv_run false (kv_step false (kv_step true (kv_run true m l) d) d) (rev l) = m).
  rewrite kv_step_undo by done. by apply IH.
Qed.

(** Fresh insertions keep what was there. *)
Lemma kv_inserts_keep m l k v :
  kv_fresh m l → Forall (λ d, dirOf d = true) l → m !! k = Some v → kv_run true m l !! k = Some v.
Proof.
  revert m. induction l as [|d l IH]; intros m; [done|]. cbn. intros [Hf Hfl] [Hd Hl]%Forall_cons Hk.
  apply (IH (kv_step true m d)); [done|done|]. unfold kv_step. rewrite Hd. cbn.
  rewrite lookup_insert_ne; [done|]. intros <-. rewrite (Hf Hd) in Hk. done.
Qed.

(** What a list of diffs adds to a sum over the values. *)
Definition signed (f : V → Z) l : Z :=
  sumZ (λ d, if dirOf d then f (valOf d) else - f (valOf d)) l.

Lemma signed_app f l k : signed f (l ++ k) = signed f l + signed f k.
Proof. apply sumZ_app. Qed.

Lemma kv_sum (R : V → V → Prop) f m l :
  (∀ v v', R v v' → f v = f v') → kv_fresh m l → kv_present R m l →
  map_sumZ f (kv_run true m l) = map_sumZ f m + signed f l.
Proof.
  intros HR. revert m. induction l as [|d l IH]; intros m.
  { intros _ _. unfold signed. cbn. lia. }
  intros [Hf Hfl] [Hp Hpl]. change (kv_run true m (d :: l)) with (kv_run true (kv_step true m d) l).
  rewrite IH by done. unfold signed. cbn [sumZ].
  unfold kv_step, fresh, present in *. destruct (dirOf d); cbn.
  - rewrite map_sumZ_insert by by apply Hf. lia.
  - destruct (Hp eq_refl) as (v & Hv & HRv). apply HR in HRv.
    rewrite (map_sumZ_delete f m _ v Hv). lia.
Qed.
End kv.

Section nested.
Context `{Countable J} `{Countable K} {V D : Type}.
Context (dirOf : D → bool) (idxOf : D → J) (keyOf : D → K) (valOf : D → V).
Implicit Types (m : gmap J (gmap K V)) (d : D) (l : list D).

(** A diff of a bucket that must exist. *)
Definition nest_step (dir : bool) m d : res (gmap J (gmap K V)) :=
  match m !! idxOf d with
  | None => Panic
  | Some b => Ok (<[idxOf d := kv_step dirOf keyOf valOf dir b d]> m)
  end.

Definition nest_run (dir : bool) m l : res (gmap J (gmap K V)) := foldM (nest_step dir) m l.

Fixpoint nest_all (P : gmap K V → D → Prop) m l : Prop :=
  match l with
  | [] => True
  | d :: l =>
      match m !! idxOf d with
      | None => False
      | Some b => P b d ∧ nest_all P (<[idxOf d := kv_step dirOf keyOf valOf true b d]> m) l
      end
  end.

#[export] Instance nest_all_dec (P : gmap K V → D → Prop) `{!∀ b d, Decision (P b d)} m l : Decision (nest_all P m l).
Proof.
  revert m. induction l as [|d l IH]; intros m; cbn; [apply _|].
  destruct (m !! idxOf d); [apply _|right; intros []].
Defined.

Definition nest_fresh := nest_all (fresh dirOf keyOf).
Definition nest_present (R : V → V → Prop) := nest_all (present dirOf keyOf valOf R).
#[export] Instance nest_fresh_dec m l : Decision (nest_fresh m l).
Proof. unfold nest_fresh. apply _. Defined.

Lemma nest_run_app dir m l k : nest_run dir m (l ++ k) = (m' ← nest_run dir m l; nest_run dir m' k).
Proof. apply foldM_app. Qed.

Lemma nest_all_app P m l k :
  nest_all P m (l ++ k) ↔ nest_all P m l ∧ ∃ m', nest_run true m l = Ok m' ∧ nest_all P m' k.
Proof.
  revert m. induction l as [|d l IH]; intros m; cbn; [naive_solver|].
  unfold nest_step at 2. destruct (m !! idxOf d) as [b|]; [|naive_solver]. cbn.
  rewrite IH. unfold nest_run. naive_solver.
Qed.

Lemma nest_all_run P m l : nest_all P m l → ∃ m', nest_run true m l = Ok m'.
Proof.
  intros Hl. pose proof (nest_all_app P m l []) as E. rewrite app_nil_r in E.
  apply E in Hl as (_ & m' & Hm' & _). eauto.
Qed.

Lemma nest_all_snoc P m m' l d b :
  nest_all P m l → nest_run true m l = Ok m' → m' !! idxOf d = Some b → P b d →
  nest_all P m (l ++ [d]).
Proof. intros Hl Hr Hb HP. apply nest_all_app. split; [done|]. exists m'. cbn. by rewrite Hb. Qed.

Lemma nest_revert m m' l :
  nest_fresh m l → nest_present eq m l → nest_run true m l = Ok m' →
  nest_run false m' (rev l) = Ok m.
Proof.
  revert m'. induction l as [|d l IH] using rev_ind; intros m' Hf Hp Hr.
  { by injection Hr as <-. }
  apply nest_all_app in Hf as (Hf & m1 & Hm1 & Hf'). apply nest_all_app in Hp as (Hp & m2 & Hm2 & Hp').
  rewrite Hm1 in Hm2. injection Hm2 as <-. rewrite nest_run_app, Hm1 in Hr. cbn in Hr, Hf', Hp'.
  unfold nest_step in Hr. destruct (m1 !! idxOf d) as [b|] eqn:Hb; [|done]. cbn in Hr.
  injection Hr as <-. rewrite rev_app_distr.
  assert (nest_step false (<[idxOf d := kv_step dirOf keyOf valOf true b d]> m1) d = Ok m1) as E.
  { unfold nest_step. rewrite lookup_insert_eq.
    rewrite kv_step_undo by tauto. by rewrite insert_insert_eq, insert_id. }
  cbn [rev app]. unfold nest_run. cbn [foldM]. rewrite E. by apply IH.
Qed.

Lemma nest_sum (R : V → V → Prop) f m m' l :
  (∀ v v', R v v' → f v = f v') → nest_fresh m l → nest_present R m l → nest_run true m l = Ok m' →
  map_sumZ (map_sumZ f) m' = map_sumZ (map_sumZ f) m + signed dirOf valOf f l.
Proof.
  intros HR. revert m. induction l as [|d l IH]; intros m; cbn.
  { intros _ _ [= <-]. unfold signed; cbn; lia. }
  destruct (m !! idxOf d) as [b|] eqn:Hb; [|done].
  assert (nest_step true m d = Ok (<[idxOf d := kv_step dirOf keyOf valOf true b d]> m)) as ->
    by (unfold nest_step; by rewrite Hb). cbn.
  intros [Hf Hfl] [Hp Hpl] Hr. rewrite (IH _ Hfl Hpl Hr). unfold signed. cbn [sumZ].
  rewrite <- (insert_delete_eq m (idxOf d)), map_sumZ_insert by apply lookup_delete_eq.
  rewrite (map_sumZ_delete (map_sumZ f) m _ b Hb).
  pose proof (kv_sum dirOf keyOf valOf R f b [d] HR) as Hs. cbn in Hs.
  unfold signed in Hs. cbn in Hs. rewrite Hs by done. lia.
Qed.

Lemma nest_run_other i dir m m' l :
  Forall (λ d, idxOf d ≠ i) l → nest_run dir m l = Ok m' → m' !! i = m !! i.
Proof.
  revert m. induction l as [|d l IH]; intros m; cbn; [congruence|]. intros [Hd Hl]%Forall_cons H1.
  apply bind_Ok in H1 as (m1 & Hs & Hr). rewrite (IH _ Hl Hr). unfold nest_step in Hs.
  destruct (m !! idxOf d); [|done]. injection Hs as <-. by rewrite lookup_insert_ne.
Qed.

(** Diffs of other buckets do not notice that one is gone. *)
Lemma nest_run_delete i m l :
  Forall (λ d, idxOf d ≠ i) l →
  nest_run true (delete i m) l = (m' ← nest_run true m l; Ok (delete i m')).
Proof.
  revert m. induction l as [|d l IH]; intros m; cbn; [done|]. intros [Hd Hl]%Forall_cons.
  assert (nest_step true (delete i m) d = (m' ← nest_step true m d; Ok (delete i m'))) as ->.
  { unfold nest_step. rewrite lookup_delete_ne by done.
    destruct (m !! idxOf d) as [b|]; [|done]. cbn. by rewrite delete_insert_ne. }
  destruct (nest_step true m d) as [m'| |]; [|done|done]. cbn. by apply IH.
Qed.
End nested.

#[global] Typeclasses Opaque kv_fresh kv_present nest_fresh nest_present.
#[global] Arguments signed : simpl never.
