(* ===== verification/Diffs.v ===== *)
(** * Committing diffs

    Models the commit half of [modules/consensus/diffs.go]: a processed block
    records what it changed as lists of diffs, and [commitDiffSet] applies or
    reverts them.  [generateAndApplyDiff], which produces them, is in
    [BlockDiffs].

    Every kind of diff touches one part of the database only, so the effect of
    a list of diffs is described part by part ([sco_run], [fc_run], ...); this is
    what relates the interleaved order of generation to the kind-by-kind order
    of [commitNodeDiffs]. *)

From S2P Require Import Prelude Encoding Currency Target Crypto Types Codec Block ConsensusDB MapDiffs.

(** The order in which a list of diffs is committed: [for i := range] when
    applying, [for i := len - 1; i >= 0; i--] when reverting. *)
Definition commit_order {A} (dir : DiffDirection) (l : list A) : list A :=
  if dir then l else rev l.

Section diffs.
Context `{N : Net} `{C : Crypto}.

Definition commitSiacoinOutputDiff (tx : DB) (scod : SiacoinOutputDiff) (dir : DiffDirection) : DB :=
  if Bool.eqb (scod_Direction scod) dir
  then addSiacoinOutput tx (scod_ID scod) (scod_SiacoinOutput scod)
  else removeSiacoinOutput tx (scod_ID scod).

Definition commitFileContractDiff (tx : DB) (fcd : FileContractDiff) (dir : DiffDirection) : res DB :=
  if Bool.eqb (fcd_Direction fcd) dir
  then Ok (addFileContract tx (fcd_ID fcd) (fcd_FileContract fcd))
  else removeFileContract tx (fcd_ID fcd).

Definition commitSiafundOutputDiff (tx : DB) (sfod : SiafundOutputDiff) (dir : DiffDirection) : DB :=
  if Bool.eqb (sfod_Direction sfod) dir
  then addSiafundOutput tx (sfod_ID sfod) (sfod_SiafundOutput sfod)
  else removeSiafundOutput tx (sfod_ID sfod).

Definition commitDelayedSiacoinOutputDiff (tx : DB) (dscod : DelayedSiacoinOutputDiff)
    (dir : DiffDirection) : res DB :=
  if Bool.eqb (dscod_Direction dscod) dir
  then addDSCO tx (dscod_MaturityHeight dscod) (dscod_ID dscod) (dscod_SiacoinOutput dscod)
  else removeDSCO tx (dscod_MaturityHeight dscod) (dscod_ID dscod).

Definition commitSiafundPoolDiff (tx : DB) (sfpd : SiafundPoolDiff) (dir : DiffDirection) : DB :=
  if dir then setSiafundPool tx (sfpd_Adjusted sfpd) else setSiafundPool tx (sfpd_Previous sfpd).

Definition createUpcomingDelayedOutputMaps (tx : DB) (pb : processedBlock) (dir : DiffDirection) : DB :=
  if dir then createDSCOBucket tx (u64 (pb_Height pb + MaturityDelay))
  else if MaturityDelay <=? pb_Height pb then createDSCOBucket tx (pb_Height pb)
  else tx.

Definition commitNodeDiffs (tx : DB) (pb : processedBlock) (dir : DiffDirection) : res DB :=
  let tx := foldl (λ tx d, commitSiacoinOutputDiff tx d dir) tx (commit_order dir (pb_SiacoinOutputDiffs pb)) in
  tx ← foldM (λ tx d, commitFileContractDiff tx d dir) tx (commit_order dir (pb_FileContractDiffs pb));
  let tx := foldl (λ tx d, commitSiafundOutputDiff tx d dir) tx (commit_order dir (pb_SiafundOutputDiffs pb)) in
  tx ← foldM (λ tx d, commitDelayedSiacoinOutputDiff tx d dir) tx
         (commit_order dir (pb_DelayedSiacoinOutputDiffs pb));
  Ok (foldl (λ tx d, commitSiafundPoolDiff tx d dir) tx (commit_order dir (pb_SiafundPoolDiffs pb))).

Definition deleteObsoleteDelayedOutputMaps (tx : DB) (pb : processedBlock) (dir : DiffDirection) : DB :=
  if dir && (MaturityDelay <=? pb_Height pb) then deleteDSCOBucket tx (pb_Height pb)
  else if Bool.eqb dir DiffRevert then deleteDSCOBucket tx (u64 (pb_Height pb + MaturityDelay))
  else tx.

Definition updateCurrentPath (tx : DB) (pb : processedBlock) (dir : DiffDirection) : DB :=
  if dir then pushPath tx (Block_ID (pb_Block pb)) else popPath tx.

(** [commitDiffSetSanity] does nothing in a release build. *)
Definition commitDiffSet (tx : DB) (pb : processedBlock) (dir : DiffDirection) : res DB :=
  let tx := createUpcomingDelayedOutputMaps tx pb dir in
  tx ← commitNodeDiffs tx pb dir;
  let tx := deleteObsoleteDelayedOutputMaps tx pb dir in
  Ok (updateCurrentPath tx pb dir).

End diffs.

(** ** The parts of the database *)

Definition sco_run := kv_run scod_Direction scod_ID scod_SiacoinOutput.
Definition fc_run := kv_run fcd_Direction fcd_ID fcd_FileContract.
Definition sfo_run := kv_run sfod_Direction sfod_ID sfod_SiafundOutput.
Definition dsco_run :=
  nest_run dscod_Direction dscod_MaturityHeight dscod_ID dscod_SiacoinOutput.
Definition pool_run (dir : bool) (pool : Currency) (l : list SiafundPoolDiff) : Currency :=
  foldl (λ _ d, if dir then sfpd_Adjusted d else sfpd_Previous d) pool l.

(** The expiration index lists exactly the open contracts, by window end. *)
Definition fcex_ok (fcs : gmap FileContractID FileContract)
    (ex : gmap BlockHeight (gset FileContractID)) : Prop :=
  ∀ h id, id ∈ (default ∅ (ex !! h) : gset FileContractID) ↔
    ∃ fc, fcs !! id = Some fc ∧ fc_WindowEnd fc = h.

(** ** Databases up to empty expiration buckets

    [applyFileContractMaintenance] deletes the expiration bucket of the block's
    height, [commitDiffSet] leaves it behind empty, and [removeFileContract]
    always leaves it: whether an empty bucket exists is not observable. *)

Definition fcex_equiv (ex1 ex2 : gmap BlockHeight (gset FileContractID)) : Prop :=
  ∀ h, (default ∅ (ex1 !! h) : gset FileContractID) = default ∅ (ex2 !! h).

(** Everything but the expiration buckets. *)
Definition without_fcex (db : DB) : DB := set_db_FCEX ∅ db.

#[export] Instance DB_equiv : Equiv DB := λ db1 db2,
  without_fcex db1 = without_fcex db2 ∧ fcex_equiv (db_FCEX db1) (db_FCEX db2).

#[export] Instance DB_equivalence : Equivalence (≡@{DB}).
Proof.
  split.
  - intros db. by split.
  - intros db1 db2 [H1 H2]. split; [done|]. intros h. by rewrite H2.
  - intros db1 db2 db3 [H1 H2] [H3 H4]. split; [congruence|]. intros h. by rewrite H2.
Qed.

Inductive res_equiv `{Equiv A} : Equiv (res A) :=
  | Ok_equiv a b : a ≡ b → Ok a ≡ Ok b
  | Err_equiv e : Err e ≡ Err e
  | Panic_equiv : Panic ≡ Panic.
#[export] Existing Instance res_equiv.

Lemma fcex_ok_equiv fcs ex1 ex2 : fcex_ok fcs ex1 → fcex_ok fcs ex2 → fcex_equiv ex1 ex2.
Proof. intros H1 H2 h. apply set_eq. intros id. by rewrite (H1 h id), (H2 h id). Qed.

Lemma db_eta db :
  db = mkDB (db_BlockHeight db) (db_BlockMap db) (db_BlockPath db) (db_SiacoinOutputs db)
    (db_FileContracts db) (db_SiafundOutputs db) (db_SiafundPool db) (db_DSCO db) (db_FCEX db) (db_Oak db).
Proof. by destruct db. Qed.

Lemma db_equiv_intro db1 db2 :
  db_BlockHeight db1 = db_BlockHeight db2 → db_BlockMap db1 = db_BlockMap db2 →
  db_BlockPath db1 = db_BlockPath db2 → db_SiacoinOutputs db1 = db_SiacoinOutputs db2 →
  db_FileContracts db1 = db_FileContracts db2 → db_SiafundOutputs db1 = db_SiafundOutputs db2 →
  db_SiafundPool db1 = db_SiafundPool db2 → db_DSCO db1 = db_DSCO db2 →
  fcex_equiv (db_FCEX db1) (db_FCEX db2) → db_Oak db1 = db_Oak db2 → db1 ≡ db2.
Proof.
  intros. split; [|done]. unfold without_fcex, set_db_FCEX. congruence.
Qed.

Lemma db_equiv_elim db1 db2 :
  db1 ≡ db2 →
  db_BlockHeight db1 = db_BlockHeight db2 ∧ db_BlockMap db1 = db_BlockMap db2 ∧
  db_BlockPath db1 = db_BlockPath db2 ∧ db_SiacoinOutputs db1 = db_SiacoinOutputs db2 ∧
  db_FileContracts db1 = db_FileContracts db2 ∧ db_SiafundOutputs db1 = db_SiafundOutputs db2 ∧
  db_SiafundPool db1 = db_SiafundPool db2 ∧ db_DSCO db1 = db_DSCO db2 ∧
  fcex_equiv (db_FCEX db1) (db_FCEX db2) ∧ db_Oak db1 = db_Oak db2.
Proof.
  intros [H1 H2]. unfold without_fcex, set_db_FCEX in H1. injection H1 as E1 E2 E3 E4 E5 E6 E7 E8 E9.
  split_and!; assumption.
Qed.

(** ** Each diff changes one part *)

Section parts.
Context `{N : Net} `{C : Crypto}.

Lemma commit_sco_run tx l dir :
  foldl (λ tx d, commitSiacoinOutputDiff tx d dir) tx l =
  set_db_SiacoinOutputs (sco_run dir (db_SiacoinOutputs tx) l) tx.
Proof.
  revert tx. induction l as [|d l IH]; intros tx; cbn; [by destruct tx|]. rewrite IH.
  unfold commitSiacoinOutputDiff, addSiacoinOutput, removeSiacoinOutput, sco_run, kv_run.
  cbn. unfold kv_step at 3. by case_match.
Qed.

Lemma commit_sfo_run tx l dir :
  foldl (λ tx d, commitSiafundOutputDiff tx d dir) tx l =
  set_db_SiafundOutputs (sfo_run dir (db_SiafundOutputs tx) l) tx.
Proof.
  revert tx. induction l as [|d l IH]; intros tx; cbn; [by destruct tx|]. rewrite IH.
  unfold commitSiafundOutputDiff, addSiafundOutput, removeSiafundOutput, sfo_run, kv_run.
  cbn. unfold kv_step at 3. by case_match.
Qed.

Lemma commit_pool_run tx l dir :
  foldl (λ tx d, commitSiafundPoolDiff tx d dir) tx l =
  set_db_SiafundPool (pool_run dir (db_SiafundPool tx) l) tx.
Proof.
  revert tx. induction l as [|d l IH]; intros tx; cbn; [by destruct tx|]. rewrite IH.
  unfold commitSiafundPoolDiff, setSiafundPool, pool_run. by destruct dir.
Qed.

Lemma commit_dsco_step tx d dir :
  commitDelayedSiacoinOutputDiff tx d dir =
  (ds ← nest_step dscod_Direction dscod_MaturityHeight dscod_ID dscod_SiacoinOutput dir (db_DSCO tx) d;
   Ok (set_db_DSCO ds tx)).
Proof.
  unfold commitDelayedSiacoinOutputDiff, addDSCO, removeDSCO, nest_step, kv_step.
  destruct (Bool.eqb _ _); by destruct (db_DSCO tx !! _).
Qed.

Lemma commit_dsco_run tx l dir :
  foldM (λ tx d, commitDelayedSiacoinOutputDiff tx d dir) tx l =
  (ds ← dsco_run dir (db_DSCO tx) l; Ok (set_db_DSCO ds tx)).
Proof.
  revert tx. induction l as [|d l IH]; intros tx; cbn; [by destruct tx|].
  rewrite commit_dsco_step. unfold dsco_run, nest_run. cbn.
  destruct (nest_step _ _ _ _ dir (db_DSCO tx) d) as [ds| |]; cbn; [|done|done].
  rewrite IH. unfold dsco_run, nest_run. cbn.
  by destruct (foldM _ ds l).
Qed.

Definition set_fc (fcs : gmap FileContractID FileContract)
    (ex : gmap BlockHeight (gset FileContractID)) (tx : DB) : DB :=
  set_db_FCEX ex (set_db_FileContracts fcs tx).

Definition fc_step := kv_step fcd_Direction fcd_ID fcd_FileContract.

Lemma default_insert_eq (ex : gmap BlockHeight (gset FileContractID)) h s h' :
  (default ∅ (<[h := s]> ex !! h') : gset FileContractID) =
  if decide (h = h') then s else default ∅ (ex !! h').
Proof. case_decide as E; [subst; by rewrite lookup_insert_eq|by rewrite lookup_insert_ne]. Qed.

Lemma fcex_ok_add fcs ex id fc :
  fcex_ok fcs ex → fcs !! id = None →
  fcex_ok (<[id := fc]> fcs)
    (<[fc_WindowEnd fc := {[id]} ∪ default ∅ (ex !! fc_WindowEnd fc)]> ex).
Proof.
  intros Hok Hnone h id'. rewrite default_insert_eq. pose proof (Hok h id') as Hh.
  destruct (decide (id = id')) as [<-|Hne].
  - rewrite lookup_insert_eq. case_decide as E; [|].
    + subst. set_solver.
    + rewrite Hh. split; [intros (fc' & ? & _); congruence|intros (? & [= <-] & ?); congruence].
  - rewrite lookup_insert_ne by done. case_decide as E; [subst|done].
    rewrite <- Hh. set_solver.
Qed.

Lemma fcex_ok_singleton id fc : fcex_ok {[id := fc]} {[fc_WindowEnd fc := {[id]}]}.
Proof.
  intros h id'. destruct (decide (h = fc_WindowEnd fc)) as [->|Hne].
  - rewrite lookup_singleton_eq. cbn. rewrite elem_of_singleton. split.
    + intros ->. exists fc. by rewrite lookup_singleton_eq.
    + intros (fc' & [-> _]%lookup_singleton_Some & _). done.
  - rewrite lookup_singleton_ne by done. cbn. split; [set_solver|].
    by intros (fc' & [-> ->]%lookup_singleton_Some & ?).
Qed.

Lemma fcex_ok_remove fcs ex id fc :
  fcex_ok fcs ex → fcs !! id = Some fc →
  ∃ b, ex !! fc_WindowEnd fc = Some b ∧ id ∈ b ∧
    fcex_ok (delete id fcs) (<[fc_WindowEnd fc := b ∖ {[id]}]> ex).
Proof.
  intros Hok Hfc. assert (id ∈ (default ∅ (ex !! fc_WindowEnd fc) : gset FileContractID)) as Hin.
  { apply Hok. eauto. }
  destruct (ex !! fc_WindowEnd fc) as [b|] eqn:Eb; cbn in Hin; [|set_solver].
  exists b. split_and!; [done|done|]. intros h id'. rewrite default_insert_eq.
  pose proof (Hok h id') as Hh. destruct (decide (id = id')) as [<-|Hne].
  - rewrite lookup_delete_eq. case_decide as E; [set_solver|].
    rewrite Hh. split; [intros (? & ? & ?); congruence|naive_solver].
  - rewrite lookup_delete_ne by done. case_decide as E; [subst; rewrite Eb in Hh; cbn in Hh|done].
    rewrite <- Hh. set_solver.
Qed.

(** On a consistent index, adding an absent contract or removing a present
    one succeeds and keeps the index consistent. *)
Lemma commit_fc_step tx d dir :
  fcex_ok (db_FileContracts tx) (db_FCEX tx) →
  (if Bool.eqb (fcd_Direction d) dir then db_FileContracts tx !! fcd_ID d = None
   else is_Some (db_FileContracts tx !! fcd_ID d)) →
  ∃ ex, commitFileContractDiff tx d dir = Ok (set_fc (fc_step dir (db_FileContracts tx) d) ex tx) ∧
        fcex_ok (fc_step dir (db_FileContracts tx) d) ex.
Proof.
  unfold commitFileContractDiff, fc_step, kv_step. intros Hok Hd. destruct (Bool.eqb _ _).
  - eexists. split; [reflexivity|]. by apply fcex_ok_add.
  - destruct Hd as [fc Hfc]. destruct (fcex_ok_remove _ _ _ _ Hok Hfc) as (b & Hb & Hin & Hok').
    unfold removeFileContract. rewrite Hfc. cbn. rewrite Hb. rewrite decide_True by done.
    eexists. split; [reflexivity|done].
Qed.

(** Whatever the state, a commit that does not panic acts on the contracts as
    the diff says and touches nothing but them and the index. *)
Lemma commit_fc_inv tx d dir tx' :
  commitFileContractDiff tx d dir = Ok tx' →
  ∃ ex, tx' = set_fc (fc_step dir (db_FileContracts tx) d) ex tx.
Proof.
  unfold commitFileContractDiff, fc_step, kv_step, removeFileContract. destruct (Bool.eqb _ _).
  - intros [= <-]. by eexists.
  - destruct (db_FileContracts tx !! fcd_ID d) as [fc|] eqn:E; [|done]. cbn.
    destruct (db_FCEX tx !! _); [|done]. case_decide; [|done]. intros [= <-]. by eexists.
Qed.

Lemma fc_apply_run tx l :
  fcex_ok (db_FileContracts tx) (db_FCEX tx) →
  kv_fresh fcd_Direction fcd_ID fcd_FileContract (db_FileContracts tx) l →
  kv_present fcd_Direction fcd_ID fcd_FileContract eq (db_FileContracts tx) l →
  ∃ ex, foldM (λ tx d, commitFileContractDiff tx d DiffApply) tx l =
          Ok (set_fc (fc_run true (db_FileContracts tx) l) ex tx) ∧
        fcex_ok (fc_run true (db_FileContracts tx) l) ex.
Proof.
  revert tx. induction l as [|d l IH]; intros tx Hok Hf Hp.
  { exists (db_FCEX tx). cbn. split; [by destruct tx|done]. }
  destruct Hf as [Hf Hfl], Hp as [Hp Hpl]. cbn [foldM].
  destruct (commit_fc_step tx d DiffApply Hok) as (ex & -> & Hok').
  { unfold fresh, present, DiffApply in *. destruct (fcd_Direction d); cbn; [by apply Hf|].
    destruct (Hp eq_refl) as (? & ? & _). by eexists. }
  destruct (IH (set_fc (fc_step true (db_FileContracts tx) d) ex tx) Hok' Hfl Hpl) as (ex' & E & Hok'').
  exists ex'. split; [|exact Hok'']. exact E.
Qed.

Lemma fc_revert_run tx m l :
  fcex_ok (db_FileContracts tx) (db_FCEX tx) →
  kv_fresh fcd_Direction fcd_ID fcd_FileContract m l →
  kv_present fcd_Direction fcd_ID fcd_FileContract eq m l →
  db_FileContracts tx = fc_run true m l →
  ∃ ex, foldM (λ tx d, commitFileContractDiff tx d DiffRevert) tx (rev l) = Ok (set_fc m ex tx) ∧
        fcex_ok m ex.
Proof.
  revert tx. induction l as [|d l IH] using rev_ind; intros tx Hok Hf Hp Hm.
  { exists (db_FCEX tx). cbn in *. subst m. split; [by destruct tx|done]. }
  apply kv_all_snoc in Hf as [Hfl Hf], Hp as [Hpl Hp].
  unfold fc_run in Hm. rewrite kv_run_app in Hm. cbn in Hm.
  rewrite rev_app_distr. cbn [rev app foldM].
  destruct (commit_fc_step tx d DiffRevert Hok) as (ex & -> & Hok').
  { rewrite Hm. unfold kv_step, fresh, DiffRevert in *. destruct (fcd_Direction d); cbn.
    - rewrite lookup_insert_eq. by eexists.
    - apply lookup_delete_eq. }
  assert (fc_step DiffRevert (db_FileContracts tx) d = fc_run true m l) as E.
  { rewrite Hm. by apply kv_step_undo. }
  rewrite E in *. cbn [mbind res_bind].
  destruct (IH (set_fc (fc_run true m l) ex tx) Hok' Hfl Hpl eq_refl) as (ex' & E' & Hok'').
  exists ex'. split; [|done]. exact E'.
Qed.
End parts.

(** Every pool diff starts where the previous one ended. *)
Fixpoint pool_chain (pool : Currency) (l : list SiafundPoolDiff) : Prop :=
  match l with
  | [] => True
  | d :: l => sfpd_Previous d = pool ∧ pool_chain (sfpd_Adjusted d) l
  end.

Lemma pool_run_app dir pool l k : pool_run dir pool (l ++ k) = pool_run dir (pool_run dir pool l) k.
Proof. apply foldl_app. Qed.

Lemma pool_chain_app pool l k :
  pool_chain pool (l ++ k) ↔ pool_chain pool l ∧ pool_chain (pool_run true pool l) k.
Proof. revert pool. induction l as [|d l IH]; intros pool; cbn; [tauto|]. rewrite IH. tauto. Qed.

Lemma pool_revert pool l :
  pool_chain pool l → pool_run false (pool_run true pool l) (rev l) = pool.
Proof.
  induction l as [|d l IH] using rev_ind; [done|]. rewrite pool_chain_app. intros [Hl [Hd _]].
  rewrite pool_run_app, rev_app_distr. cbn. rewrite Hd. by apply IH.
Qed.

(** ** Exact diff sets *)

Section exact.
Context `{N : Net} `{C : Crypto}.

Definition newBucket (pb : processedBlock) : BlockHeight := u64 (pb_Height pb + MaturityDelay).

(** The diffs of [pb] describe what they change in [tx]: insertions are of
    absent keys, deletions carry the present value, pool diffs chain; the
    block is the next one, its bucket of new delayed outputs does not exist yet
    and the bucket of outputs that mature is emptied. *)
Record diffs_exact (tx : DB) (pb : processedBlock) : Prop := {
  de_sco_fresh : kv_fresh scod_Direction scod_ID scod_SiacoinOutput
    (db_SiacoinOutputs tx) (pb_SiacoinOutputDiffs pb);
  de_sco_present : kv_present scod_Direction scod_ID scod_SiacoinOutput eq
    (db_SiacoinOutputs tx) (pb_SiacoinOutputDiffs pb);
  de_fc_fresh : kv_fresh fcd_Direction fcd_ID fcd_FileContract
    (db_FileContracts tx) (pb_FileContractDiffs pb);
  de_fc_present : kv_present fcd_Direction fcd_ID fcd_FileContract eq
    (db_FileContracts tx) (pb_FileContractDiffs pb);
  de_sfo_fresh : kv_fresh sfod_Direction sfod_ID sfod_SiafundOutput
    (db_SiafundOutputs tx) (pb_SiafundOutputDiffs pb);
  de_sfo_present : kv_present sfod_Direction sfod_ID sfod_SiafundOutput eq
    (db_SiafundOutputs tx) (pb_SiafundOutputDiffs pb);
  de_dsco_fresh : nest_fresh dscod_Direction dscod_MaturityHeight dscod_ID dscod_SiacoinOutput
    (<[newBucket pb := ∅]> (db_DSCO tx)) (pb_DelayedSiacoinOutputDiffs pb);
  de_dsco_present : nest_present dscod_Direction dscod_MaturityHeight dscod_ID dscod_SiacoinOutput eq
    (<[newBucket pb := ∅]> (db_DSCO tx)) (pb_DelayedSiacoinOutputDiffs pb);
  de_pool : pool_chain (db_SiafundPool tx) (pb_SiafundPoolDiffs pb);
  de_fcex : fcex_ok (db_FileContracts tx) (db_FCEX tx);
  de_new : db_DSCO tx !! newBucket pb = None;
  de_old : MaturityDelay ≤ pb_Height pb → ∀ ds,
    dsco_run true (<[newBucket pb := ∅]> (db_DSCO tx)) (pb_DelayedSiacoinOutputDiffs pb) = Ok ds →
    ds !! pb_Height pb = Some ∅;
  de_height : is_u64 (db_BlockHeight tx);
  de_path : db_BlockPath tx !! u64 (db_BlockHeight tx + 1) = None;
}.

Lemma newBucket_ne `{!NetOk N} pb : is_u64 (pb_Height pb) → newBucket pb ≠ pb_Height pb.
Proof.
  intros Hh. unfold newBucket, u64. pose proof net_MaturityDelay. intros E.
  pose proof (Z.div_mod (pb_Height pb + MaturityDelay) (2 ^ 64) ltac:(lia)). ulia.
Qed.

(** The parts of the database after [commitNodeDiffs] in the given direction. *)
Definition node_run (dir : bool) (pb : processedBlock) ex ds (tx : DB) : DB :=
  set_db_SiafundPool (pool_run dir (db_SiafundPool tx) (commit_order dir (pb_SiafundPoolDiffs pb)))
  (set_db_DSCO ds
  (set_db_SiafundOutputs (sfo_run dir (db_SiafundOutputs tx) (commit_order dir (pb_SiafundOutputDiffs pb)))
  (set_fc (fc_run dir (db_FileContracts tx) (commit_order dir (pb_FileContractDiffs pb))) ex
  (set_db_SiacoinOutputs (sco_run dir (db_SiacoinOutputs tx) (commit_order dir (pb_SiacoinOutputDiffs pb))) tx)))).

Lemma commitNodeDiffs_run tx pb (dir : bool) ex ds :
  (let tx1 := set_db_SiacoinOutputs
     (sco_run dir (db_SiacoinOutputs tx) (commit_order dir (pb_SiacoinOutputDiffs pb))) tx in
   foldM (λ tx d, commitFileContractDiff tx d dir) tx1 (commit_order dir (pb_FileContractDiffs pb)) =
   Ok (set_fc (fc_run dir (db_FileContracts tx) (commit_order dir (pb_FileContractDiffs pb))) ex tx1)) →
  dsco_run dir (db_DSCO tx) (commit_order dir (pb_DelayedSiacoinOutputDiffs pb)) = Ok ds →
  commitNodeDiffs tx pb dir = Ok (node_run dir pb ex ds tx).
Proof.
  intros Hfc Hds. unfold commitNodeDiffs. rewrite commit_sco_run, Hfc by done.
  cbn [mbind res_bind]. rewrite commit_sfo_run, commit_dsco_run. cbn [mbind res_bind].
  change (db_DSCO _) with (db_DSCO tx). rewrite Hds. cbn [mbind res_bind].
  by rewrite commit_pool_run.
Qed.

(** The database after applying an exact diff set. *)
Definition applied (tx : DB) (pb : processedBlock) ex ds : DB :=
  let tx := node_run true pb ex ds tx in
  let tx := if MaturityDelay <=? pb_Height pb then deleteDSCOBucket tx (pb_Height pb) else tx in
  pushPath tx (Block_ID (pb_Block pb)).

Lemma createDSCOBucket_new tx h :
  db_DSCO tx !! h = None → createDSCOBucket tx h = set_db_DSCO (<[h := ∅]> (db_DSCO tx)) tx.
Proof. unfold createDSCOBucket. by intros ->. Qed.

Lemma commitDiffSet_apply tx pb :
  diffs_exact tx pb →
  ∃ ex ds, commitDiffSet tx pb DiffApply = Ok (applied tx pb ex ds) ∧
    fcex_ok (fc_run true (db_FileContracts tx) (pb_FileContractDiffs pb)) ex ∧
    dsco_run true (<[newBucket pb := ∅]> (db_DSCO tx)) (pb_DelayedSiacoinOutputDiffs pb) = Ok ds.
Proof.
  intros He. destruct (nest_all_run _ _ _ _ _ _ _ (de_dsco_fresh _ _ He)) as [ds Hds].
  unfold commitDiffSet, createUpcomingDelayedOutputMaps, DiffApply. fold (newBucket pb).
  rewrite createDSCOBucket_new by apply He.
  set (tx0 := set_db_DSCO _ tx).
  destruct (fc_apply_run
    (set_db_SiacoinOutputs (sco_run true (db_SiacoinOutputs tx) (pb_SiacoinOutputDiffs pb)) tx0)
    (pb_FileContractDiffs pb)) as (ex & Hfc & Hok); [apply He..|].
  exists ex, ds. split_and!; [|exact Hok|exact Hds].
  rewrite (commitNodeDiffs_run tx0 pb true ex ds Hfc Hds). cbn [mbind res_bind].
  unfold deleteObsoleteDelayedOutputMaps, applied, updateCurrentPath. cbn [andb].
  by destruct (MaturityDelay <=? pb_Height pb).
Qed.

Lemma commitDiffSet_revert `{!NetOk N} tx pb ex ds :
  diffs_exact tx pb → is_u64 (pb_Height pb) →
  fcex_ok (fc_run true (db_FileContracts tx) (pb_FileContractDiffs pb)) ex →
  dsco_run true (<[newBucket pb := ∅]> (db_DSCO tx)) (pb_DelayedSiacoinOutputDiffs pb) = Ok ds →
  ∃ tx', commitDiffSet (applied tx pb ex ds) pb DiffRevert = Ok tx' ∧ tx' ≡ tx.
Proof.
  intros He Hh Hok Hds. unfold commitDiffSet. set (tx1 := applied tx pb ex ds).
  assert (createUpcomingDelayedOutputMaps tx1 pb DiffRevert = set_db_DSCO ds tx1) as ->.
  { unfold createUpcomingDelayedOutputMaps, DiffRevert, tx1, applied.
    destruct (Z.leb_spec MaturityDelay (pb_Height pb)) as [Hle|]; [|done].
    rewrite createDSCOBucket_new; cbn; [|apply lookup_delete_eq].
    rewrite insert_delete_eq, insert_id; [done|]. by apply He. }
  destruct (fc_revert_run
    (set_db_SiacoinOutputs (sco_run false (db_SiacoinOutputs tx1)
       (rev (pb_SiacoinOutputDiffs pb))) (set_db_DSCO ds tx1))
    (db_FileContracts tx) (pb_FileContractDiffs pb)) as (ex' & Hfc & Hok'); [..|].
  { unfold tx1, applied. by case_match. } { apply He. } { apply He. }
  { unfold tx1, applied. by case_match. }
  assert (fc_run false (db_FileContracts tx1) (rev (pb_FileContractDiffs pb)) = db_FileContracts tx) as Efc.
  { replace (db_FileContracts tx1) with (fc_run true (db_FileContracts tx) (pb_FileContractDiffs pb))
      by (unfold tx1, applied; by case_match). apply kv_revert; apply He. }
  change DiffRevert with false.
  rewrite (commitNodeDiffs_run (set_db_DSCO ds tx1) pb false ex' (<[newBucket pb:=∅]> (db_DSCO tx))).
  2: { change (db_FileContracts (set_db_DSCO ds tx1)) with (db_FileContracts tx1).
       change (commit_order false (pb_FileContractDiffs pb)) with (rev (pb_FileContractDiffs pb)).
       rewrite Efc. exact Hfc. }
  2: { cbn. apply (nest_revert _ _ _ _ (<[newBucket pb:=∅]> (db_DSCO tx))); [apply He..|exact Hds]. }
  cbn [mbind res_bind]. eexists. split; [reflexivity|].
  unfold deleteObsoleteDelayedOutputMaps, updateCurrentPath, popPath, tx1, applied. cbn.
  pose proof (de_height _ _ He) as Hbh.
  assert (db_BlockHeight tx = u64 (u64 (db_BlockHeight tx + 1) - 1)) as Eh.
  { unfold u64. rewrite Zminus_mod_idemp_l. replace (db_BlockHeight tx + 1 - 1) with (db_BlockHeight tx) by lia.
    symmetry. by apply Z.mod_small. }
  apply db_equiv_intro; cbn.
  - case_match; by cbn.
  - case_match; by cbn.
  - case_match; cbn; apply delete_insert_id, He.
  - case_match; cbn; apply kv_revert; apply He.
  - exact Efc || (case_match; exact Efc).
  - case_match; cbn; apply kv_revert; apply He.
  - case_match; cbn; apply pool_revert; apply He.
  - apply delete_insert_id, He.
  - eapply fcex_ok_equiv; [exact Hok'|apply He].
  - case_match; by cbn.
Qed.
End exact.
