(* ===== verification/ApplyTransaction.v ===== *)
(** * Applying transactions and block maintenance

    Models [modules/consensus/applytransaction.go] and
    [modules/consensus/maintenance.go].  Every operation takes the database and
    the processed block whose diff lists it extends; the processed block is
    only reachable through the one pointer, so it is threaded as a value.

    In a release build the errors of [getSiacoinOutput] and the like are
    ignored and the zero value is used; the model does the same ([or_zero]). *)

From S2P Require Import Prelude Encoding Currency Target Crypto Types Codec Block ConsensusDB Diffs.

(** [x, err := f(); if build.DEBUG && err != nil { panic(err) }]: the value
    returned next to an error is the zero value. *)
Definition or_zero {A} (zero : A) (r : res A) : res A :=
  match r with Ok a => Ok a | Err _ => Ok zero | Panic => Panic end.

Abbreviation State := (DB * processedBlock)%type (only parsing).

Section apply.
Context `{N : Net} `{C : Crypto}.

(** Recording a diff and committing it: the two statements that end every
    loop body. *)
Definition recordSiacoinOutputDiff (st : State) (scod : SiacoinOutputDiff) : State :=
  let '(tx, pb) := st in
  (commitSiacoinOutputDiff tx scod DiffApply, append_SiacoinOutputDiffs scod pb).
Definition recordFileContractDiff (st : State) (fcd : FileContractDiff) : res State :=
  let '(tx, pb) := st in
  tx ← commitFileContractDiff tx fcd DiffApply; Ok (tx, append_FileContractDiffs fcd pb).
Definition recordSiafundOutputDiff (st : State) (sfod : SiafundOutputDiff) : State :=
  let '(tx, pb) := st in
  (commitSiafundOutputDiff tx sfod DiffApply, append_SiafundOutputDiffs sfod pb).
Definition recordDelayedSiacoinOutputDiff (st : State) (dscod : DelayedSiacoinOutputDiff) : res State :=
  let '(tx, pb) := st in
  tx ← commitDelayedSiacoinOutputDiff tx dscod DiffApply;
  Ok (tx, append_DelayedSiacoinOutputDiffs dscod pb).
Definition recordSiafundPoolDiff (st : State) (sfpd : SiafundPoolDiff) : State :=
  let '(tx, pb) := st in
  (commitSiafundPoolDiff tx sfpd DiffApply, append_SiafundPoolDiffs sfpd pb).

(** ** [applytransaction.go] *)

Definition applySiacoinInputs (st : State) (t : Transaction) : res State :=
  foldM (λ st sci,
    sco ← or_zero zeroSiacoinOutput (getSiacoinOutput st.1 (sci_ParentID sci));
    Ok (recordSiacoinOutputDiff st (mkSCOD DiffRevert (sci_ParentID sci) sco)))
    st (t_SiacoinInputs t).

Definition applySiacoinOutputs (st : State) (t : Transaction) : res State :=
  foldMi (λ i st sco,
    let scoid := Transaction_SiacoinOutputID t i in
    Ok (recordSiacoinOutputDiff st (mkSCOD DiffApply scoid sco)))
    0 st (t_SiacoinOutputs t).

Definition applyFileContracts (st : State) (t : Transaction) : res State :=
  foldMi (λ i st fc,
    let fcid := Transaction_FileContractID t i in
    st ← recordFileContractDiff st (mkFCD DiffApply fcid fc);
    let sfp := getSiafundPool st.1 in
    tax ← Tax (blockHeight st.1) (fc_Payout fc);
    Ok (recordSiafundPoolDiff st (mkSFPD DiffApply sfp (Currency_Add sfp tax))))
    0 st (t_FileContracts t).

Definition revisedContract (fc : FileContract) (fcr : FileContractRevision) : FileContract :=
  mkFC (fcr_NewFileSize fcr) (fcr_NewFileMerkleRoot fcr) (fcr_NewWindowStart fcr)
    (fcr_NewWindowEnd fcr) (fc_Payout fc) (fcr_NewValidProofOutputs fcr)
    (fcr_NewMissedProofOutputs fcr) (fcr_NewUnlockHash fcr) (fcr_NewRevisionNumber fcr).

Definition applyFileContractRevisions (st : State) (t : Transaction) : res State :=
  foldM (λ st fcr,
    fc ← or_zero zeroFileContract (getFileContract st.1 (fcr_ParentID fcr));
    st ← recordFileContractDiff st (mkFCD DiffRevert (fcr_ParentID fcr) fc);
    recordFileContractDiff st (mkFCD DiffApply (fcr_ParentID fcr) (revisedContract fc fcr)))
    st (t_FileContractRevisions t).

Definition applyStorageProofs (st : State) (t : Transaction) : res State :=
  foldM (λ st sp,
    fc ← or_zero zeroFileContract (getFileContract st.1 (sp_ParentID sp));
    st ← foldMi (λ i st vpo,
           let spoid := StorageProofOutputID (sp_ParentID sp) true i in
           recordDelayedSiacoinOutputDiff st
             (mkDSCOD DiffApply spoid vpo (u64 (pb_Height st.2 + MaturityDelay))))
           0 st (fc_ValidProofOutputs fc);
    recordFileContractDiff st (mkFCD DiffRevert (sp_ParentID sp) fc))
    st (t_StorageProofs t).

Definition applySiafundInputs (st : State) (t : Transaction) : res State :=
  foldM (λ st sfi,
    sfo ← or_zero zeroSiafundOutput (getSiafundOutput st.1 (sfi_ParentID sfi));
    q ← Currency_Div (Currency_Sub (getSiafundPool st.1) (sfo_ClaimStart sfo)) SiafundCount;
    let claimPortion := Currency_Mul q (sfo_Value sfo) in
    let sco := mkSCO claimPortion (sfi_ClaimUnlockHash sfi) in
    let sfoid := SiaClaimOutputID (sfi_ParentID sfi) in
    st ← recordDelayedSiacoinOutputDiff st
           (mkDSCOD DiffApply sfoid sco (u64 (pb_Height st.2 + MaturityDelay)));
    Ok (recordSiafundOutputDiff st (mkSFOD DiffRevert (sfi_ParentID sfi) sfo)))
    st (t_SiafundInputs t).

Definition applySiafundOutputs (st : State) (t : Transaction) : res State :=
  foldMi (λ i st sfo,
    let sfoid := Transaction_SiafundOutputID t i in
    let sfo := mkSFO (sfo_Value sfo) (sfo_UnlockHash sfo) (getSiafundPool st.1) in
    Ok (recordSiafundOutputDiff st (mkSFOD DiffApply sfoid sfo)))
    0 st (t_SiafundOutputs t).

Definition applyTransaction (st : State) (t : Transaction) : res State :=
  st ← applySiacoinInputs st t;
  st ← applySiacoinOutputs st t;
  st ← applyFileContracts st t;
  st ← applyFileContractRevisions st t;
  st ← applyStorageProofs st t;
  st ← applySiafundInputs st t;
  applySiafundOutputs st t.

(** ** [maintenance.go] *)

Definition applyMinerPayouts (st : State) : res State :=
  foldMi (λ i st payout,
    let mpid := Block_MinerPayoutID (pb_Block st.2) i in
    recordDelayedSiacoinOutputDiff st
      (mkDSCOD DiffApply mpid payout (u64 (pb_Height st.2 + MaturityDelay))))
    0 st (b_MinerPayouts (pb_Block st.2)).

Definition applyMaturedSiacoinOutputs (st : State) : res State :=
  let height := pb_Height st.2 in
  if height <? MaturityDelay then Ok st else
  match db_DSCO st.1 !! height with
  | None => Panic
  | Some bucket =>
      let items := bucket_items bucket in
      let scods := map (λ '(id, sco), mkSCOD DiffApply id sco) items in
      let dscods := map (λ '(id, sco), mkDSCOD DiffRevert id sco height) items in
      let st := foldl recordSiacoinOutputDiff st scods in
      st ← foldM recordDelayedSiacoinOutputDiff st dscods;
      Ok (deleteDSCOBucket st.1 height, st.2)
  end.

(** Only computes the diffs; the caller records them. *)
Definition applyMissedStorageProof (st : State) (fcid : FileContractID) :
    res (list DelayedSiacoinOutputDiff * FileContractDiff) :=
  fc ← or_zero zeroFileContract (getFileContract st.1 fcid);
  let dscods := imap (λ i mpo,
    mkDSCOD DiffApply (StorageProofOutputID fcid false (Z.of_nat i)) mpo
      (u64 (pb_Height st.2 + MaturityDelay))) (fc_MissedProofOutputs fc) in
  Ok (dscods, mkFCD DiffRevert fcid fc).

Definition applyFileContractMaintenance (st : State) : res State :=
  let height := pb_Height st.2 in
  match db_FCEX st.1 !! height with
  | None => Ok st
  | Some fceBucket =>
      diffs ← foldM (λ acc id,
                '(amspDSCODS, fcd) ← applyMissedStorageProof st id;
                Ok (acc.1 ++ amspDSCODS, acc.2 ++ [fcd]))
              ([], []) (bucket_keys fceBucket);
      let '(dscods, fcds) := diffs in
      st ← foldM recordDelayedSiacoinOutputDiff st dscods;
      st ← foldM recordFileContractDiff st fcds;
      Ok (set_db_FCEX (delete height (db_FCEX st.1)) st.1, st.2)
  end.

Definition applyMaintenance (st : State) : res State :=
  st ← applyMinerPayouts st;
  st ← applyMaturedSiacoinOutputs st;
  applyFileContractMaintenance st.
End apply.
