(* ===== verification/BlockDiffs.v ===== *)
(** * Generating and applying the diffs of a block

    Models [generateAndApplyDiff] of [modules/consensus/diffs.go] and
    [tryTransactionSet] of [modules/consensus/validtransaction.go].

    The theorems relate the three ways a block meets the database: generation
    (validate and apply, recording diffs), replay ([commitDiffSet] with
    [DiffApply]) and reversion.  The invariant behind them, [tracks], says that
    at any point during generation every part of the database is the result of
    running the diffs recorded so far for that part. *)

From S2P Require Import Prelude Encoding Currency Target Crypto Types Codec Block Signatures ValidTransaction ConsensusDB ConsensusValid MapDiffs Diffs ApplyTransaction.

Section generate.
Context `{N : Net} `{C : Crypto}.

(** [GenesisBlock] of [types/constants.go] *)
Definition GenesisBlock : Block :=
  mkBlock zeroHash (replicate 8 x00) GenesisTimestamp []
    [ mkTxn [] GenesisAirdropAllocation [] [] [] [] [] [] [] [];
      mkTxn [] [] [] [] [] [] GenesisSiafundAllocation [] [] [] ].

(** The allocation change at height 7200. *)
Definition fixSiafundAllocation (st : State) : res State :=
  gtxn ← go_index (b_Transactions GenesisBlock) 1;
  let st := snd (foldl (λ '(i, st) siafundOutput,
      let sfid := Transaction_SiafundOutputID gtxn i in
      let sfod := mkSFOD DiffRevert sfid
                    (mkSFO (NewCurrency64 0) (sfo_UnlockHash siafundOutput) 0) in
      (i + 1, recordSiafundOutputDiff st sfod)) (0, st) (t_SiafundOutputs gtxn)) in
  Ok (foldl (λ st siafundOutput,
      let sfid := sfo_UnlockHash siafundOutput in
      recordSiafundOutputDiff st (mkSFOD DiffApply sfid siafundOutput))
    st ForkedGenesisSiafundAllocation).

(** The validate-and-apply loop over the transactions. *)
Definition applyTransactions (st : State) (txns : list Transaction) : res State :=
  foldM (λ st txn, _ ← validTransaction st.1 txn; applyTransaction st txn) st txns.

Definition generateAndApplyDiff (tx : DB) (pb : processedBlock) : res State :=
  let tx := createDSCOBucket tx (u64 (pb_Height pb + MaturityDelay)) in
  st ← applyTransactions (tx, pb) (b_Transactions (pb_Block pb));
  st ← applyMaintenance st;
  '(tx, pb) ← (if pb_Height pb =? 7200 then fixSiafundAllocation st else Ok st);
  let pb := set_pb_DiffsGenerated true pb in
  let bid := Block_ID (pb_Block pb) in
  let tx := updateCurrentPath tx pb DiffApply in
  Ok (set_db_BlockMap (<[bid := pb]> (db_BlockMap tx)) tx, pb).

(** The database transaction is always rolled back; only the diffs survive. *)
Definition tryTransactionSet (db : DB) (txns : list Transaction) : res ConsensusChange :=
  let diffHolder := zeroProcessedBlock in
  let diffHolder := mkPB (pb_Block diffHolder) (blockHeight db) (pb_Depth diffHolder)
    (pb_ChildTarget diffHolder) false [] [] [] [] [] zeroHash in
  '(_, diffHolder) ← applyTransactions (db, diffHolder) txns;
  Ok (mkCC zeroHash [] [] (pb_SiacoinOutputDiffs diffHolder) (pb_FileContractDiffs diffHolder)
        (pb_SiafundOutputDiffs diffHolder) (pb_DelayedSiacoinOutputDiffs diffHolder)
        (pb_SiafundPoolDiffs diffHolder) zeroHash 0 false).
End generate.

(** ** Tracking the database through the recorded diffs *)

(** Two siafund outputs that differ at most in the unlock hash, which
    [getSiafundOutput] may replace. *)
Definition sfo_same (a b : SiafundOutput) : Prop :=
  sfo_Value a = sfo_Value b ∧ sfo_ClaimStart a = sfo_ClaimStart b.

(** The delayed buckets, without the one that maintenance has deleted. *)
Definition drop_bucket {A} (gone : option BlockHeight) (ds : gmap BlockHeight A) : gmap BlockHeight A :=
  match gone with None => ds | Some h => delete h ds end.

Abbreviation sco_fresh := (kv_fresh scod_Direction scod_ID scod_SiacoinOutput) (only parsing).
Abbreviation fc_fresh := (kv_fresh fcd_Direction fcd_ID fcd_FileContract) (only parsing).
Abbreviation sfo_fresh := (kv_fresh sfod_Direction sfod_ID sfod_SiafundOutput) (only parsing).
Abbreviation dsco_fresh :=
  (nest_fresh dscod_Direction dscod_MaturityHeight dscod_ID dscod_SiacoinOutput) (only parsing).
Abbreviation sco_present := (kv_present scod_Direction scod_ID scod_SiacoinOutput) (only parsing).
Abbreviation fc_present := (kv_present fcd_Direction fcd_ID fcd_FileContract) (only parsing).
Abbreviation sfo_present := (kv_present sfod_Direction sfod_ID sfod_SiafundOutput) (only parsing).
Abbreviation dsco_present :=
  (nest_present dscod_Direction dscod_MaturityHeight dscod_ID dscod_SiacoinOutput) (only parsing).

(** [st] was reached from [base] by recording exactly the diffs in [st.2]. *)
Record tracks (gone : option BlockHeight) (base : DB) (pb0 : processedBlock) (st : State) : Prop := {
  tr_block : pb_Height st.2 = pb_Height pb0 ∧ pb_Block st.2 = pb_Block pb0;
  tr_sco : db_SiacoinOutputs st.1 = sco_run true (db_SiacoinOutputs base) (pb_SiacoinOutputDiffs st.2);
  tr_sco_present : sco_present eq (db_SiacoinOutputs base) (pb_SiacoinOutputDiffs st.2);
  tr_fc : db_FileContracts st.1 = fc_run true (db_FileContracts base) (pb_FileContractDiffs st.2);
  tr_fc_present : fc_present eq (db_FileContracts base) (pb_FileContractDiffs st.2);
  tr_fcex : fc_fresh (db_FileContracts base) (pb_FileContractDiffs st.2) →
    fcex_ok (db_FileContracts st.1) (db_FCEX st.1);
  tr_sfo : db_SiafundOutputs st.1 = sfo_run true (db_SiafundOutputs base) (pb_SiafundOutputDiffs st.2);
  tr_sfo_present : sfo_present sfo_same (db_SiafundOutputs base) (pb_SiafundOutputDiffs st.2);
  tr_dsco : ∃ ds, dsco_run true (db_DSCO base) (pb_DelayedSiacoinOutputDiffs st.2) = Ok ds ∧
    db_DSCO st.1 = drop_bucket gone ds;
  tr_dsco_present : dsco_present eq (db_DSCO base) (pb_DelayedSiacoinOutputDiffs st.2);
  tr_pool : db_SiafundPool st.1 = pool_run true (db_SiafundPool base) (pb_SiafundPoolDiffs st.2);
  tr_pool_chain : pool_chain (db_SiafundPool base) (pb_SiafundPoolDiffs st.2);
  tr_rest : db_BlockHeight st.1 = db_BlockHeight base ∧ db_BlockMap st.1 = db_BlockMap base ∧
    db_BlockPath st.1 = db_BlockPath base ∧ db_Oak st.1 = db_Oak base;
}.

Definition no_diffs (pb : processedBlock) : Prop :=
  pb_SiacoinOutputDiffs pb = [] ∧ pb_FileContractDiffs pb = [] ∧ pb_SiafundOutputDiffs pb = [] ∧
  pb_DelayedSiacoinOutputDiffs pb = [] ∧ pb_SiafundPoolDiffs pb = [].

Lemma tracks_refl base pb :
  no_diffs pb → fcex_ok (db_FileContracts base) (db_FCEX base) → tracks None base pb (base, pb).
Proof.
  intros (E1 & E2 & E3 & E4 & E5) Hok. split; cbn; rewrite ?E1, ?E2, ?E3, ?E4, ?E5; try done.
  by eexists.
Qed.

Section record.
Context `{N : Net} `{C : Crypto}.

Lemma tracks_sco gone base pb0 st d :
  tracks gone base pb0 st → present scod_Direction scod_ID scod_SiacoinOutput eq (db_SiacoinOutputs st.1) d →
  tracks gone base pb0 (recordSiacoinOutputDiff st d).
Proof.
  destruct st as [tx pb]. cbn. intros Ht Hp.
  assert (commitSiacoinOutputDiff tx d DiffApply =
    set_db_SiacoinOutputs (sco_run true (db_SiacoinOutputs tx) [d]) tx) as ->
    by exact (commit_sco_run tx [d] true).
  destruct Ht. split; cbn in *; try assumption.
  - rewrite tr_sco0. symmetry. exact (kv_run_app _ _ _ true _ _ [d]).
  - apply kv_all_snoc. split; [done|]. by rewrite tr_sco0 in Hp.
Qed.

Lemma tracks_sfo gone base pb0 st d :
  tracks gone base pb0 st →
  present sfod_Direction sfod_ID sfod_SiafundOutput sfo_same (db_SiafundOutputs st.1) d →
  tracks gone base pb0 (recordSiafundOutputDiff st d).
Proof.
  destruct st as [tx pb]. cbn. intros Ht Hp.
  assert (commitSiafundOutputDiff tx d DiffApply =
    set_db_SiafundOutputs (sfo_run true (db_SiafundOutputs tx) [d]) tx) as ->
    by exact (commit_sfo_run tx [d] true).
  destruct Ht. split; cbn in *; try assumption.
  - rewrite tr_sfo0. symmetry. exact (kv_run_app _ _ _ true _ _ [d]).
  - apply kv_all_snoc. split; [done|]. by rewrite tr_sfo0 in Hp.
Qed.

Lemma tracks_pool gone base pb0 st d :
  tracks gone base pb0 st → sfpd_Previous d = db_SiafundPool st.1 →
  tracks gone base pb0 (recordSiafundPoolDiff st d).
Proof.
  destruct st as [tx pb]. cbn. intros Ht Hp. destruct Ht. split; cbn in *; try assumption.
  - symmetry. exact (pool_run_app true _ _ [d]).
  - apply pool_chain_app. split; [done|]. cbn. split; [congruence|done].
Qed.

Lemma tracks_dsco gone base pb0 st d st' :
  tracks gone base pb0 st → (∀ h, gone = Some h → dscod_MaturityHeight d ≠ h) →
  (∀ b, db_DSCO st.1 !! dscod_MaturityHeight d = Some b →
     present dscod_Direction dscod_ID dscod_SiacoinOutput eq b d) →
  recordDelayedSiacoinOutputDiff st d = Ok st' → tracks gone base pb0 st'.
Proof.
  destruct st as [tx pb]. cbn. intros Ht Hg Hp H.
  rewrite commit_dsco_step in H. unfold nest_step in H.
  destruct (db_DSCO tx !! dscod_MaturityHeight d) as [b|] eqn:Eb; cbn in H; [|done].
  injection H as <-. destruct Ht. cbn in *. destruct tr_dsco0 as (ds & Hds & Hdb).
  assert (ds !! dscod_MaturityHeight d = Some b) as Eds.
  { rewrite Hdb in Eb. unfold drop_bucket in Eb. destruct gone as [h|]; [|done].
    rewrite lookup_delete_ne in Eb; [done|]. intros E. by apply (Hg h). }
  split; cbn; try assumption.
  - eexists. split.
    + etransitivity; [exact (nest_run_app _ _ _ _ true _ _ [d])|].
      unfold dsco_run in Hds. rewrite Hds. cbn. unfold nest_step. rewrite Eds. reflexivity.
    + rewrite Hdb. destruct gone as [h|]; [|done]. cbn.
      rewrite delete_insert_ne; [done|]. intros E. by apply (Hg h).
  - eapply nest_all_snoc; [exact tr_dsco_present0|exact Hds|exact Eds|by apply Hp].
Qed.

Lemma tracks_fc gone base pb0 st d st' :
  tracks gone base pb0 st →
  present fcd_Direction fcd_ID fcd_FileContract eq (db_FileContracts st.1) d →
  recordFileContractDiff st d = Ok st' → tracks gone base pb0 st'.
Proof.
  destruct st as [tx pb]. cbn. intros Ht Hp H. apply bind_Ok in H as (tx' & H & [= <-]).
  destruct (commit_fc_inv _ _ _ _ H) as (ex & ->). destruct Ht. cbn in *.
  split; cbn; try assumption.
  - rewrite tr_fc0. symmetry. exact (kv_run_app _ _ _ true _ _ [d]).
  - apply kv_all_snoc. split; [done|]. by rewrite tr_fc0 in Hp.
  - intros Hf. apply kv_all_snoc in Hf as [Hfl Hf].
    destruct (commit_fc_step tx d DiffApply) as (ex' & E & Hok); [by apply tr_fcex0| |].
    + unfold fresh, present, DiffApply in *. rewrite tr_fc0 in Hp |- *.
      destruct (fcd_Direction d); cbn; [by apply Hf|].
      destruct (Hp eq_refl) as (v & Hv & _). by exists v.
    + rewrite E in H. injection H as H.
      assert (ex' = ex) as <-; [|done]. exact H.
Qed.
End record.

(** ** Tracking a transaction *)

Section track_transaction.
Context `{N : Net} `{C : Crypto}.
Context (base : DB) (pb0 : processedBlock).
Abbreviation tracked := (tracks None base pb0) (only parsing).

Lemma tracks_sco_foldl gone st l :
  tracks gone base pb0 st → Forall (λ d, scod_Direction d = true) l →
  tracks gone base pb0 (foldl recordSiacoinOutputDiff st l).
Proof.
  intros Ht Hl. revert st Ht. induction Hl as [|d l Hd _ IH]; intros st Ht; [done|].
  cbn. apply IH, tracks_sco; [done|]. intros E. congruence.
Qed.

Lemma applySiacoinInputs_tracks st t st' :
  tracked st → NoDup (map sci_ParentID (t_SiacoinInputs t)) →
  Forall (λ sci, is_Some (db_SiacoinOutputs st.1 !! sci_ParentID sci)) (t_SiacoinInputs t) →
  applySiacoinInputs st t = Ok st' → tracked st'.
Proof.
  unfold applySiacoinInputs. generalize (t_SiacoinInputs t). intros l.
  revert st. induction l as [|sci l IH]; intros st Ht Hnd Hall H; cbn in H; [by res_inv|].
  apply Forall_cons in Hall as [[sco Hsco] Hall]. apply NoDup_cons in Hnd as [Hnin Hnd].
  unfold getSiacoinOutput in H. rewrite Hsco in H. cbn in H.
  eapply IH; [|exact Hnd| |exact H].
  - apply tracks_sco; [done|]. intros _. by exists sco.
  - destruct st as [tx pb]. cbn in *. rewrite Forall_forall in Hall |- *. intros x Hx.
    rewrite lookup_delete_ne; [by apply Hall|]. intros E. apply Hnin. rewrite E.
    by apply list_elem_of_fmap_2.
Qed.

Lemma applySiacoinOutputs_tracks st t st' :
  tracked st → applySiacoinOutputs st t = Ok st' → tracked st'.
Proof.
  intros Ht. apply (foldMi_inv _ _ _ _ _ _); [|done]. clear st Ht.
  intros i st sco st1 _ Ht [= <-]. by apply tracks_sco.
Qed.

Lemma applyFileContracts_tracks st t st' :
  tracked st → applyFileContracts st t = Ok st' → tracked st'.
Proof.
  intros Ht. apply (foldMi_inv _ _ _ _ _ _); [|done]. clear st Ht.
  intros i st fc st1 _ Ht H. apply bind_Ok in H as (st2 & H2 & H). rewrite Tax_value in H.
  injection H as <-. apply tracks_pool; [|done]. eapply tracks_fc; [exact Ht| |exact H2]. done.
Qed.

(** A removal that did not panic found the contract. *)
Lemma recordFileContractDiff_present st id fc st' :
  or_zero zeroFileContract (getFileContract st.1 id) = Ok fc →
  recordFileContractDiff st (mkFCD DiffRevert id fc) = Ok st' →
  db_FileContracts st.1 !! id = Some fc.
Proof.
  destruct st as [tx pb]. unfold recordFileContractDiff, commitFileContractDiff, removeFileContract,
    getFileContract. cbn. destruct (db_FileContracts tx !! id); [by intros [= ->]|done].
Qed.

Lemma applyFileContractRevisions_tracks st t st' :
  tracked st → applyFileContractRevisions st t = Ok st' → tracked st'.
Proof.
  intros Ht. apply foldM_inv; [|done]. clear st Ht.
  intros st fcr st1 _ Ht H. apply bind_Ok in H as (fc & Hfc & H). apply bind_Ok in H as (st2 & H2 & H).
  pose proof (recordFileContractDiff_present _ _ _ _ Hfc H2) as Hp.
  eapply tracks_fc; [| |exact H]; [|done].
  eapply tracks_fc; [exact Ht| |exact H2]. intros _. by exists fc.
Qed.

(** Recording new delayed outputs. *)
Lemma tracks_dsco_add gone st id sco h st' :
  tracks gone base pb0 st → gone ≠ Some h →
  recordDelayedSiacoinOutputDiff st (mkDSCOD DiffApply id sco h) = Ok st' → tracks gone base pb0 st'.
Proof. intros Ht Hg. apply tracks_dsco; [done| |done]. cbn. congruence. Qed.

(** New delayed outputs leave the rest alone. *)
Lemma recordDSCO_frame st d st' :
  recordDelayedSiacoinOutputDiff st d = Ok st' →
  db_SiafundOutputs st'.1 = db_SiafundOutputs st.1 ∧ db_SiafundPool st'.1 = db_SiafundPool st.1 ∧
  db_FileContracts st'.1 = db_FileContracts st.1.
Proof.
  destruct st as [tx pb]. cbn. rewrite commit_dsco_step. intros E.
  apply bind_Ok in E as (tx' & E & [= <-]). by apply bind_Ok in E as (ds & _ & [= <-]).
Qed.

Lemma applyStorageProofs_tracks st t st' :
  tracked st → applyStorageProofs st t = Ok st' → tracked st'.
Proof.
  intros Ht. apply foldM_inv; [|done]. clear st Ht.
  intros st sp st1 _ Ht H. apply bind_Ok in H as (fc & Hfc & H). apply bind_Ok in H as (st2 & H2 & H).
  assert (tracked st2 ∧ db_FileContracts st2.1 = db_FileContracts st.1) as [Ht2 Hc].
  { eapply (foldMi_inv (λ s, tracked s ∧ db_FileContracts s.1 = db_FileContracts st.1));
      [|split; [exact Ht|done]|exact H2].
    intros i s vpo s' _ [Hs Hsc] Hr. split; [by eapply tracks_dsco_add|].
    apply recordDSCO_frame in Hr as (_ & _ & Hr). congruence. }
  eapply tracks_fc; [exact Ht2| |exact H]. intros _. exists fc. split; [|done]. cbn.
  eapply (recordFileContractDiff_present st2); [|exact H]. unfold getFileContract in *. by rewrite Hc.
Qed.

Lemma applySiafundInputs_tracks st t st' :
  tracked st → NoDup (map sfi_ParentID (t_SiafundInputs t)) →
  Forall (λ sfi, is_Some (db_SiafundOutputs st.1 !! sfi_ParentID sfi)) (t_SiafundInputs t) →
  applySiafundInputs st t = Ok st' → tracked st'.
Proof.
  unfold applySiafundInputs. generalize (t_SiafundInputs t). intros l.
  revert st. induction l as [|sfi l IH]; intros st Ht Hnd Hall H; cbn [foldM] in H; [by res_inv|].
  apply Forall_cons in Hall as [[raw Hraw] Hall]. apply NoDup_cons in Hnd as [Hnin Hnd].
  apply bind_Ok in H as (st1 & H & Hl). apply bind_Ok in H as (sfo & Hsfo & H).
  apply bind_Ok in H as (q & _ & H). apply bind_Ok in H as (st2 & H2 & [= <-]).
  pose proof (recordDSCO_frame _ _ _ H2) as (Hsf & _ & _).
  assert (getSiafundOutput st.1 (sfi_ParentID sfi) = Ok sfo) as Hget.
  { destruct (getSiafundOutput st.1 (sfi_ParentID sfi)) as [?|e|] eqn:E; cbn in Hsfo; [congruence| |done].
    apply getSiafundOutput_Err in E. congruence. }
  destruct (getSiafundOutput_Ok _ _ _ Hget) as (raw' & Hraw' & Hv & Hcs).
  eapply IH; [|exact Hnd| |exact Hl].
  - apply tracks_sfo; [by eapply tracks_dsco_add|]. intros _. cbn. rewrite Hsf. exists raw'. by split.
  - destruct st2 as [tx2 pb2]. cbn in Hsf |- *. rewrite Hsf. rewrite Forall_forall in Hall |- *.
    intros x Hx. rewrite lookup_delete_ne; [by apply Hall|]. intros E. apply Hnin. rewrite E.
    by apply list_elem_of_fmap_2.
Qed.

Lemma applySiafundOutputs_tracks st t st' :
  tracked st → applySiafundOutputs st t = Ok st' → tracked st'.
Proof.
  intros Ht. apply (foldMi_inv _ _ _ _ _ _); [|done]. clear st Ht.
  intros i st sfo st1 _ Ht [= <-]. by apply tracks_sfo.
Qed.

(** *** Frames *)

Lemma recordFC_frame st d st' :
  recordFileContractDiff st d = Ok st' →
  db_SiafundOutputs st'.1 = db_SiafundOutputs st.1 ∧ db_SiafundPool st'.1 = db_SiafundPool st.1.
Proof.
  destruct st as [tx pb]. cbn. intros H. apply bind_Ok in H as (tx' & H & [= <-]).
  by apply commit_fc_inv in H as (ex & ->).
Qed.

Lemma applySiacoinInputs_frame st t st' :
  applySiacoinInputs st t = Ok st' →
  db_FileContracts st'.1 = db_FileContracts st.1 ∧ db_SiafundOutputs st'.1 = db_SiafundOutputs st.1 ∧
  db_SiafundPool st'.1 = db_SiafundPool st.1.
Proof.
  apply (foldM_inv (λ s, _ s.1 = _ ∧ _ s.1 = _ ∧ _ s.1 = _)); [|done].
  intros [tx pb] sci s' _ H E. by apply bind_Ok in E as (sco & _ & [= <-]).
Qed.

Lemma applySiacoinOutputs_frame st t st' :
  applySiacoinOutputs st t = Ok st' →
  db_FileContracts st'.1 = db_FileContracts st.1 ∧ db_SiafundOutputs st'.1 = db_SiafundOutputs st.1 ∧
  db_SiafundPool st'.1 = db_SiafundPool st.1.
Proof.
  apply (foldMi_inv (λ s, _ s.1 = _ ∧ _ s.1 = _ ∧ _ s.1 = _)); [|done].
  by intros i [tx pb] sco s' _ H [= <-].
Qed.

Lemma applyFileContracts_frame st t st' :
  applyFileContracts st t = Ok st' → db_SiafundOutputs st'.1 = db_SiafundOutputs st.1.
Proof.
  apply (foldMi_inv (λ s, db_SiafundOutputs s.1 = db_SiafundOutputs st.1)); [|done].
  intros i s fc s' _ H E. apply bind_Ok in E as (s2 & E & E'). rewrite Tax_value in E'.
  injection E' as <-. apply recordFC_frame in E as [E _]. destruct s2 as [tx2 pb2]. cbn in *. congruence.
Qed.

Lemma applyFileContractRevisions_frame st t st' :
  applyFileContractRevisions st t = Ok st' →
  db_SiafundOutputs st'.1 = db_SiafundOutputs st.1 ∧ db_SiafundPool st'.1 = db_SiafundPool st.1.
Proof.
  apply (foldM_inv (λ s, _ s.1 = _ ∧ _ s.1 = _)); [|done]. intros s fcr s' _ [H1 H2] E.
  apply bind_Ok in E as (fc & _ & E). apply bind_Ok in E as (s2 & E & E').
  apply recordFC_frame in E as [? ?], E' as [? ?]. split; congruence.
Qed.

Lemma dsco_loop_frame {A} (f : Z → State → A → DelayedSiacoinOutputDiff) i st l st' :
  foldMi (λ i st x, recordDelayedSiacoinOutputDiff st (f i st x)) i st l = Ok st' →
  db_SiafundOutputs st'.1 = db_SiafundOutputs st.1 ∧ db_SiafundPool st'.1 = db_SiafundPool st.1 ∧
  db_FileContracts st'.1 = db_FileContracts st.1.
Proof.
  apply (foldMi_inv (λ s, _ s.1 = _ ∧ _ s.1 = _ ∧ _ s.1 = _)); [|done].
  intros j s x s' _ (? & ? & ?) E. apply recordDSCO_frame in E as (-> & -> & ->). done.
Qed.

Lemma applyStorageProofs_frame st t st' :
  applyStorageProofs st t = Ok st' →
  db_SiafundOutputs st'.1 = db_SiafundOutputs st.1 ∧ db_SiafundPool st'.1 = db_SiafundPool st.1.
Proof.
  apply (foldM_inv (λ s, _ s.1 = _ ∧ _ s.1 = _)); [|done]. intros s sp s' _ [H1 H2] E.
  apply bind_Ok in E as (fc & _ & E). apply bind_Ok in E as (s2 & E & E').
  apply dsco_loop_frame in E as (? & ? & _). apply recordFC_frame in E' as [? ?]. split; congruence.
Qed.

(** What [validTransaction] establishes for [applyTransaction]. *)
Lemma validTransaction_inputs tx t :
  validTransaction tx t = Ok () →
  no_repeats t ∧
  Forall (λ sci, is_Some (db_SiacoinOutputs tx !! sci_ParentID sci)) (t_SiacoinInputs t) ∧
  Forall (λ sfi, is_Some (db_SiafundOutputs tx !! sfi_ParentID sfi)) (t_SiafundInputs t).
Proof.
  unfold validTransaction, StandaloneValid. rewrite !bind_unit_Ok.
  intros ((_ & _ & Hnr & _) & Hsc & _ & _ & Hsf). split_and!.
  - destruct (noRepeats_spec t) as [[_ ?]|[E _]]; [done|congruence].
  - apply validSiacoins_Ok in Hsc as [Hsc _]. eapply Forall_impl; [exact Hsc|].
    intros sci (sco & E & _). by exists sco.
  - apply validSiafunds_Ok in Hsf as [Hsf _]. eapply Forall_impl; [exact Hsf|].
    intros sfi (sfo & E & _). apply getSiafundOutput_Ok in E as (raw & E & _). by exists raw.
Qed.

Lemma applyTransaction_tracks st t st' :
  tracked st → validTransaction st.1 t = Ok () → applyTransaction st t = Ok st' → tracked st'.
Proof.
  intros Ht Hv H. destruct (validTransaction_inputs _ _ Hv) as ((Hn1 & _ & Hn3) & Hsc & Hsf).
  unfold applyTransaction in H.
  apply bind_Ok in H as (s1 & E1 & H). apply bind_Ok in H as (s2 & E2 & H).
  apply bind_Ok in H as (s3 & E3 & H). apply bind_Ok in H as (s4 & E4 & H).
  apply bind_Ok in H as (s5 & E5 & H). apply bind_Ok in H as (s6 & E6 & E7).
  eapply applySiafundOutputs_tracks; [|exact E7].
  eapply applySiafundInputs_tracks; [|exact Hn3| |exact E6].
  - eapply applyStorageProofs_tracks; [|exact E5].
    eapply applyFileContractRevisions_tracks; [|exact E4].
    eapply applyFileContracts_tracks; [|exact E3].
    eapply applySiacoinOutputs_tracks; [|exact E2].
    by eapply applySiacoinInputs_tracks.
  - apply applyStorageProofs_frame in E5 as [-> _]. apply applyFileContractRevisions_frame in E4 as [-> _].
    apply applyFileContracts_frame in E3 as ->. apply applySiacoinOutputs_frame in E2 as (_ & -> & _).
    apply applySiacoinInputs_frame in E1 as (_ & -> & _). exact Hsf.
Qed.

Lemma applyTransactions_tracks st txns st' :
  tracked st → applyTransactions st txns = Ok st' → tracked st'.
Proof.
  intros Ht. apply foldM_inv; [|done]. intros s t s' _ Hs H.
  apply bind_unit_Ok in H as [Hv H]. by eapply applyTransaction_tracks.
Qed.
End track_transaction.

(** ** Tracking maintenance *)

Section track_maintenance.
Context `{N : Net} `{C : Crypto}.
Context (base : DB) (pb0 : processedBlock).

Lemma tracks_dsco_adds gone st l st' :
  tracks gone base pb0 st →
  Forall (λ d, dscod_Direction d = true ∧ gone ≠ Some (dscod_MaturityHeight d)) l →
  foldM recordDelayedSiacoinOutputDiff st l = Ok st' →
  tracks gone base pb0 st' ∧ db_FileContracts st'.1 = db_FileContracts st.1 ∧
  db_FCEX st'.1 = db_FCEX st.1 ∧ pb_FileContractDiffs st'.2 = pb_FileContractDiffs st.2.
Proof.
  intros Ht Hl. rewrite Forall_forall in Hl.
  apply (foldM_inv (λ s, tracks gone base pb0 s ∧ db_FileContracts s.1 = db_FileContracts st.1 ∧
    db_FCEX s.1 = db_FCEX st.1 ∧ pb_FileContractDiffs s.2 = pb_FileContractDiffs st.2)); [|done].
  intros s d s' Hin (Hs & Hc & Hx & Hd) H. destruct (Hl d Hin) as [Hdir Hg]. split.
  - eapply tracks_dsco; [exact Hs| | |exact H]; [congruence|]. intros b _ E. congruence.
  - destruct s as [tx pb]. cbn in H. rewrite commit_dsco_step in H.
    apply bind_Ok in H as (tx' & H & [= <-]). by apply bind_Ok in H as (ds & _ & [= <-]).
Qed.

Lemma applyMinerPayouts_tracks st st' :
  tracks None base pb0 st → applyMinerPayouts st = Ok st' → tracks None base pb0 st'.
Proof.
  intros Ht. unfold applyMinerPayouts. generalize (b_MinerPayouts (pb_Block st.2)). intros l.
  apply (foldMi_inv _ _ _ _ _ _); [|done]. intros i s p s' _ Hs H. by eapply tracks_dsco_add.
Qed.

(** Deleting every item of a bucket empties it. *)
Lemma matured_removals h st l b st' :
  tracks None base pb0 st → db_DSCO st.1 !! h = Some b → NoDup l.*1 → b = list_to_map l →
  foldM recordDelayedSiacoinOutputDiff st (map (λ '(id, sco), mkDSCOD DiffRevert id sco h) l) = Ok st' →
  tracks None base pb0 st' ∧ db_DSCO st'.1 !! h = Some ∅.
Proof.
  revert st b. induction l as [|[id sco] l IH]; intros st b Ht Hb Hnd -> H; cbn in H.
  { injection H as <-. by rewrite Hb. }
  apply bind_Ok in H as (s1 & H1 & H). apply NoDup_cons in Hnd as [Hnin Hnd].
  eapply (IH s1 (list_to_map l)); [|..|exact H].
  - eapply tracks_dsco; [exact Ht|done| |exact H1]. cbn. rewrite Hb. intros b [= <-] _.
    exists sco. cbn. by rewrite lookup_insert_eq.
  - destruct st as [tx pb]. unfold recordDelayedSiacoinOutputDiff in H1.
    rewrite commit_dsco_step in H1. unfold nest_step in H1. cbn in H1, Hb.
    rewrite Hb in H1. cbn in H1. injection H1 as <-. cbn. rewrite lookup_insert_eq. f_equal.
    unfold kv_step. cbn. apply delete_insert_id. by apply not_elem_of_list_to_map_1.
  - done.
  - done.
Qed.

Lemma bucket_items_NoDup {A} (b : gmap (list byte) A) : NoDup (bucket_items b).*1.
Proof. rewrite bucket_items_perm. apply NoDup_fst_map_to_list. Qed.

Lemma bucket_items_map {A} (b : gmap (list byte) A) : list_to_map (bucket_items b) = b.
Proof.
  rewrite <- (list_to_map_to_list b) at 2. apply list_to_map_proper; [apply bucket_items_NoDup|].
  apply bucket_items_perm.
Qed.

Definition matured_bucket : option BlockHeight :=
  if pb_Height pb0 <? MaturityDelay then None else Some (pb_Height pb0).

Lemma applyMatured_tracks st st' :
  tracks None base pb0 st → applyMaturedSiacoinOutputs st = Ok st' →
  tracks matured_bucket base pb0 st' ∧
  (MaturityDelay ≤ pb_Height pb0 → ∀ ds,
    dsco_run true (db_DSCO base) (pb_DelayedSiacoinOutputDiffs st'.2) = Ok ds →
    ds !! pb_Height pb0 = Some ∅).
Proof.
  intros Ht. unfold applyMaturedSiacoinOutputs, matured_bucket.
  destruct (tr_block _ _ _ _ Ht) as [Hh _]. rewrite Hh.
  destruct (Z.ltb_spec (pb_Height pb0) MaturityDelay) as [Hlt|Hge].
  { intros [= <-]. split; [done|lia]. }
  destruct (db_DSCO st.1 !! pb_Height pb0) as [b|] eqn:Eb; [|done]. intros H.
  apply bind_Ok in H as (s1 & H1 & [= <-]).
  destruct (matured_removals (pb_Height pb0)
    (foldl recordSiacoinOutputDiff st (map (λ '(id, sco), mkSCOD DiffApply id sco) (bucket_items b)))
    (bucket_items b) b s1) as [Ht1 Hb1]; [| | |by rewrite bucket_items_map|exact H1|].
  - apply tracks_sco_foldl; [done|]. apply Forall_map, Forall_true. by intros [].
  - rewrite <- Eb. generalize (bucket_items b). intros l. clear -l. revert st.
    induction l as [|[id sco] l IH]; intros [tx pb]; cbn; [done|]. by rewrite IH.
  - apply bucket_items_NoDup.
  - destruct Ht1 as [? ? ? ? ? ? ? ? (ds & Hds & Hdb) ? ? ? ?]. split.
    + split; cbn; try assumption. exists ds. split; [done|]. cbn in Hdb. by rewrite Hdb.
    + intros _ ds' Hds'. cbn in Hds'. rewrite Hds in Hds'. injection Hds' as <-. cbn in Hdb. by rewrite <- Hdb.
Qed.

(** *** Expiring contracts *)

Lemma recordDSCO_list st l st' :
  foldM recordDelayedSiacoinOutputDiff st l = Ok st' →
  pb_DelayedSiacoinOutputDiffs st'.2 = pb_DelayedSiacoinOutputDiffs st.2 ++ l.
Proof.
  revert st. induction l as [|d l IH]; intros [tx pb] H; cbn [foldM] in H.
  { injection H as <-. by rewrite app_nil_r. }
  apply bind_Ok in H as (s1 & H1 & H). rewrite (IH _ H).
  apply bind_Ok in H1 as (tx' & _ & [= <-]). cbn. by rewrite <- app_assoc.
Qed.

Lemma recordFC_list st l st' :
  foldM recordFileContractDiff st l = Ok st' →
  pb_FileContractDiffs st'.2 = pb_FileContractDiffs st.2 ++ l ∧
  pb_DelayedSiacoinOutputDiffs st'.2 = pb_DelayedSiacoinOutputDiffs st.2.
Proof.
  revert st. induction l as [|d l IH]; intros [tx pb] H; cbn [foldM] in H.
  { injection H as <-. by rewrite app_nil_r. }
  apply bind_Ok in H as (s1 & H1 & H). destruct (IH _ H) as [-> ->].
  apply bind_Ok in H1 as (tx' & _ & [= <-]). cbn. by rewrite <- app_assoc.
Qed.

Definition missed_fcd (st : State) (id : FileContractID) : FileContractDiff :=
  mkFCD DiffRevert id (default zeroFileContract (db_FileContracts st.1 !! id)).
Definition missed_dscods (st : State) (id : FileContractID) : list DelayedSiacoinOutputDiff :=
  imap (λ i mpo, mkDSCOD DiffApply (StorageProofOutputID id false (Z.of_nat i)) mpo
      (u64 (pb_Height st.2 + MaturityDelay)))
    (fc_MissedProofOutputs (default zeroFileContract (db_FileContracts st.1 !! id))).

Lemma applyMissedStorageProof_value st id :
  applyMissedStorageProof st id = Ok (missed_dscods st id, missed_fcd st id).
Proof.
  unfold applyMissedStorageProof, missed_dscods, missed_fcd, getFileContract.
  by destruct (db_FileContracts st.1 !! id).
Qed.

Lemma missed_diffs_value st l a :
  foldM (λ acc id,
    '(amspDSCODS, fcd) ← applyMissedStorageProof st id;
    Ok (acc.1 ++ amspDSCODS, acc.2 ++ [fcd])) a l =
  Ok (a.1 ++ concat (map (missed_dscods st) l), a.2 ++ map (missed_fcd st) l).
Proof.
  revert a. induction l as [|id l IH]; intros a; cbn [foldM map concat].
  { destruct a. by rewrite !app_nil_r. }
  rewrite applyMissedStorageProof_value. cbn [mbind res_bind]. rewrite IH. cbn.
  by rewrite <- !app_assoc.
Qed.

Lemma missed_dscods_new st l :
  Forall (λ d, dscod_Direction d = true ∧ dscod_MaturityHeight d = newBucket st.2)
    (concat (map (missed_dscods st) l)).
Proof.
  apply Forall_concat, Forall_map, Forall_true. intros id. apply Forall_forall. intros d Hd.
  apply elem_of_lookup_imap in Hd as (i & y & -> & _). done.
Qed.

Lemma missed_removals gone st s l s' :
  tracks gone base pb0 s → NoDup l →
  (∀ id, id ∈ l → db_FileContracts s.1 !! id = db_FileContracts st.1 !! id) →
  foldM recordFileContractDiff s (map (missed_fcd st) l) = Ok s' →
  tracks gone base pb0 s' ∧
  (∀ id, id ∈ l → db_FileContracts s'.1 !! id = None) ∧
  (∀ id fc, db_FileContracts s'.1 !! id = Some fc → db_FileContracts s.1 !! id = Some fc).
Proof.
  intros Ht Hnd. revert s Ht. induction Hnd as [|id l Hnin _ IH]; intros s Ht Hag H; cbn in H.
  { injection H as <-. split_and!; [done|set_solver|done]. }
  apply bind_Ok in H as (s1 & H1 & H).
  assert (db_FileContracts s1.1 = delete id (db_FileContracts s.1) ∧
          is_Some (db_FileContracts s.1 !! id)) as [Hs1 [fc Hfc]].
  { destruct s as [tx pb]. cbn in H1. unfold commitFileContractDiff, removeFileContract in H1. cbn in H1.
    cbn [fst] in *. destruct (db_FileContracts tx !! id) as [fc|]; cbn in H1; [|done].
    destruct (db_FCEX tx !! _); cbn in H1; [|done]. case_decide; cbn in H1; [|done].
    injection H1 as <-. cbn. eauto. }
  destruct (IH s1) as (Ht' & Hgone & Hsub); [|..|exact H|].
  - eapply tracks_fc; [exact Ht| |exact H1]. intros _. exists fc. split; [done|]. cbn.
    rewrite <- (Hag id), Hfc by set_solver. done.
  - intros id' Hin. rewrite Hs1, lookup_delete_ne; [apply Hag; set_solver|]. intros ->. done.
  - split_and!; [done| |].
    + intros id' [->|Hin]%elem_of_cons; [|by apply Hgone].
      destruct (db_FileContracts s'.1 !! id) as [fc'|] eqn:E; [|done].
      apply Hsub in E. by rewrite Hs1, lookup_delete_eq in E.
    + intros id' fc' E. apply Hsub in E. rewrite Hs1 in E. by apply lookup_delete_Some in E as [_ ?].
Qed.

Lemma fcex_ok_drop fcs ex h :
  fcex_ok fcs ex → (∀ id fc, fcs !! id = Some fc → fc_WindowEnd fc ≠ h) → fcex_ok fcs (delete h ex).
Proof.
  intros Hok Hno h' id. destruct (decide (h = h')) as [<-|Hne].
  - rewrite lookup_delete_eq. cbn. split; [set_solver|]. intros (fc & Hfc & Hw). by apply Hno in Hfc.
  - rewrite lookup_delete_ne by done. apply Hok.
Qed.

Lemma applyFileContractMaintenance_tracks gone st st' :
  tracks gone base pb0 st → gone ≠ Some (newBucket pb0) →
  applyFileContractMaintenance st = Ok st' →
  tracks gone base pb0 st' ∧
  ∃ l, Forall (λ d, dscod_MaturityHeight d = newBucket pb0) l ∧
    pb_DelayedSiacoinOutputDiffs st'.2 = pb_DelayedSiacoinOutputDiffs st.2 ++ l.
Proof.
  intros Ht Hg. unfold applyFileContractMaintenance.
  destruct (tr_block _ _ _ _ Ht) as [Hh _]. rewrite Hh.
  destruct (db_FCEX st.1 !! pb_Height pb0) as [bucket|] eqn:Eb.
  2: { intros [= <-]. split; [done|]. exists []. split; [done|]. by rewrite app_nil_r. }
  rewrite missed_diffs_value. cbn [mbind res_bind fst snd app].
  set (keys := bucket_keys bucket). set (dscods := concat _). intros H.
  apply bind_Ok in H as (s1 & H1 & H). apply bind_Ok in H as (s2 & H2 & [= <-]).
  assert (newBucket st.2 = newBucket pb0) as Hnb by (unfold newBucket; by rewrite Hh).
  pose proof (missed_dscods_new st keys) as Hnew. fold dscods in Hnew. rewrite Hnb in Hnew.
  destruct (tracks_dsco_adds gone st dscods s1 Ht) as (Ht1 & Hc1 & Hx1 & Hd1); [|exact H1|].
  { eapply Forall_impl; [exact Hnew|]. cbn. intros d [? ->]. done. }
  assert (NoDup keys) as Hnd.
  { unfold keys. rewrite bucket_keys_perm. apply NoDup_elements. }
  destruct (missed_removals gone st s1 keys s2 Ht1 Hnd) as (Ht2 & Hgone & Hsub); [by rewrite Hc1|exact H2|].
  destruct (recordFC_list _ _ _ H2) as [Hl2 Hl2']. split.
  - destruct Ht2. split; cbn; try assumption. intros Hf. apply fcex_ok_drop; [by apply tr_fcex0|].
    intros id fc Hfc Hw. assert (id ∈ keys) as Hin.
    { unfold keys. rewrite bucket_keys_perm. apply elem_of_elements.
      assert (fcex_ok (db_FileContracts st.1) (db_FCEX st.1)) as Hok.
      { apply (tr_fcex _ _ _ _ Ht). rewrite Hl2, Hd1 in Hf. by apply kv_all_app in Hf as [Hf _]. }
      specialize (Hok (pb_Height pb0) id). rewrite Eb in Hok. apply Hok. exists fc.
      split; [|done]. rewrite <- Hc1. by apply Hsub. }
    apply Hgone in Hin. congruence.
  - exists dscods. split; [by eapply Forall_impl; [exact Hnew|]; intros ? []|].
    cbn. rewrite Hl2'. by apply recordDSCO_list.
Qed.
End track_maintenance.

(** ** Generation, replay and reversion agree *)

Section generate_facts.
Context `{N : Net} `{C : Crypto} `{!NetOk N}.

(** The block [pb] is the next one for [tx], and nothing was recorded yet. *)
Record block_ready (tx : DB) (pb : processedBlock) : Prop := {
  br_diffs : no_diffs pb;
  br_height : pb_Height pb = u64 (db_BlockHeight tx + 1);
  br_current : is_u64 (db_BlockHeight tx);
  br_fcex : fcex_ok (db_FileContracts tx) (db_FCEX tx);
  br_new : db_DSCO tx !! newBucket pb = None;
  br_path : db_BlockPath tx !! u64 (db_BlockHeight tx + 1) = None;
}.

(** No identifier recorded in [pb] was already in use when it was inserted:
    the checks [panic("repeat siacoin output")] and so on of a debug build. *)
Record no_collisions (tx : DB) (pb : processedBlock) : Prop := {
  nc_sco : sco_fresh (db_SiacoinOutputs tx) (pb_SiacoinOutputDiffs pb);
  nc_fc : fc_fresh (db_FileContracts tx) (pb_FileContractDiffs pb);
  nc_sfo : sfo_fresh (db_SiafundOutputs tx) (pb_SiafundOutputDiffs pb);
  nc_dsco : dsco_fresh (<[newBucket pb := ∅]> (db_DSCO tx)) (pb_DelayedSiacoinOutputDiffs pb);
}.

(** The database in which the transactions of the block are applied. *)
Definition with_bucket (tx : DB) (pb : processedBlock) : DB :=
  set_db_DSCO (<[newBucket pb := ∅]> (db_DSCO tx)) tx.

Lemma block_ready_height tx pb : block_ready tx pb → is_u64 (pb_Height pb).
Proof. intros Hr. rewrite (br_height _ _ Hr). apply u64_range. Qed.

Lemma generate_tracks tx pb tx' pb' :
  block_ready tx pb → pb_Height pb ≠ 7200 → generateAndApplyDiff tx pb = Ok (tx', pb') →
  ∃ st, tracks (matured_bucket pb) (with_bucket tx pb) pb st ∧
    (MaturityDelay ≤ pb_Height pb → ∀ ds,
      dsco_run true (db_DSCO (with_bucket tx pb)) (pb_DelayedSiacoinOutputDiffs st.2) = Ok ds →
      ds !! pb_Height pb = Some ∅) ∧
    pb' = set_pb_DiffsGenerated true st.2 ∧
    tx' = set_db_BlockMap (<[Block_ID (pb_Block pb) := pb']> (db_BlockMap tx))
            (pushPath st.1 (Block_ID (pb_Block pb))).
Proof.
  intros Hr Hfork. unfold generateAndApplyDiff. fold (newBucket pb).
  rewrite createDSCOBucket_new by apply Hr. fold (with_bucket tx pb). intros H.
  apply bind_Ok in H as (s1 & H1 & H). apply bind_Ok in H as (s4 & H4 & H).
  rewrite (proj2 (Z.eqb_neq _ _) Hfork) in H. cbn [mbind res_bind] in H.
  apply bind_Ok in H4 as (s2 & H2 & H4). apply bind_Ok in H4 as (s3 & H3 & H4).
  pose proof (block_ready_height _ _ Hr) as Hh.
  apply (applyTransactions_tracks (with_bucket tx pb) pb) in H1; [|apply tracks_refl; apply Hr].
  apply (applyMinerPayouts_tracks (with_bucket tx pb) pb) in H2; [|done].
  apply (applyMatured_tracks (with_bucket tx pb) pb) in H3 as [H3 Hempty]; [|done].
  apply (applyFileContractMaintenance_tracks (with_bucket tx pb) pb (matured_bucket pb))
    in H4 as (H4 & l & Hl & Happ); [|done|].
  2: { unfold matured_bucket. intros E. case_match; [discriminate E|]. injection E as E.
       exact (newBucket_ne pb Hh (eq_sym E)). }
  exists s4. destruct (tr_block _ _ _ _ H4) as [_ Hb]. destruct (tr_rest _ _ _ _ H4) as (_ & Hm & _).
  destruct s4 as [tx4 pb4]. cbn in *. injection H as <- <-. split_and!; [done| |done|].
  - intros Hle ds Hds. rewrite Happ in Hds. unfold dsco_run in Hds. rewrite nest_run_app in Hds.
    apply bind_Ok in Hds as (ds1 & Hds1 & Hds). rewrite <- (Hempty Hle ds1 Hds1).
    eapply nest_run_other; [|exact Hds]. eapply Forall_impl; [exact Hl|]. cbn.
    intros d ->. by apply newBucket_ne.
  - cbn. by rewrite Hb, Hm.
Qed.

Lemma generate_exact tx pb tx' pb' :
  block_ready tx pb → pb_Height pb ≠ 7200 → generateAndApplyDiff tx pb = Ok (tx', pb') →
  no_collisions tx pb' → sfo_present eq (db_SiafundOutputs tx) (pb_SiafundOutputDiffs pb') →
  let txm := set_db_BlockMap (db_BlockMap tx') tx in
  diffs_exact txm pb' ∧ is_u64 (pb_Height pb') ∧
  fcex_ok (fc_run true (db_FileContracts tx) (pb_FileContractDiffs pb')) (db_FCEX tx') ∧
  ∃ ds, dsco_run true (<[newBucket pb' := ∅]> (db_DSCO tx)) (pb_DelayedSiacoinOutputDiffs pb') = Ok ds ∧
        applied txm pb' (db_FCEX tx') ds = tx'.
Proof.
  intros Hr Hfork Hgen Hnc Hsf. pose proof (block_ready_height _ _ Hr) as Hh.
  destruct (generate_tracks _ _ _ _ Hr Hfork Hgen) as ([tx4 pb4] & Ht & Hempty & -> & ->).
  destruct (tr_block _ _ _ _ Ht) as [Hpb Hblk]. cbn [fst snd] in *.
  assert (newBucket (set_pb_DiffsGenerated true pb4) = newBucket pb) as Hnb
    by (unfold newBucket; cbn; by rewrite Hpb).
  destruct Hnc as [F1 F2 F3 F4]. rewrite Hnb in F4.
  destruct Ht as [_ T1 T2 T3 T4 T5 T6 T7 (ds & T8 & T8') T9 T10 T11 (R1 & R2 & R3 & R4)].
  cbn in *. rewrite Hnb. split; [|split; [|split]].
  - split; cbn; rewrite ?Hnb, ?Hpb; try done; apply Hr.
  - by rewrite Hpb.
  - specialize (T5 F2). rewrite T3 in T5. exact T5.
  - exists ds. split; [done|]. unfold applied, node_run, pushPath, matured_bucket, deleteDSCOBucket in *. cbn.
    rewrite Hpb, Hblk. destruct tx4. cbn in *. subst. unfold set_fc, drop_bucket.
    destruct (Z.leb_spec MaturityDelay (pb_Height pb)), (Z.ltb_spec (pb_Height pb) MaturityDelay);
      try lia; cbn; done.
Qed.

(** The expiration bucket of the block's height is gone afterwards. *)
Lemma generate_expired tx pb tx' pb' :
  block_ready tx pb → pb_Height pb ≠ 7200 → generateAndApplyDiff tx pb = Ok (tx', pb') → db_FCEX tx' !! pb_Height pb = None.
Proof.
  intros Hr Hfork. unfold generateAndApplyDiff. fold (newBucket pb).
  rewrite createDSCOBucket_new by apply Hr. fold (with_bucket tx pb). intros H.
  apply bind_Ok in H as (s1 & H1 & H). apply bind_Ok in H as (s4 & H4 & H).
  rewrite (proj2 (Z.eqb_neq _ _) Hfork) in H. cbn [mbind res_bind] in H.
  apply bind_Ok in H4 as (s2 & H2 & H4). apply bind_Ok in H4 as (s3 & H3 & H4).
  apply (applyTransactions_tracks (with_bucket tx pb) pb) in H1; [|apply tracks_refl; apply Hr].
  apply (applyMinerPayouts_tracks (with_bucket tx pb) pb) in H2; [|done].
  apply (applyMatured_tracks (with_bucket tx pb) pb) in H3 as [H3 _]; [|done].
  destruct (tr_block _ _ _ _ H3) as [Eh _]. destruct s4 as [tx4 pb4]. injection H as <- <-.
  change (db_FCEX tx4 !! pb_Height pb = None). unfold applyFileContractMaintenance in H4. rewrite Eh in H4.
  destruct (db_FCEX s3.1 !! pb_Height pb) as [bucket|] eqn:Eb; [|by injection H4 as ->].
  apply bind_Ok in H4 as ([dscods fcds] & _ & H4). apply bind_Ok in H4 as (s5 & _ & H4). apply bind_Ok in H4 as (s6 & _ & [= <- _]).
  apply lookup_delete_eq.
Qed.

Lemma fcex_ok_equiv_db db1 db2 :
  db1 ≡ db2 → fcex_ok (db_FileContracts db2) (db_FCEX db2) → fcex_ok (db_FileContracts db1) (db_FCEX db1).
Proof.
  intros (_ & _ & _ & _ & E & _ & _ & _ & He & _)%db_equiv_elim Hok h id. rewrite E. specialize (He h). rewrite He. apply Hok.
Qed.
End generate_facts.

Lemma generated_revert_replay `{N : Net} `{C : Crypto} `{!NetOk N}
    (tx : DB) (pb : processedBlock) (tx' : DB) (pb' : processedBlock) :
  block_ready tx pb → pb_Height pb ≠ 7200 →
  generateAndApplyDiff tx pb = Ok (tx', pb') →
  no_collisions tx pb' → sfo_present eq (db_SiafundOutputs tx) (pb_SiafundOutputDiffs pb') →
  let restored := set_db_BlockMap (db_BlockMap tx') tx in
  (∃ txr, commitDiffSet tx' pb' DiffRevert = Ok txr ∧ txr ≡ restored) ∧
  (∃ txa, commitDiffSet restored pb' DiffApply = Ok txa ∧ txa ≡ tx').
Proof.
  intros Hr Hf Hg Hnc Hsf restored.
  destruct (generate_exact _ _ _ _ Hr Hf Hg Hnc Hsf) as (Hex & Hh & Hok & ds & Hds & Happ).
  fold restored in Hex, Happ. split.
  - pose proof (commitDiffSet_revert restored pb' (db_FCEX tx') ds Hex Hh Hok Hds) as Hrev.
    rewrite Happ in Hrev. exact Hrev.
  - destruct (commitDiffSet_apply restored pb' Hex) as (ex & ds' & Ha & Hok' & Hds').
    eexists. split; [exact Ha|]. transitivity (applied restored pb' (db_FCEX tx') ds); [|by rewrite Happ].
    change (db_DSCO restored) with (db_DSCO tx) in Hds'.
    rewrite Hds in Hds'. injection Hds' as <-.
    unfold applied, node_run, deleteDSCOBucket, pushPath, restored.
    case_match; (apply db_equiv_intro; try done; cbn; by eapply fcex_ok_equiv).
Qed.

(** ** Main properties *)

(** C13: Reverting a block undoes it, and re-applying its stored diffs redoes
    it.  After [generateAndApplyDiff] has validated and applied a block,
    [commitDiffSet] with [DiffRevert] succeeds and restores the database, and
    [commitDiffSet] with [DiffApply] on the restored database succeeds and
    reaches the generated state again, although it commits the diffs kind by
    kind and not in the order they were generated.  Equality is up to empty
    expiration buckets; the block map keeps the processed block.  Excepted are
    the fork height 7200, blocks whose ids collide with existing ones, and
    blocks that spend a siafund output whose unlock hash is replaced on
    reading. *)
Theorem revert_and_replay_generated_block `{N : Net} `{C : Crypto} `{!NetOk N}
    (tx : DB) (pb : processedBlock) (tx' : DB) (pb' : processedBlock) :
  block_ready tx pb → pb_Height pb ≠ 7200 →
  generateAndApplyDiff tx pb = Ok (tx', pb') →
  no_collisions tx pb' → sfo_present eq (db_SiafundOutputs tx) (pb_SiafundOutputDiffs pb') →
  let restored := set_db_BlockMap (db_BlockMap tx') tx in
  (∃ txr, commitDiffSet tx' pb' DiffRevert = Ok txr ∧ txr ≡ restored) ∧
  (∃ txa, commitDiffSet restored pb' DiffApply = Ok txa ∧ txa ≡ tx').
Proof. apply generated_revert_replay. Qed.

(** C30: The expiration index lists exactly the open contracts under their
    window ends, and keeps doing so when a block is applied, reverted and
    applied again from its diffs; and after a block no open contract has the
    block's height as its window end, so none is missed and none is left to be
    triggered again.  The same blocks are excepted as for reverting: the fork
    height 7200, blocks whose ids collide with existing ones, and blocks that
    spend a siafund output whose unlock hash is replaced on reading. *)
Theorem expiration_index_kept `{N : Net} `{C : Crypto} `{!NetOk N}
    (tx : DB) (pb : processedBlock) (tx' : DB) (pb' : processedBlock) :
  block_ready tx pb → pb_Height pb ≠ 7200 →
  generateAndApplyDiff tx pb = Ok (tx', pb') →
  no_collisions tx pb' → sfo_present eq (db_SiafundOutputs tx) (pb_SiafundOutputDiffs pb') →
  let restored := set_db_BlockMap (db_BlockMap tx') tx in
  let index_ok tx := fcex_ok (db_FileContracts tx) (db_FCEX tx) in
  let expired tx := map_Forall (λ _ fc, fc_WindowEnd fc ≠ pb_Height pb) (db_FileContracts tx) in
  (index_ok tx' ∧ expired tx') ∧
  (∃ txr, commitDiffSet tx' pb' DiffRevert = Ok txr ∧ txr ≡ restored ∧ index_ok txr) ∧
  (∃ txa, commitDiffSet restored pb' DiffApply = Ok txa ∧ index_ok txa ∧ expired txa).
Proof.
  intros Hr Hf Hg Hnc Hsf restored index_ok expired.
  destruct (generated_revert_replay _ _ _ _ Hr Hf Hg Hnc Hsf) as [(txr & E1 & H1) (txa & E2 & H2)].
  assert (index_ok tx') as Hok.
  { destruct (generate_tracks _ _ _ _ Hr Hf Hg) as (st & Ht & _ & -> & ->). apply (tr_fcex _ _ _ _ Ht), Hnc. }
  assert (expired tx') as Hexp.
  { intros id fc Hl E. pose proof (proj2 (Hok (pb_Height pb) id) (ex_intro _ fc (conj Hl E))) as Hin.
    rewrite (generate_expired _ _ _ _ Hr Hf Hg) in Hin. set_solver. }
  split_and!; [done|done| |].
  - exists txr. split_and!; [done|done|]. apply (fcex_ok_equiv_db _ _ H1). apply (br_fcex _ _ Hr).
  - exists txa. split_and!; [done|by apply (fcex_ok_equiv_db _ _ H2)|].
    destruct (db_equiv_elim _ _ H2) as (_ & _ & _ & _ & E & _). unfold expired. by rewrite E.
Qed.

(** ** A concrete block

    On a testing network, the block at height 21: a transaction spends a
    siacoin output and all siafunds, pays a fee and forms a contract, while
    another contract expires without proof and a delayed output matures.  One
    more output makes up the money supply of height 20. *)
Module example.

Definition key (b : byte) : Hash := replicate 32 b.
Definition net : Net :=
  testingNet 2000000000 (mkAlloc (key x0d) (key x0b) [] [mkSFO 10000 (key x0a) 0] []).
#[global] Existing Instance net.
#[global] Existing Instance toyCrypto.
Definition anyone : UnlockConditions := mkUC 0 [] 0.
Definition anyoneHash : UnlockHash := UnlockConditions_UnlockHash anyone.
Definition open_contract : FileContract :=
  mkFC 100 zeroHash 18 21 1000000 [mkSCO 970000 anyoneHash] [mkSCO 960000 anyoneHash; mkSCO 10000 anyoneHash] anyoneHash 0.
Definition new_contract : FileContract :=
  mkFC 100 zeroHash 30 40 1000000 [mkSCO 970000 anyoneHash] [mkSCO 970000 anyoneHash] anyoneHash 0.

Definition supply (r : res Currency) : Currency := match r with Ok c => c | _ => 0 end.

(** The block at the tip. *)
Definition parent : processedBlock :=
  mkPB (mkBlock zeroHash (replicate 8 x00) 1998000000 [] []) 20 (key x70) (key x20) true [] [] [] [] [] zeroHash.
Definition parentID : BlockID := Eval vm_compute in Block_ID (pb_Block parent).

Definition tip : DB :=
  mkDB 20 {[parentID := parent]} {[20 := parentID]}
    (<[key x06 := mkSCO (supply (CalculateNumSiacoins 20) - 3010700) anyoneHash]>
      {[key x01 := mkSCO 2000000 anyoneHash]})
    {[key x02 := open_contract]}
    {[key x03 := mkSFO 10000 anyoneHash 10000]} 50000
    (<[21 := {[key x04 := mkSCO 700 anyoneHash]}]> (<[22 := ∅]> {[23 := ∅]}))
    {[21 := {[key x02]}]} {[parentID := (12000, key x7f)]}.

Definition txn : Transaction :=
  mkTxn [mkSCI (key x01) anyone] [mkSCO 900000 anyoneHash] [new_contract] [] []
    [mkSFI (key x03) anyone anyoneHash] [mkSFO 6000 anyoneHash 0; mkSFO 4000 (key x05) 0] [100000] [] [].

Definition block : Block :=
  let dev := supply (CalculateDevSubsidy 21) in
  mkBlock parentID (x01 :: replicate 7 x00) 1999000001
    [mkSCO (CalculateCoinbase 21 + 100000 - dev) anyoneHash; mkSCO dev (key x0d)] [txn].

Definition pblock : processedBlock :=
  mkPB block 21 zeroHash zeroHash false [] [] [] [] [] zeroHash.

Definition result : State :=
  match generateAndApplyDiff tip pblock with Ok st => st | _ => (tip, pblock) end.

Lemma generated : generateAndApplyDiff tip pblock = Ok (result.1, result.2).
Proof. vm_compute. reflexivity. Qed.

Lemma ready : block_ready tip pblock.
Proof.
  split; [by repeat split|done|by vm_compute|..|done|done].
  apply (fcex_ok_singleton (key x02) open_contract).
Qed.

Lemma collision_free : no_collisions tip result.2.
Proof. split; vm_decide. Qed.
End example.

Lemma revert_and_replay_generated_block_witness :
  ∃ txr, commitDiffSet example.result.1 example.result.2 DiffRevert = Ok txr ∧
    txr ≡ set_db_BlockMap (db_BlockMap example.result.1) example.tip.
Proof.
  destruct (revert_and_replay_generated_block (N := example.net) (NetOk0 := testingNet_ok _ _)
    example.tip example.pblock example.result.1 example.result.2
    example.ready ltac:(discriminate) example.generated example.collision_free ltac:(vm_decide))
    as [Hrevert _].
  exact Hrevert.
Defined.

Lemma expiration_index_kept_witness :
  fcex_ok (db_FileContracts example.result.1) (db_FCEX example.result.1) ∧
  is_Some (db_FileContracts example.tip !! example.key x02) ∧ db_FileContracts example.result.1 !! example.key x02 = None ∧
  ∃ txr, commitDiffSet example.result.1 example.result.2 DiffRevert = Ok txr ∧ fcex_ok (db_FileContracts txr) (db_FCEX txr).
Proof.
  destruct (expiration_index_kept (N := example.net) (NetOk0 := testingNet_ok _ _)
    example.tip example.pblock example.result.1 example.result.2
    example.ready ltac:(discriminate) example.generated example.collision_free ltac:(vm_decide)) as ((H1 & _) & (txr & E & _ & H2) & _).
  split; [exact H1|]. split; [eexists; vm_compute; reflexivity|]. split; [vm_compute; reflexivity|]. exists txr. split; [exact E|exact H2].
Defined.
