(* ===== verification/Fork.v ===== *)
(** * Reorganising the chain

    Models [modules/consensus/fork.go].  The loops that walk along the chain get
    fuel: one step per block height, which is enough because heights fall by
    one from a block to its parent ([backtrack_branch], [revert_loop]); running
    out of it would be an endless loop and is [Panic].  The random consistency
    checks only read the database and print, and are left out.

    The invariant [chained] says that the database is what applying the blocks
    of the current path one after the other produces, each with exact diffs.
    It is kept by applying, reverting and re-applying blocks. *)

From S2P Require Import Prelude Encoding Currency Target Crypto Types Codec Block Signatures ValidTransaction ConsensusDB BlockValidation Difficulty ConsensusValid MapDiffs Diffs ApplyTransaction BlockDiffs.

Section fork.
Context `{N : Net} `{C : Crypto}.

(** ** Operations *)

(** The id returned next to an error is the zero id; a block that is not in the
    map is a nil pointer, dereferenced in the next round. *)
Fixpoint backtrackLoop (fuel : nat) (tx : DB) (pb : processedBlock) (path : list processedBlock) :
    res (list processedBlock) :=
  match fuel with
  | O => Panic
  | S fuel =>
      let currentPathID := match getPath tx (pb_Height pb) with Ok id => id | _ => zeroHash end in
      if bool_decide (currentPathID = Block_ID (pb_Block pb)) then Ok path
      else
        match getBlockMap tx (b_ParentID (pb_Block pb)) with
        | Ok parent => backtrackLoop fuel tx parent (parent :: path)
        | _ => Panic
        end
  end.

Definition backtrackToCurrentPath (tx : DB) (pb : processedBlock) : res (list processedBlock) :=
  backtrackLoop (S (Z.to_nat (pb_Height pb))) tx pb [pb].

(** The sanity check at the start only prints in a release build. *)
Fixpoint revertLoop (fuel : nat) (tx : DB) (pb : processedBlock) (revertedBlocks : list processedBlock) :
    res (DB * list processedBlock) :=
  match fuel with
  | O => Panic
  | S fuel =>
      if bool_decide (currentBlockID tx = Block_ID (pb_Block pb)) then Ok (tx, revertedBlocks)
      else
        block ← currentProcessedBlock tx;
        tx ← commitDiffSet tx block DiffRevert;
        revertLoop fuel tx pb (revertedBlocks ++ [block])
  end.

Definition revertToBlock (tx : DB) (pb : processedBlock) : res (DB * list processedBlock) :=
  revertLoop (S (Z.to_nat (blockHeight tx))) tx pb [].

(** The in-memory set of known bad blocks outlives a rolled-back database
    transaction, so it is returned next to the result. *)
Fixpoint applyBlocks (dosBlocks : gset BlockID) (tx : DB) (path appliedBlocks : list processedBlock) :
    gset BlockID * res (DB * list processedBlock) :=
  match path with
  | [] => (dosBlocks, Ok (tx, appliedBlocks))
  | block :: path =>
      if pb_DiffsGenerated block then
        match commitDiffSet tx block DiffApply with
        | Ok tx => applyBlocks dosBlocks tx path (appliedBlocks ++ [block])
        | Err e => (dosBlocks, Err e)
        | Panic => (dosBlocks, Panic)
        end
      else
        match generateAndApplyDiff tx block with
        | Ok (tx, block) => applyBlocks dosBlocks tx path (appliedBlocks ++ [block])
        | Err e => ({[Block_ID (pb_Block block)]} ∪ dosBlocks, Err e)
        | Panic => (dosBlocks, Panic)
        end
  end.

Definition applyUntilBlock (dosBlocks : gset BlockID) (tx : DB) (pb : processedBlock) :
    gset BlockID * res (DB * list processedBlock) :=
  match backtrackToCurrentPath tx pb with
  | Ok newPath => applyBlocks dosBlocks tx (drop 1 newPath) []
  | Err e => (dosBlocks, Err e)
  | Panic => (dosBlocks, Panic)
  end.

Definition forkBlockchain (dosBlocks : gset BlockID) (tx : DB) (newBlock : processedBlock) :
    gset BlockID * res (DB * list processedBlock * list processedBlock) :=
  match (path ← backtrackToCurrentPath tx newBlock;
         commonParent ← go_index path 0;
         revertToBlock tx commonParent) with
  | Ok (tx, revertedBlocks) =>
      let '(dosBlocks, r) := applyUntilBlock dosBlocks tx newBlock in
      (dosBlocks, '(tx, appliedBlocks) ← r; Ok (tx, revertedBlocks, appliedBlocks))
  | Err e => (dosBlocks, Err e)
  | Panic => (dosBlocks, Panic)
  end.
End fork.

(** ** The chain the database holds *)

Definition with_tree (bm : gmap BlockID processedBlock) (oak : gmap BlockID (Z * Target)) (tx : DB) : DB :=
  set_db_BlockMap bm (set_db_Oak oak tx).

Section chain.
Context `{N : Net} `{C : Crypto}.

Abbreviation pid pb := (Block_ID (pb_Block pb)) (only parsing).

(** [pb] is a child of the tip [parent] of [tx] whose stored diffs are exact. *)
Record link (tx : DB) (parent pb : processedBlock) : Prop := {
  lk_exact : diffs_exact tx pb;
  lk_max : db_BlockHeight tx + 1 < 2 ^ 64;
  lk_height : pb_Height pb = db_BlockHeight tx + 1;
  lk_parent : b_ParentID (pb_Block pb) = pid parent;
  lk_generated : pb_DiffsGenerated pb = true;
  lk_id : pid pb ≠ zeroHash;
}.

(** The blocks of the current path, the tip first. *)
Inductive chained : list processedBlock → DB → Prop :=
  | chained_root pb tx :
      is_u64 (pb_Height pb) → db_BlockHeight tx = pb_Height pb →
      db_BlockPath tx !! pb_Height pb = Some (pid pb) →
      (∀ h, pb_Height pb < h → db_BlockPath tx !! h = None) →
      fcex_ok (db_FileContracts tx) (db_FCEX tx) → chained [pb] tx
  | chained_next pb parent rest tx ex ds :
      chained (parent :: rest) tx → link tx parent pb →
      fcex_ok (fc_run true (db_FileContracts tx) (pb_FileContractDiffs pb)) ex →
      dsco_run true (<[newBucket pb := ∅]> (db_DSCO tx)) (pb_DelayedSiacoinOutputDiffs pb) = Ok ds →
      chained (pb :: parent :: rest) (applied tx pb ex ds).

Lemma applied_fields tx pb ex ds :
  db_BlockHeight (applied tx pb ex ds) = u64 (db_BlockHeight tx + 1) ∧
  db_BlockPath (applied tx pb ex ds) = <[u64 (db_BlockHeight tx + 1) := pid pb]> (db_BlockPath tx) ∧
  db_BlockMap (applied tx pb ex ds) = db_BlockMap tx ∧ db_Oak (applied tx pb ex ds) = db_Oak tx ∧
  db_FCEX (applied tx pb ex ds) = ex ∧
  db_FileContracts (applied tx pb ex ds) = fc_run true (db_FileContracts tx) (pb_FileContractDiffs pb).
Proof. unfold applied. by case_match. Qed.

Lemma applied_tree bm oak tx pb ex ds :
  with_tree bm oak (applied tx pb ex ds) = applied (with_tree bm oak tx) pb ex ds.
Proof. unfold applied. by case_match. Qed.

Lemma diffs_exact_tree bm oak tx pb : diffs_exact tx pb → diffs_exact (with_tree bm oak tx) pb.
Proof. intros []. by split. Qed.

Lemma link_tree bm oak tx parent pb : link tx parent pb → link (with_tree bm oak tx) parent pb.
Proof. intros []. split; try done. by apply diffs_exact_tree. Qed.

(** The stored blocks and totals are not part of the chain's state. *)
Lemma chained_tree bm oak path tx : chained path tx → chained path (with_tree bm oak tx).
Proof.
  induction 1 as [|pb parent rest tx ex ds _ IH Hl Hex Hds]; [by constructor|].
  rewrite applied_tree. constructor; [done|by apply link_tree|done|done].
Qed.

Lemma fcex_ok_proper fcs ex ex' : fcex_ok fcs ex → fcex_equiv ex ex' → fcex_ok fcs ex'.
Proof. intros Hok He h id. rewrite <- (He h). apply Hok. Qed.

(** Nor is it observable which empty expiration buckets exist. *)
Lemma diffs_exact_equiv tx tx' pb : tx ≡ tx' → diffs_exact tx pb → diffs_exact tx' pb.
Proof.
  intros (E1 & E2 & E3 & E4 & E5 & E6 & E7 & E8 & E9 & E10)%db_equiv_elim [].
  split; rewrite <- ?E1, <- ?E3, <- ?E4, <- ?E5, <- ?E6, <- ?E7, <- ?E8; try done.
  by eapply fcex_ok_proper.
Qed.

Lemma applied_equiv tx tx' pb ex ds :
  applied tx pb ex ds ≡ tx' → tx' = applied tx pb (db_FCEX tx') ds ∧ fcex_equiv ex (db_FCEX tx').
Proof.
  intros (E1 & E2 & E3 & E4 & E5 & E6 & E7 & E8 & E9 & E10)%db_equiv_elim. split.
  - rewrite (db_eta tx'), (db_eta (applied tx pb (db_FCEX tx') ds)).
    unfold applied in *. case_match; cbn in *; congruence.
  - destruct (applied_fields tx pb ex ds) as (_ & _ & _ & _ & <- & _). done.
Qed.

Lemma chained_equiv path tx tx' : tx ≡ tx' → chained path tx → chained path tx'.
Proof.
  intros He Hc. destruct Hc as [pb tx H1 H2 H3 H4 H5|pb parent rest tx ex ds Hc Hl Hex Hds].
  - apply db_equiv_elim in He as (E1 & _ & E3 & _ & E5 & _ & _ & _ & E9 & _).
    constructor; [done|congruence|congruence|by rewrite <- E3|]. rewrite <- E5. by eapply fcex_ok_proper.
  - destruct (applied_equiv _ _ _ _ _ He) as [E Hx]. rewrite E. constructor; [done|done| |done].
    eapply fcex_ok_proper; [exact Hex|]. exact Hx.
Qed.

(** *** What a chain implies *)

Lemma chained_tip pb rest tx :
  chained (pb :: rest) tx →
  db_BlockHeight tx = pb_Height pb ∧ is_u64 (pb_Height pb) ∧
  db_BlockPath tx !! pb_Height pb = Some (pid pb) ∧
  (∀ h, pb_Height pb < h → db_BlockPath tx !! h = None).
Proof.
  intros Hc. remember (pb :: rest) as path eqn:E. revert pb rest E.
  induction Hc as [pb tx H1 H2 H3 H4 H5|pb parent rest tx ex ds Hc IH Hl Hex Hds]; intros pb' rest' [= <- <-].
  { by split_and!. }
  destruct (IH _ _ eq_refl) as (I1 & I2 & I3 & I4). destruct (applied_fields tx pb ex ds) as (-> & -> & _).
  pose proof (lk_max _ _ _ Hl). rewrite (lk_height _ _ _ Hl), u64_id by ulia.
  split; [done|]. split; [ulia|]. split; [apply lookup_insert_eq|].
  intros h Hh. rewrite lookup_insert_ne by lia. apply I4. lia.
Qed.

Lemma chained_current pb rest tx : chained (pb :: rest) tx → currentBlockID tx = pid pb.
Proof.
  intros Hc. destruct (chained_tip _ _ _ Hc) as (H1 & _ & H2 & _).
  unfold currentBlockID, getPath, blockHeight. by rewrite H1, H2.
Qed.

(** The path bucket lists the chain; heights are consecutive. *)
Lemma chained_path path tx i pb :
  chained path tx → path !! i = Some pb →
  db_BlockPath tx !! pb_Height pb = Some (pid pb) ∧ pb_Height pb = db_BlockHeight tx - Z.of_nat i ∧ 0 ≤ pb_Height pb.
Proof.
  intros Hc. revert i pb. induction Hc as [pb tx H1 H2 H3 H4 H5|pb parent rest tx ex ds Hc IH Hl Hex Hds]; intros [|i] pb' Hi.
  - injection Hi as <-. split_and!; [done|lia|ulia].
  - done.
  - injection Hi as <-. destruct (chained_tip _ _ _ (chained_next _ _ _ _ _ _ Hc Hl Hex Hds)) as (E1 & E2 & E3 & _).
    split_and!; [done|lia|ulia].
  - destruct (IH i pb' Hi) as (I1 & I2 & I3). destruct (applied_fields tx pb ex ds) as (-> & -> & _).
    pose proof (lk_max _ _ _ Hl). rewrite u64_id by ulia. split_and!; [|lia|done].
    rewrite lookup_insert_ne by lia. done.
Qed.

(** Every block of the list is in the block map under its id. *)
Definition stored (tx : DB) (path : list processedBlock) : Prop :=
  Forall (λ pb, db_BlockMap tx !! pid pb = Some pb) path.

Lemma chained_inv pb parent rest tx :
  chained (pb :: parent :: rest) tx →
  ∃ tx0 ex ds, chained (parent :: rest) tx0 ∧ link tx0 parent pb ∧
    fcex_ok (fc_run true (db_FileContracts tx0) (pb_FileContractDiffs pb)) ex ∧
    dsco_run true (<[newBucket pb := ∅]> (db_DSCO tx0)) (pb_DelayedSiacoinOutputDiffs pb) = Ok ds ∧
    tx = applied tx0 pb ex ds.
Proof. intros Hc. inversion Hc; subst. by exists tx0, ex, ds. Qed.

(** Two blocks of a stored chain with one id are one block. *)
Lemma stored_distinct path tx i j a b :
  chained path tx → stored tx path → path !! i = Some a → path !! j = Some b → pid a = pid b → i = j.
Proof.
  intros Hc Hs Hi Hj E. unfold stored in Hs. rewrite Forall_lookup in Hs. pose proof (Hs _ _ Hi) as Sa. pose proof (Hs _ _ Hj) as Sb.
  cbn in Sa, Sb. rewrite E, Sb in Sa. injection Sa as <-.
  destruct (chained_path _ _ _ _ Hc Hi) as (_ & ? & _), (chained_path _ _ _ _ Hc Hj) as (_ & ? & _). lia.
Qed.
End chain.

(** ** Reverting and re-applying blocks *)

Section replay.
Context `{N : Net} `{C : Crypto} `{!NetOk N}.
Abbreviation pid pb := (Block_ID (pb_Block pb)) (only parsing).

(** Applying the stored diffs of a child extends the chain. *)
Lemma apply_one parent rest tx pb :
  chained (parent :: rest) tx → link tx parent pb →
  ∃ tx', commitDiffSet tx pb DiffApply = Ok tx' ∧ chained (pb :: parent :: rest) tx' ∧
    db_BlockMap tx' = db_BlockMap tx ∧ db_Oak tx' = db_Oak tx.
Proof.
  intros Hc Hl. destruct (commitDiffSet_apply tx pb (lk_exact _ _ _ Hl)) as (ex & ds & E & Hex & Hds).
  exists (applied tx pb ex ds). destruct (applied_fields tx pb ex ds) as (_ & _ & ? & ? & _).
  split_and!; [done|by constructor|done|done].
Qed.

(** It does not matter which empty expiration buckets there are. *)
Lemma apply_equiv parent tx1 tx2 pb :
  tx1 ≡ tx2 → link tx1 parent pb →
  ∃ a1 a2, commitDiffSet tx1 pb DiffApply = Ok a1 ∧ commitDiffSet tx2 pb DiffApply = Ok a2 ∧ a1 ≡ a2.
Proof.
  intros He Hl. pose proof (lk_exact _ _ _ Hl) as H1. pose proof (diffs_exact_equiv _ _ _ He H1) as H2.
  destruct (commitDiffSet_apply tx1 pb H1) as (ex1 & ds1 & E1 & Hex1 & Hds1).
  destruct (commitDiffSet_apply tx2 pb H2) as (ex2 & ds2 & E2 & Hex2 & Hds2).
  exists (applied tx1 pb ex1 ds1), (applied tx2 pb ex2 ds2). split_and!; [done|done|].
  apply db_equiv_elim in He as (F1 & F2 & F3 & F4 & F5 & F6 & F7 & F8 & F9 & F10).
  rewrite <- F8, Hds1 in Hds2. injection Hds2 as <-. rewrite <- F5 in Hex2.
  pose proof (fcex_ok_equiv _ _ _ Hex1 Hex2) as Hx.
  unfold applied. case_match; apply db_equiv_intro; cbn; rewrite ?F1, ?F2, ?F3, ?F4, ?F5, ?F6, ?F7, ?F10; done.
Qed.

(** Reverting the tip leads to a chain without it, from which it can be applied
    again. *)
Lemma revert_one pb parent rest tx :
  chained (pb :: parent :: rest) tx →
  ∃ tx' tx'', commitDiffSet tx pb DiffRevert = Ok tx' ∧ chained (parent :: rest) tx' ∧ link tx' parent pb ∧
    db_BlockMap tx' = db_BlockMap tx ∧ db_Oak tx' = db_Oak tx ∧
    commitDiffSet tx' pb DiffApply = Ok tx'' ∧ tx'' ≡ tx.
Proof.
  intros Hc. destruct (chained_inv _ _ _ _ Hc) as (tx0 & ex & ds & Hc0 & Hl & Hex & Hds & ->).
  destruct (chained_tip _ _ _ Hc) as (_ & Hu & _).
  destruct (commitDiffSet_revert tx0 pb ex ds (lk_exact _ _ _ Hl) Hu Hex Hds) as (tx' & E & He).
  destruct (apply_equiv parent tx0 tx' pb ltac:(by symmetry) Hl) as (a1 & a2 & E1 & E2 & He').
  exists tx', a2. destruct (applied_fields tx0 pb ex ds) as (_ & _ & -> & -> & _).
  destruct (db_equiv_elim _ _ He) as (F1 & F2 & _ & _ & _ & _ & _ & _ & _ & F10).
  split_and!; [done|by eapply chained_equiv; [symmetry|]| |done|done|done|].
  - destruct Hl. split; try done; [by eapply diffs_exact_equiv; [symmetry|]|congruence..].
  - destruct (commitDiffSet_apply tx0 pb (lk_exact _ _ _ Hl)) as (ex1 & ds1 & E3 & Hex1 & Hds1).
    rewrite E1 in E3. injection E3 as ->. rewrite <- He'. rewrite Hds in Hds1. injection Hds1 as <-.
    pose proof (fcex_ok_equiv _ _ _ Hex1 Hex) as Hx. unfold applied. case_match; apply db_equiv_intro; done.
Qed.

Lemma applyBlocks_app dos tx l k acc :
  applyBlocks dos tx (l ++ k) acc =
  match applyBlocks dos tx l acc with
  | (dos', Ok (tx', acc')) => applyBlocks dos' tx' k acc'
  | (dos', Err e) => (dos', Err e)
  | (dos', Panic) => (dos', Panic)
  end.
Proof.
  revert dos tx acc. induction l as [|b l IH]; intros dos tx acc; cbn [applyBlocks app]; [done|].
  destruct (pb_DiffsGenerated b); [destruct (commitDiffSet tx b DiffApply)|destruct (generateAndApplyDiff tx b) as [[]| |]];
    done || apply IH.
Qed.

Lemma revert_loop dos news common rest tx fuel acc :
  chained (news ++ common :: rest) tx → stored tx (news ++ common :: rest) → (length news < fuel)%nat →
  ∃ tx' tx'', revertLoop fuel tx common acc = Ok (tx', acc ++ news) ∧ chained (common :: rest) tx' ∧
    db_BlockMap tx' = db_BlockMap tx ∧ db_Oak tx' = db_Oak tx ∧
    applyBlocks dos tx' (rev news) [] = (dos, Ok (tx'', rev news)) ∧ tx'' ≡ tx.
Proof.
  revert tx fuel acc. induction news as [|pb news IH]; intros tx [|fuel] acc Hc Hs Hf; cbn in Hf; [lia| |lia|].
  { exists tx, tx. cbn [revertLoop rev applyBlocks]. rewrite (chained_current _ _ _ Hc), bool_decide_true, app_nil_r by done. by split_and!. }
  assert (∃ parent rest', news ++ common :: rest = parent :: rest') as (parent & rest' & Er).
  { destruct news; cbn; eauto. }
  cbn [app] in Hc, Hs. assert (pid pb ≠ pid common) as Hne.
  { intros E. pose proof (stored_distinct _ _ 0 (S (length news)) pb common Hc Hs eq_refl
      ltac:(cbn; by apply list_lookup_middle) E). lia. }
  rewrite Er in Hc. destruct (revert_one _ _ _ _ Hc) as (tx1 & txr & E1 & Hc1 & Hl & Hbm & Hoak & E2 & He).
  apply Forall_cons in Hs as [Hpb Hs]. rewrite <- Er in Hc1.
  destruct (IH tx1 fuel (acc ++ [pb]) Hc1) as (tx' & tx2 & F1 & F2 & F3 & F4 & F5 & F6);
    [unfold stored; by rewrite Hbm|lia|].
  destruct (apply_equiv parent tx1 tx2 pb ltac:(by symmetry) Hl) as (a1 & a2 & G1 & G2 & G3).
  exists tx', a2. cbn [revertLoop]. rewrite (chained_current _ _ _ Hc), bool_decide_false by done.
  unfold currentProcessedBlock, getBlockMap. rewrite (chained_current _ _ _ Hc), Hpb. cbn [mbind res_bind].
  rewrite E1. cbn [mbind res_bind]. rewrite F1, <- app_assoc.
  split_and!; [done|done|congruence|congruence| |].
  - cbn [rev]. rewrite applyBlocks_app, F5. cbn [applyBlocks]. by rewrite (lk_generated _ _ _ Hl), G2.
  - rewrite <- G3. rewrite E2 in G1. by injection G1 as <-.
Qed.

(** *** Walking back to the current path *)

(** A branch: every block is the stored parent of the one before it. *)
Inductive branch (bm : gmap BlockID processedBlock) : list processedBlock → Prop :=
  | branch_one pb : branch bm [pb]
  | branch_cons pb parent l :
      b_ParentID (pb_Block pb) = pid parent → bm !! pid parent = Some parent →
      branch bm (parent :: l) → branch bm (pb :: parent :: l).

(** The path bucket holds another block at the height of [pb], or none. *)
Definition off_path (tx : DB) (pb : processedBlock) : Prop :=
  pid pb ≠ zeroHash ∧ db_BlockPath tx !! pb_Height pb ≠ Some (pid pb).

Lemma backtrack_branch tx pb l common fuel acc :
  branch (db_BlockMap tx) (pb :: l) → last (pb :: l) = Some common →
  db_BlockPath tx !! pb_Height common = Some (pid common) →
  (∀ i x, (i < length l)%nat → (pb :: l) !! i = Some x → off_path tx x) →
  (length l < fuel)%nat → backtrackLoop fuel tx pb acc = Ok (rev l ++ acc).
Proof.
  intros Hb Hlast Hcommon Hoff. revert pb fuel acc Hb Hlast Hoff.
  induction l as [|parent l IH]; intros pb [|fuel] acc Hb Hlast Hoff Hf; cbn in Hf; [lia| |lia|].
  { injection Hlast as ->. cbn. unfold getPath. by rewrite Hcommon, bool_decide_true. }
  inversion Hb as [|? ? ? Hp Hst Hb']; subst. cbn [backtrackLoop].
  destruct (Hoff 0%nat pb ltac:(cbn; lia) eq_refl) as [Hz Hne].
  rewrite bool_decide_false; [|unfold getPath; destruct (db_BlockPath tx !! pb_Height pb); congruence].
  unfold getBlockMap. rewrite Hp, Hst. rewrite (IH parent); [|done|done| |lia].
  - cbn [rev]. by rewrite <- app_assoc.
  - intros i x Hi Hx. apply (Hoff (S i) x); [cbn; lia|done].
Qed.

(** The blocks of a chain form a branch. *)
Lemma chained_branch path tx bm :
  chained path tx → Forall (λ pb, bm !! pid pb = Some pb) path → branch bm path.
Proof.
  induction 1 as [|pb parent rest tx ex ds Hc IH Hl Hex Hds]; intros Hs; [constructor|].
  apply Forall_cons in Hs as [_ Hs]. pose proof Hs as [Hp _]%Forall_cons.
  constructor; [apply Hl|done|by apply IH].
Qed.

Lemma branch_prefix bm l k : branch bm (l ++ k) → l ≠ [] → branch bm l.
Proof.
  induction l as [|a l IH]; [done|]. intros H _. destruct l as [|b l]; [constructor|].
  inversion H; subst. constructor; [done|done|]. by apply IH.
Qed.

Lemma backtrack_on_path tx pb :
  db_BlockPath tx !! pb_Height pb = Some (pid pb) → backtrackToCurrentPath tx pb = Ok [pb].
Proof. intros E. unfold backtrackToCurrentPath. cbn. unfold getPath. by rewrite E, bool_decide_true. Qed.

Lemma chained_ids path tx i pb :
  chained path tx → path !! i = Some pb → (S i < length path)%nat → pid pb ≠ zeroHash.
Proof.
  intros Hc. revert i. induction Hc as [|pb' parent rest tx ex ds Hc IH Hl Hex Hds]; intros i Hi Hlt; cbn in Hlt; [lia|].
  destruct i as [|i]; [injection Hi as <-; apply Hl|]. apply (IH i Hi). cbn. lia.
Qed.

(** From the common ancestor, the branch that was reverted is found again. *)
Lemma backtrack_reverted news top common rest tx tx' :
  chained (top :: news ++ common :: rest) tx → stored tx (top :: news ++ common :: rest) →
  chained (common :: rest) tx' → db_BlockMap tx' = db_BlockMap tx →
  backtrackToCurrentPath tx' top = Ok (common :: rev (top :: news)).
Proof.
  intros Hc Hs Hc' Hbm. unfold backtrackToCurrentPath.
  destruct (chained_tip _ _ _ Hc') as (T1 & T2 & T3 & T4).
  assert (∀ i x, (top :: news) !! i = Some x → (top :: news ++ common :: rest) !! i = Some x) as Hpre.
  { intros i x Hx. change (top :: news ++ common :: rest) with ((top :: news) ++ common :: rest). by apply lookup_app_l_Some. }
  destruct (chained_path _ _ (S (length news)) common Hc) as (_ & Hcom & _); [cbn; by apply list_lookup_middle|].
  rewrite (backtrack_branch tx' top (news ++ [common]) common).
  - by rewrite rev_app_distr.
  - rewrite Hbm. apply (branch_prefix _ _ rest); [|done]. cbn [app]. rewrite <- app_assoc.
    by eapply chained_branch.
  - change (top :: news ++ [common]) with ((top :: news) ++ [common]). apply last_snoc.
  - done.
  - intros i x Hi Hx. rewrite length_app in Hi. cbn in Hi.
    assert ((top :: news) !! i = Some x) as Hx'.
    { change (top :: news ++ [common]) with ((top :: news) ++ [common]) in Hx.
      rewrite lookup_app_l in Hx by (cbn; lia). done. }
    apply Hpre in Hx'. destruct (chained_path _ _ _ _ Hc Hx') as (_ & Hh & _). split.
    + eapply chained_ids; [exact Hc|exact Hx'|]. cbn. rewrite length_app. cbn. lia.
    + rewrite T4 by lia. done.
  - destruct (chained_path _ _ 0 top Hc eq_refl) as (_ & ? & _). destruct T2. rewrite length_app. cbn. lia.
Qed.

(** A block accepted on top of a chain extends it. *)
Lemma generate_chained (tx : DB) (parent : processedBlock) (rest : list processedBlock) (pb : processedBlock)
    (tx' : DB) (pb' : processedBlock) :
  chained (parent :: rest) tx → block_ready tx pb → db_BlockHeight tx + 1 < 2 ^ 64 → pb_Height pb ≠ 7200 →
  b_ParentID (pb_Block pb) = Block_ID (pb_Block parent) → Block_ID (pb_Block pb) ≠ zeroHash →
  generateAndApplyDiff tx pb = Ok (tx', pb') →
  no_collisions tx pb' → sfo_present eq (db_SiafundOutputs tx) (pb_SiafundOutputDiffs pb') →
  chained (pb' :: parent :: rest) tx' ∧ db_BlockMap tx' !! Block_ID (pb_Block pb) = Some pb'.
Proof.
  intros Hc Hr Hmax Hf Hpar Hid Hg Hnc Hsf.
  destruct (generate_exact _ _ _ _ Hr Hf Hg Hnc Hsf) as (Hex & Hh & Hok & ds & Hds & Happ).
  destruct (generate_tracks _ _ _ _ Hr Hf Hg) as (st & Ht & _ & Epb & Etx). destruct (tr_block _ _ _ _ Ht) as [Eh Eb].
  assert (pb_Height pb' = pb_Height pb ∧ pb_Block pb' = pb_Block pb) as [Eh' Eb'] by (rewrite Epb; by split).
  split; [|rewrite Etx; cbn; apply lookup_insert_eq].
  rewrite <- Happ. constructor; [by apply (chained_tree (db_BlockMap tx') (db_Oak tx)) in Hc| |done|done].
  split; cbn; try done; [|by rewrite Eb'|by rewrite Epb|by rewrite Eb'].
  rewrite Eh', (br_height _ _ Hr). apply u64_id. pose proof (br_current _ _ Hr). ulia.
Qed.
End replay.

(** ** Main properties *)

(** C12: Reorganising over blocks whose diffs are exact is reversible.  Moving
    from the tip back to a block of the current path reverts exactly the blocks
    above it and leads to a database that holds the shorter chain; moving
    forward again finds the same branch, re-applies its blocks from their stored
    diffs and restores the database (up to empty expiration buckets).  Both
    moves terminate and cannot fail.  The blocks moved over ([chained] lists
    them, and need not reach below the common block) must have the diffs that
    [generateAndApplyDiff] gives every block but three kinds: the block at height
    7200, whose change of allocations is not undone by a revert; a block whose
    new ids collide with existing ones; and a block that spends a siafund
    output whose unlock hash is replaced on reading. *)
Theorem fork_away_and_back `{N : Net} `{C : Crypto} `{!NetOk N} (dosBlocks : gset BlockID) (tx : DB)
    (top : processedBlock) (news : list processedBlock) (common : processedBlock) (rest : list processedBlock) :
  chained (top :: news ++ common :: rest) tx → stored tx (top :: news ++ common :: rest) →
  ∃ tx1 tx2,
    forkBlockchain dosBlocks tx common = (dosBlocks, Ok (tx1, top :: news, [])) ∧
    chained (common :: rest) tx1 ∧ currentBlockID tx1 = Block_ID (pb_Block common) ∧
    forkBlockchain dosBlocks tx1 top = (dosBlocks, Ok (tx2, [], rev (top :: news))) ∧ tx2 ≡ tx.
Proof.
  intros Hc Hs. change (top :: news ++ common :: rest) with ((top :: news) ++ common :: rest) in Hc, Hs.
  destruct (chained_path _ _ (length (top :: news)) common Hc) as (Hp & Hh & Hpos); [by apply list_lookup_middle|].
  destruct (revert_loop dosBlocks (top :: news) common rest tx (S (Z.to_nat (blockHeight tx))) [] Hc Hs)
    as (tx1 & tx2 & E1 & Hc1 & Hbm & Hoak & E2 & He).
  { unfold blockHeight. lia. }
  destruct (chained_tip _ _ _ Hc1) as (T1 & T2 & T3 & T4).
  exists tx1, tx2. split_and!; [|done|by eapply chained_current| |done].
  - unfold forkBlockchain. rewrite (backtrack_on_path tx common Hp). cbn [mbind res_bind go_index].
    change (go_index [common] 0) with (Ok common). cbn [mbind res_bind]. unfold revertToBlock. rewrite E1.
    unfold applyUntilBlock. by rewrite (backtrack_on_path tx1 common T3).
  - pose proof (backtrack_reverted _ _ _ _ _ _ Hc Hs Hc1 Hbm) as Hb. unfold forkBlockchain. rewrite Hb.
    cbn [mbind res_bind]. change (go_index (common :: rev (top :: news)) 0) with (Ok common). cbn [mbind res_bind].
    unfold revertToBlock. cbn [revertLoop]. rewrite (chained_current _ _ _ Hc1), bool_decide_true by done.
    unfold applyUntilBlock. rewrite Hb.
    change (drop 1 (common :: rev (top :: news))) with (rev (top :: news)). by rewrite E2.
Qed.

(** A block that [generateAndApplyDiff] accepts on top of a chain extends the
    chain: from then on it can be reverted and re-applied exactly
    ([fork_away_and_back]). *)
Lemma generated_block_extends_chain `{N : Net} `{C : Crypto} `{!NetOk N}
    (tx : DB) (parent : processedBlock) (rest : list processedBlock) (pb : processedBlock)
    (tx' : DB) (pb' : processedBlock) :
  chained (parent :: rest) tx → block_ready tx pb → db_BlockHeight tx + 1 < 2 ^ 64 → pb_Height pb ≠ 7200 →
  b_ParentID (pb_Block pb) = Block_ID (pb_Block parent) → Block_ID (pb_Block pb) ≠ zeroHash →
  generateAndApplyDiff tx pb = Ok (tx', pb') →
  no_collisions tx pb' → sfo_present eq (db_SiafundOutputs tx) (pb_SiafundOutputDiffs pb') →
  chained (pb' :: parent :: rest) tx' ∧ db_BlockMap tx' !! Block_ID (pb_Block pb) = Some pb'.
Proof. apply generate_chained. Qed.

(** ** Witnesses *)

Lemma example_root : chained (N := example.net) [example.parent] example.tip.
Proof.
  constructor; [vm_decide|done|vm_decide| |apply example.ready].
  intros h Hh. cbn in *. by apply lookup_singleton_ne, Z.lt_neq.
Qed.

Lemma example_chained : chained (N := example.net) [example.result.2; example.parent] example.result.1.
Proof.
  apply (generate_chained (N := example.net) (NetOk0 := testingNet_ok _ _)
    example.tip example.parent [] example.pblock example.result.1 example.result.2 example_root example.ready);
    [done|done|by vm_compute|vm_decide|apply example.generated|apply example.collision_free|vm_decide].
Qed.

Lemma example_stored : stored example.result.1 [example.result.2; example.parent].
Proof.
  apply Forall_cons; split; [vm_compute; reflexivity|].
  apply Forall_cons; split; [vm_compute; reflexivity|by apply Forall_nil].
Qed.

Lemma fork_away_and_back_witness :
  ∃ tx1 tx2 : DB,
    forkBlockchain (N := example.net) ∅ example.result.1 example.parent = (∅, Ok (tx1, [example.result.2], [])) ∧
    forkBlockchain (N := example.net) ∅ tx1 example.result.2 = (∅, Ok (tx2, [], [example.result.2])) ∧
    tx2 ≡ example.result.1.
Proof.
  destruct (fork_away_and_back (N := example.net) (NetOk0 := testingNet_ok _ _) ∅ example.result.1
    example.result.2 [] example.parent [] example_chained example_stored) as (tx1 & tx2 & H1 & _ & _ & H2 & H3).
  exists tx1, tx2. split; [exact H1|]. cbn [rev app] in H2. split; [exact H2|exact H3].
Defined.

