(* ===== verification/Changelog.v ===== *)
(** * The change log

    Models [modules/consensus/changelog.go]: the persistent list of changes of
    the consensus set, kept in a bucket as a singly linked list whose keys are
    the hashes of the entries and whose end is found under [ChangeLogTailID].

    [log_of cl es] says that the bucket holds the list [es] of entries.  The
    class [LogLaws] is what the rest of the consensus set relies on: appending
    adds at the end, an entry leads to the one after it, the tail is the last
    one.  [Subscribe] is proved against these laws only. *)

From S2P Require Import Prelude Encoding Currency Target Crypto Types Codec Block ConsensusDB.

Abbreviation ConsensusChangeID := Hash (only parsing).

Record changeEntry := mkEntry {
  ce_RevertedBlocks : list BlockID;
  ce_AppliedBlocks : list BlockID;
}.

Record changeNode := mkNode {
  cn_Entry : changeEntry;
  cn_Next : ConsensusChangeID;
}.

#[export] Instance changeEntry_eq_dec : EqDecision changeEntry.
Proof. solve_decision. Defined.
#[export] Instance changeNode_eq_dec : EqDecision changeNode.
Proof. solve_decision. Defined.

(** The bucket [ChangeLog]: the nodes by the ids of their entries, and the
    value under the key [ChangeLogTailID], which is no 32-byte id. *)
Record ChangeLog := mkLog {
  cl_nodes : gmap ConsensusChangeID changeNode;
  cl_tail : option ConsensusChangeID;
}.

Definition ConsensusChangeBeginning : ConsensusChangeID := zeroHash.
Definition ConsensusChangeRecent : ConsensusChangeID := x01 :: replicate 31 x00.

Section changelog.
Context `{C : Crypto}.

(** ** Operations *)

(** The method has a pointer receiver, so what is hashed is the encoding of a
    valid pointer: a byte 1, then the two slices of ids. *)
Definition changeEntry_encoding (ce : changeEntry) : list byte :=
  x01 :: (EncUint64 (len (ce_RevertedBlocks ce)) ++ concat (ce_RevertedBlocks ce) ++
          EncUint64 (len (ce_AppliedBlocks ce)) ++ concat (ce_AppliedBlocks ce)).

Definition changeEntry_ID (ce : changeEntry) : ConsensusChangeID := HashObject (changeEntry_encoding ce).

(** Decoding the absent bytes of a tail that is not there is an error. *)
Definition appendChangeLog (cl : ChangeLog) (ce : changeEntry) : res ChangeLog :=
  let ceid := changeEntry_ID ce in
  let nodes := <[ceid := mkNode ce zeroHash]> (cl_nodes cl) in
  let tailID := default zeroHash (cl_tail cl) in
  nodes ←
    (if bool_decide (tailID ≠ zeroHash) then
       match nodes !! tailID with
       | None => Err ErrEOF
       | Some tailCN => Ok (<[tailID := mkNode (cn_Entry tailCN) ceid]> nodes)
       end
     else Ok nodes);
  Ok (mkLog nodes (Some ceid)).

Definition getEntry (cl : ChangeLog) (id : ConsensusChangeID) : option changeEntry :=
  cn_Entry <$> cl_nodes cl !! id.

(** A missing node is reported and read as the zero node. *)
Definition NextEntry (cl : ChangeLog) (ce : changeEntry) : option changeEntry :=
  getEntry cl (default zeroHash (cn_Next <$> cl_nodes cl !! changeEntry_ID ce)).

Definition genesisEntry (blockRoot : processedBlock) : changeEntry :=
  mkEntry [] [Block_ID (pb_Block blockRoot)].

Definition createChangeLog (blockRoot : processedBlock) : ChangeLog :=
  let ge := genesisEntry blockRoot in
  let geid := changeEntry_ID ge in
  mkLog {[geid := mkNode ge zeroHash]} (Some geid).

(** [recentConsensusChangeID] of [subscribe.go] *)
Definition recentConsensusChangeID (cl : ChangeLog) : res ConsensusChangeID :=
  match cl_tail cl with
  | None => Err errNoRecentChange
  | Some d => Ok (go_copy zeroHash d)
  end.

(** ** The list a log represents *)

(** The id the list starts with, zero for the empty list. *)
Definition head_id (es : list changeEntry) : ConsensusChangeID :=
  match es with [] => zeroHash | e :: _ => changeEntry_ID e end.

Fixpoint nodes_of (es : list changeEntry) : gmap ConsensusChangeID changeNode :=
  match es with
  | [] => ∅
  | e :: es => <[changeEntry_ID e := mkNode e (head_id es)]> (nodes_of es)
  end.

Definition log_of (cl : ChangeLog) (es : list changeEntry) : Prop :=
  cl = mkLog (nodes_of es) (changeEntry_ID <$> last es) ∧
  NoDup (changeEntry_ID <$> es) ∧ Forall (λ e, changeEntry_ID e ≠ zeroHash) es.

(** An entry that may be appended to the list. *)
Definition new_entry (es : list changeEntry) (ce : changeEntry) : Prop :=
  changeEntry_ID ce ≠ zeroHash ∧ changeEntry_ID ce ∉ changeEntry_ID <$> es.

Lemma nodes_of_None es id : id ∉ changeEntry_ID <$> es → nodes_of es !! id = None.
Proof.
  induction es as [|e es IH]; cbn; [done|]. intros [Hne Hin]%not_elem_of_cons.
  rewrite lookup_insert_ne by done. by apply IH.
Qed.

Lemma nodes_of_lookup es i e :
  NoDup (changeEntry_ID <$> es) → es !! i = Some e →
  nodes_of es !! changeEntry_ID e = Some (mkNode e (head_id (drop (S i) es))).
Proof.
  revert i. induction es as [|e' es IH]; intros [|i] Hnd Hi; [done..| |]; cbn in *.
  - injection Hi as ->. by rewrite lookup_insert_eq.
  - apply NoDup_cons in Hnd as [Hnin Hnd]. rewrite lookup_insert_ne; [by apply IH|].
    intros E. apply Hnin. rewrite E. apply list_elem_of_fmap. exists e. split; [done|by eapply list_elem_of_lookup_2].
Qed.

(** Appending redirects the old tail and adds the new node. *)
Lemma nodes_of_snoc es t c :
  NoDup (changeEntry_ID <$> es ++ [t; c]) →
  nodes_of (es ++ [t; c]) =
  <[changeEntry_ID t := mkNode t (changeEntry_ID c)]> (<[changeEntry_ID c := mkNode c zeroHash]> (nodes_of (es ++ [t]))).
Proof.
  induction es as [|e es IH]; cbn; intros Hnd.
  - apply NoDup_cons in Hnd as [Hnin _]. rewrite (insert_insert_ne _ (changeEntry_ID c)) by set_solver.
    by rewrite insert_insert_eq.
  - apply NoDup_cons in Hnd as [Hnin Hnd]. rewrite fmap_app in Hnin. cbn in Hnin.
    rewrite (IH Hnd), (insert_insert_ne _ (changeEntry_ID e) (changeEntry_ID t)) by set_solver.
    rewrite (insert_insert_ne _ (changeEntry_ID e) (changeEntry_ID c)) by set_solver.
    by destruct es.
Qed.

Lemma log_append cl es ce :
  log_of cl es → new_entry es ce → ∃ cl', appendChangeLog cl ce = Ok cl' ∧ log_of cl' (es ++ [ce]).
Proof.
  intros (-> & Hnd & Hnz) [Hz Hnew].
  assert (NoDup (changeEntry_ID <$> es ++ [ce])) as Hnd'.
  { rewrite fmap_app. cbn. apply NoDup_app. split_and!; [done|set_solver|apply NoDup_singleton]. }
  eexists. split; [|split_and!; [reflexivity|exact Hnd'|by apply Forall_app; split; [|by apply Forall_singleton]]].
  rewrite last_snoc. unfold appendChangeLog. cbn [cl_nodes cl_tail].
  destruct es as [|t es _] using rev_ind; [done|]. rewrite last_snoc. cbn [fmap option_fmap option_map default from_option id].
  apply Forall_app in Hnz as [_ Ht]. apply Forall_inv in Ht. rewrite bool_decide_true by exact Ht.
  rewrite fmap_app in Hnew. cbn in Hnew. rewrite lookup_insert_ne by set_solver.
  rewrite (nodes_of_lookup _ (length es) t Hnd) by (by apply list_lookup_middle).
  rewrite drop_ge by (rewrite length_app; cbn; lia).
  cbn [mbind res_bind cn_Entry]. rewrite <- app_assoc in Hnd'. cbn in Hnd'. rewrite <- app_assoc. cbn [app].
  by rewrite nodes_of_snoc.
Qed.

Lemma log_get cl es i e : log_of cl es → es !! i = Some e → getEntry cl (changeEntry_ID e) = Some e.
Proof. intros (-> & Hnd & _) Hi. unfold getEntry. cbn. by rewrite (nodes_of_lookup es i e). Qed.

Lemma log_get_None cl es id : log_of cl es → id ∉ changeEntry_ID <$> es → getEntry cl id = None.
Proof. intros (-> & Hnd & _) Hi. unfold getEntry. cbn. by rewrite nodes_of_None. Qed.

Lemma log_next cl es i e : log_of cl es → es !! i = Some e → NextEntry cl e = es !! S i.
Proof.
  intros Hl Hi. pose proof Hl as (-> & Hnd & Hnz). unfold NextEntry. cbn [cl_nodes].
  rewrite (nodes_of_lookup es i e) by done. cbn [fmap option_fmap option_map default from_option id cn_Next].
  destruct (es !! S i) as [e'|] eqn:Hs.
  - rewrite (drop_S _ e') by done. cbn [head_id]. by eapply log_get.
  - rewrite drop_ge by (by apply lookup_ge_None). cbn [head_id]. eapply log_get_None; [done|].
    rewrite list_elem_of_fmap. intros (e' & E & Hin). rewrite Forall_forall in Hnz. by apply (Hnz e' Hin).
Qed.
End changelog.

(** What the consensus set relies on. *)
Class LogLaws `{C : Crypto} (holds : ChangeLog → list changeEntry → Prop) : Prop := {
  ll_append : ∀ cl es ce, holds cl es → new_entry es ce →
    ∃ cl', appendChangeLog cl ce = Ok cl' ∧ holds cl' (es ++ [ce]);
  ll_get : ∀ cl es i e, holds cl es → es !! i = Some e → getEntry cl (changeEntry_ID e) = Some e;
  ll_unknown : ∀ cl es id, holds cl es → id ∉ changeEntry_ID <$> es → getEntry cl id = None;
  ll_next : ∀ cl es i e, holds cl es → es !! i = Some e → NextEntry cl e = es !! S i;
  ll_recent : ∀ cl es e, holds cl (es ++ [e]) → recentConsensusChangeID cl = Ok (changeEntry_ID e);
  ll_distinct : ∀ cl es, holds cl es → NoDup (changeEntry_ID <$> es) ∧ Forall (λ e, changeEntry_ID e ≠ zeroHash) es;
}.

Section laws.
Context `{C : Crypto} `{!CryptoLaws C}.

#[export] Instance log_of_laws : LogLaws log_of.
Proof.
  split.
  - apply log_append.
  - apply log_get.
  - apply log_get_None.
  - apply log_next.
  - intros cl es e (-> & _). rewrite last_snoc. unfold recentConsensusChangeID. cbn [cl_tail fmap option_fmap option_map].
    f_equal. apply go_copy_full. apply Sum256_length.
  - by intros cl es (_ & ? & ?).
Qed.

Lemma log_create blockRoot :
  changeEntry_ID (genesisEntry blockRoot) ≠ zeroHash → log_of (createChangeLog blockRoot) [genesisEntry blockRoot].
Proof.
  intros Hz. split_and!; [|apply NoDup_singleton|by apply Forall_singleton].
  unfold createChangeLog. by rewrite <- insert_empty.
Qed.

Lemma log_appends `{!LogLaws holds} cl es ces :
  holds cl es → NoDup (changeEntry_ID <$> es ++ ces) → Forall (λ e, changeEntry_ID e ≠ zeroHash) ces →
  ∃ cl', foldM appendChangeLog cl ces = Ok cl' ∧ holds cl' (es ++ ces).
Proof.
  revert cl es. induction ces as [|ce ces IH]; intros cl es Hl Hnd Hnz.
  { exists cl. by rewrite app_nil_r. }
  apply Forall_cons in Hnz as [Hz Hnz]. rewrite cons_middle, app_assoc in Hnd.
  destruct (ll_append cl es ce Hl) as (cl1 & E1 & H1).
  { split; [done|]. rewrite !fmap_app in Hnd. apply NoDup_app in Hnd as [Hnd _].
    apply NoDup_app in Hnd as (_ & Hd & _). intros Hin. apply (Hd _ Hin). cbn. set_solver. }
  destruct (IH cl1 (es ++ [ce]) H1 Hnd Hnz) as (cl' & E & H'). exists cl'.
  split; [cbn [foldM]; rewrite E1; exact E|]. by rewrite cons_middle, app_assoc.
Qed.
End laws.

(** ** Main properties *)

(** C17: The linked list in the change log bucket implements a list of entries:
    created with the genesis entry, every [appendChangeLog] succeeds and adds
    at the end; each entry is found under its id and leads to the one after
    it, the last one to none; the recent change is the last one; no other id
    is known. *)
Theorem changelog_refines_list `{C : Crypto} `{!CryptoLaws C} (blockRoot : processedBlock) (ces : list changeEntry) :
  let es := genesisEntry blockRoot :: ces in
  NoDup (changeEntry_ID <$> es) → Forall (λ e, changeEntry_ID e ≠ zeroHash) es →
  ∃ cl, foldM appendChangeLog (createChangeLog blockRoot) ces = Ok cl ∧
    (∀ i e, es !! i = Some e → getEntry cl (changeEntry_ID e) = Some e ∧ NextEntry cl e = es !! S i) ∧
    (∀ e, last es = Some e → recentConsensusChangeID cl = Ok (changeEntry_ID e)) ∧
    (∀ id, id ∉ changeEntry_ID <$> es → getEntry cl id = None).
Proof.
  intros es Hnd Hnz. apply Forall_cons in Hnz as [Hg Hnz].
  destruct (log_appends _ _ ces (log_create blockRoot Hg) Hnd Hnz) as (cl & E & Hl). exists cl.
  split_and!; [done|..].
  - intros i e Hi. split; [by eapply (ll_get (holds := log_of))|by eapply (ll_next (holds := log_of))].
  - intros e [es' Hes]%last_Some. apply (ll_recent (holds := log_of) cl es'). rewrite <- Hes. exact Hl.
  - intros id Hid. by eapply (ll_unknown (holds := log_of)).
Qed.

(** Two entries after the genesis entry. *)
Module example_log.
Definition root : processedBlock := zeroProcessedBlock.
Definition id (b : byte) : BlockID := replicate 32 b.
Definition entries : list changeEntry :=
  [mkEntry [] [id x01]; mkEntry [id x01] [id x02; id x03]].
End example_log.

Lemma changelog_refines_list_witness :
  ∃ cl, foldM (appendChangeLog (C := toyCrypto)) (createChangeLog (C := toyCrypto) example_log.root) example_log.entries = Ok cl ∧
    NextEntry (C := toyCrypto) cl (mkEntry [] [example_log.id x01]) =
      Some (mkEntry [example_log.id x01] [example_log.id x02; example_log.id x03]).
Proof.
  destruct (changelog_refines_list (CryptoLaws0 := toyCrypto_laws) example_log.root example_log.entries) as (cl & E & H & _);
    [vm_decide|vm_decide|].
  exists cl. split; [exact E|]. exact (proj2 (H 1%nat _ eq_refl)).
Defined.
