(* ===== verification/Subscribe.v ===== *)
(** * Consensus change subscriptions

    Models [modules/consensus/subscribe.go].  A subscriber is fed all the
    changes it has not seen in batches of 100, each batch under the read lock
    and in one read transaction.  Between two batches other threads may append
    to the log: the [k]-th time the lock is taken, the code sees [views k].
    [cancel n] is whether the caller's channel is closed when [n] changes have
    been sent, [stop k] whether the consensus set is shutting down after the
    [k]-th lock.

    The loops get fuel.  [subscribe_up_to_date] shows that two rounds per log
    entry are enough as long as the log stops growing at some point; running
    out of fuel would be an endless loop and is [Panic]. *)

From S2P Require Import Prelude Encoding Currency Target Crypto Types Codec Block ConsensusDB BlockValidation Difficulty Changelog.

(** ** Computing a change *)

(** [d.Direction = !d.Direction] *)
Definition flip_scod (d : SiacoinOutputDiff) : SiacoinOutputDiff :=
  mkSCOD (negb (scod_Direction d)) (scod_ID d) (scod_SiacoinOutput d).
Definition flip_fcd (d : FileContractDiff) : FileContractDiff :=
  mkFCD (negb (fcd_Direction d)) (fcd_ID d) (fcd_FileContract d).
Definition flip_sfod (d : SiafundOutputDiff) : SiafundOutputDiff :=
  mkSFOD (negb (sfod_Direction d)) (sfod_ID d) (sfod_SiafundOutput d).
Definition flip_dscod (d : DelayedSiacoinOutputDiff) : DelayedSiacoinOutputDiff :=
  mkDSCOD (negb (dscod_Direction d)) (dscod_ID d) (dscod_SiacoinOutput d) (dscod_MaturityHeight d).
(** [sfpd.Direction = modules.DiffRevert] *)
Definition revert_sfpd (d : SiafundPoolDiff) : SiafundPoolDiff :=
  mkSFPD DiffRevert (sfpd_Previous d) (sfpd_Adjusted d).

(** The diffs of a reverted block, last first and flipped. *)
Definition addReverted (cc : ConsensusChange) (pb : processedBlock) : ConsensusChange :=
  mkCC (cc_ID cc) (cc_RevertedBlocks cc ++ [pb_Block pb]) (cc_AppliedBlocks cc)
    (cc_SiacoinOutputDiffs cc ++ map flip_scod (rev (pb_SiacoinOutputDiffs pb)))
    (cc_FileContractDiffs cc ++ map flip_fcd (rev (pb_FileContractDiffs pb)))
    (cc_SiafundOutputDiffs cc ++ map flip_sfod (rev (pb_SiafundOutputDiffs pb)))
    (cc_DelayedSiacoinOutputDiffs cc ++ map flip_dscod (rev (pb_DelayedSiacoinOutputDiffs pb)))
    (cc_SiafundPoolDiffs cc ++ map revert_sfpd (rev (pb_SiafundPoolDiffs pb)))
    (cc_ChildTarget cc) (cc_MinimumValidChildTimestamp cc) (cc_Synced cc).

Definition addApplied (cc : ConsensusChange) (pb : processedBlock) : ConsensusChange :=
  mkCC (cc_ID cc) (cc_RevertedBlocks cc) (cc_AppliedBlocks cc ++ [pb_Block pb])
    (cc_SiacoinOutputDiffs cc ++ pb_SiacoinOutputDiffs pb)
    (cc_FileContractDiffs cc ++ pb_FileContractDiffs pb)
    (cc_SiafundOutputDiffs cc ++ pb_SiafundOutputDiffs pb)
    (cc_DelayedSiacoinOutputDiffs cc ++ pb_DelayedSiacoinOutputDiffs pb)
    (cc_SiafundPoolDiffs cc ++ pb_SiafundPoolDiffs pb)
    (cc_ChildTarget cc) (cc_MinimumValidChildTimestamp cc) (cc_Synced cc).

Section subscribe.
Context `{C : Crypto}.

(** A missing last block is reported and then dereferenced. *)
Definition computeConsensusChange (synced : bool) (tx : DB) (ce : changeEntry) : res ConsensusChange :=
  let cc := mkCC (changeEntry_ID ce) [] [] [] [] [] [] [] zeroHash 0 false in
  cc ← foldM (λ cc id, pb ← getBlockMap tx id; Ok (addReverted cc pb)) cc (ce_RevertedBlocks ce);
  cc ← foldM (λ cc id, pb ← getBlockMap tx id; Ok (addApplied cc pb)) cc (ce_AppliedBlocks ce);
  recentBlock ← go_index (ce_AppliedBlocks ce) (len (ce_AppliedBlocks ce) - 1);
  match getBlockMap tx recentBlock with
  | Ok pb =>
      minTimestamp ← minimumValidChildTimestamp (db_BlockMap tx) pb;
      Ok (mkCC (cc_ID cc) (cc_RevertedBlocks cc) (cc_AppliedBlocks cc) (cc_SiacoinOutputDiffs cc)
            (cc_FileContractDiffs cc) (cc_SiafundOutputDiffs cc) (cc_DelayedSiacoinOutputDiffs cc)
            (cc_SiafundPoolDiffs cc) (pb_ChildTarget pb) minTimestamp
            (synced && bool_decide (recentBlock = currentBlockID tx)))
  | _ => Panic
  end.

(** ** Feeding a subscriber *)

(** What a thread sees while it holds the lock. *)
Record View := mkView {
  v_tx : DB;
  v_log : ChangeLog;
  v_synced : bool;
}.

(** One read transaction: at most [n] changes.  The changes sent are delivered
    even when the transaction then fails. *)
Fixpoint sendBatch (n : nat) (cancel : nat → bool) (v : View) (entry : option changeEntry)
    (latestChangeID : ConsensusChangeID) (sent : list ConsensusChange) :
    list ConsensusChange * res (option changeEntry * ConsensusChangeID) :=
  match n, entry with
  | S n, Some entry =>
      let latestChangeID := changeEntry_ID entry in
      if cancel (length sent) then (sent, Err ErrStopped) else
      match computeConsensusChange (v_synced v) (v_tx v) entry with
      | Ok cc => sendBatch n cancel v (NextEntry (v_log v) entry) latestChangeID (sent ++ [cc])
      | Err e => (sent, Err e)
      | Panic => (sent, Panic)
      end
  | _, _ => (sent, Ok (entry, latestChangeID))
  end.

(** [for exists], from the [k]-th lock on *)
Fixpoint sendAll (fuel : nat) (views : nat → View) (cancel : nat → bool) (k : nat) (entry : option changeEntry)
    (latestChangeID : ConsensusChangeID) (sent : list ConsensusChange) :
    nat * list ConsensusChange * res ConsensusChangeID :=
  match entry with
  | None => (k, sent, Ok latestChangeID)
  | Some _ =>
      match fuel with
      | O => (k, sent, Panic)
      | S fuel =>
          match sendBatch 100 cancel (views k) entry latestChangeID sent with
          | (sent, Ok (entry, latestChangeID)) => sendAll fuel views cancel (S k) entry latestChangeID sent
          | (sent, Err e) => (S k, sent, Err e)
          | (sent, Panic) => (S k, sent, Panic)
          end
      end
  end.

(** The first entry the subscriber has not seen, if there is one. *)
Definition firstUnseen (blockRoot : processedBlock) (cl : ChangeLog) (start : ConsensusChangeID) :
    res (option changeEntry) :=
  if bool_decide (start = ConsensusChangeBeginning) then Ok (Some (genesisEntry blockRoot))
  else match getEntry cl start with
       | None => Err ErrInvalidConsensusChangeID
       | Some entry => Ok (NextEntry cl entry)
       end.

Definition managedInitializeSubscribe (fuel : nat) (blockRoot : processedBlock) (views : nat → View)
    (cancel : nat → bool) (k : nat) (start : ConsensusChangeID) (sent : list ConsensusChange) :
    nat * list ConsensusChange * res ConsensusChangeID :=
  if bool_decide (start = ConsensusChangeRecent)
  then (S k, sent, recentConsensusChangeID (v_log (views k)))
  else
    match firstUnseen blockRoot (v_log (views k)) start with
    | Err e => (S k, sent, Err e)
    | Panic => (S k, sent, Panic)
    | Ok None => (S k, sent, Ok start)
    | Ok (Some entry) => sendAll fuel views cancel (S k) (Some entry) (changeEntry_ID entry) sent
    end.

(** The loop of [ConsensusSetSubscribe].  It returns the lock under which the
    subscriber is registered. *)
Fixpoint subscribeLoop (fuel : nat) (blockRoot : processedBlock) (views : nat → View) (cancel stop : nat → bool)
    (k : nat) (start : ConsensusChangeID) (sent : list ConsensusChange) : list ConsensusChange * res nat :=
  match fuel with
  | O => (sent, Panic)
  | S fuel' =>
      match managedInitializeSubscribe fuel blockRoot views cancel k start sent with
      | (k, sent, Ok start) =>
          match recentConsensusChangeID (v_log (views k)) with
          | Ok recentID =>
              if bool_decide (start = recentID) then (sent, Ok k)
              else if stop k then (sent, Err ErrStopped)
              else subscribeLoop fuel' blockRoot views cancel stop (S k) start sent
          | Err e => (sent, Err e)
          | Panic => (sent, Panic)
          end
      | (_, sent, Err e) => (sent, Err e)
      | (_, sent, Panic) => (sent, Panic)
      end
  end.

(** Subscribing twice is only reported. *)
Definition ConsensusSetSubscribe {S : Type} (fuel : nat) (blockRoot : processedBlock) (views : nat → View)
    (cancel stop : nat → bool) (stopped : bool) (subscribers : nat → list S) (subscriber : S)
    (start : ConsensusChangeID) : list ConsensusChange * res (list S) :=
  if stopped then ([], Err ErrStopped) else
  match subscribeLoop fuel blockRoot views cancel stop 0 start [] with
  | (sent, Ok k) => (sent, Ok (subscribers k ++ [subscriber]))
  | (sent, Err e) => (sent, Err e)
  | (sent, Panic) => (sent, Panic)
  end.

Fixpoint Unsubscribe {S : Type} `{EqDecision S} (subscribers : list S) (subscriber : S) : list S :=
  match subscribers with
  | [] => []
  | s :: subscribers =>
      if decide (s = subscriber) then subscribers else s :: Unsubscribe subscribers subscriber
  end.

(** The deliveries of one change, in the order they are made. *)
Definition updateSubscribers {S : Type} (v : View) (subscribers : list S) (ce : changeEntry) :
    res (list (S * ConsensusChange)) :=
  match subscribers with
  | [] => Ok []
  | _ =>
      match computeConsensusChange (v_synced v) (v_tx v) ce with
      | Ok cc => Ok (map (λ s, (s, cc)) subscribers)
      | Err _ => Ok []
      | Panic => Panic
      end
  end.
End subscribe.

(** ** What a change contains *)

Section contents.
Context `{C : Crypto}.

Lemma foldM_blocks {A} (f : A → processedBlock → A) tx ids pbs a :
  Forall2 (λ id pb, db_BlockMap tx !! id = Some pb) ids pbs →
  foldM (λ a id, pb ← getBlockMap tx id; Ok (f a pb)) a ids = Ok (foldl f a pbs).
Proof.
  intros H. revert a. induction H as [|id pb ids pbs E _ IH]; intros a; [done|].
  cbn [foldM]. assert (getBlockMap tx id = Ok pb) as -> by (unfold getBlockMap; by rewrite E). apply IH.
Qed.

Lemma foldl_addReverted cc rs :
  foldl addReverted cc rs =
  mkCC (cc_ID cc) (cc_RevertedBlocks cc ++ map pb_Block rs) (cc_AppliedBlocks cc)
    (cc_SiacoinOutputDiffs cc ++ concat (map (λ pb, map flip_scod (rev (pb_SiacoinOutputDiffs pb))) rs))
    (cc_FileContractDiffs cc ++ concat (map (λ pb, map flip_fcd (rev (pb_FileContractDiffs pb))) rs))
    (cc_SiafundOutputDiffs cc ++ concat (map (λ pb, map flip_sfod (rev (pb_SiafundOutputDiffs pb))) rs))
    (cc_DelayedSiacoinOutputDiffs cc ++ concat (map (λ pb, map flip_dscod (rev (pb_DelayedSiacoinOutputDiffs pb))) rs))
    (cc_SiafundPoolDiffs cc ++ concat (map (λ pb, map revert_sfpd (rev (pb_SiafundPoolDiffs pb))) rs))
    (cc_ChildTarget cc) (cc_MinimumValidChildTimestamp cc) (cc_Synced cc).
Proof.
  revert cc. induction rs as [|r rs IH]; intros []; cbn [foldl map concat]; [by rewrite !app_nil_r|].
  rewrite IH. cbn. by rewrite <- !app_assoc.
Qed.

Lemma foldl_addApplied cc bs :
  foldl addApplied cc bs =
  mkCC (cc_ID cc) (cc_RevertedBlocks cc) (cc_AppliedBlocks cc ++ map pb_Block bs)
    (cc_SiacoinOutputDiffs cc ++ concat (map pb_SiacoinOutputDiffs bs))
    (cc_FileContractDiffs cc ++ concat (map pb_FileContractDiffs bs))
    (cc_SiafundOutputDiffs cc ++ concat (map pb_SiafundOutputDiffs bs))
    (cc_DelayedSiacoinOutputDiffs cc ++ concat (map pb_DelayedSiacoinOutputDiffs bs))
    (cc_SiafundPoolDiffs cc ++ concat (map pb_SiafundPoolDiffs bs))
    (cc_ChildTarget cc) (cc_MinimumValidChildTimestamp cc) (cc_Synced cc).
Proof.
  revert cc. induction bs as [|b bs IH]; intros []; cbn [foldl map concat]; [by rewrite !app_nil_r|].
  rewrite IH. cbn. by rewrite <- !app_assoc.
Qed.

Lemma go_index_last {A} (l : list A) x : go_index (l ++ [x]) (len (l ++ [x]) - 1) = Ok x.
Proof.
  unfold go_index. rewrite len_app. change (len [x]) with 1. pose proof (len_nonneg l).
  rewrite (proj2 (Z.ltb_ge _ _)) by lia. unfold len. rewrite list_lookup_middle by lia. done.
Qed.

Lemma minimumValidChildTimestamp_total bm pb :
  parents_known bm pb → ∃ m, minimumValidChildTimestamp bm pb = Ok m.
Proof.
  intros Hk. unfold minimumValidChildTimestamp. change (Z.to_nat MedianTimestampWindow - 1)%nat with 10%nat.
  destruct (parentTimes_total bm 10 pb (b_Timestamp (pb_Block pb)) Hk) as [rest Hr]. rewrite Hr.
  pose proof (parentTimes_length _ _ _ _ _ Hr) as Hlen. cbn [mbind res_bind].
  set (times := sortTimes _). assert (len times = 11) as Hl.
  { unfold times, len, sortTimes. rewrite (Permutation_length (merge_sort_Permutation Z.le _)). cbn. by rewrite Hlen. }
  destruct (go_index_lt times (len times / 2)) as (m & -> & _); [by rewrite Hl|]. eauto.
Qed.

(** The blocks of an entry, as the database has them. *)
Definition entry_blocks (tx : DB) (ce : changeEntry) (rs bs : list processedBlock) (tip : processedBlock) : Prop :=
  Forall2 (λ id pb, db_BlockMap tx !! id = Some pb) (ce_RevertedBlocks ce) rs ∧
  Forall2 (λ id pb, db_BlockMap tx !! id = Some pb) (ce_AppliedBlocks ce) (bs ++ [tip]).

(** The whole change. *)
Lemma computeConsensusChange_value synced tx ce rs bs tip :
  entry_blocks tx ce rs bs tip → ancestors_stored (db_BlockMap tx) →
  ∃ m, minimumValidChildTimestamp (db_BlockMap tx) tip = Ok m ∧
    computeConsensusChange synced tx ce =
    Ok (mkCC (changeEntry_ID ce) (map pb_Block rs) (map pb_Block (bs ++ [tip]))
      (concat (map (λ pb, map flip_scod (rev (pb_SiacoinOutputDiffs pb))) rs) ++ concat (map pb_SiacoinOutputDiffs (bs ++ [tip])))
      (concat (map (λ pb, map flip_fcd (rev (pb_FileContractDiffs pb))) rs) ++ concat (map pb_FileContractDiffs (bs ++ [tip])))
      (concat (map (λ pb, map flip_sfod (rev (pb_SiafundOutputDiffs pb))) rs) ++ concat (map pb_SiafundOutputDiffs (bs ++ [tip])))
      (concat (map (λ pb, map flip_dscod (rev (pb_DelayedSiacoinOutputDiffs pb))) rs) ++
         concat (map pb_DelayedSiacoinOutputDiffs (bs ++ [tip])))
      (concat (map (λ pb, map revert_sfpd (rev (pb_SiafundPoolDiffs pb))) rs) ++ concat (map pb_SiafundPoolDiffs (bs ++ [tip])))
      (pb_ChildTarget tip) m (synced && bool_decide (last (ce_AppliedBlocks ce) = Some (currentBlockID tx)))).
Proof.
  intros [Hr Ha] Hbm. destruct (proj1 (Forall2_app_inv_r _ _ _ _) Ha) as (ids & ids' & _ & Ht & E).
  apply Forall2_cons_inv_r in Ht as (id & ids'' & Htip & ->%Forall2_nil_inv_r & ->).
  assert (parents_known (db_BlockMap tx) tip) as Hk by (split; [by apply (Hbm id)|done]).
  destruct (minimumValidChildTimestamp_total _ _ Hk) as [m Hm]. exists m. split; [done|].
  unfold computeConsensusChange. rewrite (foldM_blocks addReverted _ _ rs) by done. cbn [mbind res_bind].
  rewrite (foldM_blocks addApplied _ _ (bs ++ [tip])) by done. cbn [mbind res_bind].
  rewrite foldl_addApplied, foldl_addReverted, E, go_index_last. cbn [mbind res_bind]. unfold getBlockMap. rewrite Htip, Hm.
  cbn. rewrite last_snoc. by rewrite (bool_decide_ext (id = currentBlockID tx) (Some id = Some (currentBlockID tx)))
    by (split; [by intros ->|by intros [= ->]]).
Qed.

(** Every block an entry names is stored; it applies at least one. *)
Definition entry_stored (tx : DB) (ce : changeEntry) : Prop := ∃ rs bs tip, entry_blocks tx ce rs bs tip.

Lemma computeConsensusChange_total synced tx ce :
  entry_stored tx ce → ancestors_stored (db_BlockMap tx) → ∃ cc, computeConsensusChange synced tx ce = Ok cc.
Proof.
  intros (rs & bs & tip & He) Hbm. destruct (computeConsensusChange_value synced tx ce rs bs tip He Hbm) as (m & _ & ->). eauto.
Qed.
End contents.

(** ** Delivery *)

Section delivery.
Context `{C : Crypto} `{!LogLaws holds}.
Variables (blockRoot : processedBlock) (views : nat → View) (cancel stop : nat → bool).
(** The lists the logs hold at each lock, and one they are all prefixes of. *)
Variables (logs : nat → list changeEntry) (final : list changeEntry).

Record feed : Prop := {
  fd_log k : holds (v_log (views k)) (logs k);
  fd_grow k : logs k `prefix_of` logs (S k);
  fd_final k : logs k `prefix_of` final;
  fd_genesis : logs 0%nat !! 0%nat = Some (genesisEntry blockRoot);
  fd_stored k : Forall (entry_stored (v_tx (views k))) (logs k);
  fd_ancestors k : ancestors_stored (db_BlockMap (v_tx (views k)));
  fd_recent : Forall (λ e, changeEntry_ID e ≠ ConsensusChangeRecent) final;
}.

(** [cc] is the change of [ce] at some lock. *)
Definition change_of (ce : changeEntry) (cc : ConsensusChange) : Prop :=
  ∃ k, computeConsensusChange (v_synced (views k)) (v_tx (views k)) ce = Ok cc.

(** [start] stands for having seen the first [p] entries. *)
Definition seen (start : ConsensusChangeID) (p : nat) : Prop :=
  (p = 0%nat ∧ start = ConsensusChangeBeginning) ∨
  ∃ i e, p = S i ∧ final !! i = Some e ∧ start = changeEntry_ID e.

Hypothesis Hfeed : feed.

Lemma logs_lookup k p e : logs k !! p = Some e → final !! p = Some e.
Proof. intros Hl. eapply prefix_lookup_Some; [exact Hl|apply Hfeed]. Qed.

Lemma logs_mono k k' : (k ≤ k')%nat → logs k `prefix_of` logs k'.
Proof. induction 1 as [|k' _ IH]; [done|]. etrans; [exact IH|apply Hfeed]. Qed.

Lemma logs_length k : (length (logs k) ≤ length final)%nat.
Proof. apply prefix_length, Hfeed. Qed.

Lemma logs_length_mono k k' : (k ≤ k')%nat → (length (logs k) ≤ length (logs k'))%nat.
Proof. intros. by apply prefix_length, logs_mono. Qed.

Lemma sendBatch_sound n k p latest sent :
  (p ≤ length (logs k))%nat →
  ∃ m ccs, (p + m ≤ length (logs k))%nat ∧ Forall2 change_of (take m (drop p final)) ccs ∧
    ((sendBatch n cancel (views k) (logs k !! p) latest sent = (sent ++ ccs, Err ErrStopped) ∧ ∃ j, cancel j = true) ∨
     (∃ latest', sendBatch n cancel (views k) (logs k !! p) latest sent = (sent ++ ccs, Ok (logs k !! (p + m)%nat, latest')) ∧
       (m = n ∨ p + m = length (logs k))%nat ∧ (m = 0%nat ∧ latest' = latest ∨ (0 < m)%nat ∧ seen latest' (p + m)))).
Proof.
  revert p latest sent. induction n as [|n IH]; intros p latest sent Hp.
  { exists 0%nat, []. split_and!; [lia|constructor|]. right. exists latest. rewrite app_nil_r, Nat.add_0_r. cbn.
    split_and!; [done|by left|by left]. }
  destruct (logs k !! p) as [e|] eqn:Hl.
  2: { exists 0%nat, []. apply lookup_ge_None in Hl. split_and!; [lia|constructor|]. right. exists latest.
       rewrite app_nil_r, Nat.add_0_r. cbn [sendBatch].
       split_and!; [by rewrite (proj2 (lookup_ge_None _ _)) by lia|right; lia|by left]. }
  pose proof (lookup_lt_Some _ _ _ Hl) as Hlt. cbn [sendBatch]. destruct (cancel (length sent)) eqn:Hc.
  { exists 0%nat, []. split_and!; [lia|constructor|]. left. rewrite app_nil_r. eauto. }
  pose proof (fd_stored Hfeed k) as Hst. rewrite Forall_lookup in Hst.
  destruct (computeConsensusChange_total (v_synced (views k)) (v_tx (views k)) e (Hst _ _ Hl) (fd_ancestors Hfeed k)) as [cc Hcc].
  rewrite Hcc, (ll_next (v_log (views k)) (logs k) p e (fd_log Hfeed k) Hl).
  destruct (IH (S p) (changeEntry_ID e) (sent ++ [cc]) ltac:(lia)) as (m & ccs & Hm & Hccs & Hout).
  exists (S m), (cc :: ccs). rewrite <- Nat.add_succ_comm.
  replace (sent ++ cc :: ccs) with ((sent ++ [cc]) ++ ccs) by (by rewrite <- app_assoc). split; [done|].
  pose proof (logs_lookup _ _ _ Hl) as Hf. split.
  { rewrite (drop_S _ e) by done. cbn. constructor; [by exists k|done]. }
  destruct Hout as [Hout|(latest' & Hs & Hend & Hlat)]; [by left|]. right. exists latest'.
  split_and!; [done|lia|right; split; [lia|]]. destruct Hlat as [[-> ->]|[_ Hlat]]; [|done].
  right. exists p, e. split_and!; [lia|done|done].
Qed.

(** [entry] is what comes after the first [p] entries at the [k]-th lock. *)
Definition upcoming (k p : nat) (entry : option changeEntry) (latest : ConsensusChangeID) : Prop :=
  match entry with
  | None => seen latest p ∧ (p ≤ length (logs k))%nat
  | Some e => logs k !! p = Some e
  end.

Lemma Forall2_segments (R : changeEntry → ConsensusChange → Prop) (p m q : nat) l xs ys :
  (p + m ≤ q)%nat → Forall2 R (take m (drop p l)) xs → Forall2 R (take (q - (p + m)) (drop (p + m) l)) ys →
  Forall2 R (take (q - p) (drop p l)) (xs ++ ys).
Proof.
  intros Hq Hx Hy. replace (q - p)%nat with (m + (q - (p + m)))%nat by lia.
  rewrite <- take_take_drop, drop_drop. by apply Forall2_app.
Qed.

(** From the first unseen entry to the end of the log. *)
Lemma sendAll_sound fuel k p entry latest sent :
  (length final - p < fuel)%nat → upcoming k p entry latest →
  ∃ k' q ccs, (k ≤ k')%nat ∧ (p ≤ q)%nat ∧ Forall2 change_of (take (q - p) (drop p final)) ccs ∧
    ((sendAll fuel views cancel k entry latest sent = (k', sent ++ ccs, Err ErrStopped) ∧ ∃ j, cancel j = true) ∨
     (∃ latest', sendAll fuel views cancel k entry latest sent = (k', sent ++ ccs, Ok latest') ∧
       seen latest' q ∧ (q ≤ length (logs k'))%nat ∧ (is_Some entry → (p < q)%nat))).
Proof.
  revert k p entry latest sent. induction fuel as [|fuel IH]; intros k p entry latest sent Hfuel Hup; [lia|].
  destruct entry as [e|].
  2: { destruct Hup as [Hs Hle]. exists k, p, []. rewrite Nat.sub_diag, app_nil_r.
       split_and!; [done|done|constructor|]. right. exists latest. split_and!; [done|done|done|]. by intros []. }
  cbn [upcoming] in Hup. pose proof (lookup_lt_Some _ _ _ Hup) as Hlt. pose proof (logs_length k) as Hlen.
  destruct (sendBatch_sound 100 k p latest sent ltac:(lia)) as (m & ccs & Hm & Hccs & Hout). rewrite Hup in Hout.
  cbn [sendAll]. destruct Hout as [[-> Hj]|(latest' & -> & Hend & Hlat)].
  { exists (S k), (p + m)%nat, ccs. rewrite Nat.add_sub' . split_and!; [lia|lia|done|]. by left. }
  assert (0 < m)%nat as Hm0 by lia. destruct Hlat as [[? _]|[_ Hlat]]; [lia|].
  destruct (IH (S k) (p + m)%nat (logs k !! (p + m)%nat) latest' (sent ++ ccs) ltac:(lia)) as (k' & q & ccs' & Hk & Hq & Hccs' & Hout).
  { destruct (logs k !! (p + m)%nat) as [e'|] eqn:E; cbn.
    - eapply prefix_lookup_Some; [exact E|apply Hfeed].
    - split; [done|]. pose proof (logs_length_mono k (S k)). lia. }
  exists k', q, (ccs ++ ccs'). rewrite app_assoc. split_and!; [lia|lia|by apply (Forall2_segments _ p m)|].
  destruct Hout as [?|(latest'' & ? & ? & ? & _)]; [by left|]. right. exists latest''. split_and!; [done|done|done|]. intros _. lia.
Qed.

(** The start the subscriber gives is found in the log. *)
Lemma firstUnseen_seen k start p :
  seen start p → (p ≤ length (logs k))%nat → firstUnseen blockRoot (v_log (views k)) start = Ok (logs k !! p).
Proof.
  intros Hs Hp. unfold firstUnseen. destruct Hs as [[-> ->]|(i & e & -> & Hi & ->)].
  - rewrite bool_decide_true by done. f_equal. symmetry. eapply prefix_lookup_Some; [apply Hfeed|]. apply logs_mono. lia.
  - pose proof (ll_distinct _ _ (fd_log Hfeed k)) as [_ Hnz]. rewrite Forall_lookup in Hnz.
    assert (logs k !! i = Some e) as Hk.
    { destruct (lookup_lt_is_Some_2 (logs k) i ltac:(lia)) as [e' He']. pose proof (logs_lookup _ _ _ He'). congruence. }
    rewrite bool_decide_false by (apply (Hnz i e Hk)). rewrite (ll_get _ _ _ _ (fd_log Hfeed k) Hk).
    by rewrite (ll_next _ _ _ _ (fd_log Hfeed k) Hk).
Qed.

Lemma seen_not_recent start p : seen start p → start ≠ ConsensusChangeRecent.
Proof.
  intros [[_ ->]|(i & e & _ & Hi & ->)]; [done|]. pose proof (fd_recent Hfeed) as Hr. rewrite Forall_lookup in Hr.
  by apply (Hr i).
Qed.

Lemma recent_seen k start p :
  seen start p → (p ≤ length (logs k))%nat →
  ∃ id, recentConsensusChangeID (v_log (views k)) = Ok id ∧ (start = id ↔ p = length (logs k)).
Proof.
  intros Hs Hp. pose proof (logs_mono 0 k ltac:(lia)) as H0.
  assert (∃ l e, logs k = l ++ [e]) as (l & e & El).
  { destruct (logs k) as [|x l] eqn:E using rev_ind; [|eauto].
    pose proof (prefix_lookup_Some _ _ _ _ (fd_genesis Hfeed) H0) as Hc. done. }
  pose proof (fd_log Hfeed k) as Hl. pose proof (ll_distinct _ _ Hl) as [Hnd Hnz]. rewrite El in Hl.
  exists (changeEntry_ID e). split; [by apply (ll_recent _ l)|].
  assert (logs k !! length l = Some e) as He by (rewrite El; by apply list_lookup_middle).
  assert (length (logs k) = S (length l)) as Elen by (rewrite El, length_app; cbn; lia).
  rewrite Forall_lookup in Hnz. destruct Hs as [[-> ->]|(i & e' & -> & Hi & ->)].
  - split; [|lia]. intros E. destruct (Hnz _ _ He). by rewrite <- E.
  - split; [|].
    + intros E. assert (logs k !! i = Some e') as Hi'.
      { destruct (lookup_lt_is_Some_2 (logs k) i ltac:(lia)) as [x Hx]. pose proof (logs_lookup _ _ _ Hx). congruence. }
      assert (i = length l); [|lia]. eapply NoDup_lookup; [exact Hnd|..]; rewrite list_lookup_fmap.
      * by rewrite Hi'.
      * rewrite He. cbn. by rewrite E.
    + intros E. assert (i = length l) as -> by lia. pose proof (logs_lookup _ _ _ He). congruence.
Qed.

(** Where a start leads to at the [k]-th lock: the special id
    [ConsensusChangeRecent] stands for all of the log. *)
Definition begins (k : nat) (start : ConsensusChangeID) (p : nat) : Prop :=
  (seen start p ∧ (p ≤ length (logs k))%nat) ∨ (start = ConsensusChangeRecent ∧ p = length (logs k)).

Lemma managedInitializeSubscribe_sound fuel k start p sent :
  (length final - p < fuel)%nat → begins k start p →
  ∃ k' q ccs, (k < k')%nat ∧ (p ≤ q)%nat ∧ Forall2 change_of (take (q - p) (drop p final)) ccs ∧
    ((managedInitializeSubscribe fuel blockRoot views cancel k start sent = (k', sent ++ ccs, Err ErrStopped) ∧ ∃ j, cancel j = true) ∨
     (∃ latest', managedInitializeSubscribe fuel blockRoot views cancel k start sent = (k', sent ++ ccs, Ok latest') ∧
       seen latest' q ∧ (q ≤ length (logs k'))%nat ∧ ((p < length (logs k))%nat → (p < q)%nat))).
Proof.
  intros Hfuel Hb. unfold managedInitializeSubscribe. destruct Hb as [[Hs Hp]|[-> ->]].
  - rewrite bool_decide_false by (by eapply seen_not_recent). rewrite (firstUnseen_seen k start p Hs Hp).
    destruct (logs k !! p) as [e|] eqn:E.
    + destruct (sendAll_sound fuel (S k) p (Some e) (changeEntry_ID e) sent Hfuel) as (k' & q & ccs & Hk & Hq & Hccs & Hout).
      { cbn. eapply prefix_lookup_Some; [exact E|apply Hfeed]. }
      exists k', q, ccs. split_and!; [lia|done|done|]. destruct Hout as [?|(l & ? & ? & ? & Hlt)]; [by left|].
      right. exists l. split_and!; [done|done|done|]. intros _. apply Hlt. eauto.
    + apply lookup_ge_None in E. exists (S k), p, []. rewrite Nat.sub_diag, app_nil_r.
      split_and!; [lia|done|constructor|]. right. exists start.
      pose proof (logs_length_mono k (S k)). split_and!; [done|done|lia|lia].
  - rewrite bool_decide_true by done.
    destruct (logs k) as [|e l] eqn:E using rev_ind.
    { pose proof (prefix_lookup_Some _ _ _ _ (fd_genesis Hfeed) (logs_mono 0 k ltac:(lia))) as Hc. by rewrite E in Hc. }
    pose proof (fd_log Hfeed k) as Hl. rewrite E in Hl. rewrite (ll_recent _ l e Hl).
    exists (S k), (length (l ++ [e])), []. rewrite Nat.sub_diag, app_nil_r.
    split_and!; [lia|done|constructor|]. right. exists (changeEntry_ID e).
    pose proof (logs_length_mono k (S k)). rewrite E in *. split_and!; [done| |lia|lia].
    right. exists (length l), e. rewrite length_app. cbn. split_and!; [lia| |done].
    apply (logs_lookup k). rewrite E. by apply list_lookup_middle.
Qed.

(** Rounds left: two per entry, one more when there is nothing to send. *)
Definition rounds (k p : nat) : nat :=
  (2 * (length final - p) + (if decide (p = length (logs k)) then 1 else 0))%nat.

Lemma subscribeLoop_sound fuel k start p sent :
  (rounds k p < fuel)%nat → begins k start p →
  ∃ q ccs, (p ≤ q)%nat ∧ Forall2 change_of (take (q - p) (drop p final)) ccs ∧
    ((subscribeLoop fuel blockRoot views cancel stop k start sent = (sent ++ ccs, Err ErrStopped) ∧
      ∃ j, cancel j = true ∨ stop j = true) ∨
     (∃ k', subscribeLoop fuel blockRoot views cancel stop k start sent = (sent ++ ccs, Ok k') ∧ q = length (logs k'))).
Proof.
  revert k start p sent. induction fuel as [|fuel IH]; intros k start p sent Hfuel Hb; [lia|].
  assert (p ≤ length (logs k))%nat as Hp by (destruct Hb as [[_ ?]|[_ ->]]; lia).
  pose proof (logs_length k) as Hlen. unfold rounds in Hfuel. cbn [subscribeLoop].
  assert (length final - p < S fuel)%nat as Hf by lia.
  destruct (managedInitializeSubscribe_sound (S fuel) k start p sent Hf Hb) as (k' & q & ccs & Hk & Hq & Hccs & Hout).
  destruct Hout as [[-> [j Hj]]|(latest & -> & Hs & Hql & Hlt)].
  { exists q, ccs. split_and!; [done|done|]. left. eauto. }
  destruct (recent_seen k' latest q Hs Hql) as (id & -> & Hid).
  destruct (decide (q = length (logs k'))) as [E|E].
  { rewrite bool_decide_true by (by apply Hid). exists q, ccs. split_and!; [done|done|]. right. by exists k'. }
  rewrite bool_decide_false by (by rewrite Hid). destruct (stop k') eqn:Hstop.
  { exists q, ccs. split_and!; [done|done|]. left. eauto. }
  pose proof (logs_length_mono k' (S k')). pose proof (logs_length_mono k k'). pose proof (logs_length (S k')).
  destruct (IH (S k') latest q (sent ++ ccs)) as (q' & ccs' & Hq' & Hccs' & Hout).
  { unfold rounds. rewrite decide_False by lia. destruct (decide (p = length (logs k))); lia. }
  { left. split; [done|lia]. }
  exists q', (ccs ++ ccs'). rewrite app_assoc. split; [lia|].
  split; [|done]. apply (Forall2_segments _ p (q - p)); [lia|done|].
  by replace (p + (q - p))%nat with q by lia.
Qed.
End delivery.

(** ** Main properties *)

(** C15: A subscription catches up and misses nothing.  If neither side is shut
    down, [ConsensusSetSubscribe] returns, however the log grows meanwhile
    (as long as it stops growing), and under the very lock in which the
    subscriber is added to the list it has been sent the change of every entry
    after its start, up to the last entry of the log, each once and in order. *)
Theorem subscribe_up_to_date `{C : Crypto} `{!LogLaws holds} {S : Type}
    (blockRoot : processedBlock) (views : nat → View) (cancel stop : nat → bool)
    (logs : nat → list changeEntry) (final : list changeEntry)
    (subscribers : nat → list S) (subscriber : S) (start : ConsensusChangeID) (p fuel : nat) :
  feed (holds := holds) blockRoot views logs final → begins logs final 0 start p →
  (2 * length final + 1 < fuel)%nat → (∀ n, cancel n = false) → (∀ k, stop k = false) →
  ∃ k ccs, ConsensusSetSubscribe fuel blockRoot views cancel stop false subscribers subscriber start =
      (ccs, Ok (subscribers k ++ [subscriber])) ∧
    Forall2 (change_of views) (drop p (logs k)) ccs.
Proof.
  intros Hfeed Hb Hfuel Hc Hs.
  destruct (subscribeLoop_sound blockRoot views cancel stop logs final Hfeed fuel 0 start p []) as (q & ccs & Hq & Hccs & Hout);
    [unfold rounds; case_decide; lia|done|].
  destruct Hout as [[_ [j [Hj|Hj]]]|(k & E & ->)]; [by rewrite Hc in Hj|by rewrite Hs in Hj|].
  exists k, ccs. unfold ConsensusSetSubscribe. rewrite E. split; [done|].
  destruct (fd_final _ _ _ _ Hfeed k) as [l ->].
  replace (drop p (logs k)) with (take (length (logs k) - p) (drop p (logs k ++ l))); [done|].
  rewrite drop_app_le, take_app_le by (rewrite ?length_drop; lia). apply take_ge. rewrite length_drop. lia.
Qed.

(** Whatever interrupts a subscription, the subscriber has been sent a
    gapless run of changes: the first ones after its start, in order.  The only
    error possible from a known start is [ErrStopped], and only after a
    shutdown or a cancellation. *)
Lemma subscribe_gapless `{C : Crypto} `{!LogLaws holds} {S : Type}
    (blockRoot : processedBlock) (views : nat → View) (cancel stop : nat → bool)
    (logs : nat → list changeEntry) (final : list changeEntry)
    (subscribers : nat → list S) (subscriber : S) (start : ConsensusChangeID) (p fuel : nat) :
  feed (holds := holds) blockRoot views logs final → begins logs final 0 start p → (2 * length final + 1 < fuel)%nat →
  ∃ n ccs r, ConsensusSetSubscribe fuel blockRoot views cancel stop false subscribers subscriber start = (ccs, r) ∧
    Forall2 (change_of views) (take n (drop p final)) ccs ∧
    ((r = Err ErrStopped ∧ ∃ j, cancel j = true ∨ stop j = true) ∨ ∃ k, r = Ok (subscribers k ++ [subscriber])).
Proof.
  intros Hfeed Hb Hfuel.
  destruct (subscribeLoop_sound blockRoot views cancel stop logs final Hfeed fuel 0 start p []) as (q & ccs & Hq & Hccs & Hout);
    [unfold rounds; case_decide; lia|done|].
  exists (q - p)%nat, ccs. unfold ConsensusSetSubscribe.
  destruct Hout as [[E Hj]|(k & E & _)]; rewrite E; eexists; (split; [reflexivity|]); (split; [done|]); [by left|right; eauto].
Qed.

(** A chain of three blocks, with its log. *)
Module example_feed.
Definition pblock (parent : BlockID) (time height : Z) : processedBlock :=
  mkPB (mkBlock parent (replicate 8 x00) time [] []) height zeroHash zeroHash true [] [] [] [] [] zeroHash.
Definition idOf (pb : processedBlock) : BlockID := @Block_ID toyCrypto (pb_Block pb).
Definition root : processedBlock := pblock zeroHash 1000 0.
Definition rootID : BlockID := Eval vm_compute in idOf root.
Definition one : processedBlock := pblock rootID 1600 1.
Definition oneID : BlockID := Eval vm_compute in idOf one.
Definition two : processedBlock := pblock oneID 2200 2.
Definition twoID : BlockID := Eval vm_compute in idOf two.
Definition tx : DB :=
  mkDB 2 {[rootID := root; oneID := one; twoID := two]} {[0 := rootID; 1 := oneID; 2 := twoID]} ∅ ∅ ∅ 0 ∅ ∅ ∅.
Definition entries : list changeEntry := [mkEntry [] [rootID]; mkEntry [] [oneID]; mkEntry [] [twoID]].
Definition log : ChangeLog :=
  match foldM (@appendChangeLog toyCrypto) (@createChangeLog toyCrypto root) (drop 1 entries) with Ok cl => cl | _ => mkLog ∅ None end.
Definition views (k : nat) : View := mkView tx log true.
Definition start : ConsensusChangeID := Eval vm_compute in @changeEntry_ID toyCrypto (mkEntry [] [rootID]).

Lemma log_holds : @log_of toyCrypto log entries.
Proof. split_and!; [vm_compute; reflexivity|vm_decide|vm_decide]. Qed.

Lemma stored_one id pb : db_BlockMap tx !! id = Some pb → entry_stored tx (mkEntry [] [id]).
Proof. intros E. exists [], [], pb. split; cbn; repeat constructor; done. Qed.

Lemma feed_example_ok : feed (C := toyCrypto) (holds := @log_of toyCrypto) root views (λ _, entries) entries.
Proof.
  split; intros; [apply log_holds|done|done|vm_compute; reflexivity|..].
  - repeat (apply Forall_cons; split); try apply Forall_nil; try done.
    + apply (stored_one rootID root). vm_compute. reflexivity.
    + apply (stored_one oneID one). vm_compute. reflexivity.
    + apply (stored_one twoID two). vm_compute. reflexivity.
  - unfold ancestors_stored. vm_decide.
  - vm_decide.
Qed.

Lemma begin : begins (C := toyCrypto) (λ _, entries) entries 0 start 1.
Proof. left. split; [|cbn; lia]. right. exists 0%nat, (mkEntry [] [rootID]). split_and!; [done|done|vm_compute; reflexivity]. Qed.
End example_feed.

Lemma subscribe_up_to_date_witness :
  ∃ ccs, ConsensusSetSubscribe (C := toyCrypto) 10 example_feed.root example_feed.views
      (λ _, false) (λ _, false) false (λ _, [1%nat]) 2%nat example_feed.start = (ccs, Ok [1%nat; 2%nat]) ∧
    length ccs = 2%nat.
Proof.
  destruct (subscribe_up_to_date (LogLaws0 := log_of_laws (CryptoLaws0 := toyCrypto_laws))
    example_feed.root example_feed.views (λ _, false) (λ _, false) (λ _, example_feed.entries) example_feed.entries
    (λ _, [1%nat]) 2%nat example_feed.start 1 10 example_feed.feed_example_ok example_feed.begin ltac:(cbn; lia)
    (λ _, eq_refl) (λ _, eq_refl)) as (k & ccs & E & H).
  exists ccs. split; [exact E|]. exact (eq_sym (Forall2_length _ _ _ H)).
Defined.

