(* ===== verification/Accept.v ===== *)
(** * Accepting blocks

    Models [modules/consensus/accept.go] (its header checks are in
    [BlockValidation]).  A set of blocks is added in one database transaction;
    an error rolls the database back, but not the in-memory set of known bad
    blocks.  [clock i] is the time at which the [i]-th block is looked at.

    Logging and the exit on a full disk are left out; the goroutines started
    for future blocks and for broadcasting are outputs of the model. *)

From S2P Require Import Prelude Encoding Currency Target Crypto Types Codec Block Signatures ValidTransaction ConsensusDB BlockValidation Difficulty ConsensusValid MapDiffs Diffs ApplyTransaction BlockDiffs Fork Changelog Subscribe.

(** The fields of [ConsensusSet] that accepting a block uses.  A subscriber is
    identified by a number. *)
Record ConsensusSet := mkCS {
  cs_db : DB;
  cs_log : ChangeLog;
  cs_dosBlocks : gset BlockID;
  cs_synced : bool;
  cs_subscribers : list nat;
}.

Section accept.
Context `{N : Net} `{C : Crypto}.

(** The result is [None] for [modules.ErrNonExtendingBlock], which the caller
    treats as success: the block stays in the tree.  With any other error the
    caller rolls the transaction back, so no database is returned. *)
Definition addBlockToTree (dosBlocks : gset BlockID) (tx : DB) (cl : ChangeLog) (b : Block) (parent : processedBlock) :
    gset BlockID * res (DB * ChangeLog * option changeEntry) :=
  match newChild tx parent b with
  | Err e => (dosBlocks, Err e)
  | Panic => (dosBlocks, Panic)
  | Ok (tx, newNode) =>
      match (currentNode ← currentProcessedBlock tx; heavierThan newNode currentNode) with
      | Err e => (dosBlocks, Err e)
      | Panic => (dosBlocks, Panic)
      | Ok false => (dosBlocks, Ok (tx, cl, None))
      | Ok true =>
          let '(dosBlocks, r) := forkBlockchain dosBlocks tx newNode in
          (dosBlocks,
           '(tx, revertedBlocks, appliedBlocks) ← r;
           let ce := mkEntry (map (λ rn, Block_ID (pb_Block rn)) revertedBlocks)
                             (map (λ an, Block_ID (pb_Block an)) appliedBlocks) in
           cl ← appendChangeLog cl ce;
           Ok (tx, cl, Some ce))
      end
  end.

(** What the transaction has done so far. *)
Record Progress := mkProgress {
  pr_tx : DB;
  pr_log : ChangeLog;
  pr_changes : list changeEntry;
}.

(** The body of the loop for one block.  [true] in the third component: the
    block is queued to be tried again. *)
Definition acceptOne (dosBlocks : gset BlockID) (now : Timestamp) (pr : Progress) (b : Block) :
    gset BlockID * res Progress * bool :=
  match validateHeaderAndBlock dosBlocks now (pr_tx pr) b (Block_ID b) with
  | Err ErrBlockKnown => (dosBlocks, Ok pr, false)
  | Err e => (dosBlocks, Err e, bool_decide (e = errFutureTimestamp))
  | Panic => (dosBlocks, Panic, false)
  | Ok parent =>
      match addBlockToTree dosBlocks (pr_tx pr) (pr_log pr) b parent with
      | (dosBlocks, Err e) => (dosBlocks, Err e, false)
      | (dosBlocks, Panic) => (dosBlocks, Panic, false)
      | (dosBlocks, Ok (tx, cl, None)) => (dosBlocks, Ok (mkProgress tx cl (pr_changes pr)), false)
      | (dosBlocks, Ok (tx, cl, Some ce)) =>
          if len (ce_AppliedBlocks ce) <? len (ce_RevertedBlocks ce)
          then (dosBlocks, Err errMoreRevertedThanApplied, false)
          else (dosBlocks, Ok (mkProgress tx cl (pr_changes pr ++ [ce])), false)
      end
  end.

(** The loop returns the blocks it queued: at most the one it stops at. *)
Fixpoint acceptLoop (dosBlocks : gset BlockID) (clock : nat → Timestamp) (i : nat) (pr : Progress) (blocks : list Block) :
    gset BlockID * res Progress * list Block :=
  match blocks with
  | [] => (dosBlocks, Ok pr, [])
  | b :: blocks =>
      match acceptOne dosBlocks (clock i) pr b with
      | (dosBlocks, Ok pr, _) => acceptLoop dosBlocks clock (S i) pr blocks
      | (dosBlocks, r, queued) => (dosBlocks, r, if queued then [b] else [])
      end
  end.

(** Every block names its predecessor in the list as its parent. *)
Fixpoint contiguous (blocks : list Block) : bool :=
  match blocks with
  | b :: (b' :: _) as blocks => bool_decide (b_ParentID b' = Block_ID b) && contiguous blocks
  | _ => true
  end.

Record Outcome := mkOutcome {
  out_cs : ConsensusSet;
  out_result : res bool; (* whether the chain was extended *)
  out_queued : list Block; (* future blocks to try again *)
  out_deliveries : list (nat * ConsensusChange); (* the changes sent, in order *)
}.

Definition managedAcceptBlocks (cs : ConsensusSet) (clock : nat → Timestamp) (blocks : list Block) : Outcome :=
  if negb (contiguous blocks) then mkOutcome cs (Err errNonLinearChain) [] [] else
  match acceptLoop (cs_dosBlocks cs) clock 0 (mkProgress (cs_db cs) (cs_log cs) []) blocks with
  | (dosBlocks, Ok pr, queued) =>
      let cs := mkCS (pr_tx pr) (pr_log pr) dosBlocks (cs_synced cs) (cs_subscribers cs) in
      match pr_changes pr with
      | [] => mkOutcome cs (Err ErrNonExtendingBlock) queued []
      | changes =>
          match foldM (λ sent ce, ds ← updateSubscribers (mkView (cs_db cs) (cs_log cs) (cs_synced cs)) (cs_subscribers cs) ce;
                         Ok (sent ++ ds)) [] changes with
          | Ok sent => mkOutcome cs (Ok true) queued sent
          | Err e => mkOutcome cs (Err e) queued []
          | Panic => mkOutcome cs Panic queued []
          end
      end
  | (dosBlocks, Err e, queued) =>
      mkOutcome (mkCS (cs_db cs) (cs_log cs) dosBlocks (cs_synced cs) (cs_subscribers cs)) (Err e) queued []
  | (dosBlocks, Panic, queued) =>
      mkOutcome (mkCS (cs_db cs) (cs_log cs) dosBlocks (cs_synced cs) (cs_subscribers cs)) Panic queued []
  end.

(** [AcceptBlock]: the block is relayed when the chain was extended. *)
Definition AcceptBlock (cs : ConsensusSet) (stopped : bool) (clock : nat → Timestamp) (b : Block) :
    Outcome * list Block :=
  if stopped then (mkOutcome cs (Err ErrStopped) [] [], [])
  else let out := managedAcceptBlocks cs clock [b] in
       (out, match out_result out with Ok true => [b] | _ => [] end).
End accept.
