(* ===== verification/Errors.v ===== *)
(** * Which errors validation reports

    [managedReceiveBlocks] carries on when [managedAcceptBlocks] returns
    [ErrNonExtendingBlock] or [ErrBlockKnown].  This is sound only if these errors
    are never the reason why a set of blocks was rejected, because then its
    transaction was rolled back.  Here: nothing on the way from a block to its
    rejection returns them, apart from the check that [acceptOne] handles. *)

From S2P Require Import Prelude Encoding Currency Target Crypto Types Codec Block Signatures ValidTransaction ConsensusDB BlockValidation Difficulty ConsensusValid MapDiffs Diffs ApplyTransaction BlockDiffs Fork Changelog Subscribe Accept.

Definition extends {A} (r : res A) : Prop :=
  match r with Err ErrNonExtendingBlock | Err ErrBlockKnown => False | _ => True end.

Lemma extends_bind {A B} (r : res A) (f : A → res B) : extends r → (∀ x, extends (f x)) → extends (r ≫= f).
Proof. intros Hr Hf. destruct r; [apply Hf|exact Hr|done]. Qed.

Section combinators.
Context {A B : Type}.

Lemma extends_foldM (f : B → A → res B) s l : (∀ s x, extends (f s x)) → extends (foldM f s l).
Proof. intros Hf. revert s. induction l as [|x l IH]; intros s; cbn; [done|]. by apply extends_bind. Qed.

Lemma extends_foldMi (f : Z → B → A → res B) i s l : (∀ i s x, extends (f i s x)) → extends (foldMi f i s l).
Proof. intros Hf. revert i s. induction l as [|x l IH]; intros i s; cbn; [done|]. by apply extends_bind. Qed.
End combinators.

Lemma extends_checkM {A} (f : A → res unit) l : (∀ x, extends (f x)) → extends (checkM f l).
Proof. intros Hf. by apply extends_foldM. Qed.

Create HintDb extends.

(** Walks through the code of a function; other functions are looked up in the
    hint database or unfolded. *)
Ltac extends_head r := match r with ?f _ => extends_head f | ?f => f end.
Ltac extends_tac :=
  repeat first
    [ solve [eauto with extends]
    | match goal with
      | |- extends (Ok _) => done
      | |- extends Panic => done
      | |- extends (Err _) => done
      | |- extends (mbind _ _) => apply extends_bind; [|intros]
      | |- extends (foldM _ _ _) => apply extends_foldM; intros
      | |- extends (foldMi _ _ _ _) => apply extends_foldMi; intros
      | |- extends (checkM _ _) => apply extends_checkM; intros
      | |- extends (match ?x with _ => _ end) => destruct x eqn:?
      | |- extends ?r => let h := extends_head r in unfold h
      end ].

Section library.
Context `{N : Net} `{C : Crypto}.

Lemma extends_StandaloneValid t h : extends (StandaloneValid t h).
Proof. extends_tac. Qed.
#[local] Hint Resolve extends_StandaloneValid : extends.

Lemma extends_validTransaction tx t : extends (validTransaction tx t).
Proof. extends_tac. Qed.
Lemma extends_applyTransaction st t : extends (applyTransaction st t).
Proof. extends_tac. Qed.
Lemma extends_applyMaintenance st : extends (applyMaintenance st).
Proof. extends_tac. Qed.
#[local] Hint Resolve extends_validTransaction extends_applyTransaction extends_applyMaintenance : extends.

Lemma extends_generateAndApplyDiff tx pb : extends (generateAndApplyDiff tx pb).
Proof. extends_tac. Qed.
Lemma extends_commitDiffSet tx pb dir : extends (commitDiffSet tx pb dir).
Proof. extends_tac. Qed.
#[local] Hint Resolve extends_generateAndApplyDiff extends_commitDiffSet : extends.

Lemma extends_backtrackLoop fuel tx pb path : extends (backtrackLoop fuel tx pb path).
Proof. revert pb path. induction fuel; intros; cbn [backtrackLoop]; extends_tac. Qed.
Lemma extends_revertLoop fuel tx pb acc : extends (revertLoop fuel tx pb acc).
Proof. revert tx acc. induction fuel; intros; cbn [revertLoop]; extends_tac. Qed.
#[local] Hint Resolve extends_backtrackLoop extends_revertLoop : extends.

Lemma extends_applyBlocks dos tx path acc : extends (applyBlocks dos tx path acc).2.
Proof.
  revert dos tx acc. induction path as [|b path IH]; intros dos tx acc; cbn [applyBlocks]; [done|].
  pose proof (extends_commitDiffSet tx b DiffApply). pose proof (extends_generateAndApplyDiff tx b).
  destruct (pb_DiffsGenerated b); case_match; try case_match; try apply IH; try done; done.
Qed.

Lemma extends_forkBlockchain dos tx pb : extends (forkBlockchain dos tx pb).2.
Proof.
  unfold forkBlockchain, backtrackToCurrentPath, revertToBlock.
  match goal with |- extends (match ?r with _ => _ end).2 => assert (extends r) as Hr by extends_tac; destruct r as [[tx1 rs]|e|] in Hr |- * end;
    [|done|done].
  unfold applyUntilBlock, backtrackToCurrentPath.
  pose proof (extends_backtrackLoop (S (Z.to_nat (pb_Height pb))) tx1 pb [pb]).
  destruct (backtrackLoop _ _ _ _) as [path| |]; [|done|done].
  pose proof (extends_applyBlocks dos tx1 (drop 1 path) []). destruct (applyBlocks _ _ _ _) as [dos' r]. cbn in *. extends_tac.
Qed.

Lemma extends_windowStart bm n ws cur parent : extends (windowStart bm n ws cur parent).
Proof. revert ws cur parent. induction n; intros; cbn [windowStart]; extends_tac. Qed.
Lemma extends_parentTimes bm n parent last : extends (parentTimes bm n parent last).
Proof. revert parent last. induction n; intros; cbn [parentTimes]; extends_tac. Qed.
#[local] Hint Resolve extends_windowStart extends_parentTimes : extends.

Lemma extends_newChild tx pb b : extends (newChild tx pb b).
Proof. extends_tac. Qed.
Lemma extends_validateHeaderAndBlock dos now tx b id :
  is_Some (db_BlockMap tx !! id) ∧ validateHeaderAndBlock dos now tx b id = Err ErrBlockKnown ∨
  extends (validateHeaderAndBlock dos now tx b id).
Proof.
  unfold validateHeaderAndBlock. destruct (bool_decide (id ∈ dos)); [by right|].
  case_bool_decide; [by left|right]. cbn [guard_err mbind res_bind]. extends_tac.
Qed.
Lemma extends_heavier tx child : extends (cur ← currentProcessedBlock tx; heavierThan child cur).
Proof. extends_tac. Qed.

Lemma extends_addBlockToTree dos tx cl b parent : extends (addBlockToTree dos tx cl b parent).2.
Proof.
  unfold addBlockToTree. pose proof (extends_newChild tx parent b).
  destruct (newChild tx parent b) as [[tx1 child]| |]; [|done|done].
  pose proof (extends_heavier tx1 child). destruct (_ ≫= _) as [[]| |]; [|done|done|done].
  pose proof (extends_forkBlockchain dos tx1 child). destruct (forkBlockchain dos tx1 child) as [dos' r]. cbn in *. extends_tac.
Qed.

Lemma extends_acceptOne dos now pr b : extends (acceptOne dos now pr b).1.2.
Proof.
  unfold acceptOne. pose proof (extends_validateHeaderAndBlock dos now (pr_tx pr) b (Block_ID b)).
  destruct (validateHeaderAndBlock _ _ _ _ _) as [parent|e|]; [|destruct e; naive_solver|done].
  pose proof (extends_addBlockToTree dos (pr_tx pr) (pr_log pr) b parent).
  destruct (addBlockToTree _ _ _ _ _) as [dos' [[[tx cl] [ce|]]| |]]; cbn in *; [|done|done|done]. by case_match.
Qed.
End library.

(** A set of blocks that is rejected is not reported as one that is known or
    does not extend the chain. *)
Lemma acceptLoop_extends `{N : Net} `{C : Crypto} dos clock i pr blocks : extends (acceptLoop dos clock i pr blocks).1.2.
Proof.
  revert dos i pr. induction blocks as [|b blocks IH]; intros dos i pr; cbn [acceptLoop]; [done|].
  pose proof (extends_acceptOne dos (clock i) pr b). destruct (acceptOne dos (clock i) pr b) as [[dos' [pr'| |]] q]; [apply IH|done..].
Qed.
