(* ===== verification/Heaviest.v ===== *)
(** * The tip is the heaviest block

    Applying and reverting blocks changes the ledger and the path, but of the
    block tree only the diffs that blocks carry: heights, depths and targets
    stay ([shape]).  From this follows what [Accept] promises to the rest of
    the program: after every call, whatever its outcome, the current path ends
    in a block that no known block outweighs ([node_ok]). *)

From S2P Require Import Prelude Encoding Currency Target Crypto Types Codec Block Signatures ValidTransaction ConsensusDB BlockValidation Difficulty ConsensusValid MapDiffs Diffs ApplyTransaction BlockDiffs Fork Changelog Subscribe Accept Errors.

(** A block without its diffs. *)
Definition skeleton (pb : processedBlock) : processedBlock :=
  mkPB (pb_Block pb) (pb_Height pb) (pb_Depth pb) (pb_ChildTarget pb) false [] [] [] [] [] zeroHash.

Definition shape (tx : DB) : gmap BlockID processedBlock := skeleton <$> db_BlockMap tx.

(** ** Frames *)

(** A relation between states that recording diffs respects is respected by
    applying transactions, by maintenance and by the allocation change. *)
Section walk.
Context `{N : Net} `{C : Crypto}.
Variable R : relation State.
Context `{!PreOrder R}.
Hypothesis R_sco : ∀ st d, R st (recordSiacoinOutputDiff st d).
Hypothesis R_sfo : ∀ st d, R st (recordSiafundOutputDiff st d).
Hypothesis R_pool : ∀ st d, sfpd_Direction d = DiffApply → R st (recordSiafundPoolDiff st d).
Hypothesis R_fc : ∀ st d st', recordFileContractDiff st d = Ok st' → R st st'.
Hypothesis R_dsco : ∀ st d st', recordDelayedSiacoinOutputDiff st d = Ok st' → R st st'.
Hypothesis R_buckets : ∀ tx pb v, R (tx, pb) (set_db_DSCO v tx, pb).
Hypothesis R_expirations : ∀ tx pb v, R (tx, pb) (set_db_FCEX v tx, pb).

Lemma foldM_walk {A} (f : State → A → res State) st l st' :
  (∀ s x s', f s x = Ok s' → R s s') → foldM f st l = Ok st' → R st st'.
Proof. intros Hf. apply foldM_inv; [|done]. intros s x s' _ Hs Hx. etrans; [exact Hs|by eapply Hf]. Qed.

Lemma foldMi_walk {A} (f : Z → State → A → res State) i st l st' :
  (∀ i s x s', f i s x = Ok s' → R s s') → foldMi f i st l = Ok st' → R st st'.
Proof. intros Hf. apply foldMi_inv; [|done]. intros j s x s' _ Hs Hx. etrans; [exact Hs|by eapply Hf]. Qed.

Lemma foldl_walk {A} (f : State → A → State) st l : (∀ s x, R s (f s x)) → R st (foldl f st l).
Proof. intros Hf. revert st. induction l as [|x l IH]; intros st; cbn; [done|]. etrans; [apply Hf|apply IH]. Qed.

Lemma foldl_i_walk {A} (f : Z → State → A → State) i st l :
  (∀ i s x, R s (f i s x)) → R st (foldl (λ '(i, st) x, (i + 1, f i st x)) (i, st) l).2.
Proof. intros Hf. revert i st. induction l as [|x l IH]; intros i st; cbn; [done|]. etrans; [apply (Hf i)|apply IH]. Qed.

(** Splits a monadic run into its steps. *)
Ltac steps :=
  cbv beta zeta in *;
  repeat match goal with
  | H : mbind _ _ = Ok _ |- _ => let s := fresh "s" in let E := fresh "E" in apply bind_Ok in H as (s & E & H)
  | H : Ok _ = Ok _ |- _ => injection H as <-
  end;
  try done; eauto.

Lemma applyTransaction_walk st t st' : applyTransaction st t = Ok st' → R st st'.
Proof.
  unfold applyTransaction. intros H. apply bind_Ok in H as (s1 & E1 & H). apply bind_Ok in H as (s2 & E2 & H).
  apply bind_Ok in H as (s3 & E3 & H). apply bind_Ok in H as (s4 & E4 & H). apply bind_Ok in H as (s5 & E5 & H).
  apply bind_Ok in H as (s6 & E6 & H).
  etrans; [eapply foldM_walk, E1|etrans; [eapply foldMi_walk, E2|etrans; [eapply foldMi_walk, E3|
    etrans; [eapply foldM_walk, E4|etrans; [eapply foldM_walk, E5|etrans; [eapply foldM_walk, E6|eapply foldMi_walk, H]]]]]];
    cbn beta; intros; steps.
  - etrans; [by eapply R_fc|by apply R_pool].
  - etrans; [by eapply R_fc|by eapply R_fc].
  - etrans; [eapply foldMi_walk; [|eassumption]|by eapply R_fc]. cbn beta. intros. steps.
  - etrans; [by eapply R_dsco|apply R_sfo].
Qed.

Lemma applyTransactions_walk st txns st' : applyTransactions st txns = Ok st' → R st st'.
Proof.
  apply foldM_walk. intros s x s' E. apply bind_unit_Ok in E as [_ E]. by eapply applyTransaction_walk.
Qed.

Lemma applyMaintenance_walk st st' : applyMaintenance st = Ok st' → R st st'.
Proof.
  unfold applyMaintenance. intros H. apply bind_Ok in H as (s1 & E1 & H). apply bind_Ok in H as (s2 & E2 & H).
  etrans; [eapply foldMi_walk, E1; cbn beta; intros; steps|]. transitivity s2.
  - unfold applyMaturedSiacoinOutputs in E2. case_match; [by simplify_eq|]. case_match; [|done].
    apply bind_Ok in E2 as (s & E & [= <-]). apply foldM_walk in E; [|intros; steps].
    transitivity s; [|destruct s; apply R_buckets]. etrans; [|exact E]. by apply foldl_walk.
  - unfold applyFileContractMaintenance in H. case_match; [|by simplify_eq].
    apply bind_Ok in H as ([dscods fcds] & _ & H). apply bind_Ok in H as (s & E & H). apply bind_Ok in H as (s' & E' & [= <-]).
    apply foldM_walk in E, E'; [|intros; steps..]. transitivity s'; [by etrans|destruct s'; apply R_expirations].
Qed.

Lemma fixSiafundAllocation_walk st st' : fixSiafundAllocation st = Ok st' → R st st'.
Proof.
  unfold fixSiafundAllocation. intros H. apply bind_Ok in H as (g & _ & [= <-]).
  etrans; [|by apply foldl_walk].
  apply (foldl_i_walk (λ i st x, recordSiafundOutputDiff st
    (mkSFOD DiffRevert (Transaction_SiafundOutputID g i) (mkSFO (NewCurrency64 0) (sfo_UnlockHash x) 0)))). by intros.
Qed.

(** Up to the bookkeeping at its end, [generateAndApplyDiff] is such a walk. *)
Lemma generate_walk tx pb tx' pb' :
  generateAndApplyDiff tx pb = Ok (tx', pb') →
  ∃ st, R (tx, pb) st ∧ pb' = set_pb_DiffsGenerated true st.2 ∧
    tx' = set_db_BlockMap (<[Block_ID (pb_Block st.2) := pb']> (db_BlockMap st.1)) (pushPath st.1 (Block_ID (pb_Block st.2))).
Proof.
  unfold generateAndApplyDiff. intros H. apply bind_Ok in H as (s1 & E1 & H). apply bind_Ok in H as (s2 & E2 & H).
  apply bind_Ok in H as ([tx3 pb3] & E3 & [= <- <-]). exists (tx3, pb3). split; [|done].
  apply applyTransactions_walk in E1. apply applyMaintenance_walk in E2.
  etrans; [|etrans; [exact E1|etrans; [exact E2|case_match; [by apply fixSiafundAllocation_walk|by simplify_eq]]]].
  unfold createDSCOBucket. destruct (db_DSCO tx !! _); [done|apply R_buckets].
Qed.
End walk.

Section frame.
Context `{N : Net} `{C : Crypto}.

(** What recording diffs leaves alone. *)
Definition same_tree (st0 st : State) : Prop :=
  db_BlockHeight st.1 = db_BlockHeight st0.1 ∧ db_BlockPath st.1 = db_BlockPath st0.1 ∧
  db_BlockMap st.1 = db_BlockMap st0.1 ∧ db_Oak st.1 = db_Oak st0.1 ∧ skeleton st.2 = skeleton st0.2 ∧
  pb_DiffsGenerated st.2 = pb_DiffsGenerated st0.2.

#[local] Instance same_tree_po : PreOrder same_tree.
Proof. split; [by intros|]. intros a b c (?&?&?&?&?&?) (?&?&?&?&?&?). unfold same_tree. split_and!; congruence. Qed.

Lemma record_sco_tree st d : same_tree st (recordSiacoinOutputDiff st d).
Proof. destruct st. cbn. unfold commitSiacoinOutputDiff. by case_match. Qed.
Lemma record_sfo_tree st d : same_tree st (recordSiafundOutputDiff st d).
Proof. destruct st. cbn. unfold commitSiafundOutputDiff. by case_match. Qed.
Lemma record_fc_tree st d st' : recordFileContractDiff st d = Ok st' → same_tree st st'.
Proof.
  destruct st. cbn. unfold commitFileContractDiff, removeFileContract. intros E.
  apply bind_Ok in E as (tx & E & [= <-]). repeat case_match; simplify_eq; done.
Qed.
Lemma record_dsco_tree st d st' : recordDelayedSiacoinOutputDiff st d = Ok st' → same_tree st st'.
Proof.
  destruct st. cbn. unfold commitDelayedSiacoinOutputDiff, addDSCO, removeDSCO. intros E.
  apply bind_Ok in E as (tx & E & [= <-]). repeat case_match; simplify_eq; done.
Qed.

Abbreviation pid pb := (Block_ID (pb_Block pb)) (only parsing).

(** Generating the diffs of a block pushes it onto the path and stores it with
    its diffs. *)
Lemma generate_frame tx pb tx' pb' :
  generateAndApplyDiff tx pb = Ok (tx', pb') →
  skeleton pb' = skeleton pb ∧ pb_DiffsGenerated pb' = true ∧
  db_BlockHeight tx' = u64 (db_BlockHeight tx + 1) ∧
  db_BlockPath tx' = <[u64 (db_BlockHeight tx + 1) := pid pb]> (db_BlockPath tx) ∧
  db_BlockMap tx' = <[pid pb := pb']> (db_BlockMap tx) ∧ db_Oak tx' = db_Oak tx.
Proof.
  intros H. destruct (generate_walk same_tree record_sco_tree record_sfo_tree ltac:(by intros []) record_fc_tree record_dsco_tree
    ltac:(done) ltac:(done) _ _ _ _ H) as ([tx3 pb3] & (H1 & H2 & H3 & H4 & H5 & H6) & -> & ->). cbn [fst snd] in *.
  assert (pb_Block pb3 = pb_Block pb) as Eb by exact (f_equal pb_Block H5).
  unfold pushPath. cbn. rewrite H1, H2, H3, H4, Eb. by split_and!.
Qed.

(** ** Committing stored diffs *)

Lemma foldl_db {A B} (g : DB → B) (f : DB → A → DB) tx l : (∀ tx x, g (f tx x) = g tx) → g (foldl f tx l) = g tx.
Proof. intros Hf. revert tx. induction l as [|x l IH]; intros tx; cbn; [done|]. by rewrite IH. Qed.

Lemma foldM_db {A B} (g : DB → B) (f : DB → A → res DB) tx l tx' :
  (∀ tx x tx', f tx x = Ok tx' → g tx' = g tx) → foldM f tx l = Ok tx' → g tx' = g tx.
Proof. intros Hf. apply (foldM_inv (λ t, g t = g tx)); [|done]. intros s x s' _ Hs Hx. by rewrite (Hf _ _ _ Hx). Qed.

(** A part of the database that diffs do not touch. *)
Lemma commitNodeDiffs_frame {B} (g : DB → B) tx pb dir tx' :
  (∀ v tx, g (set_db_SiacoinOutputs v tx) = g tx) → (∀ v tx, g (set_db_FileContracts v tx) = g tx) →
  (∀ v tx, g (set_db_FCEX v tx) = g tx) → (∀ v tx, g (set_db_SiafundOutputs v tx) = g tx) →
  (∀ v tx, g (set_db_DSCO v tx) = g tx) → (∀ v tx, g (set_db_SiafundPool v tx) = g tx) →
  commitNodeDiffs tx pb dir = Ok tx' → g tx' = g tx.
Proof.
  intros G1 G2 G3 G4 G5 G6 H. unfold commitNodeDiffs in H.
  apply bind_Ok in H as (t1 & E1 & H). apply bind_Ok in H as (t2 & E2 & [= <-]).
  rewrite (foldl_db g) by (intros; unfold commitSiafundPoolDiff, setSiafundPool; case_match; apply G6).
  apply (foldM_db g) in E2.
  2: { intros tx0 d tx1. unfold commitDelayedSiacoinOutputDiff, addDSCO, removeDSCO. intros. repeat case_match; simplify_eq; apply G5. }
  rewrite (foldl_db g) in E2
    by (intros; unfold commitSiafundOutputDiff, addSiafundOutput, removeSiafundOutput; case_match; apply G4).
  apply (foldM_db g) in E1.
  2: { intros tx0 d tx1. unfold commitFileContractDiff, addFileContract, removeFileContract. intros.
       repeat case_match; simplify_eq; by rewrite G3, G2. }
  rewrite (foldl_db g) in E1
    by (intros; unfold commitSiacoinOutputDiff, addSiacoinOutput, removeSiacoinOutput; case_match; apply G1).
  congruence.
Qed.

Lemma commitDiffSet_frame {B} (g : DB → B) tx pb dir tx' :
  (∀ v tx, g (set_db_SiacoinOutputs v tx) = g tx) → (∀ v tx, g (set_db_FileContracts v tx) = g tx) →
  (∀ v tx, g (set_db_FCEX v tx) = g tx) → (∀ v tx, g (set_db_SiafundOutputs v tx) = g tx) →
  (∀ v tx, g (set_db_DSCO v tx) = g tx) → (∀ v tx, g (set_db_SiafundPool v tx) = g tx) →
  commitDiffSet tx pb dir = Ok tx' → ∃ tx1, g tx1 = g tx ∧ tx' = updateCurrentPath tx1 pb dir.
Proof.
  intros G1 G2 G3 G4 G5 G6 H. unfold commitDiffSet in H. apply bind_Ok in H as (t1 & E & [= <-]).
  apply (commitNodeDiffs_frame g) in E; [|done..]. eexists. split; [|reflexivity]. etrans; [|etrans; [exact E|]].
  - unfold deleteObsoleteDelayedOutputMaps, deleteDSCOBucket. repeat case_match; by rewrite ?G5.
  - unfold createUpcomingDelayedOutputMaps, createDSCOBucket. repeat case_match; by rewrite ?G5.
Qed.

Lemma commitDiffSet_tree tx pb dir tx' :
  commitDiffSet tx pb dir = Ok tx' →
  db_BlockMap tx' = db_BlockMap tx ∧ db_Oak tx' = db_Oak tx ∧
  if dir then db_BlockHeight tx' = u64 (db_BlockHeight tx + 1) ∧
              db_BlockPath tx' = <[u64 (db_BlockHeight tx + 1) := pid pb]> (db_BlockPath tx)
  else db_BlockHeight tx' = u64 (db_BlockHeight tx - 1) ∧ db_BlockPath tx' = delete (db_BlockHeight tx) (db_BlockPath tx).
Proof.
  intros H.
  destruct (commitDiffSet_frame (λ t, (db_BlockMap t, db_Oak t, db_BlockHeight t, db_BlockPath t)) tx pb dir tx')
    as (t1 & [= E1 E2 E3 E4] & ->); [done..|].
  unfold updateCurrentPath. destruct dir; cbn; rewrite ?E1, ?E2, ?E3, ?E4; done.
Qed.
End frame.

(** ** The block tree under reorganisation *)

Section tree.
Context `{N : Net} `{C : Crypto}.
Abbreviation pid pb := (Block_ID (pb_Block pb)) (only parsing).

(** Every block is stored under its id, and the path only names stored blocks. *)
Record tree_ok (tx : DB) : Prop := {
  to_keyed : map_Forall (λ id pb, pid pb = id) (shape tx);
  to_path h id : db_BlockPath tx !! h = Some id → is_Some (shape tx !! id);
  to_parents : ancestors_stored (shape tx);
}.

(** [pb] is the block stored under its id, up to diffs. *)
Definition known (tx : DB) (pb : processedBlock) : Prop := shape tx !! pid pb = Some (skeleton pb).

Lemma shape_lookup tx id pb : db_BlockMap tx !! id = Some pb → shape tx !! id = Some (skeleton pb).
Proof. intros E. unfold shape. by rewrite lookup_fmap, E. Qed.

Lemma shape_is_Some tx id : is_Some (shape tx !! id) ↔ is_Some (db_BlockMap tx !! id).
Proof. unfold shape. rewrite lookup_fmap. apply fmap_is_Some. Qed.

Lemma known_lookup tx id pb : tree_ok tx → db_BlockMap tx !! id = Some pb → known tx pb ∧ pid pb = id.
Proof.
  intros Hok E. pose proof (shape_lookup _ _ _ E) as Hs. pose proof (to_keyed _ Hok _ _ Hs) as Hid. cbn in Hid.
  unfold known. by rewrite Hid.
Qed.

Lemma push_ok tx tx' pb :
  tree_ok tx → known tx pb → shape tx' = shape tx →
  db_BlockHeight tx' = u64 (db_BlockHeight tx + 1) →
  db_BlockPath tx' = <[u64 (db_BlockHeight tx + 1) := pid pb]> (db_BlockPath tx) →
  tree_ok tx' ∧ currentBlockID tx' = pid pb.
Proof.
  intros Hok Hk Hs Hh Hp. split; [split|].
  - rewrite Hs. apply Hok.
  - intros h id. rewrite Hp, Hs. intros [[_ <-]|[_ Hl]]%lookup_insert_Some; [by rewrite Hk|by eapply to_path].
  - rewrite Hs. apply Hok.
  - unfold currentBlockID, getPath, blockHeight. by rewrite Hh, Hp, lookup_insert_eq.
Qed.

Lemma applyBlocks_tree path dos tx acc dos' tx' acc' :
  tree_ok tx → Forall (known tx) path → applyBlocks dos tx path acc = (dos', Ok (tx', acc')) →
  tree_ok tx' ∧ shape tx' = shape tx ∧ map (λ b, pid b) acc' = map (λ b, pid b) (acc ++ path) ∧
  ∀ b, last path = Some b → currentBlockID tx' = pid b.
Proof.
  revert dos tx acc. induction path as [|b path IH]; intros dos tx acc Hok Hk H; cbn [applyBlocks] in H.
  { injection H as <- <- <-. rewrite app_nil_r. by split_and!. }
  apply Forall_cons in Hk as [Hb Hk].
  assert (∃ dos1 tx1 b1, applyBlocks dos1 tx1 path (acc ++ [b1]) = (dos', Ok (tx', acc')) ∧
    pid b1 = pid b ∧ shape tx1 = shape tx ∧ tree_ok tx1 ∧ currentBlockID tx1 = pid b) as (dos1 & tx1 & b1 & E & Hb1 & Hs & Hok1 & Hc).
  { destruct (pb_DiffsGenerated b).
    - destruct (commitDiffSet tx b DiffApply) as [tx1| |] eqn:E; [|done..].
      destruct (commitDiffSet_tree _ _ _ _ E) as (Hm & _ & Hh & Hp). assert (shape tx1 = shape tx) as Hs by (unfold shape; by rewrite Hm).
      destruct (push_ok tx tx1 b) as [? ?]; [done..|]. by exists dos, tx1, b.
    - destruct (generateAndApplyDiff tx b) as [[tx1 b1]| |] eqn:E; [|done..].
      destruct (generate_frame _ _ _ _ E) as (Hsk & _ & Hh & Hp & Hm & _).
      assert (shape tx1 = shape tx) as Hs.
      { unfold shape. rewrite Hm, fmap_insert, Hsk. by apply insert_id. }
      destruct (push_ok tx tx1 b) as [? ?]; [done..|]. exists dos, tx1, b1. split_and!; try done. exact (f_equal (λ p, pid p) Hsk). }
  destruct (IH _ _ _ Hok1 ltac:(unfold known in *; by rewrite Hs) E) as (I1 & I2 & I3 & I4).
  split_and!; [done|congruence| |].
  - rewrite I3, <- app_assoc, !map_app. cbn. by rewrite Hb1.
  - intros b' Hl. destruct path as [|b2 path]; [|by apply I4]. injection Hl as <-. cbn in E. by injection E as <- <- <-.
Qed.

Lemma revertLoop_tree fuel tx pb acc tx' acc' :
  tree_ok tx → Forall (known tx) acc → revertLoop fuel tx pb acc = Ok (tx', acc') →
  tree_ok tx' ∧ shape tx' = shape tx ∧ Forall (known tx) acc' ∧ db_BlockPath tx' ⊆ db_BlockPath tx.
Proof.
  revert tx acc. induction fuel as [|fuel IH]; intros tx acc Hok Hacc H; cbn [revertLoop] in H; [done|].
  case_bool_decide as E; [injection H as <- <-; by split_and!|].
  apply bind_Ok in H as (b & Hb & H). apply bind_Ok in H as (tx1 & H1 & H).
  destruct (commitDiffSet_tree _ _ _ _ H1) as (Hm & _ & Hh & Hp). assert (shape tx1 = shape tx) as Hs by (unfold shape; by rewrite Hm).
  assert (known tx b) as Hkb.
  { unfold currentProcessedBlock, getBlockMap in Hb. destruct (db_BlockMap tx !! currentBlockID tx) eqn:El; [|done].
    injection Hb as <-. by eapply known_lookup. }
  destruct (IH tx1 (acc ++ [b])) as (I1 & I2 & I3 & I4); [| |done|].
  - split; [rewrite Hs; apply Hok| |rewrite Hs; apply Hok]. intros h id. rewrite Hp, Hs. intros [_ Hl]%lookup_delete_Some. by eapply to_path.
  - apply Forall_app. unfold known in *. rewrite Hs. split; [done|by apply Forall_singleton].
  - split_and!; [done|congruence| |].
    + unfold known in *. by rewrite Hs in I3.
    + etrans; [exact I4|]. rewrite Hp. apply delete_subseteq.
Qed.

Lemma backtrackLoop_tree fuel tx pb acc l :
  tree_ok tx → backtrackLoop fuel tx pb acc = Ok l →
  ∃ pre, l = pre ++ acc ∧ Forall (known tx) pre ∧
    (db_BlockPath tx !! pb_Height pb ≠ Some (pid pb) → pid pb ≠ zeroHash → pre ≠ []).
Proof.
  intros Hok. revert pb acc. induction fuel as [|fuel IH]; intros pb acc H; cbn [backtrackLoop] in H; [done|].
  case_bool_decide as E.
  - injection H as <-. exists []. split_and!; [done|done|]. intros Hne Hz. unfold getPath in E.
    destruct (db_BlockPath tx !! pb_Height pb); congruence.
  - unfold getBlockMap in H. destruct (db_BlockMap tx !! b_ParentID (pb_Block pb)) as [parent|] eqn:El; [|done].
    destruct (IH parent (parent :: acc) H) as (pre & -> & Hk & _). exists (pre ++ [parent]). rewrite <- app_assoc.
    split_and!; [done| |by destruct pre]. apply Forall_app. split; [done|].
    apply Forall_singleton. by eapply known_lookup.
Qed.

(** After a successful reorganisation the new block is the tip. *)
Lemma forkBlockchain_tree dos tx newBlock dos' tx' rs bs :
  tree_ok tx → known tx newBlock → (∀ h, db_BlockPath tx !! h ≠ Some (pid newBlock)) → pid newBlock ≠ zeroHash →
  forkBlockchain dos tx newBlock = (dos', Ok (tx', rs, bs)) →
  tree_ok tx' ∧ shape tx' = shape tx ∧ currentBlockID tx' = pid newBlock ∧
  Forall (known tx) rs ∧ Forall (λ b, is_Some (shape tx !! pid b)) bs ∧ last (map (λ b, pid b) bs) = Some (pid newBlock).
Proof.
  intros Hok Hk Hnew Hz H. unfold forkBlockchain in H.
  destruct (backtrackToCurrentPath tx newBlock) as [path| |] eqn:E1; [|done..]. cbn [mbind res_bind] in H.
  destruct (go_index path 0) as [common| |]; [|done..]. cbn [mbind res_bind] in H.
  destruct (revertToBlock tx common) as [[tx1 rs1]| |] eqn:E2; [|done..].
  destruct (revertLoop_tree _ _ _ _ _ _ Hok ltac:(done) E2) as (Hok1 & Hs1 & Hrs & Hsub).
  unfold applyUntilBlock in H. destruct (backtrackToCurrentPath tx1 newBlock) as [path'| |] eqn:E3; [|done..].
  destruct (backtrackLoop_tree _ _ _ _ _ Hok1 E3) as (pre & -> & Hpre & Hne).
  assert (pre ≠ []) as Hpre0.
  { apply Hne; [|done]. intros Hp. by apply (Hnew (pb_Height newBlock)), (lookup_weaken _ _ _ _ Hp). }
  destruct (applyBlocks dos tx1 (drop 1 (pre ++ [newBlock])) []) as [dos2 r] eqn:E4.
  destruct r as [[tx2 bs2]| |]; cbn [mbind res_bind] in H; [|done..]. injection H as <- <- <- <-.
  assert (∃ pre', drop 1 (pre ++ [newBlock]) = pre' ++ [newBlock] ∧ Forall (known tx1) pre') as (pre' & Ed & Hpre').
  { destruct pre as [|x pre]; [done|]. exists pre. split; [done|]. by apply Forall_cons in Hpre as [_ ?]. }
  rewrite Ed in E4. assert (known tx1 newBlock) as Hk1 by (unfold known in *; congruence).
  destruct (applyBlocks_tree _ _ _ _ _ _ _ Hok1 ltac:(apply Forall_app; split; [done|by apply Forall_singleton]) E4)
    as (I1 & I2 & I3 & I4).
  cbn [app] in I3. split_and!; [done|congruence|apply I4, last_snoc|done| |].
  - apply (proj1 (List.Forall_map (λ b, pid b) (λ i, is_Some (shape tx !! i)) bs2)). rewrite I3.
    apply List.Forall_map. rewrite <- Hs1.
    eapply Forall_impl; [apply Forall_app; split; [exact Hpre'|by apply Forall_singleton]|]. intros b Hb. by rewrite Hb.
  - rewrite I3, map_app. apply last_snoc.
Qed.

Lemma newChild_fields tx parent b tx' child :
  newChild tx parent b = Ok (tx', child) →
  pb_Block child = b ∧ pb_Height child = u64 (pb_Height parent + 1) ∧
  pb_DiffsGenerated child = false ∧ no_diffs child ∧
  db_BlockMap tx' = <[Block_ID b := child]> (db_BlockMap tx) ∧
  db_BlockPath tx' = db_BlockPath tx ∧ db_BlockHeight tx' = db_BlockHeight tx.
Proof.
  unfold newChild. intros H. apply bind_Ok in H as (d & _ & H). apply bind_Ok in H as ([t1 t2] & _ & H).
  apply bind_Ok in H as ([[tx1 ?] ?] & Hst & H). apply bind_Ok in H as (child1 & Hch & [= <- <-]).
  assert (tx1 = set_db_Oak (db_Oak tx1) tx) as ->.
  { unfold storeBlockTotals in Hst. repeat (apply bind_Ok in Hst as (? & _ & Hst)).
    by destruct (u64 _ =? ASICHardforkHeight); injection Hst as <- _ _. }
  assert (∃ t, child1 = set_pb_ChildTarget t (mkPB b (u64 (pb_Height parent + 1)) d zeroHash false [] [] [] [] [] zeroHash)) as (t & ->).
  { case_match; [|apply bind_Ok in Hch as (t & _ & [= <-]); eauto].
    unfold setChildTarget in Hch. case_match; [injection Hch as <-; eauto|]. apply bind_Ok in Hch as (q & _ & [= <-]). eauto. }
  cbn. by split_and!.
Qed.

(** The tree grows by the new block. *)
Lemma newChild_tree tx parent b tx1 child :
  tree_ok tx → shape tx !! Block_ID b = None → is_Some (shape tx !! b_ParentID b) → newChild tx parent b = Ok (tx1, child) →
  shape tx1 = <[Block_ID b := skeleton child]> (shape tx) ∧ currentBlockID tx1 = currentBlockID tx ∧
  shape tx ⊆ shape tx1 ∧ tree_ok tx1 ∧ known tx1 child.
Proof.
  intros Hok Hnew Hpar E1. destruct (newChild_fields _ _ _ _ _ E1) as (Hb & _ & _ & _ & Hm & Hp & Hh).
  assert (shape tx1 = <[Block_ID b := skeleton child]> (shape tx)) as Hs by (unfold shape; by rewrite Hm, fmap_insert).
  assert (currentBlockID tx1 = currentBlockID tx) as Hc by (unfold currentBlockID, getPath, blockHeight; by rewrite Hp, Hh).
  assert (shape tx ⊆ shape tx1) as Hsub by (rewrite Hs; by apply insert_subseteq).
  assert (tree_ok tx1) as Hok1.
  { split; [rewrite Hs; apply map_Forall_insert_2; [cbn; by rewrite Hb|apply Hok]|..].
    - intros h id. rewrite Hp. intros Hl. destruct (to_path _ Hok h id Hl) as [x Hx]. exists x. by eapply lookup_weaken.
    - rewrite Hs. apply map_Forall_insert_2.
      + right. cbn. rewrite Hb, <- Hs. destruct Hpar as [x Hx]. exists x. by eapply lookup_weaken.
      + intros i x Hx. destruct (to_parents _ Hok i x Hx) as [|[y Hy]]; [by left|right; exists y]. rewrite <- Hs. by eapply lookup_weaken. }
  assert (known tx1 child) as Hk by (unfold known; rewrite Hs, Hb; apply lookup_insert_eq).
  done.
Qed.

(** ** Weights *)

(** No known block outweighs the tip. *)
Definition heaviest (tx : DB) : Prop :=
  ∃ tip, shape tx !! currentBlockID tx = Some tip ∧ map_Forall (λ _ pb, heavierThan pb tip = Ok false) (shape tx).

Definition tip_known (tx : DB) : Prop := is_Some (shape tx !! currentBlockID tx).

Definition all_weighed (tx : DB) : Prop := map_Forall (λ _ pb, weighed pb) (shape tx).

Lemma not_heavier_than_heavier x old new :
  weighed old → weighed new → heavierThan new old = Ok true → heavierThan x old = Ok false → heavierThan x new = Ok false.
Proof.
  intros Ho Hn. rewrite !heavierThan_value by done. intros [= L1%Z.ltb_lt] [= L2%Z.ltb_ge].
  pose proof (surpass_le _ Hn). f_equal. apply Z.ltb_ge. lia.
Qed.

Lemma heavierThan_self a : weighed a → heavierThan a a = Ok false.
Proof. intros Ha. rewrite heavierThan_value by done. pose proof (surpass_le _ Ha). f_equal. apply Z.ltb_ge. lia. Qed.

(** What one block does: the tree grows by it, or stays. *)
Lemma addBlockToTree_ok dos tx cl b parent dos' tx' cl' ce :
  tree_ok tx → tip_known tx → shape tx !! Block_ID b = None → Block_ID b ≠ zeroHash → is_Some (shape tx !! b_ParentID b) →
  addBlockToTree dos tx cl b parent = (dos', Ok (tx', cl', ce)) →
  tree_ok tx' ∧ shape tx ⊆ shape tx' ∧ tip_known tx' ∧ (heaviest tx → all_weighed tx' → heaviest tx') ∧
  match ce with
  | None => cl' = cl ∧ currentBlockID tx' = currentBlockID tx
  | Some e => appendChangeLog cl e = Ok cl' ∧ last (ce_AppliedBlocks e) = Some (currentBlockID tx') ∧
      currentBlockID tx' = Block_ID b ∧
      Forall (λ id, is_Some (shape tx' !! id)) (ce_RevertedBlocks e ++ ce_AppliedBlocks e)
  end.
Proof.
  intros Hok Htk Hnew Hz Hpar H. unfold addBlockToTree in H.
  destruct (newChild tx parent b) as [[tx1 child]| |] eqn:E1; [|done..].
  destruct (newChild_fields _ _ _ _ _ E1) as (Hb & _ & _ & _ & _ & Hp & _).
  destruct (newChild_tree _ _ _ _ _ Hok Hnew Hpar E1) as (Hs & Hc & Hsub & Hok1 & Hk).
  destruct Htk as [tip Htip].
  unfold currentProcessedBlock, getBlockMap in H. rewrite Hc in H.
  assert (shape tx1 !! currentBlockID tx = Some tip) as Htip1 by (by eapply lookup_weaken).
  destruct (db_BlockMap tx1 !! currentBlockID tx) as [cur|] eqn:Ecur; [|unfold shape in Htip1; by rewrite lookup_fmap, Ecur in Htip1].
  pose proof (shape_lookup _ _ _ Ecur) as Ecur'. rewrite Htip1 in Ecur'. injection Ecur' as ->. cbn [mbind res_bind] in H.
  destruct (heavierThan child cur) as [[]| |] eqn:Eh; [|injection H as <- <- <- <-|done..].
  2: { split_and!; [done|done|unfold tip_known; rewrite Hc; eauto| |done|done]. intros (tip' & Htip' & Hall) _.
       assert (tip' = skeleton cur) as -> by congruence. exists (skeleton cur). split; [by rewrite Hc|].
       rewrite Hs. apply map_Forall_insert_2; done. }
  destruct (forkBlockchain dos tx1 child) as [dos2 r] eqn:Ef. destruct r as [[[tx2 rs] bs]| |]; cbn [mbind res_bind] in H; [|done..].
  destruct (appendChangeLog cl _) as [cl2| |] eqn:El in H; cbn [mbind res_bind] in H; [|done..]. injection H as <- <- <- <-.
  assert (∀ h, db_BlockPath tx1 !! h ≠ Some (pid child)) as Hfresh.
  { rewrite Hb. intros h Hl. rewrite Hp in Hl. destruct (to_path _ Hok h _ Hl) as [x Hx]. congruence. }
  destruct (forkBlockchain_tree _ _ _ _ _ _ _ Hok1 Hk Hfresh ltac:(by rewrite Hb) Ef) as (I1 & I2 & I3 & I4 & I5 & I6).
  rewrite Hb in I3, I6. split_and!; [done|by rewrite I2|unfold tip_known; rewrite I2, I3, Hs, lookup_insert_eq; eauto| |done|cbn; by rewrite I6, I3|done|].
  - intros (tip' & Htip' & Hall) Hw. assert (tip' = skeleton cur) as -> by congruence. exists (skeleton child). unfold all_weighed in Hw. rewrite I2, Hs in Hw |- *. rewrite I3, lookup_insert_eq. split; [done|].
    pose proof (Hw _ _ (lookup_insert_eq _ _ _)) as Hwc. rewrite Hs in Htip1.
    pose proof (Hw _ _ Htip1) as Hwt. apply map_Forall_insert_2; [by apply heavierThan_self|].
    intros id x Hx. by apply (not_heavier_than_heavier x (skeleton cur)); [done|done|done|apply (Hall id)].
  - cbn. rewrite I2. apply Forall_app. split; apply List.Forall_map; [|exact I5].
    eapply Forall_impl; [exact I4|]. intros x Hx. by rewrite Hx.
Qed.
End tree.

(** ** A set of blocks *)

Section accepting.
Context `{N : Net} `{C : Crypto}.

(** Every block an entry names is known; it applies at least one. *)
Definition entry_known (tx : DB) (e : changeEntry) : Prop :=
  ce_AppliedBlocks e ≠ [] ∧ Forall (λ id, is_Some (shape tx !! id)) (ce_RevertedBlocks e ++ ce_AppliedBlocks e).

(** The last entry ends in the tip. *)
Definition tip_logged (tx : DB) (es : list changeEntry) : Prop :=
  ∃ e, last es = Some e ∧ last (ce_AppliedBlocks e) = Some (currentBlockID tx).

Lemma entry_known_mono tx tx' e : shape tx ⊆ shape tx' → entry_known tx e → entry_known tx' e.
Proof.
  intros Hsub [? Hall]. split; [done|]. eapply Forall_impl; [exact Hall|]. cbn. intros id [x Hx]. exists x. by eapply lookup_weaken.
Qed.

Lemma all_weighed_mono tx tx' : shape tx ⊆ shape tx' → all_weighed tx' → all_weighed tx.
Proof. intros Hsub Hw id pb Hl. apply (Hw id). by eapply lookup_weaken. Qed.

Lemma validateHeaderAndBlock_Ok dos now tx b id parent :
  validateHeaderAndBlock dos now tx b id = Ok parent →
  (id ∉ dos) ∧ db_BlockMap tx !! id = None ∧ db_BlockMap tx !! b_ParentID b = Some parent ∧
  ∃ m, minimumValidChildTimestamp (db_BlockMap tx) parent = Ok m ∧
    ValidateBlock now b id m (pb_ChildTarget parent) (u64 (pb_Height parent + 1)) = Ok ().
Proof.
  unfold validateHeaderAndBlock. intros H. apply bind_unit_Ok in H as [Hd H]. apply bind_unit_Ok in H as [Hk H].
  apply guard_err_Ok, bool_decide_eq_false in Hd, Hk. destruct (db_BlockMap tx !! b_ParentID b) as [pb|]; [|done].
  apply bind_Ok in H as (m & Hm & H). apply bind_unit_Ok in H as [Hv [= <-]].
  split_and!; [done|by apply eq_None_not_Some|done|eauto].
Qed.

(** What the transaction has done when it has looked at some of the blocks. *)
Record progress_ok (pr0 pr : Progress) (new : list changeEntry) : Prop := {
  po_tree : tree_ok (pr_tx pr);
  po_grown : shape (pr_tx pr0) ⊆ shape (pr_tx pr);
  po_tip_known : tip_known (pr_tx pr);
  po_heaviest : heaviest (pr_tx pr0) → all_weighed (pr_tx pr) → heaviest (pr_tx pr);
  po_changes : pr_changes pr = pr_changes pr0 ++ new;
  po_log : foldM appendChangeLog (pr_log pr0) new = Ok (pr_log pr);
  po_known : Forall (entry_known (pr_tx pr)) new;
  po_tip : new ≠ [] → tip_logged (pr_tx pr) new;
  po_still : new = [] → pr_tx pr = with_tree (db_BlockMap (pr_tx pr)) (db_Oak (pr_tx pr)) (pr_tx pr0) ∧
    pr_log pr = pr_log pr0;
}.

Lemma newChild_with_tree tx parent b tx' child :
  newChild tx parent b = Ok (tx', child) → tx' = with_tree (db_BlockMap tx') (db_Oak tx') tx.
Proof.
  unfold newChild. intros H. apply bind_Ok in H as (d & _ & H). apply bind_Ok in H as ([t1 t2] & _ & H).
  apply bind_Ok in H as ([[tx1 ?] ?] & Hst & H). apply bind_Ok in H as (child1 & _ & [= <- <-]).
  unfold storeBlockTotals in Hst. repeat (apply bind_Ok in Hst as (? & _ & Hst)).
  by destruct (u64 _ =? ASICHardforkHeight); injection Hst as <- _ _.
Qed.

Lemma addBlockToTree_still dos tx cl b parent dos' tx' cl' :
  addBlockToTree dos tx cl b parent = (dos', Ok (tx', cl', None)) →
  tx' = with_tree (db_BlockMap tx') (db_Oak tx') tx ∧ cl' = cl.
Proof.
  unfold addBlockToTree. intros H. destruct (newChild tx parent b) as [[tx1 child]| |] eqn:E1; [|done..].
  destruct (_ ≫= _) as [[]| |]; [|injection H as <- <- <-; split; [by eapply newChild_with_tree|done]|done..].
  destruct (forkBlockchain dos tx1 child) as [dos2 [[[tx2 rs] bs]| |]]; cbn [mbind res_bind] in H; [|done..].
  by destruct (appendChangeLog cl _).
Qed.

Lemma acceptOne_ok dos now pr b dos' pr' q :
  tree_ok (pr_tx pr) → tip_known (pr_tx pr) → Block_ID b ≠ zeroHash →
  acceptOne dos now pr b = (dos', Ok pr', q) → ∃ new, progress_ok pr pr' new.
Proof.
  intros Hok Hheavy Hz H. unfold acceptOne in H.
  destruct (validateHeaderAndBlock dos now (pr_tx pr) b (Block_ID b)) as [parent|e|] eqn:Ev; [| |done].
  2: { exists []. assert (pr' = pr) as -> by (by destruct e; simplify_eq). split; try done; [by rewrite app_nil_r|].
       by destruct (pr_tx pr). }
  apply validateHeaderAndBlock_Ok in Ev as (_ & Hnew & Hpar & _).
  destruct (addBlockToTree dos (pr_tx pr) (pr_log pr) b parent) as [dos1 [[[tx1 cl1] ce]| |]] eqn:Ea; [|done..].
  assert (shape (pr_tx pr) !! Block_ID b = None) as Hnew' by (unfold shape; by rewrite lookup_fmap, Hnew).
  assert (is_Some (shape (pr_tx pr) !! b_ParentID b)) as Hpar' by (rewrite shape_is_Some, Hpar; eauto).
  destruct (addBlockToTree_ok _ _ _ _ _ _ _ _ _ Hok Hheavy Hnew' Hz Hpar' Ea) as (I1 & I2 & I3 & I4 & I5).
  destruct ce as [ce|].
  - destruct (len (ce_AppliedBlocks ce) <? len (ce_RevertedBlocks ce)); [done|]. injection H as <- <- <-.
    destruct I5 as (J1 & J2 & J3 & J4). exists [ce]. split; cbn; try done; [by rewrite J1| |by exists ce].
    apply Forall_singleton. split; [|done]. intros E. by rewrite E in J2.
  - injection H as <- <- <-. destruct I5 as (-> & J2). exists []. split; cbn; try done; [by rewrite app_nil_r|].
    intros _. by apply addBlockToTree_still in Ea.
Qed.

Lemma progress_refl pr : tree_ok (pr_tx pr) → tip_known (pr_tx pr) → progress_ok pr pr [].
Proof. intros Hok Hh. split; try done; [by rewrite app_nil_r|]. by destruct (pr_tx pr). Qed.

Lemma progress_trans pr0 pr1 pr2 new new' :
  progress_ok pr0 pr1 new → progress_ok pr1 pr2 new' → progress_ok pr0 pr2 (new ++ new').
Proof.
  intros [A1 A2 A0 A3 A4 A5 A6 A7 A8] [B1 B2 B0 B3 B4 B5 B6 B7 B8]. split; try done.
  - by etrans.
  - intros Hh Hw. apply B3; [|done]. apply A3; [done|]. by eapply all_weighed_mono.
  - by rewrite B4, A4, app_assoc.
  - by rewrite foldM_app, A5.
  - apply Forall_app. split; [|done]. eapply Forall_impl; [exact A6|]. intros e. by apply entry_known_mono.
  - intros Hne. destruct (decide (new' = [])) as [->|Hne'].
    + rewrite app_nil_r in Hne |- *. destruct (A7 Hne) as (e & He & Hl). exists e. split; [done|].
      destruct (B8 eq_refl) as [-> _]. done.
    + destruct (B7 Hne') as (e & He & Hl). exists e. split; [|done]. rewrite last_app, He. done.
  - intros [-> ->]%app_eq_nil. destruct (A8 eq_refl) as [E1 F1], (B8 eq_refl) as [E2 F2]. split; [|congruence].
    rewrite E2 at 1. rewrite E1. by destruct (pr_tx pr0).
Qed.

Lemma acceptLoop_ok blocks dos clock i pr dos' pr' q :
  tree_ok (pr_tx pr) → tip_known (pr_tx pr) → Forall (λ b, Block_ID b ≠ zeroHash) blocks →
  acceptLoop dos clock i pr blocks = (dos', Ok pr', q) → ∃ new, progress_ok pr pr' new.
Proof.
  revert dos i pr. induction blocks as [|b blocks IH]; intros dos i pr Hok Hk Hz H; cbn [acceptLoop] in H.
  { injection H as <- <- <-. exists []. by apply progress_refl. }
  apply Forall_cons in Hz as [Hb Hz]. destruct (acceptOne dos (clock i) pr b) as [[dos1 [pr1| |]] q1] eqn:E; [|done..].
  destruct (acceptOne_ok _ _ _ _ _ _ _ Hok Hk Hb E) as [new1 P1].
  destruct (IH _ _ pr1 (po_tree _ _ _ P1) (po_tip_known _ _ _ P1) Hz H) as [new2 P2].
  exists (new1 ++ new2). by eapply progress_trans.
Qed.

(** *** The blocks that are kept *)

Definition stored_in (tx : DB) (b : Block) : Prop := is_Some (shape tx !! Block_ID b).

Lemma stored_in_mono tx tx' b : shape tx ⊆ shape tx' → stored_in tx b → stored_in tx' b.
Proof. intros Hs [x Hx]. exists x. by eapply lookup_weaken. Qed.

(** The tree of [tx'] is that of [tx] with the given blocks. *)
Record tree_with (tx tx' : DB) (blocks : list Block) : Prop := {
  tw_stored : Forall (stored_in tx') blocks;
  tw_old : ∀ id, is_Some (shape tx !! id) → shape tx' !! id = shape tx !! id;
  tw_only : ∀ id, is_Some (shape tx' !! id) → is_Some (shape tx !! id) ∨ id ∈ Block_ID <$> blocks;
}.

Lemma tree_with_trans tx0 tx1 tx2 l1 l2 : tree_with tx0 tx1 l1 → tree_with tx1 tx2 l2 → tree_with tx0 tx2 (l1 ++ l2).
Proof.
  intros [A1 A2 A3] [B1 B2 B3]. split.
  - apply Forall_app. split; [|done]. eapply Forall_impl; [exact A1|]. intros b Hb. unfold stored_in. by rewrite B2.
  - intros id Hid. rewrite B2, A2; [done|done|by rewrite A2].
  - intros id [Hid|Hid]%B3; rewrite fmap_app, elem_of_app; [|by auto]. destruct (A3 id Hid); auto.
Qed.

Lemma acceptOne_tree_with dos now pr b dos' pr' q :
  tree_ok (pr_tx pr) → Block_ID b ≠ zeroHash → acceptOne dos now pr b = (dos', Ok pr', q) → tree_with (pr_tx pr) (pr_tx pr') [b].
Proof.
  intros Hok Hz H. unfold acceptOne in H.
  destruct (validateHeaderAndBlock dos now (pr_tx pr) b (Block_ID b)) as [parent|e|] eqn:Ev; [| |done].
  2: { destruct e; try done. injection H as <- <- <-. split; [|done|by left]. apply Forall_singleton, shape_is_Some.
       destruct (extends_validateHeaderAndBlock dos now (pr_tx pr) b (Block_ID b)) as [[Hs _]|E]; [done|by rewrite Ev in E]. }
  apply validateHeaderAndBlock_Ok in Ev as (_ & Hnew & Hpar & _).
  destruct (addBlockToTree dos (pr_tx pr) (pr_log pr) b parent) as [dos1 [[[tx1 cl1] ce]| |]] eqn:Ea; [|done..].
  assert (tree_with (pr_tx pr) tx1 [b]) as Hs; [|repeat case_match; simplify_eq; exact Hs].
  unfold addBlockToTree in Ea. destruct (newChild (pr_tx pr) parent b) as [[tx2 child]| |] eqn:E1; [|done..].
  assert (shape (pr_tx pr) !! Block_ID b = None) as Hnew' by (unfold shape; by rewrite lookup_fmap, Hnew).
  assert (is_Some (shape (pr_tx pr) !! b_ParentID b)) as Hpar' by (rewrite shape_is_Some, Hpar; eauto).
  destruct (newChild_fields _ _ _ _ _ E1) as (Hb & _ & _ & _ & _ & Hp & _).
  destruct (newChild_tree _ _ _ _ _ Hok Hnew' Hpar' E1) as (Hs & _ & _ & Hok2 & Hk).
  assert (∀ tx', shape tx' = shape tx2 → tree_with (pr_tx pr) tx' [b]) as Hst.
  { intros tx' Es. split.
    - apply Forall_singleton. unfold stored_in. rewrite Es, Hs, lookup_insert_eq. eauto.
    - intros id Hid. rewrite Es, Hs, lookup_insert_ne; [done|]. intros <-. rewrite Hnew' in Hid. by destruct Hid.
    - intros id. rewrite Es, Hs, lookup_insert_is_Some. intros [<-|[_ ?]]; [right; by left|by left]. }
  destruct (_ ≫= _) as [[]| |] in Ea; [|injection Ea as <- <- <- <-; by apply Hst|done..].
  destruct (forkBlockchain dos tx2 child) as [dos2 [[[tx3 rs] bs]| |]] eqn:Ef; cbn [mbind res_bind] in Ea; [|done..].
  destruct (appendChangeLog _ _) in Ea; cbn [mbind res_bind] in Ea; [|done..]. injection Ea as <- <- <- <-.
  assert (∀ h, db_BlockPath tx2 !! h ≠ Some (Block_ID (pb_Block child))) as Hfresh.
  { rewrite Hb. intros h Hl. rewrite Hp in Hl. destruct (to_path _ Hok h _ Hl) as [x Hx]. congruence. }
  destruct (forkBlockchain_tree _ _ _ _ _ _ _ Hok2 Hk Hfresh ltac:(by rewrite Hb) Ef) as (_ & Hs2 & _). by apply Hst.
Qed.

Lemma acceptLoop_tree_with blocks dos clock i pr dos' pr' q :
  tree_ok (pr_tx pr) → tip_known (pr_tx pr) → Forall (λ b, Block_ID b ≠ zeroHash) blocks →
  acceptLoop dos clock i pr blocks = (dos', Ok pr', q) → tree_with (pr_tx pr) (pr_tx pr') blocks.
Proof.
  revert dos i pr. induction blocks as [|b blocks IH]; intros dos i pr Hok Hk Hz H; cbn [acceptLoop] in H.
  { injection H as <- <- <-. by split; [constructor| |left]. }
  apply Forall_cons in Hz as [Hb Hz]. destruct (acceptOne dos (clock i) pr b) as [[dos1 [pr1| |]] q1] eqn:E; [|done..].
  destruct (acceptOne_ok _ _ _ _ _ _ _ Hok Hk Hb E) as [new1 P1]. apply (tree_with_trans _ (pr_tx pr1) _ [b]).
  - by eapply acceptOne_tree_with.
  - by eapply (IH _ _ pr1); [apply P1..| |].
Qed.

(** *** Deliveries *)

Lemma lookup_all {A} (m : gmap BlockID A) ids :
  Forall (λ id, is_Some (m !! id)) ids → ∃ xs, Forall2 (λ id x, m !! id = Some x) ids xs.
Proof. induction 1 as [|id ids [x Hx] _ [xs IH]]; [by exists []|]. exists (x :: xs). by constructor. Qed.

Lemma entry_known_stored tx e : entry_known tx e → entry_stored tx e.
Proof.
  intros [Hne Hall]. assert (Forall (λ id, is_Some (db_BlockMap tx !! id)) (ce_RevertedBlocks e ++ ce_AppliedBlocks e)) as Hall'.
  { eapply Forall_impl; [exact Hall|]. intros id. apply shape_is_Some. }
  apply Forall_app in Hall' as [(rs & Hr)%lookup_all (bs & Hb)%lookup_all].
  destruct bs as [|tip bs _] using rev_ind; [by apply Forall2_nil_inv_r in Hb|]. by exists rs, bs, tip.
Qed.

Lemma shape_ancestors tx : ancestors_stored (shape tx) → ancestors_stored (db_BlockMap tx).
Proof.
  intros Ha id pb Hl. destruct (Ha id (skeleton pb) (shape_lookup _ _ _ Hl)) as [|Hs]; [by left|right]. by apply shape_is_Some.
Qed.

Lemma deliver v subs new :
  Forall (entry_known (v_tx v)) new → tree_ok (v_tx v) →
  ∃ ccs, Forall2 (λ e cc, computeConsensusChange (v_synced v) (v_tx v) e = Ok cc) new ccs ∧
    ∀ acc, foldM (λ sent ce, ds ← updateSubscribers v subs ce; Ok (sent ++ ds)) acc new =
      Ok (acc ++ concat (map (λ cc, map (λ s : nat, (s, cc)) subs) ccs)).
Proof.
  intros Hk Hok. induction Hk as [|e new He _ (ccs & Hccs & IH)].
  { exists []. split; [done|]. intros acc. cbn. by rewrite app_nil_r. }
  destruct (computeConsensusChange_total (v_synced v) (v_tx v) e (entry_known_stored _ _ He) (shape_ancestors _ (to_parents _ Hok)))
    as [cc Hcc].
  exists (cc :: ccs). split; [by constructor|]. intros acc. cbn [foldM].
  assert (updateSubscribers v subs e = Ok (map (λ s : nat, (s, cc)) subs)) as ->.
  { unfold updateSubscribers. destruct subs; [done|]. by rewrite Hcc. }
  cbn [mbind res_bind]. rewrite IH. cbn [map concat]. by rewrite <- app_assoc.
Qed.
End accepting.

(** ** Main properties *)

(** What the consensus set guarantees between calls. *)
Definition node_ok `{N : Net} `{C : Crypto} (cs : ConsensusSet) : Prop :=
  tree_ok (cs_db cs) ∧ heaviest (cs_db cs).

(** The change log lists the changes up to the tip. *)
Definition log_ok `{N : Net} `{C : Crypto} (holds : ChangeLog → list changeEntry → Prop) (cs : ConsensusSet)
    (es : list changeEntry) : Prop :=
  holds (cs_log cs) es ∧ Forall (entry_known (cs_db cs)) es ∧ tip_logged (cs_db cs) es.

Lemma heaviest_tip_known `{N : Net} `{C : Crypto} tx : heaviest tx → tip_known tx.
Proof. intros (tip & Ht & _). unfold tip_known. eauto. Qed.

(** What any sequence of calls does to the block tree. *)
Record evolves `{N : Net} `{C : Crypto} (cs cs' : ConsensusSet) : Prop := {
  ev_tree : tree_ok (cs_db cs) → tip_known (cs_db cs) → tree_ok (cs_db cs') ∧ tip_known (cs_db cs');
  ev_grown : tree_ok (cs_db cs) → tip_known (cs_db cs) → shape (cs_db cs) ⊆ shape (cs_db cs');
  ev_heaviest : tree_ok (cs_db cs) → heaviest (cs_db cs) → all_weighed (cs_db cs') → heaviest (cs_db cs');
}.

#[global] Instance evolves_po `{N : Net} `{C : Crypto} : PreOrder evolves.
Proof.
  split; [by split|]. intros a b c [A1 A2 A3] [B1 B2 B3]. split.
  - intros H1 H2. destruct (A1 H1 H2). by apply B1.
  - intros H1 H2. destruct (A1 H1 H2). etrans; [by apply A2|by apply B2].
  - intros H1 H2 Hw. destruct (A1 H1 (heaviest_tip_known _ H2)). apply B3; [done| |done]. apply A3; [done..|].
    eapply all_weighed_mono; [by apply B2|done].
Qed.

Lemma managedAcceptBlocks_evolves `{N : Net} `{C : Crypto} cs clock blocks :
  Forall (λ b, Block_ID b ≠ zeroHash) blocks → evolves cs (out_cs (managedAcceptBlocks cs clock blocks)).
Proof.
  intros Hz. unfold managedAcceptBlocks. destruct (negb (contiguous blocks)); [done|].
  destruct (acceptLoop _ clock 0 _ blocks) as [[dos' [pr'| |]] q] eqn:E; [|by split..].
  assert (evolves cs (mkCS (pr_tx pr') (pr_log pr') dos' (cs_synced cs) (cs_subscribers cs))) as Hev.
  { assert (tree_ok (cs_db cs) → tip_known (cs_db cs) → ∃ new, progress_ok (mkProgress (cs_db cs) (cs_log cs) []) pr' new) as HP.
    { intros H1 H2. by apply (acceptLoop_ok _ _ _ _ (mkProgress (cs_db cs) (cs_log cs) []) _ _ _ H1 H2 Hz E). }
    split; [intros H1 H2; destruct (HP H1 H2) as [new []]; done..|]. intros H1 H2 Hw.
    destruct (HP H1 (heaviest_tip_known _ H2)) as [new P]. by apply (po_heaviest _ _ _ P). }
  cbv zeta. repeat case_match; exact Hev.
Qed.

(** The blocks are stored, or the call fails with another error. *)
Lemma managedAcceptBlocks_stored `{N : Net} `{C : Crypto} cs clock blocks :
  tree_ok (cs_db cs) → tip_known (cs_db cs) → Forall (λ b, Block_ID b ≠ zeroHash) blocks →
  let out := managedAcceptBlocks cs clock blocks in
  match out_result out with
  | Ok _ | Err ErrNonExtendingBlock => tree_with (cs_db cs) (cs_db (out_cs out)) blocks
  | Err ErrBlockKnown => False
  | _ => True
  end.
Proof.
  intros Hok Hk Hz. unfold managedAcceptBlocks. destruct (negb (contiguous blocks)); [done|].
  pose proof (acceptLoop_extends (cs_dosBlocks cs) clock 0 (mkProgress (cs_db cs) (cs_log cs) []) blocks) as He.
  destruct (acceptLoop _ clock 0 _ blocks) as [[dos' [pr'| |]] q] eqn:E; [|by destruct e|done].
  pose proof (acceptLoop_tree_with _ _ _ _ (mkProgress (cs_db cs) (cs_log cs) []) _ _ _ Hok Hk Hz E) as Hst.
  destruct (acceptLoop_ok _ _ _ _ (mkProgress (cs_db cs) (cs_log cs) []) _ _ _ Hok Hk Hz E) as [new P].
  pose proof (po_changes _ _ _ P) as Hc. cbn [pr_changes app] in Hc. rewrite Hc. cbv zeta. cbn [cs_db cs_log cs_synced cs_subscribers].
  destruct (deliver (mkView (pr_tx pr') (pr_log pr') (cs_synced cs)) (cs_subscribers cs) new (po_known _ _ _ P) (po_tree _ _ _ P))
    as (ccs & _ & Hd).
  destruct new; [done|]. by rewrite (Hd []).
Qed.

(** The variable [changes] of [managedAcceptBlocks]. *)
Definition changes_made `{N : Net} `{C : Crypto} (cs : ConsensusSet) (clock : nat → Timestamp) (blocks : list Block) : list changeEntry :=
  match acceptLoop (cs_dosBlocks cs) clock 0 (mkProgress (cs_db cs) (cs_log cs) []) blocks with
  | (_, Ok pr, _) => pr_changes pr
  | _ => []
  end.

(** C1: The node follows the heaviest chain.  Whatever set of blocks it is
    offered, and whether it accepts them, stores them on a side branch or
    rejects them, afterwards again every block is stored under its id below
    its stored parent, the current path consists of stored blocks, and no
    known block outweighs the tip (by more than the surpass threshold). *)
Theorem tip_stays_heaviest `{N : Net} `{C : Crypto} (cs : ConsensusSet) (clock : nat → Timestamp) (blocks : list Block) :
  node_ok cs → Forall (λ b, Block_ID b ≠ zeroHash) blocks →
  let cs' := out_cs (managedAcceptBlocks cs clock blocks) in
  all_weighed (cs_db cs') → node_ok cs'.
Proof.
  intros [Hok Hh] Hz cs' Hw. destruct (managedAcceptBlocks_evolves cs clock blocks Hz) as [E1 _ E3].
  split; [by apply E1, heaviest_tip_known|by apply E3].
Qed.

(** C18: When the chain is extended, the changes made are appended to the log
    and then sent to every subscriber, in the order of the log; every block that
    an entry of the log mentions is stored, and the last entry ends in the new
    tip.  That the log is then the old list followed by the new entries needs
    that no two entries have the same hash (which is their key) and none has the
    zero hash (which ends the list). *)
Theorem changes_logged_and_sent `{N : Net} `{C : Crypto} `{!CryptoLaws C} (cs : ConsensusSet) (clock : nat → Timestamp)
    (blocks : list Block) (es : list changeEntry) :
  node_ok cs → log_ok log_of cs es → Forall (λ b, Block_ID b ≠ zeroHash) blocks →
  let out := managedAcceptBlocks cs clock blocks in
  let new := changes_made cs clock blocks in
  out_result out = Ok true →
  (new ≠ [] ∧ foldM appendChangeLog (cs_log cs) new = Ok (cs_log (out_cs out)) ∧
   Forall (entry_known (cs_db (out_cs out))) (es ++ new) ∧ tip_logged (cs_db (out_cs out)) (es ++ new)) ∧
  (∃ ccs, Forall2 (λ e cc, computeConsensusChange (cs_synced cs) (cs_db (out_cs out)) e = Ok cc) new ccs ∧
     out_deliveries out = concat (map (λ cc, map (λ s, (s, cc)) (cs_subscribers cs)) ccs)) ∧
  (NoDup (changeEntry_ID <$> es ++ new) → Forall (λ e, changeEntry_ID e ≠ zeroHash) new →
   log_of (cs_log (out_cs out)) (es ++ new)).
Proof.
  intros [Hok Hh] (Hl & Hek & _) Hz out new. unfold out, new, changes_made, managedAcceptBlocks. clear out new.
  destruct (negb (contiguous blocks)); [done|].
  destruct (acceptLoop _ clock 0 _ blocks) as [[dos' [pr'| |]] q] eqn:E; [|done..].
  destruct (acceptLoop_ok _ _ _ _ (mkProgress (cs_db cs) (cs_log cs) []) _ _ _ Hok (heaviest_tip_known _ Hh) Hz E) as [new P].
  cbv zeta. cbn [cs_db cs_log cs_synced cs_subscribers].
  destruct (deliver (mkView (pr_tx pr') (pr_log pr') (cs_synced cs)) (cs_subscribers cs) new (po_known _ _ _ P) (po_tree _ _ _ P))
    as (ccs & Hccs & Hd).
  pose proof (po_changes _ _ _ P) as Hc. pose proof (po_log _ _ _ P) as Ep. cbn [pr_changes pr_log app] in Hc, Ep. rewrite Hc.
  destruct new as [|e new]; [done|]. rewrite (Hd []). intros _. cbn [out_cs out_deliveries cs_db cs_log app]. split_and!; try done.
  - apply Forall_app. split; [|apply P]. eapply Forall_impl; [exact Hek|]. intros x. apply entry_known_mono, (po_grown _ _ _ P).
  - destruct (po_tip _ _ _ P ltac:(done)) as (x & Hx & Ht). exists x. split; [|done]. by rewrite last_app, Hx.
  - by exists ccs.
  - intros Hnd Hnz. destruct (log_appends _ _ (e :: new) Hl Hnd Hnz) as (cl' & El & Hl'). rewrite El in Ep. by injection Ep as <-.
Qed.

(** C29: Blocks that do not extend the chain are kept, and nothing else changes.
    When a call ends with [ErrNonExtendingBlock], the tree has exactly the
    offered blocks in addition (those it knew already are as they were), and
    the current path, the outputs, the contracts and the log are unchanged and
    nobody is notified.  With any other error the database transaction is
    rolled back, which leaves the tree as it was too. *)
Theorem nonextending_blocks_kept `{N : Net} `{C : Crypto} (cs : ConsensusSet) (clock : nat → Timestamp)
    (blocks : list Block) (e : error) :
  node_ok cs → Forall (λ b, Block_ID b ≠ zeroHash) blocks →
  let out := managedAcceptBlocks cs clock blocks in
  out_result out = Err e →
  (e = ErrNonExtendingBlock → tree_with (cs_db cs) (cs_db (out_cs out)) blocks ∧
     cs_db (out_cs out) = with_tree (db_BlockMap (cs_db (out_cs out))) (db_Oak (cs_db (out_cs out))) (cs_db cs)) ∧
  (e ≠ ErrNonExtendingBlock → cs_db (out_cs out) = cs_db cs) ∧
  cs_log (out_cs out) = cs_log cs ∧ out_deliveries out = [].
Proof.
  intros [Hok Hh] Hz out Hout. pose proof (managedAcceptBlocks_stored cs clock blocks Hok (heaviest_tip_known _ Hh) Hz) as Hst.
  cbv zeta in Hst. fold out in Hst. rewrite Hout in Hst.
  assert ((e = ErrNonExtendingBlock →
      cs_db (out_cs out) = with_tree (db_BlockMap (cs_db (out_cs out))) (db_Oak (cs_db (out_cs out))) (cs_db cs)) ∧
    (e ≠ ErrNonExtendingBlock → cs_db (out_cs out) = cs_db cs) ∧
    cs_log (out_cs out) = cs_log cs ∧ out_deliveries out = []) as (H1 & H2 & H3 & H4); [|split; [by intros ->; auto|done]].
  clear Hst. revert Hout. unfold out, managedAcceptBlocks. clear out.
  assert (cs_db cs = with_tree (db_BlockMap (cs_db cs)) (db_Oak (cs_db cs)) (cs_db cs)) as Eta by (by destruct (cs_db cs)).
  destruct (negb (contiguous blocks)); [by intros [= <-]|].
  destruct (acceptLoop _ clock 0 _ blocks) as [[dos' [pr'| |]] q] eqn:E; [|by intros [= <-]|done].
  destruct (acceptLoop_ok _ _ _ _ (mkProgress (cs_db cs) (cs_log cs) []) _ _ _ Hok (heaviest_tip_known _ Hh) Hz E) as [new P].
  cbv zeta. cbn [cs_db cs_log cs_synced cs_subscribers].
  destruct (deliver (mkView (pr_tx pr') (pr_log pr') (cs_synced cs)) (cs_subscribers cs) new (po_known _ _ _ P) (po_tree _ _ _ P))
    as (ccs & _ & Hd).
  pose proof (po_changes _ _ _ P) as Hc. cbn [pr_changes app] in Hc. rewrite Hc.
  destruct new as [|x new]; [|by rewrite (Hd [])]. intros [= <-]. cbn. by destruct (po_still _ _ _ P eq_refl) as [E1 E2].
Qed.

(** ** Witnesses *)

(** The example block of [BlockDiffs] is offered to a node at its parent. *)
Module example_node.
Definition entries : list changeEntry := [mkEntry [] [example.parentID]].
Definition cs : ConsensusSet :=
  mkCS example.tip (mkLog (nodes_of entries) (changeEntry_ID <$> last entries)) ∅ true [7%nat].
Definition clock (i : nat) : Timestamp := 1999500000.
Definition out : Outcome := managedAcceptBlocks cs clock [example.block].
(** The same block offered too early: its timestamp is in the extreme future. *)
Definition early (i : nat) : Timestamp := 1990000000.

Lemma ids : Forall (λ b, Block_ID b ≠ zeroHash) [example.block].
Proof. vm_decide. Qed.

Lemma tree : tree_ok example.tip.
Proof.
  split; [vm_decide| |unfold ancestors_stored; vm_decide].
  intros h id Hl. change (({[20 := example.parentID]} : gmap BlockHeight BlockID) !! h = Some id) in Hl.
  apply lookup_singleton_Some in Hl as [_ <-]. vm_decide.
Qed.

Lemma node_example_ok : node_ok cs.
Proof. split; [exact tree|]. exists (skeleton example.parent). split; [vm_compute; reflexivity|vm_decide]. Qed.

Lemma logged : log_ok log_of cs entries.
Proof.
  split_and!; [split_and!; [done|vm_decide|vm_decide]| |].
  - apply Forall_singleton. split; [done|]. apply Forall_singleton. vm_decide.
  - exists (mkEntry [] [example.parentID]). split; [done|]. vm_compute. reflexivity.
Qed.
End example_node.

Lemma tip_stays_heaviest_witness : node_ok (out_cs example_node.out).
Proof.
  apply (tip_stays_heaviest example_node.cs example_node.clock [example.block] example_node.node_example_ok example_node.ids).
  unfold all_weighed. vm_decide.
Defined.

Lemma changes_logged_and_sent_witness :
  let new := changes_made example_node.cs example_node.clock [example.block] in
  length new = 1%nat ∧ log_of (cs_log (out_cs example_node.out)) (example_node.entries ++ new) ∧
  ∃ ccs, length ccs = 1%nat ∧ out_deliveries example_node.out = concat (map (λ cc, [(7%nat, cc)]) ccs).
Proof.
  destruct (changes_logged_and_sent (CryptoLaws0 := toyCrypto_laws) example_node.cs example_node.clock [example.block]
    example_node.entries example_node.node_example_ok example_node.logged example_node.ids) as (_ & (ccs & Hccs & Hd) & Hlog).
  { vm_compute. reflexivity. }
  split; [vm_compute; reflexivity|]. split; [apply Hlog; vm_decide|].
  exists ccs. split; [|exact Hd]. rewrite <- (Forall2_length _ _ _ Hccs). vm_compute. reflexivity.
Defined.

(** A second child of the same parent, offered when the first is the tip. *)
Module example_side.
Definition cs : ConsensusSet := out_cs example_node.out.
Definition block : Block :=
  let dev := example.supply (CalculateDevSubsidy 21) in
  mkBlock example.parentID (x01 :: replicate 7 x00) 1999000003
    [mkSCO (CalculateCoinbase 21 - dev) example.anyoneHash; mkSCO dev (example.key x0d)] [].

Lemma side_ids : Forall (λ b, Block_ID b ≠ zeroHash) [block].
Proof. vm_decide. Qed.

Lemma node_side_ok : node_ok cs.
Proof.
  destruct (managedAcceptBlocks_evolves example_node.cs example_node.clock [example.block] example_node.ids) as [H1 _ H3].
  destruct example_node.node_example_ok as [Hok Hh]. split; [by apply H1, heaviest_tip_known|apply H3; [done..|]].
  unfold all_weighed. vm_decide.
Qed.
End example_side.

Lemma nonextending_blocks_kept_witness :
  let cs' := out_cs (managedAcceptBlocks example_side.cs example_node.clock [example_side.block]) in
  stored_in (cs_db cs') example_side.block ∧ stored_in (cs_db cs') example.block ∧
  currentBlockID (cs_db cs') = Block_ID example.block ∧ cs_log cs' = cs_log example_side.cs.
Proof.
  cbv zeta. destruct (nonextending_blocks_kept example_side.cs example_node.clock [example_side.block] ErrNonExtendingBlock
    example_side.node_side_ok example_side.side_ids) as (H & _ & Hlog & _); [vm_compute; reflexivity|].
  destruct (H eq_refl) as [Ht E]. split; [exact (Forall_inv (tw_stored _ _ _ Ht))|]. split.
  - unfold stored_in. rewrite (tw_old _ _ _ Ht); vm_decide.
  - split; [rewrite E; vm_compute; reflexivity|exact Hlog].
Defined.
