(* ===== verification/Replay.v ===== *)
(** * Replaying consensus changes

    What a [ConsensusChange] promises to the modules that subscribe: a module
    that keeps its own copy of the outputs, contracts and the siafund pool, and
    applies the diffs it is sent, one after the other, always has the ledger of
    the consensus set.  This needs that the blocks the log names still carry the
    diffs that were committed when they were applied or reverted ([replay_ok]). *)

From S2P Require Import Prelude Encoding Currency Target Crypto Types Codec Block Signatures ValidTransaction ConsensusDB BlockValidation Difficulty ConsensusValid MapDiffs Diffs ApplyTransaction BlockDiffs Fork Changelog Subscribe Accept Heaviest.

(** ** A subscriber's copy *)

Record Ledger := mkLedger {
  l_SiacoinOutputs : gmap SiacoinOutputID SiacoinOutput;
  l_FileContracts : gmap FileContractID FileContract;
  l_SiafundOutputs : gmap SiafundOutputID SiafundOutput;
  l_SiafundPool : Currency;
}.

Definition ledger_of (tx : DB) : Ledger :=
  mkLedger (db_SiacoinOutputs tx) (db_FileContracts tx) (db_SiafundOutputs tx) (db_SiafundPool tx).

Definition pool_replay (pool : Currency) (l : list SiafundPoolDiff) : Currency :=
  foldl (λ _ d, if sfpd_Direction d then sfpd_Adjusted d else sfpd_Previous d) pool l.

(** Every diff in the direction it carries. *)
Definition replay (l : Ledger) (scods : list SiacoinOutputDiff) (fcds : list FileContractDiff)
    (sfods : list SiafundOutputDiff) (sfpds : list SiafundPoolDiff) : Ledger :=
  mkLedger (sco_run true (l_SiacoinOutputs l) scods) (fc_run true (l_FileContracts l) fcds)
    (sfo_run true (l_SiafundOutputs l) sfods) (pool_replay (l_SiafundPool l) sfpds).

Definition processChange (l : Ledger) (cc : ConsensusChange) : Ledger :=
  replay l (cc_SiacoinOutputDiffs cc) (cc_FileContractDiffs cc) (cc_SiafundOutputDiffs cc) (cc_SiafundPoolDiffs cc).

Definition apply_block (l : Ledger) (pb : processedBlock) : Ledger :=
  replay l (pb_SiacoinOutputDiffs pb) (pb_FileContractDiffs pb) (pb_SiafundOutputDiffs pb) (pb_SiafundPoolDiffs pb).

Definition revert_block (l : Ledger) (pb : processedBlock) : Ledger :=
  replay l (map flip_scod (rev (pb_SiacoinOutputDiffs pb))) (map flip_fcd (rev (pb_FileContractDiffs pb)))
    (map flip_sfod (rev (pb_SiafundOutputDiffs pb))) (map revert_sfpd (rev (pb_SiafundPoolDiffs pb))).

Lemma replay_app l a1 a2 b1 b2 c1 c2 d1 d2 :
  replay l (a1 ++ a2) (b1 ++ b2) (c1 ++ c2) (d1 ++ d2) = replay (replay l a1 b1 c1 d1) a2 b2 c2 d2.
Proof. unfold replay, pool_replay, sco_run, fc_run, sfo_run. by rewrite !kv_run_app, foldl_app. Qed.

Lemma replay_nil l : replay l [] [] [] [] = l.
Proof. by destruct l. Qed.

Lemma replay_applied l bs :
  replay l (concat (map pb_SiacoinOutputDiffs bs)) (concat (map pb_FileContractDiffs bs))
    (concat (map pb_SiafundOutputDiffs bs)) (concat (map pb_SiafundPoolDiffs bs)) = foldl apply_block l bs.
Proof.
  revert l. induction bs as [|b bs IH]; intros l; cbn [map concat foldl]; [apply replay_nil|]. by rewrite replay_app, IH.
Qed.

Lemma replay_reverted l rs :
  replay l (concat (map (λ pb, map flip_scod (rev (pb_SiacoinOutputDiffs pb))) rs))
    (concat (map (λ pb, map flip_fcd (rev (pb_FileContractDiffs pb))) rs))
    (concat (map (λ pb, map flip_sfod (rev (pb_SiafundOutputDiffs pb))) rs))
    (concat (map (λ pb, map revert_sfpd (rev (pb_SiafundPoolDiffs pb))) rs)) = foldl revert_block l rs.
Proof.
  revert l. induction rs as [|b rs IH]; intros l; cbn [map concat foldl]; [apply replay_nil|]. by rewrite replay_app, IH.
Qed.

(** Running flipped diffs forward is running them backward. *)
Lemma kv_run_flip {K V D} `{Countable K} (dirOf : D → bool) (keyOf : D → K) (valOf : D → V) (fl : D → D) m l :
  (∀ d, dirOf (fl d) = negb (dirOf d) ∧ keyOf (fl d) = keyOf d ∧ valOf (fl d) = valOf d) →
  kv_run dirOf keyOf valOf true m (map fl l) = kv_run dirOf keyOf valOf false m l.
Proof.
  intros Hf. revert m. induction l as [|d l IH]; intros m; [done|]. cbn [map]. unfold kv_run in *. cbn [foldl]. rewrite IH.
  f_equal. unfold kv_step. destruct (Hf d) as (-> & -> & ->). by destruct (dirOf d).
Qed.

Section replay.
Context `{N : Net} `{C : Crypto}.
Abbreviation pid pb := (Block_ID (pb_Block pb)) (only parsing).

(** The pool diffs of a block are recorded in the direction of applying it. *)
Definition pool_dirs (pb : processedBlock) : Prop := Forall (λ d, sfpd_Direction d = true) (pb_SiafundPoolDiffs pb).

(** *** Committing stored diffs *)

Lemma commit_fc_list dir tx l tx' :
  foldM (λ tx d, commitFileContractDiff tx d dir) tx l = Ok tx' →
  ∃ ex, tx' = set_db_FCEX ex (set_db_FileContracts (fc_run dir (db_FileContracts tx) l) tx).
Proof.
  revert tx. induction l as [|d l IH]; intros tx H.
  { injection H as <-. exists (db_FCEX tx). by destruct tx. }
  cbn [foldM] in H. apply bind_Ok in H as (tx1 & H1 & H). apply commit_fc_inv in H1 as (ex1 & ->).
  destruct (IH _ H) as (ex & ->). exists ex. by destruct tx.
Qed.

Lemma pool_apply pool l : Forall (λ d, sfpd_Direction d = true) l → pool_replay pool l = pool_run true pool l.
Proof. intros Hl. revert pool. induction Hl as [|d l Hd _ IH]; intros pool; [done|]. cbn. rewrite Hd. apply IH. Qed.

Lemma pool_revert_map pool l : pool_replay pool (map revert_sfpd l) = pool_run false pool l.
Proof. revert pool. induction l as [|d l IH]; intros pool; [done|]. apply IH. Qed.

Lemma commitNodeDiffs_ledger tx pb dir tx' :
  commitNodeDiffs tx pb dir = Ok tx' →
  ledger_of tx' = mkLedger (sco_run dir (db_SiacoinOutputs tx) (commit_order dir (pb_SiacoinOutputDiffs pb)))
    (fc_run dir (db_FileContracts tx) (commit_order dir (pb_FileContractDiffs pb)))
    (sfo_run dir (db_SiafundOutputs tx) (commit_order dir (pb_SiafundOutputDiffs pb)))
    (pool_run dir (db_SiafundPool tx) (commit_order dir (pb_SiafundPoolDiffs pb))).
Proof.
  unfold commitNodeDiffs. rewrite commit_sco_run. intros H. apply bind_Ok in H as (t1 & E1 & H).
  apply commit_fc_list in E1 as (ex & ->). rewrite commit_sfo_run, commit_dsco_run in H.
  apply bind_Ok in H as (t2 & E2 & [= <-]). apply bind_Ok in E2 as (ds & _ & [= <-]). by rewrite commit_pool_run.
Qed.

Lemma commitDiffSet_ledger tx pb dir tx' :
  commitDiffSet tx pb dir = Ok tx' → pool_dirs pb →
  ledger_of tx' = if dir then apply_block (ledger_of tx) pb else revert_block (ledger_of tx) pb.
Proof.
  intros H Hp. unfold commitDiffSet in H. apply bind_Ok in H as (t1 & H & [= <-]).
  assert (ledger_of (createUpcomingDelayedOutputMaps tx pb dir) = ledger_of tx) as E0.
  { unfold createUpcomingDelayedOutputMaps, createDSCOBucket. by repeat case_match. }
  transitivity (ledger_of t1); [unfold updateCurrentPath, deleteObsoleteDelayedOutputMaps; by repeat case_match|].
  rewrite (commitNodeDiffs_ledger _ _ _ _ H). injection E0 as -> -> -> ->.
  destruct dir; unfold apply_block, revert_block, replay; cbn [commit_order l_SiacoinOutputs l_FileContracts l_SiafundOutputs l_SiafundPool ledger_of].
  - by rewrite pool_apply.
  - rewrite pool_revert_map. unfold sco_run, fc_run, sfo_run. by rewrite !kv_run_flip.
Qed.

(** *** Generating diffs *)

(** The ledger is the base with the diffs recorded so far applied. *)
Definition recorded (base : Ledger) (st : State) : Prop :=
  ledger_of st.1 = apply_block base st.2 ∧ pool_dirs st.2.

(** One more diff, in the ledger and in the block. *)
Lemma recorded_step base st st' a b c d :
  recorded base st → ledger_of st'.1 = replay (ledger_of st.1) a b c d →
  pb_SiacoinOutputDiffs st'.2 = pb_SiacoinOutputDiffs st.2 ++ a → pb_FileContractDiffs st'.2 = pb_FileContractDiffs st.2 ++ b →
  pb_SiafundOutputDiffs st'.2 = pb_SiafundOutputDiffs st.2 ++ c → pb_SiafundPoolDiffs st'.2 = pb_SiafundPoolDiffs st.2 ++ d →
  Forall (λ d, sfpd_Direction d = true) d → recorded base st'.
Proof.
  intros [H Hp] E E1 E2 E3 E4 Hd. split.
  - rewrite E, H. unfold apply_block. by rewrite E1, E2, E3, E4, replay_app.
  - unfold pool_dirs. rewrite E4. by apply Forall_app.
Qed.

Lemma recorded_sco base st d : recorded base st → recorded base (recordSiacoinOutputDiff st d).
Proof.
  intros H. apply (recorded_step base st _ [d] [] [] [] H); destruct st as [tx pb]; rewrite ?app_nil_r; try done.
  by destruct d as [[] ? ?].
Qed.

Lemma recorded_sfo base st d : recorded base st → recorded base (recordSiafundOutputDiff st d).
Proof.
  intros H. apply (recorded_step base st _ [] [] [d] [] H); destruct st as [tx pb]; rewrite ?app_nil_r; try done.
  by destruct d as [[] ? ?].
Qed.

Lemma recorded_pool base st d :
  sfpd_Direction d = true → recorded base st → recorded base (recordSiafundPoolDiff st d).
Proof.
  intros Hd H. apply (recorded_step base st _ [] [] [] [d] H); destruct st as [tx pb]; rewrite ?app_nil_r; try done.
  - unfold replay, pool_replay. cbn. by rewrite Hd.
  - by apply Forall_singleton.
Qed.

Lemma recorded_fc base st d st' : recordFileContractDiff st d = Ok st' → recorded base st → recorded base st'.
Proof.
  intros E H. destruct st as [tx pb]. cbn in E. apply bind_Ok in E as (tx' & E & [= <-]). apply commit_fc_inv in E as (ex & ->).
  by apply (recorded_step base (tx, pb) _ [] [d] [] [] H); rewrite ?app_nil_r.
Qed.

Lemma recorded_dsco base st d st' : recordDelayedSiacoinOutputDiff st d = Ok st' → recorded base st → recorded base st'.
Proof.
  intros E H. destruct st as [tx pb]. cbn in E. rewrite commit_dsco_step in E. apply bind_Ok in E as (tx' & E & [= <-]).
  apply bind_Ok in E as (ds & _ & [= <-]). by apply (recorded_step base (tx, pb) _ [] [] [] [] H); rewrite ?app_nil_r.
Qed.

Lemma generate_ledger tx pb tx' pb' :
  generateAndApplyDiff tx pb = Ok (tx', pb') → no_diffs pb →
  ledger_of tx' = apply_block (ledger_of tx) pb' ∧ pool_dirs pb'.
Proof.
  intros H (D1 & D2 & D3 & _ & D5). set (R := λ st st' : State, recorded (ledger_of tx) st → recorded (ledger_of tx) st').
  assert (PreOrder R) as HR by (split; [by intros ? ?|intros ? ? ? H1 H2 ?; by apply H2, H1]).
  destruct (generate_walk R) with (8 := H) as (st & Hst & -> & ->).
  - intros. intro. by apply recorded_sco.
  - intros. intro. by apply recorded_sfo.
  - intros ? ? E. intro. by apply recorded_pool.
  - intros ? ? ? E. intro. by eapply recorded_fc.
  - intros ? ? ? E. intro. by eapply recorded_dsco.
  - intros ? ? ?. intro. done.
  - intros ? ? ?. intro. done.
  - apply Hst. split; [|unfold pool_dirs; cbn; by rewrite D5]. unfold apply_block. cbn. rewrite D1, D2, D3, D5. by rewrite replay_nil.
Qed.

(** ** Blocks keep the diffs they were applied with *)

Definition low (tx : DB) : Prop := map_Forall (λ _ pb, 0 ≤ pb_Height pb < 2 ^ 64 - 1) (shape tx).

Record replay_ok (tx : DB) : Prop := {
  ro_zero : db_BlockMap tx !! zeroHash = None;
  ro_path h id : db_BlockPath tx !! h = Some id → ∃ pb, db_BlockMap tx !! id = Some pb ∧ pb_DiffsGenerated pb = true;
  ro_diffs : map_Forall (λ _ pb, if pb_DiffsGenerated pb then pool_dirs pb else no_diffs pb) (db_BlockMap tx);
  ro_heights id pb parent : shape tx !! id = Some pb → shape tx !! b_ParentID (pb_Block pb) = Some parent →
    pb_Height pb = u64 (pb_Height parent + 1);
}.

(** [pb] is the block stored under its id. *)
Definition exact (tx : DB) (pb : processedBlock) : Prop := db_BlockMap tx !! pid pb = Some pb.

(** Blocks that have been applied once are not changed any more. *)
Definition kept (tx tx' : DB) : Prop :=
  ∀ id pb, db_BlockMap tx !! id = Some pb → pb_DiffsGenerated pb = true → db_BlockMap tx' !! id = Some pb.

#[local] Instance kept_po : PreOrder kept.
Proof. split; [by intros ? ? ? ?|]. intros a b c H1 H2 id pb Hl Hg. by apply H2, Hg; apply H1. Qed.

Lemma exact_skeleton tx pb : tree_ok tx → exact tx pb → known tx pb.
Proof. intros Hok He. by eapply known_lookup. Qed.

Lemma revertLoop_replay fuel tx pb acc tx' acc' :
  tree_ok tx → replay_ok tx → revertLoop fuel tx pb acc = Ok (tx', acc') →
  ∃ rs, acc' = acc ++ rs ∧ ledger_of tx' = foldl revert_block (ledger_of tx) rs ∧ db_BlockMap tx' = db_BlockMap tx ∧
    Forall (λ b, exact tx b ∧ pb_DiffsGenerated b = true) rs ∧ replay_ok tx'.
Proof.
  revert tx acc. induction fuel as [|fuel IH]; intros tx acc Hok Hr H; cbn [revertLoop] in H; [done|].
  case_bool_decide as E; [injection H as <- <-; exists []; rewrite app_nil_r; by split_and!|].
  apply bind_Ok in H as (b & Hb & H). apply bind_Ok in H as (tx1 & H1 & H).
  destruct (commitDiffSet_tree _ _ _ _ H1) as (Hm & _ & Hh & Hp). assert (shape tx1 = shape tx) as Hs by (unfold shape; by rewrite Hm).
  unfold currentProcessedBlock, getBlockMap in Hb. destruct (db_BlockMap tx !! currentBlockID tx) as [b'|] eqn:El; [|done].
  injection Hb as ->. destruct (known_lookup _ _ _ Hok El) as [_ Hid].
  assert (pb_DiffsGenerated b = true) as Hg.
  { revert El. unfold currentBlockID, getPath. destruct (db_BlockPath tx !! blockHeight tx) as [id|] eqn:Ep; [|by rewrite (ro_zero _ Hr)].
    destruct (ro_path _ Hr _ _ Ep) as (pb' & E' & ?). intros El. congruence. }
  pose proof (ro_diffs _ Hr _ _ El) as Hd. cbn in Hd. rewrite Hg in Hd.
  destruct (IH tx1 (acc ++ [b])) as (rs & -> & I2 & I3 & I4 & I5); [..|done|].
  - split; [rewrite Hs; apply Hok| |rewrite Hs; apply Hok]. intros h id. rewrite Hp, Hs. intros [_ Hl]%lookup_delete_Some. by eapply to_path.
  - split; rewrite ?Hm, ?Hs; try apply Hr. intros h id. rewrite Hp. intros [_ Hl]%lookup_delete_Some. by eapply ro_path.
  - exists (b :: rs). rewrite <- app_assoc. split_and!; [done| |congruence| |done].
    + rewrite I2. cbn. f_equal. by apply (commitDiffSet_ledger _ _ _ _ H1).
    + constructor; [split; [unfold exact; by rewrite Hid|done]|].
      eapply Forall_impl; [exact I4|]. intros x. cbn beta. unfold exact. by rewrite Hm.
Qed.

Lemma replay_ok_push tx tx' pb :
  replay_ok tx → shape tx' = shape tx → exact tx' pb → pb_DiffsGenerated pb = true → pool_dirs pb →
  (∀ id, id ≠ pid pb → db_BlockMap tx' !! id = db_BlockMap tx !! id) →
  db_BlockPath tx' = <[u64 (db_BlockHeight tx + 1) := pid pb]> (db_BlockPath tx) → pid pb ≠ zeroHash → replay_ok tx'.
Proof.
  intros Hr Hs He Hg Hd Hother Hp Hz. split.
  - rewrite Hother by done. apply Hr.
  - intros h id. rewrite Hp. intros [[_ <-]|[_ Hl]]%lookup_insert_Some; [eauto|].
    destruct (decide (id = pid pb)) as [->|Hne]; [eauto|]. rewrite Hother by done. by eapply ro_path.
  - intros id x Hx. destruct (decide (id = pid pb)) as [->|Hne].
    + rewrite He in Hx. injection Hx as <-. by rewrite Hg.
    + rewrite Hother in Hx by done. by apply (ro_diffs _ Hr id).
  - rewrite Hs. apply Hr.
Qed.

Lemma applyBlocks_replay path dos tx acc dos' tx' acc' :
  tree_ok tx → replay_ok tx → Forall (exact tx) path → NoDup (map (λ b, pid b) path) →
  applyBlocks dos tx path acc = (dos', Ok (tx', acc')) →
  ∃ bs, acc' = acc ++ bs ∧ ledger_of tx' = foldl apply_block (ledger_of tx) bs ∧ kept tx tx' ∧
    Forall (λ b, exact tx' b ∧ pb_DiffsGenerated b = true) bs ∧ replay_ok tx'.
Proof.
  revert dos tx acc. induction path as [|b path IH]; intros dos tx acc Hok Hr He Hnd H; cbn [applyBlocks] in H.
  { injection H as <- <- <-. exists []. rewrite app_nil_r. by split_and!. }
  apply Forall_cons in He as [Hb He]. cbn [map] in Hnd. apply NoDup_cons in Hnd as [Hnin Hnd].
  pose proof (exact_skeleton _ _ Hok Hb) as Hk.
  assert (pid b ≠ zeroHash) as Hz by (intros E; unfold exact in Hb; rewrite E, (ro_zero _ Hr) in Hb; done).
  assert (∃ dos1 tx1 b1, applyBlocks dos1 tx1 path (acc ++ [b1]) = (dos', Ok (tx', acc')) ∧
    tree_ok tx1 ∧ replay_ok tx1 ∧ ledger_of tx1 = apply_block (ledger_of tx) b1 ∧ kept tx tx1 ∧
    exact tx1 b1 ∧ pb_DiffsGenerated b1 = true ∧ (∀ id, id ≠ pid b → db_BlockMap tx1 !! id = db_BlockMap tx !! id))
    as (dos1 & tx1 & b1 & E & Hok1 & Hr1 & Hl1 & Hk1 & He1 & Hg1 & Ho1).
  { pose proof (ro_diffs _ Hr _ _ Hb) as Hd. cbn in Hd. destruct (pb_DiffsGenerated b) eqn:Hg.
    - destruct (commitDiffSet tx b DiffApply) as [tx1| |] eqn:E; [|done..].
      destruct (commitDiffSet_tree _ _ _ _ E) as (Hm & _ & Hh & Hp). assert (shape tx1 = shape tx) as Hs by (unfold shape; by rewrite Hm).
      destruct (push_ok tx tx1 b) as [? ?]; [done..|]. exists dos, tx1, b. unfold kept, exact in *. rewrite Hm. split_and!; try done.
      + apply (replay_ok_push tx tx1 b); unfold exact; rewrite ?Hm; done.
      + by apply (commitDiffSet_ledger _ _ _ _ E).
    - destruct (generateAndApplyDiff tx b) as [[tx1 b1]| |] eqn:E; [|done..].
      destruct (generate_frame _ _ _ _ E) as (Hsk & Hg1 & Hh & Hp & Hm & _). destruct (generate_ledger _ _ _ _ E Hd) as [Hl Hd1].
      pose proof (f_equal (λ p, pid p) Hsk) as Hid. cbn in Hid.
      assert (shape tx1 = shape tx) as Hs by (unfold shape; rewrite Hm, fmap_insert, Hsk; by apply insert_id).
      destruct (push_ok tx tx1 b) as [? ?]; [done..|].
      assert (∀ id, id ≠ pid b → db_BlockMap tx1 !! id = db_BlockMap tx !! id) as Ho by (intros id Hne; by rewrite Hm, lookup_insert_ne).
      assert (exact tx1 b1) as He1 by (unfold exact; rewrite Hid, Hm; apply lookup_insert_eq).
      exists dos, tx1, b1. split_and!; try done.
      + apply (replay_ok_push tx tx1 b1); rewrite ?Hid; done.
      + intros id x Hx Hgx. rewrite Ho; [done|]. intros ->. unfold exact in Hb. congruence. }
  destruct (IH dos1 tx1 (acc ++ [b1]) Hok1 Hr1) as (bs & -> & I2 & I3 & I4 & I5); [|done|done|].
  - rewrite Forall_forall in He |- *. intros x Hx. unfold exact. rewrite Ho1; [by apply He|].
    intros Ex. apply Hnin. rewrite <- Ex. by apply (list_elem_of_fmap_2 (λ b, pid b)).
  - exists (b1 :: bs). rewrite <- app_assoc. split_and!; [done| |by etrans| |done].
    + rewrite I2. cbn. by rewrite Hl1.
    + constructor; [split; [by apply I3|done]|done].
Qed.

(** Stored blocks of lower heights have other ids. *)
Lemma distinct_below tx pre top :
  Forall (exact tx) pre → exact tx top → Forall (λ x, pb_Height x < pb_Height top) pre →
  NoDup (map (λ b, pid b) pre) → NoDup (map (λ b, pid b) (pre ++ [top])).
Proof.
  intros P1 He P2 Hnd. rewrite map_app. apply NoDup_app. split_and!; [done| |apply NoDup_singleton].
  intros id (x & Ex & Hx)%list_elem_of_fmap Hin%list_elem_of_singleton. rewrite Hin in Ex.
  rewrite Forall_forall in P1, P2. pose proof (P1 _ Hx) as H1. pose proof (P2 _ Hx) as H2. unfold exact in *. cbn in Ex, H2.
  rewrite <- Ex, He in H1. injection H1 as <-. lia.
Qed.

(** The way back to the current path visits no block twice. *)
Lemma backtrackLoop_replay fuel tx pb acc l :
  tree_ok tx → replay_ok tx → low tx → exact tx pb → backtrackLoop fuel tx pb acc = Ok l →
  ∃ pre, l = pre ++ acc ∧ Forall (exact tx) pre ∧ Forall (λ x, pb_Height x < pb_Height pb) pre ∧ NoDup (map (λ b, pid b) pre).
Proof.
  intros Hok Hr Hlow. revert pb acc. induction fuel as [|fuel IH]; intros pb acc He H; cbn [backtrackLoop] in H; [done|].
  case_bool_decide; [injection H as <-; exists []; split_and!; by constructor|].
  unfold getBlockMap in H. destruct (db_BlockMap tx !! b_ParentID (pb_Block pb)) as [parent|] eqn:El; [|done].
  destruct (known_lookup _ _ _ Hok El) as [Hk Hid]. assert (exact tx parent) as Hep by (unfold exact; by rewrite Hid).
  destruct (IH parent (parent :: acc) Hep H) as (pre & -> & I1 & I2 & I3).
  assert (pb_Height pb = pb_Height parent + 1) as Hh.
  { pose proof (ro_heights _ Hr _ _ _ (exact_skeleton _ _ Hok He) (shape_lookup _ _ _ El)) as E. cbn in E. rewrite E.
    apply u64_id. pose proof (Hlow _ _ (shape_lookup _ _ _ El)) as Hb. cbn in Hb. ulia. }
  exists (pre ++ [parent]). rewrite <- app_assoc. split_and!; [done|apply Forall_app; split; [done|by apply Forall_singleton]| |].
  - apply Forall_app. split; [|apply Forall_singleton; lia]. eapply Forall_impl; [exact I2|]. cbn. intros. lia.
  - by eapply distinct_below.
Qed.

Lemma forkBlockchain_replay dos tx newBlock dos' tx' rs bs :
  tree_ok tx → replay_ok tx → low tx → exact tx newBlock →
  forkBlockchain dos tx newBlock = (dos', Ok (tx', rs, bs)) →
  ledger_of tx' = foldl apply_block (foldl revert_block (ledger_of tx) rs) bs ∧ kept tx tx' ∧
  Forall (λ b, exact tx' b ∧ pb_DiffsGenerated b = true) (rs ++ bs) ∧ replay_ok tx'.
Proof.
  intros Hok Hr Hlow He H. unfold forkBlockchain in H.
  destruct (backtrackToCurrentPath tx newBlock) as [path| |] eqn:E1; [|done..]. cbn [mbind res_bind] in H.
  destruct (go_index path 0) as [common| |]; [|done..]. cbn [mbind res_bind] in H.
  destruct (revertToBlock tx common) as [[tx1 rs1]| |] eqn:E2; [|done..].
  destruct (revertLoop_tree _ _ _ _ _ _ Hok ltac:(done) E2) as (Hok1 & Hs1 & _ & _).
  destruct (revertLoop_replay _ _ _ _ _ _ Hok Hr E2) as (rs' & -> & L1 & M1 & F1 & Hr1). cbn [app] in *.
  unfold applyUntilBlock in H. destruct (backtrackToCurrentPath tx1 newBlock) as [path'| |] eqn:E3; [|done..].
  assert (exact tx1 newBlock) as He1 by (unfold exact; by rewrite M1).
  destruct (backtrackLoop_replay _ _ _ _ _ Hok1 Hr1 ltac:(unfold low; by rewrite Hs1) He1 E3) as (pre & -> & P1 & P2 & P3).
  destruct (applyBlocks dos tx1 (drop 1 (pre ++ [newBlock])) []) as [dos2 r] eqn:E4.
  destruct r as [[tx2 bs2]| |]; cbn [mbind res_bind] in H; [|done..]. injection H as <- <- <- <-.
  assert (Forall (exact tx1) (pre ++ [newBlock])) as Hall by (apply Forall_app; split; [done|by apply Forall_singleton]).
  assert (NoDup (map (λ b, pid b) (pre ++ [newBlock]))) as Hnd.
  { by eapply distinct_below. }
  destruct (applyBlocks_replay _ _ _ _ _ _ _ Hok1 Hr1 (Forall_drop _ 1 _ Hall)
    ltac:(rewrite <- skipn_map; by eapply sublist_NoDup; [|apply sublist_drop]) E4) as (bs' & -> & L2 & K2 & F2 & Hr2).
  assert (kept tx tx2) as Hk by (intros id x Hx Hg; apply K2; [by rewrite M1|done]).
  split_and!; [cbn [app]; congruence|done| |done]. apply Forall_app. split; [|done].
  eapply Forall_impl; [exact F1|]. cbn. intros x [Hx Hg]. split; [by apply Hk|done].
Qed.

(** *** A set of blocks *)

Lemma newChild_replay tx parent b tx' child :
  tree_ok tx → replay_ok tx → db_BlockMap tx !! Block_ID b = None → Block_ID b ≠ zeroHash →
  db_BlockMap tx !! b_ParentID b = Some parent → newChild tx parent b = Ok (tx', child) →
  replay_ok tx' ∧ exact tx' child ∧ kept tx tx' ∧ ledger_of tx' = ledger_of tx.
Proof.
  intros Hok Hr Hnew Hz Hpar H. destruct (newChild_fields _ _ _ _ _ H) as (Hb & Hh & Hg & Hd & Hm & Hp & _).
  assert (shape tx' = <[Block_ID b := skeleton child]> (shape tx)) as Hs by (unfold shape; by rewrite Hm, fmap_insert).
  assert (kept tx tx') as Hk by (intros id x Hx _; rewrite Hm, lookup_insert_ne by congruence; done).
  assert (shape tx !! Block_ID b = None) as Hsn by (unfold shape; by rewrite lookup_fmap, Hnew).
  split_and!; [split|unfold exact; rewrite Hb, Hm; apply lookup_insert_eq|done|].
  - rewrite Hm, lookup_insert_ne by done. apply Hr.
  - intros h id. rewrite Hp. intros Hl. destruct (ro_path _ Hr _ _ Hl) as (x & Hx & Hgx). exists x. split; [by apply Hk|done].
  - rewrite Hm. apply map_Forall_insert_2; [by rewrite Hg|apply Hr].
  - intros id x y. rewrite Hs. intros [[<- <-]|[Hne Hx]]%lookup_insert_Some.
    + cbn. rewrite Hb, Hh. intros [[E _]|[_ Hy]]%lookup_insert_Some.
      * pose proof (shape_lookup _ _ _ Hpar) as Hps. by rewrite <- E, Hsn in Hps.
      * pose proof (shape_lookup _ _ _ Hpar) as Hps. rewrite Hps in Hy. injection Hy as <-. done.
    + intros [[E _]|[_ Hy]]%lookup_insert_Some; [|by eapply ro_heights].
      destruct (to_parents _ Hok _ _ Hx) as [Hp0|[z Hz']]; congruence.
  - pose proof (newChild_with_tree _ _ _ _ _ H) as ->. done.
Qed.

(** The blocks a change was made of, still stored with the diffs. *)
Definition made_of (tx : DB) (ce : changeEntry) (blocks : list processedBlock * list processedBlock) : Prop :=
  ce_RevertedBlocks ce = map (λ b, pid b) blocks.1 ∧ ce_AppliedBlocks ce = map (λ b, pid b) blocks.2 ∧ blocks.2 ≠ [] ∧
  Forall (λ b, exact tx b ∧ pb_DiffsGenerated b = true) (blocks.1 ++ blocks.2).

Definition follow (l : Ledger) (blocks : list processedBlock * list processedBlock) : Ledger :=
  foldl apply_block (foldl revert_block l blocks.1) blocks.2.

Lemma made_of_kept tx tx' ce blocks : kept tx tx' → made_of tx ce blocks → made_of tx' ce blocks.
Proof.
  intros Hk (H1 & H2 & H3 & H4). split_and!; try done. eapply Forall_impl; [exact H4|]. cbn. intros b [Hb Hg].
  split; [by apply Hk|done].
Qed.

Record replayed (pr0 pr : Progress) (new : list changeEntry) : Prop := {
  rp_ok : replay_ok (pr_tx pr);
  rp_kept : kept (pr_tx pr0) (pr_tx pr);
  rp_changes : pr_changes pr = pr_changes pr0 ++ new;
  rp_ledger : ∃ blocks, Forall2 (made_of (pr_tx pr)) new blocks ∧
    ledger_of (pr_tx pr) = foldl follow (ledger_of (pr_tx pr0)) blocks;
}.

Lemma acceptOne_replay dos now pr b dos' pr' q :
  tree_ok (pr_tx pr) → tip_known (pr_tx pr) → replay_ok (pr_tx pr) → low (pr_tx pr') → Block_ID b ≠ zeroHash →
  acceptOne dos now pr b = (dos', Ok pr', q) → ∃ new, replayed pr pr' new.
Proof.
  intros Hok Htk Hr Hlow Hz H. unfold acceptOne in H.
  destruct (validateHeaderAndBlock dos now (pr_tx pr) b (Block_ID b)) as [parent|e|] eqn:Ev; [| |done].
  2: { exists []. assert (pr' = pr) as -> by (by destruct e; simplify_eq). split; try done; [by rewrite app_nil_r|].
       exists []. by split. }
  apply validateHeaderAndBlock_Ok in Ev as (_ & Hnew & Hpar & _).
  destruct (addBlockToTree dos (pr_tx pr) (pr_log pr) b parent) as [dos1 [[[tx1 cl1] ce]| |]] eqn:Ea; [|done..].
  unfold addBlockToTree in Ea. destruct (newChild (pr_tx pr) parent b) as [[txc child]| |] eqn:E1; [|done..].
  destruct (newChild_replay _ _ _ _ _ Hok Hr Hnew Hz Hpar E1) as (Hrc & Hec & Hkc & Hlc).
  destruct (_ ≫= _) as [[]| |] eqn:Eh in Ea; [|injection Ea as <- <- <- <-|done..].
  2: { injection H as <- <- <-. exists []. split; cbn; try done; [by rewrite app_nil_r|]. exists []. by split. }
  destruct (forkBlockchain dos txc child) as [dos2 [[[tx2 rs] bs]| |]] eqn:Ef; cbn [mbind res_bind] in Ea; [|done..].
  destruct (appendChangeLog _ _) as [cl2| |] eqn:El in Ea; cbn [mbind res_bind] in Ea; [|done..]. injection Ea as <- <- <- <-.
  destruct (len _ <? len _) in H; [done|]. injection H as <- <- <-. cbn [pr_tx] in Hlow.
  assert (shape (pr_tx pr) !! Block_ID b = None) as Hnew' by (unfold shape; by rewrite lookup_fmap, Hnew).
  assert (is_Some (shape (pr_tx pr) !! b_ParentID b)) as Hpar' by (rewrite shape_is_Some, Hpar; eauto).
  destruct (newChild_fields _ _ _ _ _ E1) as (Hb & _ & _ & _ & _ & Hp & _).
  destruct (newChild_tree _ _ _ _ _ Hok Hnew' Hpar' E1) as (Hs & Hc & Hsub & Hokc & Hk).
  assert (∀ h, db_BlockPath txc !! h ≠ Some (pid child)) as Hfresh.
  { rewrite Hb. intros h Hl. rewrite Hp in Hl. destruct (to_path _ Hok h _ Hl) as [x Hx]. congruence. }
  destruct (forkBlockchain_tree _ _ _ _ _ _ _ Hokc Hk Hfresh ltac:(by rewrite Hb) Ef) as (_ & Hs2 & _ & _ & _ & Hlast).
  destruct (forkBlockchain_replay _ _ _ _ _ _ _ Hokc Hrc ltac:(unfold low in *; by rewrite <- Hs2) Hec Ef) as (L & K & F & R2).
  exists [mkEntry (map (λ rn, pid rn) rs) (map (λ an, pid an) bs)]. split; cbn; [done|by etrans|done|].
  exists [(rs, bs)]. split; [|cbn; by rewrite <- Hlc]. constructor; [|constructor].
  split_and!; [done|done| |exact F]. cbn [snd]. intros E; subst bs. discriminate Hlast.
Qed.

Lemma replayed_trans pr0 pr1 pr2 new new' :
  replayed pr0 pr1 new → replayed pr1 pr2 new' → replayed pr0 pr2 (new ++ new').
Proof.
  intros [A1 A2 A3 (bl & A4 & A5)] [B1 B2 B3 (bl' & B4 & B5)]. split; [done|by etrans|by rewrite B3, A3, app_assoc|].
  exists (bl ++ bl'). split; [|by rewrite B5, A5, foldl_app]. apply Forall2_app; [|done].
  eapply Forall2_impl; [exact A4|]. intros ce b. by apply made_of_kept.
Qed.

Lemma low_mono tx tx' : shape tx ⊆ shape tx' → low tx' → low tx.
Proof. intros Hsub Hw id pb Hl. apply (Hw id). by eapply lookup_weaken. Qed.

Lemma acceptLoop_replay blocks dos clock i pr dos' pr' q :
  tree_ok (pr_tx pr) → tip_known (pr_tx pr) → replay_ok (pr_tx pr) → Forall (λ b, Block_ID b ≠ zeroHash) blocks →
  acceptLoop dos clock i pr blocks = (dos', Ok pr', q) → low (pr_tx pr') → ∃ new, replayed pr pr' new.
Proof.
  revert dos i pr. induction blocks as [|b blocks IH]; intros dos i pr Hok Hk Hr Hz H Hlow; cbn [acceptLoop] in H.
  { injection H as <- <- <-. exists []. split; [done|done|by rewrite app_nil_r|by exists []]. }
  apply Forall_cons in Hz as [Hb Hz]. destruct (acceptOne dos (clock i) pr b) as [[dos1 [pr1| |]] q1] eqn:E; [|done..].
  destruct (acceptOne_ok _ _ _ _ _ _ _ Hok Hk Hb E) as [new1 P1].
  destruct (acceptLoop_ok _ _ _ _ _ _ _ _ (po_tree _ _ _ P1) (po_tip_known _ _ _ P1) Hz H) as [new2 P2].
  destruct (acceptOne_replay _ _ _ _ _ _ _ Hok Hk Hr (low_mono _ _ (po_grown _ _ _ P2) Hlow) Hb E) as [n1 R1].
  destruct (IH _ _ pr1 (po_tree _ _ _ P1) (po_tip_known _ _ _ P1) (rp_ok _ _ _ R1) Hz H Hlow) as [n2 R2].
  exists (n1 ++ n2). by eapply replayed_trans.
Qed.

(** What the subscriber makes of a change is what the blocks of the change do. *)
Lemma processChange_follow synced tx ce blocks cc l :
  made_of tx ce blocks → ancestors_stored (db_BlockMap tx) → computeConsensusChange synced tx ce = Ok cc →
  processChange l cc = follow l blocks.
Proof.
  destruct blocks as [rs bs]. intros (H1 & H2 & H3 & H4) Ha Hcc. cbn [fst snd] in *.
  destruct bs as [|tip bs _] using rev_ind; [done|]. apply Forall_app in H4 as [F1 F2].
  assert (entry_blocks tx ce rs bs tip) as He.
  { split; [rewrite H1|rewrite H2]; apply Forall2_fmap_l, Forall_Forall2_diag; eapply Forall_impl; try done; by intros x []. }
  destruct (computeConsensusChange_value synced tx ce rs bs tip He Ha) as (m & _ & E). rewrite Hcc in E. injection E as ->.
  unfold processChange. cbn [cc_SiacoinOutputDiffs cc_FileContractDiffs cc_SiafundOutputDiffs cc_SiafundPoolDiffs].
  by rewrite replay_app, replay_reverted, replay_applied.
Qed.

Lemma follow_changes synced tx new blocks ccs l :
  Forall2 (made_of tx) new blocks → ancestors_stored (db_BlockMap tx) →
  Forall2 (λ e cc, computeConsensusChange synced tx e = Ok cc) new ccs → foldl processChange l ccs = foldl follow l blocks.
Proof.
  intros Hm Ha. revert ccs l. induction Hm as [|ce b new blocks Hb _ IH]; intros ccs l Hc.
  { by apply Forall2_nil_inv_l in Hc as ->. }
  apply Forall2_cons_inv_l in Hc as (cc & ccs' & Hcc & Hc & ->). cbn. rewrite (processChange_follow _ _ _ _ _ _ Hb Ha Hcc). by apply IH.
Qed.
End replay.

(** ** Main properties *)

(** C2: Consensus changes are a faithful account of the ledger: when the chain is
    extended, whatever is reverted and applied on the way, a subscriber that
    applies the diffs of the changes it is sent, in order, to its copy of the
    unspent outputs, the open contracts, the siafund outputs and the pool gets
    exactly the ledger of the consensus set.  The condition that this rests on
    (applied blocks keep their diffs) is kept by every call. *)
Theorem subscribers_replay_ledger `{N : Net} `{C : Crypto} (cs : ConsensusSet) (clock : nat → Timestamp) (blocks : list Block) :
  node_ok cs → replay_ok (cs_db cs) → Forall (λ b, Block_ID b ≠ zeroHash) blocks →
  let out := managedAcceptBlocks cs clock blocks in
  low (cs_db (out_cs out)) →
  replay_ok (cs_db (out_cs out)) ∧
  (out_result out = Ok true →
   ∃ ccs, out_deliveries out = concat (map (λ cc, map (λ s, (s, cc)) (cs_subscribers cs)) ccs) ∧
     foldl processChange (ledger_of (cs_db cs)) ccs = ledger_of (cs_db (out_cs out))).
Proof.
  intros [Hok Hh] Hr Hz out. unfold out, managedAcceptBlocks. clear out.
  destruct (negb (contiguous blocks)); [done|].
  destruct (acceptLoop _ clock 0 _ blocks) as [[dos' [pr'| |]] q] eqn:E; [|done..].
  destruct (acceptLoop_ok _ _ _ _ (mkProgress (cs_db cs) (cs_log cs) []) _ _ _ Hok (heaviest_tip_known _ Hh) Hz E) as [new P].
  cbv zeta. cbn [cs_db cs_log cs_synced cs_subscribers].
  destruct (deliver (mkView (pr_tx pr') (pr_log pr') (cs_synced cs)) (cs_subscribers cs) new (po_known _ _ _ P) (po_tree _ _ _ P))
    as (ccs & Hccs & Hd).
  pose proof (po_changes _ _ _ P) as Hc. cbn [pr_changes app] in Hc. rewrite Hc.
  assert (low (pr_tx pr') → ∃ new', replayed (mkProgress (cs_db cs) (cs_log cs) []) pr' new') as HR.
  { intros Hlow. by apply (acceptLoop_replay _ _ _ _ (mkProgress (cs_db cs) (cs_log cs) []) _ _ _ Hok (heaviest_tip_known _ Hh) Hr Hz E). }
  destruct new as [|e new]; [intros Hlow; destruct (HR Hlow) as [? []]; by split|].
  rewrite (Hd []). cbn [out_cs cs_db out_result out_deliveries app]. intros Hlow. destruct (HR Hlow) as (new' & [R1 _ R3 (bl & R4 & R5)]).
  split; [done|]. intros _. exists ccs. split; [done|]. cbn [pr_changes app] in R3. rewrite Hc in R3. subst new'.
  cbn [pr_tx] in R5. rewrite R5. eapply follow_changes; [exact R4|apply shape_ancestors, (po_tree _ _ _ P)|exact Hccs].
Qed.

(** One block on top of the chain of [example_node]: the subscriber's copy ends
    up with the delayed output of the block's coinbase left out, as it is no
    part of a change. *)
Lemma example_replay_ok : replay_ok (cs_db example_node.cs).
Proof.
  split; [vm_decide| |apply map_Forall_singleton; by constructor|].
  - intros h id Hl. change (({[20 := example.parentID]} : gmap BlockHeight BlockID) !! h = Some id) in Hl.
    apply lookup_singleton_Some in Hl as [_ <-]. exists example.parent. split; vm_compute; reflexivity.
  - intros id pb parent H1 H2. exfalso.
    assert (map_Forall (λ _ pb, shape (cs_db example_node.cs) !! b_ParentID (pb_Block pb) = None) (shape (cs_db example_node.cs))) as Hn
      by vm_decide.
    pose proof (Hn _ _ H1) as E. cbv beta in E. congruence.
Qed.

Lemma subscribers_replay_ledger_witness :
  ∃ ccs, out_deliveries example_node.out = concat (map (λ cc, [(7%nat, cc)]) ccs) ∧
    foldl processChange (ledger_of (cs_db example_node.cs)) ccs = ledger_of (cs_db (out_cs example_node.out)).
Proof.
  apply (subscribers_replay_ledger example_node.cs example_node.clock [example.block] example_node.node_example_ok
    example_replay_ok example_node.ids); [unfold low; vm_decide|vm_compute; reflexivity].
Defined.
