(* ===== verification/AllocationFork.v ===== *)
(** * The allocation change at height 7200

    The block at height 7200 replaces the genesis siafunds by another allocation
    ([generateAndApplyDiff] of [modules/consensus/diffs.go]).  The diffs it
    records for the removal carry the value zero, so it is the one block whose
    reversion does not restore the database, and it adds the new allocation
    whatever has become of the old one: the theorems about reverting blocks and
    about the supply of siafunds except it. *)

From S2P Require Import Prelude Encoding Currency Target Crypto Types Codec Block Signatures ValidTransaction ConsensusDB BlockValidation Difficulty ConsensusValid MapDiffs Diffs ApplyTransaction BlockDiffs Fork Changelog Subscribe Accept Heaviest Replay.

Section allocation.
Context `{N : Net} `{C : Crypto}.

(** The id of a siafund output of the genesis block. *)
Definition genesisSiafundID (i : nat) : SiafundOutputID :=
  Transaction_SiafundOutputID (mkTxn [] [] [] [] [] [] GenesisSiafundAllocation [] [] []) (Z.of_nat i).

(** The diffs that the change records. *)
Definition removals : list SiafundOutputDiff :=
  imap (λ i sfo, mkSFOD DiffRevert (genesisSiafundID i) (mkSFO 0 (sfo_UnlockHash sfo) 0)) GenesisSiafundAllocation.
Definition additions : list SiafundOutputDiff :=
  map (λ sfo, mkSFOD DiffApply (sfo_UnlockHash sfo) sfo) ForkedGenesisSiafundAllocation.

Lemma record_list ds st :
  let st' := foldl recordSiafundOutputDiff st ds in
  db_SiafundOutputs st'.1 = sfo_run true (db_SiafundOutputs st.1) ds ∧
  pb_SiafundOutputDiffs st'.2 = pb_SiafundOutputDiffs st.2 ++ ds.
Proof.
  cbv zeta. revert st. induction ds as [|d ds IH]; intros [tx pb]; [by rewrite app_nil_r|]. cbn [foldl].
  destruct (IH (recordSiafundOutputDiff (tx, pb) d)) as [-> ->]. cbn [recordSiafundOutputDiff fst snd].
  assert (commitSiafundOutputDiff tx d DiffApply = set_db_SiafundOutputs (sfo_run true (db_SiafundOutputs tx) [d]) tx) as ->
    by exact (commit_sfo_run tx [d] true).
  split; [done|]. cbn. by rewrite <- app_assoc.
Qed.

Lemma foldl_imap {A S D} (f : S → D → S) (g : Z → A → D) l i s :
  snd (foldl (λ '(i, s) x, (i + 1, f s (g i x))) (i, s) l) = foldl f s (imap (λ k x, g (i + Z.of_nat k) x) l).
Proof.
  revert i s. induction l as [|x l IH]; intros i s; [done|]. cbn [foldl]. rewrite IH, imap_cons. cbn [foldl].
  rewrite Z.add_0_r. f_equal. apply imap_ext. intros k y _. cbn. f_equal. lia.
Qed.

Lemma foldl_map_comp {A S D} (f : S → D → S) (g : A → D) l s : foldl (λ s x, f s (g x)) s l = foldl f s (map g l).
Proof. revert s. induction l as [|x l IH]; intros s; [done|]. apply IH. Qed.

Lemma fixSiafundAllocation_value st : fixSiafundAllocation st = Ok (foldl recordSiafundOutputDiff st (removals ++ additions)).
Proof.
  rewrite foldl_app. unfold additions. rewrite <- (foldl_map_comp recordSiafundOutputDiff).
  exact (f_equal (λ s, Ok (foldl (λ st sfo, recordSiafundOutputDiff st (mkSFOD DiffApply (sfo_UnlockHash sfo) sfo)) s
      ForkedGenesisSiafundAllocation))
    (foldl_imap recordSiafundOutputDiff (λ i sfo, mkSFOD DiffRevert
      (Transaction_SiafundOutputID (mkTxn [] [] [] [] [] [] GenesisSiafundAllocation [] [] []) i)
      (mkSFO (NewCurrency64 0) (sfo_UnlockHash sfo) 0)) GenesisSiafundAllocation 0 st)).
Qed.

(** What the block does to the siafunds and what it records. *)
Lemma generate_7200 tx pb tx' pb' :
  pb_Height pb = 7200 → generateAndApplyDiff tx pb = Ok (tx', pb') →
  ∃ m l, db_SiafundOutputs tx' = sfo_run true m (removals ++ additions) ∧
    pb_SiafundOutputDiffs pb' = l ++ removals ++ additions.
Proof.
  intros Hh H. unfold generateAndApplyDiff in H. apply bind_Ok in H as (s1 & _ & H). apply bind_Ok in H as (s2 & _ & H).
  rewrite Hh in H. change (7200 =? 7200) with true in H. cbn [mbind res_bind] in H. rewrite fixSiafundAllocation_value in H.
  destruct (record_list (removals ++ additions) s2) as [E1 E2]. cbv zeta in E1, E2.
  destruct (foldl recordSiafundOutputDiff s2 (removals ++ additions)) as [tx3 pb3]. injection H as <- <-.
  by exists (db_SiafundOutputs s2.1), (pb_SiafundOutputDiffs s2.2).
Qed.

(** Exactly one diff of the block concerns the output. *)
Definition touched_once (id : SiafundOutputID) (pb : processedBlock) : Prop :=
  length (filter (λ d, sfod_ID d = id) (pb_SiafundOutputDiffs pb)) = 1%nat.

Lemma touched_once_split id pb l1 d l2 :
  touched_once id pb → pb_SiafundOutputDiffs pb = l1 ++ d :: l2 → sfod_ID d = id →
  Forall (λ d', sfod_ID d' ≠ id) l1 ∧ Forall (λ d', sfod_ID d' ≠ id) l2.
Proof.
  unfold touched_once. intros H E Hd. rewrite E, filter_app, filter_cons_True, length_app in H by done. cbn in H.
  assert (∀ l : list SiafundOutputDiff, length (filter (λ d, sfod_ID d = id) l) = 0%nat → Forall (λ d', sfod_ID d' ≠ id) l) as Hz.
  { intros l Hl. apply Forall_forall. intros x Hx Ex. apply length_zero_iff_nil in Hl.
    assert (x ∈ filter (λ d, sfod_ID d = id) l) as Hin by (by apply list_elem_of_filter). rewrite Hl in Hin. set_solver. }
  split; apply Hz; lia.
Qed.

Lemma commitDiffSet_siafunds tx pb dir tx' :
  commitDiffSet tx pb dir = Ok tx' →
  db_SiafundOutputs tx' = sfo_run dir (db_SiafundOutputs tx) (commit_order dir (pb_SiafundOutputDiffs pb)).
Proof.
  intros H. unfold commitDiffSet in H. apply bind_Ok in H as (t1 & H & [= <-]).
  transitivity (l_SiafundOutputs (ledger_of t1)); [unfold updateCurrentPath, deleteObsoleteDelayedOutputMaps; by repeat case_match|].
  rewrite (commitNodeDiffs_ledger _ _ _ _ H). cbn [l_SiafundOutputs]. f_equal.
  unfold createUpcomingDelayedOutputMaps, createDSCOBucket. by repeat case_match.
Qed.

Lemma additions_lookup m l f :
  NoDup (sfo_UnlockHash <$> ForkedGenesisSiafundAllocation) → f ∈ ForkedGenesisSiafundAllocation →
  sfo_run true m (l ++ additions) !! sfo_UnlockHash f = Some f.
Proof.
  intros Hnd (l1 & l2 & E)%list_elem_of_split. unfold additions. rewrite E in *. rewrite map_app. cbn [map]. rewrite app_assoc.
  apply (kv_run_last sfod_Direction sfod_ID sfod_SiafundOutput true m _ (mkSFOD DiffApply (sfo_UnlockHash f) f)).
  rewrite fmap_app, fmap_cons in Hnd. apply NoDup_app in Hnd as (_ & _ & [Hn _]%NoDup_cons).
  apply List.Forall_map, Forall_forall. intros x Hx E'. apply Hn. cbn in E'. rewrite <- E'. by apply list_elem_of_fmap_2.
Qed.
End allocation.

(** ** Main property *)

(** C40: The block at height 7200 is not reversible.  Applying it removes the
    siafund outputs of the genesis block and adds the new allocation, whatever
    the database held before.  Reverting it leaves every genesis output that the
    block's transactions did not touch with the value zero: its siafunds are
    lost, and an output that had been spent long before appears again. *)
Theorem allocation_change_not_reversible `{N : Net} `{C : Crypto} (tx : DB) (pb : processedBlock) (tx' : DB) (pb' : processedBlock)
    (txr : DB) (i : nat) (sfo : SiafundOutput) :
  pb_Height pb = 7200 → generateAndApplyDiff tx pb = Ok (tx', pb') → commitDiffSet tx' pb' DiffRevert = Ok txr →
  GenesisSiafundAllocation !! i = Some sfo → touched_once (genesisSiafundID i) pb' →
  db_SiafundOutputs tx' !! genesisSiafundID i = None ∧
  (NoDup (sfo_UnlockHash <$> ForkedGenesisSiafundAllocation) →
   Forall (λ f, db_SiafundOutputs tx' !! sfo_UnlockHash f = Some f) ForkedGenesisSiafundAllocation) ∧
  db_SiafundOutputs txr !! genesisSiafundID i = Some (mkSFO 0 (sfo_UnlockHash sfo) 0).
Proof.
  intros Hh Hg Hrev Hi Hone. destruct (generate_7200 _ _ _ _ Hh Hg) as (m & l & Em & El).
  set (d := mkSFOD DiffRevert (genesisSiafundID i) (mkSFO 0 (sfo_UnlockHash sfo) 0)).
  assert (removals !! i = Some d) as (r1 & r2 & Er)%list_elem_of_lookup_2%list_elem_of_split
    by (unfold removals; by rewrite list_lookup_imap, Hi).
  assert (pb_SiafundOutputDiffs pb' = (l ++ r1) ++ d :: (r2 ++ additions)) as Ed by (rewrite El, Er, <- !app_assoc; done).
  destruct (touched_once_split _ _ _ _ _ Hone Ed eq_refl) as [H1 H2]. split_and!.
  - rewrite Em, Er, <- app_assoc. exact (kv_run_last sfod_Direction sfod_ID sfod_SiafundOutput true m r1 d (r2 ++ additions) H2).
  - intros Hnd. apply Forall_forall. intros f Hf. rewrite Em. by apply additions_lookup.
  - rewrite (commitDiffSet_siafunds _ _ _ _ Hrev), Ed. change (commit_order DiffRevert ?l) with (rev l). rewrite rev_app_distr. cbn [rev]. rewrite <- app_assoc.
    apply (kv_run_last sfod_Direction sfod_ID sfod_SiafundOutput false _ _ d). by apply Forall_rev.
Qed.

(** A network whose genesis block has one siafund output, at height 7199. *)
Module example_7200.
Definition tip : DB :=
  mkDB 7199 ∅ {[7199 := example.parentID]} ∅ ∅ {[genesisSiafundID 0 := mkSFO 10000 (example.key x0a) 0]} 0
    (<[7200 := ∅]> (<[7201 := ∅]> {[7202 := ∅]})) ∅ ∅.
Definition pblock : processedBlock :=
  mkPB (mkBlock example.parentID (replicate 8 x00) 1999000000 [] []) 7200 zeroHash zeroHash false [] [] [] [] [] zeroHash.
Definition result : State := match generateAndApplyDiff tip pblock with Ok st => st | _ => (tip, pblock) end.
Definition reverted : DB := match commitDiffSet result.1 result.2 DiffRevert with Ok tx => tx | _ => tip end.
End example_7200.

Lemma allocation_change_not_reversible_witness :
  sfo_Value <$> (db_SiafundOutputs example_7200.tip !! genesisSiafundID 0) = Some 10000 ∧
  sfo_Value <$> (db_SiafundOutputs example_7200.reverted !! genesisSiafundID 0) = Some 0.
Proof.
  split; [vm_compute; reflexivity|].
  destruct (allocation_change_not_reversible example_7200.tip example_7200.pblock example_7200.result.1 example_7200.result.2
    example_7200.reverted 0 (mkSFO 10000 (example.key x0a) 0)) as (_ & _ & E);
    [vm_compute; reflexivity..|]. rewrite E. reflexivity.
Defined.
