(* ===== verification/Conservation.v ===== *)
(** * Conservation of money: the accounting

    How every step of applying a block changes the balance sheet of the
    consensus set.  Claims of siafunds are the delicate part: a claim is worth
    [(pool - ClaimStart) / SiafundCount * Value], so the sheet is kept multiplied by
    [SiafundCount] and in terms of the pool and of [Value * ClaimStart]; that the
    divisions are exact is an invariant ([ledger_inv]). *)

From S2P Require Import Prelude Encoding Currency Target Crypto Types Codec Block Signatures ValidTransaction ConsensusDB BlockValidation ConsensusValid MapDiffs Diffs ApplyTransaction BlockDiffs.

Definition fc_coins (fc : FileContract) : Z := sumZ sco_Value (fc_ValidProofOutputs fc).
Definition claim_base (sfo : SiafundOutput) : Z := sfo_Value sfo * sfo_ClaimStart sfo.

(** What the diffs recorded in [pb] add to the siafunds. *)
Definition funds_gained (pb : processedBlock) : Z :=
  signed sfod_Direction sfod_SiafundOutput sfo_Value (pb_SiafundOutputDiffs pb).

(** What the diffs recorded so far add to the siacoins, times [SiafundCount];
    the pool, which is overwritten and not added to, is taken from the database. *)
Definition sheet (st : State) : Z :=
  10000 * (signed scod_Direction scod_SiacoinOutput sco_Value (pb_SiacoinOutputDiffs st.2) +
           signed dscod_Direction dscod_SiacoinOutput sco_Value (pb_DelayedSiacoinOutputDiffs st.2) +
           signed fcd_Direction fcd_FileContract fc_coins (pb_FileContractDiffs st.2)) +
  10000 * db_SiafundPool st.1 -
  signed sfod_Direction sfod_SiafundOutput claim_base (pb_SiafundOutputDiffs st.2).

(** The pool and the claim starts are multiples of [SiafundCount] and no claim
    starts above the pool; a contract pays out the same whether proved or not. *)
Record ledger_inv (tx : DB) : Prop := {
  li_pool : 0 ≤ db_SiafundPool tx ∧ db_SiafundPool tx `mod` 10000 = 0;
  li_claims : map_Forall (λ _ sfo, 0 ≤ sfo_ClaimStart sfo ≤ db_SiafundPool tx ∧
    sfo_ClaimStart sfo `mod` 10000 = 0) (db_SiafundOutputs tx);
  li_contracts : map_Forall (λ _ fc, sumZ sco_Value (fc_MissedProofOutputs fc) = fc_coins fc)
    (db_FileContracts tx);
}.

Definition dirv (dir : bool) (v : Z) : Z := if dir then v else - v.

Lemma signed_snoc {V D} (dirOf : D → bool) (valOf : D → V) f l d :
  signed dirOf valOf f (l ++ [d]) = signed dirOf valOf f l + dirv (dirOf d) (f (valOf d)).
Proof. rewrite signed_app. unfold signed at 2, dirv. cbn. lia. Qed.

Section records.
Context `{N : Net} `{C : Crypto}.

(** ** What recording a diff changes *)

Lemma record_sco_sheet st d :
  let st' := recordSiacoinOutputDiff st d in
  sheet st' = sheet st + 10000 * dirv (scod_Direction d) (sco_Value (scod_SiacoinOutput d)) ∧
  funds_gained st'.2 = funds_gained st.2 ∧ (ledger_inv st.1 → ledger_inv st'.1).
Proof.
  destruct st as [tx pb]. cbn. unfold commitSiacoinOutputDiff, sheet. cbn. rewrite signed_snoc.
  split_and!; [destruct (Bool.eqb _ _); cbn; lia|done|].
  intros []. by destruct (Bool.eqb _ _).
Qed.

Lemma record_dsco_sheet st d st' :
  recordDelayedSiacoinOutputDiff st d = Ok st' →
  sheet st' = sheet st + 10000 * dirv (dscod_Direction d) (sco_Value (dscod_SiacoinOutput d)) ∧
  funds_gained st'.2 = funds_gained st.2 ∧ (ledger_inv st.1 → ledger_inv st'.1).
Proof.
  destruct st as [tx pb]. cbn. rewrite commit_dsco_step. intros H.
  apply bind_Ok in H as (tx' & H & [= <-]). apply bind_Ok in H as (ds & _ & [= <-]).
  unfold sheet. cbn. rewrite signed_snoc. split_and!; [lia|done|]. by intros [].
Qed.

Lemma record_fc_sheet st d st' :
  recordFileContractDiff st d = Ok st' →
  sheet st' = sheet st + 10000 * dirv (fcd_Direction d) (fc_coins (fcd_FileContract d)) ∧
  funds_gained st'.2 = funds_gained st.2 ∧
  (ledger_inv st.1 → (fcd_Direction d = true →
     sumZ sco_Value (fc_MissedProofOutputs (fcd_FileContract d)) = fc_coins (fcd_FileContract d)) →
   ledger_inv st'.1).
Proof.
  destruct st as [tx pb]. cbn. intros H. apply bind_Ok in H as (tx' & H & [= <-]).
  apply commit_fc_inv in H as (ex & ->). unfold sheet. cbn. rewrite signed_snoc.
  split_and!; [lia|done|]. intros [] Hd. split; cbn; [done|done|].
  unfold fc_step, kv_step, DiffApply. destruct (fcd_Direction d); cbn.
  - apply map_Forall_insert_2; [by apply Hd|done].
  - by apply map_Forall_delete.
Qed.

Lemma record_sfo_sheet st d :
  let st' := recordSiafundOutputDiff st d in
  sheet st' = sheet st - dirv (sfod_Direction d) (claim_base (sfod_SiafundOutput d)) ∧
  funds_gained st'.2 = funds_gained st.2 + dirv (sfod_Direction d) (sfo_Value (sfod_SiafundOutput d)) ∧
  db_SiafundPool st'.1 = db_SiafundPool st.1 ∧
  (ledger_inv st.1 → (sfod_Direction d = true →
     0 ≤ sfo_ClaimStart (sfod_SiafundOutput d) ≤ db_SiafundPool st.1 ∧
     sfo_ClaimStart (sfod_SiafundOutput d) `mod` 10000 = 0) → ledger_inv st'.1).
Proof.
  destruct st as [tx pb]. cbn. unfold commitSiafundOutputDiff, sheet, funds_gained. cbn.
  rewrite !signed_snoc. split_and!; [destruct (Bool.eqb _ _); cbn; lia|done|by destruct (Bool.eqb _ _)|].
  intros [] Hd. unfold DiffApply. destruct (sfod_Direction d); cbn; split; cbn; try done.
  - apply map_Forall_insert_2; [by apply Hd|done].
  - by apply map_Forall_delete.
Qed.

Lemma record_pool_sheet st d :
  sfpd_Direction d = true →
  let st' := recordSiafundPoolDiff st d in
  sheet st' = sheet st + 10000 * (sfpd_Adjusted d - db_SiafundPool st.1) ∧
  funds_gained st'.2 = funds_gained st.2 ∧
  (ledger_inv st.1 → db_SiafundPool st.1 ≤ sfpd_Adjusted d → sfpd_Adjusted d `mod` 10000 = 0 → ledger_inv st'.1).
Proof.
  destruct st as [tx pb]. cbn. intros Hd. unfold commitSiafundPoolDiff, sheet. cbn.
  split_and!; [lia|done|]. intros [] Hle Hm. split; cbn; [lia| |done].
  eapply map_Forall_impl; [exact li_claims0|]. cbn. intros _ sfo ?. lia.
Qed.
End records.

(** ** What the parts of a transaction change *)

(** From [st] to [st'] the sheet gains [a], the siafunds gain [b], and the ledger
    invariant holds on. *)
Definition moves (st st' : State) (a b : Z) : Prop :=
  sheet st' = sheet st + a ∧ funds_gained st'.2 = funds_gained st.2 + b ∧ ledger_inv st'.1.

Lemma moves_refl st : ledger_inv st.1 → moves st st 0 0.
Proof. intros H. split_and!; [lia|lia|done]. Qed.

Lemma moves_trans st s st' a a' b b' :
  moves st s a b → moves s st' a' b' → moves st st' (a + a') (b + b').
Proof. intros (H1 & H2 & _) (H3 & H4 & ?). split_and!; [lia|lia|done]. Qed.

Lemma moves_eq st st' a b a' b' : moves st st' a b → a = a' → b = b' → moves st st' a' b'.
Proof. by intros H <- <-. Qed.

(** A loop of moves. *)
Lemma moves_foldM {A} (f : State → A → res State) (P : State → list A → Prop) (g h : A → Z) l st st' :
  (∀ s x l s', P s (x :: l) → ledger_inv s.1 → f s x = Ok s' → moves s s' (g x) (h x) ∧ P s' l) →
  P st l → ledger_inv st.1 → foldM f st l = Ok st' → moves st st' (sumZ g l) (sumZ h l).
Proof.
  intros Hf. revert st. induction l as [|x l IH]; intros st HP Hi H; cbn in H |- *.
  { injection H as <-. by apply moves_refl. }
  apply bind_Ok in H as (s1 & H1 & H). destruct (Hf _ _ _ _ HP Hi H1) as [Hm HP'].
  eapply moves_trans; [exact Hm|]. apply IH; [done|apply Hm|done].
Qed.

Lemma moves_foldMi {A} (f : Z → State → A → res State) (P : State → Prop) (g h : A → Z) i l st st' :
  (∀ i s x s', x ∈ l → P s → ledger_inv s.1 → f i s x = Ok s' → moves s s' (g x) (h x) ∧ P s') →
  P st → ledger_inv st.1 → foldMi f i st l = Ok st' → moves st st' (sumZ g l) (sumZ h l) ∧ P st'.
Proof.
  revert i st. induction l as [|x l IH]; intros i st Hf HP Hi H; cbn in H |- *.
  { injection H as <-. split; [by apply moves_refl|done]. }
  apply bind_Ok in H as (s1 & H1 & H). destruct (Hf i _ x _ ltac:(set_solver) HP Hi H1) as [Hm HP'].
  destruct (IH (i + 1) s1) as [Hm' ?]; [|done|apply Hm|done|].
  - intros. eapply Hf; eauto. set_solver.
  - split; [by eapply moves_trans|done].
Qed.

Lemma sumZ_imap {A B} (f : B → Z) (g : nat → A → B) (h : A → Z) l :
  (∀ i x, f (g i x) = h x) → sumZ f (imap g l) = sumZ h l.
Proof.
  revert g. induction l as [|x l IH]; intros g Hg; [done|]. rewrite imap_cons. cbn.
  rewrite Hg, IH; [done|]. intros i y. apply Hg.
Qed.

Section transaction.
Context `{N : Net} `{C : Crypto}.

Lemma moves_sco st d :
  ledger_inv st.1 → moves st (recordSiacoinOutputDiff st d)
    (10000 * dirv (scod_Direction d) (sco_Value (scod_SiacoinOutput d))) 0.
Proof. intros Hi. destruct (record_sco_sheet st d) as (? & ? & ?). split_and!; [done|lia|auto]. Qed.

Lemma moves_dsco st d st' :
  ledger_inv st.1 → recordDelayedSiacoinOutputDiff st d = Ok st' →
  moves st st' (10000 * dirv (dscod_Direction d) (sco_Value (dscod_SiacoinOutput d))) 0.
Proof. intros Hi H. destruct (record_dsco_sheet _ _ _ H) as (? & ? & ?). split_and!; [done|lia|auto]. Qed.

Lemma moves_fc st d st' :
  ledger_inv st.1 →
  (fcd_Direction d = true →
     sumZ sco_Value (fc_MissedProofOutputs (fcd_FileContract d)) = fc_coins (fcd_FileContract d)) →
  recordFileContractDiff st d = Ok st' →
  moves st st' (10000 * dirv (fcd_Direction d) (fc_coins (fcd_FileContract d))) 0.
Proof. intros Hi Hd H. destruct (record_fc_sheet _ _ _ H) as (? & ? & ?). split_and!; [done|lia|auto]. Qed.

Lemma moves_siacoin_inputs st t st' :
  ledger_inv st.1 → NoDup (map sci_ParentID (t_SiacoinInputs t)) →
  applySiacoinInputs st t = Ok st' →
  moves st st' (- 10000 * sumZ (λ sci, sco_value_of st.1 (sci_ParentID sci)) (t_SiacoinInputs t)) 0.
Proof.
  intros Hi Hnd H. rewrite <- sumZ_mul.
  refine (moves_eq _ _ _ _ _ _ (moves_foldM _ (λ s l, NoDup (map sci_ParentID l) ∧
    ∀ sci, sci ∈ l → db_SiacoinOutputs s.1 !! sci_ParentID sci = db_SiacoinOutputs st.1 !! sci_ParentID sci)
    (λ sci, - 10000 * sco_value_of st.1 (sci_ParentID sci)) (λ _, 0) _ _ _ _ _ Hi H) eq_refl (sumZ_zero _)); [|done].
  clear Hnd H st'. intros s sci l s' [Hnd Hag] Hs H. apply bind_Ok in H as (sco & Hsco & [= <-]).
  apply NoDup_cons in Hnd as [Hnin Hnd]. split.
  - eapply moves_eq; [by apply moves_sco| |done]. cbn.
    unfold sco_value_of. rewrite <- Hag by set_solver. unfold getSiacoinOutput in Hsco.
    destruct (db_SiacoinOutputs s.1 !! sci_ParentID sci); injection Hsco as <-; cbn; lia.
  - split; [done|]. intros x Hx. destruct s as [tx pb]. cbn. rewrite lookup_delete_ne.
    + apply (Hag x). set_solver.
    + intros E. apply Hnin. rewrite E. by apply list_elem_of_fmap_2.
Qed.

Lemma moves_siacoin_outputs st t st' :
  ledger_inv st.1 → applySiacoinOutputs st t = Ok st' →
  moves st st' (10000 * sumZ sco_Value (t_SiacoinOutputs t)) 0.
Proof.
  intros Hi H. rewrite <- sumZ_mul.
  refine (moves_eq _ _ _ _ _ _ (proj1 (moves_foldMi _ (λ _, True) (λ sco, 10000 * sco_Value sco)
    (λ _, 0) _ _ _ _ _ I Hi H)) eq_refl (sumZ_zero _)).
  intros i s sco s' _ _ Hs [= <-]. split; [|done]. by apply moves_sco.
Qed.

Lemma recordFC_effect st d st' :
  recordFileContractDiff st d = Ok st' →
  blockHeight st'.1 = blockHeight st.1 ∧ db_SiafundPool st'.1 = db_SiafundPool st.1 ∧
  db_FileContracts st'.1 = fc_step true (db_FileContracts st.1) d.
Proof.
  destruct st as [tx pb]. cbn. intros H. apply bind_Ok in H as (tx' & H & [= <-]).
  by apply commit_fc_inv in H as (ex & ->).
Qed.

Lemma moves_contracts st t st' :
  ledger_inv st.1 →
  Forall (λ fc, 0 ≤ fc_Payout fc ∧ contract_ok (blockHeight st.1) fc) (t_FileContracts t) →
  applyFileContracts st t = Ok st' →
  moves st st' (10000 * sumZ fc_Payout (t_FileContracts t)) 0.
Proof.
  intros Hi Hok H. rewrite Forall_forall in Hok. rewrite <- sumZ_mul.
  refine (moves_eq _ _ _ _ _ _ (proj1 (moves_foldMi _ (λ s, blockHeight s.1 = blockHeight st.1)
    (λ fc, 10000 * fc_Payout fc) (λ _, 0) _ _ _ _ _ eq_refl Hi H)) eq_refl (sumZ_zero _)).
  intros i s fc s' Hin Hh Hs Hr. apply bind_Ok in Hr as (s1 & H1 & Hr).
  rewrite Tax_value in Hr. injection Hr as <-. destruct (recordFC_effect _ _ _ H1) as (Hh1 & Hp1 & _).
  destruct (Hok fc Hin) as (Hp & _ & Hvalid & Hmissed).
  destruct (tax_value_bounds (blockHeight st.1) (fc_Payout fc) Hp) as [Ht Htm].
  assert (moves s s1 (10000 * fc_coins fc) 0) as Hm.
  { apply (moves_fc _ _ _ Hs) in H1; [exact H1|]. intros _. unfold fc_coins. cbn. congruence. }
  split.
  - eapply moves_eq.
    + eapply moves_trans; [exact Hm|].
      destruct (record_pool_sheet s1 (mkSFPD DiffApply (getSiafundPool s1.1)
        (Currency_Add (getSiafundPool s1.1) (tax_value (blockHeight s1.1) (fc_Payout fc)))) eq_refl) as (E1 & E2 & E3).
      split; [exact E1|]. split; [rewrite E2; symmetry; apply Z.add_0_r|].
      apply E3; [apply Hm|..]; unfold Currency_Add, getSiafundPool; cbn; rewrite Hh1, Hh; [lia|].
      destruct (li_pool _ (proj2 (proj2 Hm))) as [_ Hpm].
      rewrite Z.add_mod, Hpm, Htm by lia. done.
    + cbn. unfold Currency_Add, getSiafundPool, fc_coins. rewrite Hh1, Hh, Hvalid. lia.
    + done.
  - rewrite <- Hh, <- Hh1. by destruct s1.
Qed.

Lemma moves_revisions st t st' :
  ledger_inv st.1 → NoDup (map fcr_ParentID (t_FileContractRevisions t)) →
  Forall (λ fcr, ∃ fc, db_FileContracts st.1 !! fcr_ParentID fcr = Some fc ∧
    sumZ sco_Value (fcr_NewValidProofOutputs fcr) = fc_coins fc ∧
    sumZ sco_Value (fcr_NewMissedProofOutputs fcr) = fc_coins fc) (t_FileContractRevisions t) →
  applyFileContractRevisions st t = Ok st' → moves st st' 0 0.
Proof.
  intros Hi Hnd Hall H. rewrite Forall_forall in Hall.
  refine (moves_eq _ _ _ _ _ _ (moves_foldM _ (λ s l, NoDup (map fcr_ParentID l) ∧
    ∀ fcr, fcr ∈ l → ∃ fc, db_FileContracts s.1 !! fcr_ParentID fcr = Some fc ∧
      sumZ sco_Value (fcr_NewValidProofOutputs fcr) = fc_coins fc ∧
      sumZ sco_Value (fcr_NewMissedProofOutputs fcr) = fc_coins fc)
    (λ _, 0) (λ _, 0) _ _ _ _ _ Hi H) (sumZ_zero _) (sumZ_zero _)); [|done].
  clear Hnd Hall H st'. intros s fcr l s' [Hnd Hag] Hs H.
  destruct (Hag fcr ltac:(set_solver)) as (fc & Hfc & Hv & Hm).
  unfold getFileContract in H. rewrite Hfc in H. cbn [or_zero mbind res_bind] in H.
  apply bind_Ok in H as (s1 & H1 & H2). apply NoDup_cons in Hnd as [Hnin Hnd].
  assert (moves s s1 (10000 * - fc_coins fc) 0) as Hm1.
  { by apply (moves_fc _ _ _ Hs) in H1. }
  split.
  - eapply moves_eq; [eapply moves_trans; [exact Hm1|]|..].
    + eapply moves_fc; [apply Hm1| |exact H2]. cbn. unfold fc_coins. cbn. congruence.
    + cbn. unfold fc_coins in *. cbn. lia.
    + done.
  - split; [done|]. intros x Hx. destruct (Hag x ltac:(set_solver)) as (fcx & Hfcx & ?).
    exists fcx. split; [|done].
    destruct (recordFC_effect _ _ _ H2) as (_ & _ & ->), (recordFC_effect _ _ _ H1) as (_ & _ & ->).
    assert (fcr_ParentID fcr ≠ fcr_ParentID x) as Hne.
    { intros E. apply Hnin. rewrite E. by apply list_elem_of_fmap_2. }
    unfold fc_step, kv_step. cbn. by rewrite lookup_insert_ne, lookup_delete_ne.
Qed.

(** New delayed outputs for a list of siacoin outputs. *)
Lemma moves_dsco_list (f : Z → State → SiacoinOutput → DelayedSiacoinOutputDiff) i st l st' :
  (∀ i s o, dscod_Direction (f i s o) = true ∧ dscod_SiacoinOutput (f i s o) = o) →
  ledger_inv st.1 → foldMi (λ i s o, recordDelayedSiacoinOutputDiff s (f i s o)) i st l = Ok st' →
  moves st st' (10000 * sumZ sco_Value l) 0.
Proof.
  intros Hf Hi H. rewrite <- sumZ_mul.
  refine (moves_eq _ _ _ _ _ _ (proj1 (moves_foldMi _ (λ _, True) (λ o, 10000 * sco_Value o)
    (λ _, 0) _ _ _ _ _ I Hi H)) eq_refl (sumZ_zero _)).
  intros j s o s' _ _ Hs Hr. split; [|done]. destruct (Hf j s o) as [Hd Ho].
  eapply moves_eq; [by eapply moves_dsco| |done]. by rewrite Hd, Ho.
Qed.

Lemma moves_proofs st t st' :
  ledger_inv st.1 → applyStorageProofs st t = Ok st' → moves st st' 0 0.
Proof.
  intros Hi H.
  refine (moves_eq _ _ _ _ _ _ (moves_foldM _ (λ _ _, True) (λ _, 0) (λ _, 0) _ _ _ _ I Hi H)
    (sumZ_zero _) (sumZ_zero _)).
  clear H st' Hi st. intros st sp l st' _ Hi H. split; [|done].
  apply bind_Ok in H as (fc & _ & H). apply bind_Ok in H as (s1 & H1 & H2).
  apply moves_dsco_list in H1; [|done|done].
  apply (moves_fc _ _ _ (proj2 (proj2 H1))) in H2; [|done].
  eapply moves_eq; [eapply moves_trans; [exact H1|exact H2]|..].
  - cbn. unfold fc_coins. lia.
  - done.
Qed.

(** A siafund output that is spent. *)
Lemma claim_exact p cs : 0 ≤ cs ≤ p → cs `mod` 10000 = 0 → p `mod` 10000 = 0 →
  Currency_Sub p cs / 10000 * 10000 = p - cs.
Proof.
  intros Hle Hc Hp. rewrite Currency_Sub_le by lia.
  pose proof (Z.div_mod (p - cs) 10000 ltac:(lia)) as E.
  rewrite Zminus_mod, Hc, Hp in E. change ((0 - 0) `mod` 10000) with 0 in E. lia.
Qed.

Lemma spent_siafund tx id raw sfo :
  db_SiafundOutputs tx !! id = Some raw → or_zero zeroSiafundOutput (getSiafundOutput tx id) = Ok sfo →
  sfo_Value raw = sfo_Value sfo ∧ sfo_ClaimStart raw = sfo_ClaimStart sfo.
Proof.
  intros Hraw Hget. destruct (getSiafundOutput tx id) as [?|e|] eqn:E; cbn in Hget; [|..|done].
  - injection Hget as <-. apply getSiafundOutput_Ok in E as (raw' & E & ? & ?). naive_solver.
  - apply getSiafundOutput_Err in E. congruence.
Qed.

Lemma moves_siafund_inputs st t st' :
  ledger_inv st.1 → NoDup (map sfi_ParentID (t_SiafundInputs t)) →
  Forall (λ sfi, is_Some (db_SiafundOutputs st.1 !! sfi_ParentID sfi)) (t_SiafundInputs t) →
  applySiafundInputs st t = Ok st' →
  let spent := sumZ (λ sfi, sfo_value_of st.1 (sfi_ParentID sfi)) (t_SiafundInputs t) in
  moves st st' (db_SiafundPool st.1 * spent) (- spent) ∧ db_SiafundPool st'.1 = db_SiafundPool st.1.
Proof.
  intros Hi Hnd Hall H. rewrite Forall_forall in Hall. cbn zeta.
  set (v := λ sfi, sfo_value_of st.1 (sfi_ParentID sfi)).
  assert (db_SiafundPool st'.1 = db_SiafundPool st.1) as Hpool.
  { revert H. apply (foldM_inv (λ s, db_SiafundPool s.1 = db_SiafundPool st.1)); [|done].
    intros s x s' _ Hs Hr. apply bind_Ok in Hr as (sfo & _ & Hr). apply bind_Ok in Hr as (q & _ & Hr).
    apply bind_Ok in Hr as (s1 & H1 & [= <-]). apply recordDSCO_frame in H1 as (_ & H1 & _).
    destruct (record_sfo_sheet s1 (mkSFOD DiffRevert (sfi_ParentID x) sfo)) as (_ & _ & E & _).
    congruence. }
  split; [|done]. rewrite <- (Z.mul_1_l (- _)), Z.mul_opp_r, <- Z.mul_opp_l, <- !sumZ_mul.
  refine (moves_foldM _ (λ s l, NoDup (map sfi_ParentID l) ∧ db_SiafundPool s.1 = db_SiafundPool st.1 ∧
    ∀ sfi, sfi ∈ l → db_SiafundOutputs s.1 !! sfi_ParentID sfi = db_SiafundOutputs st.1 !! sfi_ParentID sfi ∧
      is_Some (db_SiafundOutputs st.1 !! sfi_ParentID sfi)) _ _ _ _ _ _ _ Hi H); [|by split_and!; auto].
  clear Hall Hpool H st' Hnd. intros s sfi l s' (Hnd & Hp & Hag) Hs H.
  destruct (Hag sfi ltac:(set_solver)) as [Hag1 [raw Hraw]]. apply NoDup_cons in Hnd as [Hnin Hnd].
  apply bind_Ok in H as (sfo & Hget & H). apply bind_Ok in H as (q & Hq & H).
  apply bind_Ok in H as (s1 & H1 & [= <-]). rewrite Hraw in Hag1.
  destruct (spent_siafund _ _ _ _ Hag1 Hget) as [Hv Hcs].
  destruct (recordDSCO_frame _ _ _ H1) as (Hsf1 & Hp1 & _).
  destruct (li_claims _ Hs _ _ Hag1) as [Hle Hcm]. destruct (li_pool _ Hs) as [_ Hpm].
  rewrite Hcs in Hle, Hcm. injection Hq as <-.
  pose proof (claim_exact _ _ Hle Hcm Hpm) as Hexact.
  pose proof (moves_dsco _ _ _ Hs H1) as Hm.
  destruct (record_sfo_sheet s1 (mkSFOD DiffRevert (sfi_ParentID sfi) sfo)) as (E1 & E2 & E3 & E4).
  split; [|split_and!; [done|congruence|]].
  - eapply moves_eq; [eapply moves_trans; [exact Hm|]|..].
    + split; [rewrite E1; apply Z.add_opp_r|]. split; [exact E2|]. apply E4; [apply Hm|done].
    + cbn. unfold v, sfo_value_of, claim_base, Currency_Mul. rewrite Hraw. cbn. rewrite Hv.
      change SiafundCount with 10000. unfold getSiafundPool. rewrite <- Hp. nia.
    + cbn. unfold v, sfo_value_of. rewrite Hraw. cbn. lia.
  - intros x Hx. destruct (Hag x ltac:(set_solver)) as [<- ?]. split; [|done].
    destruct s1 as [tx1 pb1]. cbn in *. rewrite lookup_delete_ne; [by rewrite Hsf1|].
    intros E. apply Hnin. rewrite E. by apply list_elem_of_fmap_2.
Qed.

Lemma moves_siafund_outputs st t st' :
  ledger_inv st.1 → applySiafundOutputs st t = Ok st' →
  let made := sumZ sfo_Value (t_SiafundOutputs t) in
  moves st st' (- db_SiafundPool st.1 * made) made.
Proof.
  intros Hi H. cbn zeta. rewrite <- sumZ_mul.
  refine (proj1 (moves_foldMi _ (λ s, db_SiafundPool s.1 = db_SiafundPool st.1) _ _ _ _ _ _ _ eq_refl Hi H)).
  intros i s sfo s' _ Hp Hs [= <-].
  destruct (record_sfo_sheet s (mkSFOD DiffApply (Transaction_SiafundOutputID t i)
    (mkSFO (sfo_Value sfo) (sfo_UnlockHash sfo) (getSiafundPool s.1)))) as (E1 & E2 & E3 & E4).
  split; [|congruence]. split_and!.
  - rewrite E1. cbn. unfold claim_base, getSiafundPool. cbn. rewrite Hp. lia.
  - exact E2.
  - apply E4; [done|]. intros _. cbn. unfold getSiafundPool. destruct (li_pool _ Hs). lia.
Qed.

(** *** Contract diffs are only appended *)

Definition fc_grows (st st' : State) : Prop :=
  ∃ k, pb_FileContractDiffs st'.2 = pb_FileContractDiffs st.2 ++ k.

Lemma fc_grows_refl st : fc_grows st st.
Proof. exists []. by rewrite app_nil_r. Qed.
Lemma fc_grows_trans st s st' : fc_grows st s → fc_grows s st' → fc_grows st st'.
Proof. intros [k1 E1] [k2 E2]. exists (k1 ++ k2). by rewrite E2, E1, app_assoc. Qed.
Lemma fc_grows_eq st st' : pb_FileContractDiffs st'.2 = pb_FileContractDiffs st.2 → fc_grows st st'.
Proof. intros E. exists []. by rewrite E, app_nil_r. Qed.

Lemma recordFC_grows st d st' : recordFileContractDiff st d = Ok st' →
  pb_FileContractDiffs st'.2 = pb_FileContractDiffs st.2 ++ [d].
Proof. destruct st as [tx pb]. cbn. intros H. by apply bind_Ok in H as (tx' & _ & [= <-]). Qed.

Lemma recordDSCO_grows st d st' : recordDelayedSiacoinOutputDiff st d = Ok st' →
  pb_FileContractDiffs st'.2 = pb_FileContractDiffs st.2.
Proof. destruct st as [tx pb]. cbn. intros H. by apply bind_Ok in H as (tx' & _ & [= <-]). Qed.

Lemma revisions_grow st t st' : applyFileContractRevisions st t = Ok st' → fc_grows st st'.
Proof.
  apply (foldM_inv (fc_grows st)); [|apply fc_grows_refl]. intros s x s' _ Hs H.
  apply bind_Ok in H as (fc & _ & H). apply bind_Ok in H as (s1 & H1 & H2).
  eapply fc_grows_trans; [exact Hs|]. exists ([mkFCD DiffRevert (fcr_ParentID x) fc] ++
    [mkFCD DiffApply (fcr_ParentID x) (revisedContract fc x)]).
  by rewrite (recordFC_grows _ _ _ H2), (recordFC_grows _ _ _ H1), app_assoc.
Qed.

Lemma proofs_grow st t st' : applyStorageProofs st t = Ok st' → fc_grows st st'.
Proof.
  apply (foldM_inv (fc_grows st)); [|apply fc_grows_refl]. intros s x s' _ Hs H.
  apply bind_Ok in H as (fc & _ & H). apply bind_Ok in H as (s1 & H1 & H2).
  eapply fc_grows_trans; [exact Hs|]. eapply fc_grows_trans; [|eexists; exact (recordFC_grows _ _ _ H2)].
  revert H1. apply (foldMi_inv (fc_grows s)); [|apply fc_grows_refl].
  intros i s2 o s3 _ Hs2 H3. eapply fc_grows_trans; [exact Hs2|]. apply fc_grows_eq.
  by eapply recordDSCO_grows.
Qed.

Lemma siafunds_grow st t s st' :
  applySiafundInputs st t = Ok s → applySiafundOutputs s t = Ok st' → fc_grows st st'.
Proof.
  intros H1 H2. apply (fc_grows_trans _ s).
  - revert H1. apply (foldM_inv (fc_grows st)); [|apply fc_grows_refl]. intros s1 x s2 _ Hs H.
    apply bind_Ok in H as (fc & _ & H). apply bind_Ok in H as (q & _ & H). apply bind_Ok in H as (s3 & H3 & [= <-]).
    eapply fc_grows_trans; [exact Hs|]. apply fc_grows_eq. rewrite <- (recordDSCO_grows _ _ _ H3). by destruct s3.
  - revert H2. apply (foldMi_inv (fc_grows s)); [|apply fc_grows_refl]. intros i s1 x s2 _ Hs [= <-].
    eapply fc_grows_trans; [exact Hs|]. apply fc_grows_eq. by destruct s1.
Qed.

Lemma transaction_grows st t st' : applyTransaction st t = Ok st' → fc_grows st st'.
Proof.
  unfold applyTransaction. intros H.
  apply bind_Ok in H as (s1 & E1 & H). apply bind_Ok in H as (s2 & E2 & H).
  apply bind_Ok in H as (s3 & E3 & H). apply bind_Ok in H as (s4 & E4 & H).
  apply bind_Ok in H as (s5 & E5 & H). apply bind_Ok in H as (s6 & E6 & E7).
  refine (fc_grows_trans _ s1 _ _ (fc_grows_trans _ s2 _ _ (fc_grows_trans _ s3 _ _
    (fc_grows_trans _ _ _ (revisions_grow _ _ _ E4) (fc_grows_trans _ _ _ (proofs_grow _ _ _ E5)
      (siafunds_grow _ _ _ _ E6 E7)))))).
  - revert E1. apply (foldM_inv (fc_grows st)); [|apply fc_grows_refl]. intros s x s' _ Hs H.
    apply bind_Ok in H as (sco & _ & [= <-]). eapply fc_grows_trans; [exact Hs|]. apply fc_grows_eq. by destruct s.
  - revert E2. apply (foldMi_inv (fc_grows s1)); [|apply fc_grows_refl]. intros i s x s' _ Hs [= <-].
    eapply fc_grows_trans; [exact Hs|]. apply fc_grows_eq. by destruct s.
  - revert E3. apply (foldMi_inv (fc_grows s2)); [|apply fc_grows_refl]. intros i s x s' _ Hs H.
    apply bind_Ok in H as (s'' & H1 & H). rewrite Tax_value in H. injection H as <-.
    eapply fc_grows_trans; [exact Hs|]. eexists. rewrite <- (recordFC_grows _ _ _ H1). by destruct s''.
Qed.

(** New contracts, when their ids are fresh, do not replace old ones. *)
Lemma contracts_kept base pb0 st t st' id fc :
  tracks None base pb0 st → applyFileContracts st t = Ok st' →
  kv_fresh fcd_Direction fcd_ID fcd_FileContract (db_FileContracts base) (pb_FileContractDiffs st'.2) →
  db_FileContracts st.1 !! id = Some fc → db_FileContracts st'.1 !! id = Some fc.
Proof.
  intros Ht H Hf Hl.
  assert (∃ k, pb_FileContractDiffs st'.2 = pb_FileContractDiffs st.2 ++ k ∧
    Forall (λ d, fcd_Direction d = true) k ∧ db_FileContracts st'.1 = fc_run true (db_FileContracts st.1) k)
    as (k & Ek & Hk & Er).
  { clear Hf Hl. revert H. apply (foldMi_inv (λ s, ∃ k, pb_FileContractDiffs s.2 = pb_FileContractDiffs st.2 ++ k ∧
      Forall (λ d, fcd_Direction d = true) k ∧ db_FileContracts s.1 = fc_run true (db_FileContracts st.1) k)).
    - intros i s x s' _ (k & Ek & Hk & Er) H. apply bind_Ok in H as (s1 & H1 & H). rewrite Tax_value in H.
      injection H as <-. exists (k ++ [mkFCD DiffApply (Transaction_FileContractID t i) x]).
      pose proof (recordFC_grows _ _ _ H1). destruct (recordFC_effect _ _ _ H1) as (_ & _ & E).
      destruct s1 as [tx1 pb1]. cbn in *. rewrite app_assoc, <- Ek. split_and!; [done|apply Forall_app; by repeat constructor|].
      unfold fc_run. rewrite kv_run_app. rewrite E, Er. done.
    - exists []. by rewrite app_nil_r. }
  rewrite Er. rewrite Ek in Hf. apply kv_all_app in Hf as [_ Hf].
  apply kv_inserts_keep; [|done|done]. rewrite (tr_fc _ _ _ _ Ht). exact Hf.
Qed.

(** *** A whole transaction *)

(** A valid transaction moves nothing but its fees out of the sheet, and no
    siafunds. *)
Lemma moves_transaction base pb0 st t st' :
  tracks None base pb0 st → ledger_inv st.1 → values_nonneg t →
  validTransaction st.1 t = Ok () → applyTransaction st t = Ok st' →
  kv_fresh fcd_Direction fcd_ID fcd_FileContract (db_FileContracts base) (pb_FileContractDiffs st'.2) →
  moves st st' (- 10000 * sumZ id (t_MinerFees t)) 0.
Proof.
  intros Ht Hi Hnn Hv H Hf. destruct (validTransaction_inputs _ _ Hv) as ((Hn1 & Hn2 & Hn3) & Hsc & Hsf).
  unfold validTransaction, StandaloneValid in Hv. rewrite !bind_unit_Ok in Hv.
  destruct Hv as ((_ & _ & _ & _ & Hcontracts & _) & Hvsc & _ & Hvrev & Hvsf).
  apply validSiacoins_Ok in Hvsc as [_ Hbalance]. apply validSiafunds_Ok in Hvsf as [_ Hfunds].
  apply correctFileContracts_Ok in Hcontracts; [|done].
  apply validFileContractRevisions_Ok in Hvrev. destruct Hnn as (_ & Hnnc & _).
  unfold applyTransaction in H.
  apply bind_Ok in H as (s1 & E1 & H). apply bind_Ok in H as (s2 & E2 & H).
  apply bind_Ok in H as (s3 & E3 & H). apply bind_Ok in H as (s4 & E4 & H).
  apply bind_Ok in H as (s5 & E5 & H). apply bind_Ok in H as (s6 & E6 & E7).
  pose proof (applySiacoinInputs_tracks _ _ _ _ _ Ht Hn1 Hsc E1) as T1.
  pose proof (applySiacoinOutputs_tracks _ _ _ _ _ T1 E2) as T2.
  pose proof (moves_siacoin_inputs _ _ _ Hi Hn1 E1) as M1.
  pose proof (moves_siacoin_outputs _ _ _ (proj2 (proj2 M1)) E2) as M2.
  assert (moves s2 s3 (10000 * sumZ fc_Payout (t_FileContracts t)) 0) as M3.
  { apply moves_contracts; [apply M2| |done]. unfold blockHeight in *.
    destruct (tr_rest _ _ _ _ T2) as [-> _], (tr_rest _ _ _ _ Ht) as [<- _].
    apply Forall_and. split; [|done]. eapply Forall_impl; [exact Hnnc|]. by intros fc []. }
  pose proof (fc_grows_trans _ _ _ (revisions_grow _ _ _ E4)
    (fc_grows_trans _ _ _ (proofs_grow _ _ _ E5) (siafunds_grow _ _ _ _ E6 E7))) as [k Hk].
  rewrite Hk in Hf. apply kv_all_app in Hf as [Hf _].
  destruct (applySiacoinInputs_frame _ _ _ E1) as (C1 & F1 & _), (applySiacoinOutputs_frame _ _ _ E2) as (C2 & F2 & _).
  assert (moves s3 s4 0 0) as M4.
  { eapply moves_revisions; [apply M3| | |exact E4]; [by apply NoDup_app in Hn2 as (_ & _ & ?)|].
    eapply Forall_impl; [exact Hvrev|]. cbn. intros fcr (fc & Hfc & _ & _ & _ & ? & ?). exists fc.
    split; [|done]. eapply contracts_kept; [exact T2|exact E3|exact Hf|]. by rewrite C2, C1. }
  pose proof (moves_proofs _ _ _ (proj2 (proj2 M4)) E5) as M5.
  assert (db_SiafundOutputs s5.1 = db_SiafundOutputs st.1) as F5.
  { apply applyStorageProofs_frame in E5 as [-> _]. apply applyFileContractRevisions_frame in E4 as [-> _].
    apply applyFileContracts_frame in E3 as ->. congruence. }
  destruct (moves_siafund_inputs _ _ _ (proj2 (proj2 M5)) Hn3 ltac:(by rewrite F5) E6) as [M6 Hpool].
  pose proof (moves_siafund_outputs _ _ _ (proj2 (proj2 M6)) E7) as M7.
  unfold sfo_value_of in M6. rewrite F5 in M6. fold (sfo_value_of st.1) in M6.
  eapply moves_eq; [exact (moves_trans _ _ _ _ _ _ _ M1 (moves_trans _ _ _ _ _ _ _ M2
    (moves_trans _ _ _ _ _ _ _ M3 (moves_trans _ _ _ _ _ _ _ M4 (moves_trans _ _ _ _ _ _ _ M5
    (moves_trans _ _ _ _ _ _ _ M6 M7))))))|..]; unfold sfo_value_of in Hfunds; rewrite Hfunds; [|lia].
  rewrite Hpool, Hbalance. lia.
Qed.
End transaction.

(** ** What a block changes *)

Section block.
Context `{N : Net} `{C : Crypto}.

Lemma moves_transactions base pb0 st txns st' :
  tracks None base pb0 st → ledger_inv st.1 → Forall values_nonneg txns →
  applyTransactions st txns = Ok st' →
  kv_fresh fcd_Direction fcd_ID fcd_FileContract (db_FileContracts base) (pb_FileContractDiffs st'.2) →
  moves st st' (- 10000 * sumZ (λ t, sumZ id (t_MinerFees t)) txns) 0 ∧ fc_grows st st'.
Proof.
  unfold applyTransactions. intros Ht Hi Hnn. revert st Ht Hi.
  induction Hnn as [|t txns Hn Hnn IH]; intros st Ht Hi H Hf; cbn in H.
  { injection H as <-. split; [by apply moves_refl|apply fc_grows_refl]. }
  apply bind_Ok in H as (s1 & H1 & H). apply bind_unit_Ok in H1 as [Hv H1].
  pose proof (applyTransaction_tracks _ _ _ _ _ Ht Hv H1) as T1.
  assert (fc_grows s1 st') as Hg1.
  { revert H. apply (foldM_inv (fc_grows s1)); [|apply fc_grows_refl]. intros s x s' _ Hs H.
    apply bind_unit_Ok in H as [_ H]. eapply fc_grows_trans; [exact Hs|]. by eapply transaction_grows. }
  assert (moves st s1 (- 10000 * sumZ id (t_MinerFees t)) 0) as M1.
  { eapply moves_transaction; [done..|]. destruct Hg1 as [k Hk]. rewrite Hk in Hf. by apply kv_all_app in Hf as [Hf _]. }
  destruct (IH s1 T1 (proj2 (proj2 M1)) H Hf) as [M2 _]. split.
  - eapply moves_eq; [by eapply moves_trans|cbn; lia|done].
  - eapply fc_grows_trans; [by eapply transaction_grows|done].
Qed.

Lemma moves_dsco_diffs st l st' :
  ledger_inv st.1 → foldM recordDelayedSiacoinOutputDiff st l = Ok st' →
  moves st st' (10000 * signed dscod_Direction dscod_SiacoinOutput sco_Value l) 0.
Proof.
  intros Hi H. unfold signed. rewrite <- sumZ_mul.
  refine (moves_eq _ _ _ _ _ _ (moves_foldM _ (λ _ _, True) _ (λ _, 0) _ _ _ _ I Hi H) eq_refl (sumZ_zero _)).
  intros s d k s' _ Hs Hr. split; [|done]. exact (moves_dsco _ _ _ Hs Hr).
Qed.

Lemma moves_fc_removals st l st' :
  ledger_inv st.1 → Forall (λ d, fcd_Direction d = false) l → foldM recordFileContractDiff st l = Ok st' →
  moves st st' (10000 * signed fcd_Direction fcd_FileContract fc_coins l) 0.
Proof.
  intros Hi Hl H. unfold signed. rewrite <- sumZ_mul.
  refine (moves_eq _ _ _ _ _ _ (moves_foldM _ (λ _ l, Forall (λ d, fcd_Direction d = false) l) _ (λ _, 0)
    _ _ _ _ Hl Hi H) eq_refl (sumZ_zero _)).
  intros s d k s' [Hd Hk]%Forall_cons Hs Hr. split; [|done].
  apply (moves_fc _ _ _ Hs) in Hr; [exact Hr|congruence].
Qed.

Lemma moves_sco_diffs st l :
  ledger_inv st.1 →
  moves st (foldl recordSiacoinOutputDiff st l) (10000 * signed scod_Direction scod_SiacoinOutput sco_Value l) 0.
Proof.
  unfold signed. rewrite <- sumZ_mul. revert st. induction l as [|d l IH]; intros st Hi; cbn.
  { by apply moves_refl. }
  pose proof (moves_sco st d Hi) as M1. eapply moves_eq; [eapply moves_trans; [exact M1|apply IH, M1]|done|done].
Qed.

(** Nothing that only touches the buckets or the path moves money. *)
Lemma moves_same_ledger st s tx :
  moves st s 0 0 → db_SiafundPool tx = db_SiafundPool s.1 → db_SiafundOutputs tx = db_SiafundOutputs s.1 →
  db_FileContracts tx = db_FileContracts s.1 → moves st (tx, s.2) 0 0.
Proof.
  intros (H1 & H2 & []) E1 E2 E3. split_and!; cbn.
  - rewrite <- H1. unfold sheet. cbn. by rewrite E1.
  - done.
  - split; cbn; by rewrite ?E1, ?E2, ?E3.
Qed.

Lemma moves_matured st st' :
  ledger_inv st.1 → applyMaturedSiacoinOutputs st = Ok st' → moves st st' 0 0.
Proof.
  intros Hi. unfold applyMaturedSiacoinOutputs. destruct (_ <? _).
  { intros [= <-]. by apply moves_refl. }
  destruct (db_DSCO st.1 !! pb_Height st.2) as [b|]; [|done]. intros H.
  apply bind_Ok in H as (s1 & H1 & [= <-]). apply moves_same_ledger; [|done..].
  pose proof (moves_sco_diffs st (map (λ '(id, sco), mkSCOD DiffApply id sco) (bucket_items b)) Hi) as M1.
  pose proof (moves_dsco_diffs _ _ _ (proj2 (proj2 M1)) H1) as M2.
  eapply moves_eq; [exact (moves_trans _ _ _ _ _ _ _ M1 M2)| |done].
  unfold signed. rewrite !sumZ_map. rewrite <- !sumZ_mul, <- sumZ_add.
  etransitivity; [|apply (sumZ_zero (bucket_items b))]. apply sumZ_ext. intros [id sco] _. cbn. lia.
Qed.

Lemma missed_balance st l :
  ledger_inv st.1 →
  signed dscod_Direction dscod_SiacoinOutput sco_Value (concat (map (missed_dscods st) l)) +
  signed fcd_Direction fcd_FileContract fc_coins (map (missed_fcd st) l) = 0.
Proof.
  intros Hi. induction l as [|id l IH]; [done|]. cbn [map concat].
  change (missed_fcd st id :: map (missed_fcd st) l) with ([missed_fcd st id] ++ map (missed_fcd st) l).
  rewrite !signed_app.
  assert (signed dscod_Direction dscod_SiacoinOutput sco_Value (missed_dscods st id) =
    - signed fcd_Direction fcd_FileContract fc_coins [missed_fcd st id]) as ->; [|lia].
  unfold missed_dscods, missed_fcd. set (fc := default zeroFileContract _).
  assert (sumZ sco_Value (fc_MissedProofOutputs fc) = fc_coins fc) as Hb.
  { unfold fc. destruct (db_FileContracts st.1 !! id) as [fc'|] eqn:E; [|done]. exact (li_contracts _ Hi _ _ E). }
  unfold signed. cbn. rewrite Z.add_0_r, Z.opp_involutive, <- Hb. by apply sumZ_imap.
Qed.

Lemma moves_expired st st' :
  ledger_inv st.1 → applyFileContractMaintenance st = Ok st' → moves st st' 0 0.
Proof.
  intros Hi. unfold applyFileContractMaintenance.
  destruct (db_FCEX st.1 !! pb_Height st.2) as [bucket|]; [|intros [= <-]; by apply moves_refl].
  rewrite missed_diffs_value. cbn [mbind res_bind fst snd app]. intros H.
  apply bind_Ok in H as (s1 & H1 & H). apply bind_Ok in H as (s2 & H2 & [= <-]).
  apply moves_same_ledger; [|done..].
  pose proof (moves_dsco_diffs _ _ _ Hi H1) as M1.
  apply (moves_fc_removals _ _ _ (proj2 (proj2 M1))) in H2; [|by apply Forall_map, Forall_true].
  eapply moves_eq; [exact (moves_trans _ _ _ _ _ _ _ M1 H2)| |done].
  rewrite <- Z.mul_add_distr_l, missed_balance by done. done.
Qed.

Lemma maintenance_grows st st' : applyMaintenance st = Ok st' → fc_grows st st'.
Proof.
  unfold applyMaintenance. intros H. apply bind_Ok in H as (s1 & H1 & H). apply bind_Ok in H as (s2 & H2 & H3).
  apply (fc_grows_trans _ s1); [|apply (fc_grows_trans _ s2)].
  - revert H1. apply (foldMi_inv (fc_grows st)); [|apply fc_grows_refl]. intros i s x s' _ Hs Hr.
    eapply fc_grows_trans; [exact Hs|]. apply fc_grows_eq. by eapply recordDSCO_grows.
  - unfold applyMaturedSiacoinOutputs in H2. destruct (_ <? _); [injection H2 as <-; apply fc_grows_refl|].
    destruct (db_DSCO s1.1 !! _) as [b|]; [|done]. apply bind_Ok in H2 as (s3 & H2 & [= <-]).
    apply fc_grows_eq. cbn. transitivity (pb_FileContractDiffs (foldl recordSiacoinOutputDiff s1
      (map (λ '(id, sco), mkSCOD DiffApply id sco) (bucket_items b))).2).
    + revert H2. apply (foldM_inv (λ s, pb_FileContractDiffs s.2 = _)); [|done]. intros s x s' _ <- Hr.
      by eapply recordDSCO_grows.
    + generalize (bucket_items b). intros l. clear. revert s1.
      induction l as [|[id sco] l IH]; intros [tx pb]; [done|]. cbn. by rewrite IH.
  - unfold applyFileContractMaintenance in H3.
    destruct (db_FCEX s2.1 !! _) as [bucket|]; [|injection H3 as <-; apply fc_grows_refl].
    rewrite missed_diffs_value in H3. cbn [mbind res_bind fst snd app] in H3.
    apply bind_Ok in H3 as (s3 & H3 & H). apply bind_Ok in H as (s4 & H4 & [= <-]).
    destruct (recordFC_list _ _ _ H4) as [E _]. eexists. cbn. rewrite E. f_equal.
    revert H3. apply (foldM_inv (λ s, pb_FileContractDiffs s.2 = _)); [|done]. intros s x s' _ <- Hr.
    by eapply recordDSCO_grows.
Qed.

Lemma moves_maintenance st st' :
  ledger_inv st.1 → applyMaintenance st = Ok st' →
  moves st st' (10000 * sumZ sco_Value (b_MinerPayouts (pb_Block st.2))) 0.
Proof.
  intros Hi H. unfold applyMaintenance in H. apply bind_Ok in H as (s1 & H1 & H). apply bind_Ok in H as (s2 & H2 & H3).
  apply moves_dsco_list in H1; [|done|done].
  pose proof (moves_matured _ _ (proj2 (proj2 H1)) H2) as M2.
  pose proof (moves_expired _ _ (proj2 (proj2 M2)) H3) as M3.
  eapply moves_eq; [exact (moves_trans _ _ _ _ _ _ _ H1 (moves_trans _ _ _ _ _ _ _ M2 M3))|lia|done].
Qed.
End block.

(** ** From the sheet to the totals *)

Section totals.
Context `{N : Net} `{C : Crypto} `{!NetOk N}.

(** All siacoins of the set, times [SiafundCount], the claims included. *)
Definition worth (tx : DB) : Z :=
  10000 * (map_sumZ sco_Value (db_SiacoinOutputs tx) + map_sumZ (map_sumZ sco_Value) (db_DSCO tx) +
           map_sumZ fc_coins (db_FileContracts tx)) +
  10000 * db_SiafundPool tx - map_sumZ claim_base (db_SiafundOutputs tx).

Definition siafunds (tx : DB) : Z := map_sumZ sfo_Value (db_SiafundOutputs tx).

Lemma generate_moves tx pb tx' pb' :
  block_ready tx pb → pb_Height pb ≠ 7200 → generateAndApplyDiff tx pb = Ok (tx', pb') →
  ledger_inv tx → Forall values_nonneg (b_Transactions (pb_Block pb)) →
  kv_fresh fcd_Direction fcd_ID fcd_FileContract (db_FileContracts tx) (pb_FileContractDiffs pb') →
  moves (with_bucket tx pb, pb) (tx', pb')
    (10000 * (sumZ sco_Value (b_MinerPayouts (pb_Block pb)) -
              sumZ (λ t, sumZ id (t_MinerFees t)) (b_Transactions (pb_Block pb)))) 0.
Proof.
  intros Hr Hfork H Hi Hnn Hf. unfold generateAndApplyDiff in H. fold (newBucket pb) in H.
  rewrite createDSCOBucket_new in H by apply Hr. fold (with_bucket tx pb) in H.
  apply bind_Ok in H as (s1 & H1 & H). apply bind_Ok in H as (s2 & H2 & H).
  rewrite (proj2 (Z.eqb_neq _ _) Hfork) in H. cbn [mbind res_bind] in H. destruct s2 as [tx2 pb2].
  injection H as <- <-. cbn in Hf.
  assert (tracks None (with_bucket tx pb) pb (with_bucket tx pb, pb)) as T0 by (apply tracks_refl; apply Hr).
  pose proof (maintenance_grows _ _ H2) as [k Hk]. cbn in Hk. rewrite Hk in Hf. apply kv_all_app in Hf as [Hf _].
  assert (ledger_inv (with_bucket tx pb)) as Hi0 by (destruct Hi; by split).
  destruct (moves_transactions _ _ _ _ _ T0 Hi0 Hnn H1 Hf) as [M1 _].
  apply (applyTransactions_tracks (with_bucket tx pb) pb) in H1; [|done].
  destruct (tr_block _ _ _ _ H1) as [_ Hb].
  pose proof (moves_maintenance _ _ (proj2 (proj2 M1)) H2) as M2. rewrite Hb in M2.
  destruct (moves_trans _ _ _ _ _ _ _ M1 M2) as (E1 & E2 & E3).
  split; [|split].
  - transitivity (sheet (tx2, pb2)); [done|]. rewrite E1. lia.
  - transitivity (funds_gained pb2); [done|]. exact E2.
  - destruct E3. by split.
Qed.

Lemma tracked_worth gone base pb0 st :
  tracks gone base pb0 st →
  (∀ h ds, gone = Some h → dsco_run true (db_DSCO base) (pb_DelayedSiacoinOutputDiffs st.2) = Ok ds → ds !! h = Some ∅) →
  kv_fresh scod_Direction scod_ID scod_SiacoinOutput (db_SiacoinOutputs base) (pb_SiacoinOutputDiffs st.2) →
  kv_fresh fcd_Direction fcd_ID fcd_FileContract (db_FileContracts base) (pb_FileContractDiffs st.2) →
  kv_fresh sfod_Direction sfod_ID sfod_SiafundOutput (db_SiafundOutputs base) (pb_SiafundOutputDiffs st.2) →
  nest_fresh dscod_Direction dscod_MaturityHeight dscod_ID dscod_SiacoinOutput (db_DSCO base)
    (pb_DelayedSiacoinOutputDiffs st.2) →
  worth st.1 = worth base + sheet st - 10000 * db_SiafundPool base ∧
  siafunds st.1 = siafunds base + funds_gained st.2.
Proof.
  intros Ht Hgone F1 F2 F3 F4. pose proof (tr_sfo_present _ _ _ _ Ht) as Psf.
  pose proof (tr_sco_present _ _ _ _ Ht) as Psc. pose proof (tr_fc_present _ _ _ _ Ht) as Pfc.
  destruct (tr_dsco _ _ _ _ Ht) as (ds & Hds & Hdb).
  assert (map_sumZ (map_sumZ sco_Value) (db_DSCO st.1) = map_sumZ (map_sumZ sco_Value) ds) as Ed.
  { rewrite Hdb. destruct gone as [h|]; [|done]. cbn.
    rewrite (map_sumZ_delete _ ds h ∅) by by apply Hgone. rewrite map_sumZ_empty. lia. }
  assert (∀ f, (∀ v v', sfo_same v v' → f v = f v') → map_sumZ f (db_SiafundOutputs st.1) =
    map_sumZ f (db_SiafundOutputs base) + signed sfod_Direction sfod_SiafundOutput f (pb_SiafundOutputDiffs st.2)) as Hsf.
  { intros f Hfs. rewrite (tr_sfo _ _ _ _ Ht). by apply (kv_sum _ _ _ sfo_same). }
  unfold worth, siafunds, sheet, funds_gained. rewrite Ed, !Hsf by (intros v v' [E1 E2]; unfold claim_base; congruence).
  rewrite (tr_sco _ _ _ _ Ht), (tr_fc _ _ _ _ Ht). unfold sco_run, fc_run.
  rewrite (kv_sum scod_Direction scod_ID scod_SiacoinOutput eq), (kv_sum fcd_Direction fcd_ID fcd_FileContract eq)
    by (done || congruence).
  rewrite (nest_sum dscod_Direction dscod_MaturityHeight dscod_ID dscod_SiacoinOutput eq sco_Value _ _ _
    ltac:(congruence) F4 (tr_dsco_present _ _ _ _ Ht) Hds). lia.
Qed.

(** A block that passes generation creates what its payouts exceed its fees by,
    and leaves the siafunds alone. *)
Lemma generate_worth tx pb tx' pb' :
  block_ready tx pb → pb_Height pb ≠ 7200 → generateAndApplyDiff tx pb = Ok (tx', pb') →
  no_collisions tx pb' → ledger_inv tx → Forall values_nonneg (b_Transactions (pb_Block pb)) →
  worth tx' = worth tx + 10000 * (sumZ sco_Value (b_MinerPayouts (pb_Block pb)) -
    sumZ (λ t, sumZ id (t_MinerFees t)) (b_Transactions (pb_Block pb))) ∧
  siafunds tx' = siafunds tx ∧ ledger_inv tx'.
Proof.
  intros Hr Hfork H [F1 F2 F3 F4] Hi Hnn.
  destruct (generate_moves _ _ _ _ Hr Hfork H Hi Hnn F2) as (M1 & M2 & M3).
  destruct (generate_tracks _ _ _ _ Hr Hfork H) as (st & Ht & Hempty & -> & ->).
  pose proof (br_diffs _ _ Hr) as (D1 & D2 & D3 & D4 & D5).
  assert (newBucket (set_pb_DiffsGenerated true st.2) = newBucket pb) as Hnb.
  { unfold newBucket. cbn. by rewrite (proj1 (tr_block _ _ _ _ Ht)). }
  rewrite Hnb in F4.
  destruct (tracked_worth _ _ _ _ Ht) as [W1 W2]; [|done..|].
  { intros h ds. unfold matured_bucket. case_match eqn:E; [done|]. intros [= <-] Hds. apply Hempty; [|done].
    apply Z.ltb_ge in E. lia. }
  assert (worth (with_bucket tx pb) = worth tx) as W0.
  { unfold worth, with_bucket. cbn. rewrite map_sumZ_insert by apply Hr. rewrite map_sumZ_empty. lia. }
  split_and!; [| |done].
  - transitivity (worth st.1); [done|]. rewrite W1, W0.
    match type of M1 with _ = ?b => assert (sheet st = b) as -> by exact M1 end.
    unfold sheet. cbn. rewrite D1, D2, D3, D4. unfold signed. cbn. lia.
  - transitivity (siafunds st.1); [done|]. rewrite W2.
    assert (funds_gained st.2 = funds_gained pb + 0) as -> by exact M2.
    assert (funds_gained pb = 0) as -> by (unfold funds_gained; by rewrite D3).
    change (siafunds (with_bucket tx pb)) with (siafunds tx). lia.
Qed.
End totals.
