(* ===== verification/Consistency.v ===== *)
(** * Consistency checks and conservation of money

    Models the checks of [modules/consensus/consistency.go] that a release
    build may run after every block ([maybeCheckConsistency]): the delayed
    output buckets, the number of siacoins and the number of siafunds.
    [checkRevertApply] runs in a debug build only; what it checks is
    [revert_and_replay_generated_block] of [BlockDiffs].  A check returns the errors
    that it hands to [manageErr], which marks the database and prints.

    The theorems show that the checks cannot fail because of a block: applying
    a valid block keeps the money supply equal to [CalculateNumSiacoins] and the
    number of siafunds unchanged. *)

From S2P Require Import Prelude Encoding Currency Target Crypto Types Codec Block Signatures ValidTransaction ConsensusDB BlockValidation ConsensusValid MapDiffs Diffs ApplyTransaction BlockDiffs Conservation.

Section checks.
Context `{N : Net} `{C : Crypto}.

(** The buckets [dsco_<height>] as [tx.ForEach] presents them, in the byte
    order of their names. *)
Definition dsco_buckets (tx : DB) : list (BlockHeight * gmap SiacoinOutputID SiacoinOutput) :=
  map (λ p, (DecUint64 p.1, p.2))
    (merge_sort key_le (map (λ p, (EncUint64 p.1, p.2)) (map_to_list (db_DSCO tx)))).

(** [b.ForEach], summing the values *)
Definition sum_outputs (b : gmap SiacoinOutputID SiacoinOutput) (total : Currency) : Currency :=
  foldl (λ s p, Currency_Add s (sco_Value p.2)) total (bucket_items b).

Definition dscoSiacoins (tx : DB) : Currency :=
  foldl (λ s p, sum_outputs p.2 s) 0 (dsco_buckets tx).
Definition scoSiacoins (tx : DB) : Currency := sum_outputs (db_SiacoinOutputs tx) 0.
Definition fcSiacoins (tx : DB) : Currency :=
  foldl (λ s p, Currency_Add s (foldl (λ c o, Currency_Add c (sco_Value o)) 0 (fc_ValidProofOutputs p.2)))
    0 (bucket_items (db_FileContracts tx)).
Definition claimSiacoins (tx : DB) : res Currency :=
  foldM (λ s p,
    let sfo := p.2 in
    let coinsPerFund := Currency_Sub (getSiafundPool tx) (sfo_ClaimStart sfo) in
    claimCoins ← Currency_Div (Currency_Mul coinsPerFund (sfo_Value sfo)) SiafundCount;
    Ok (Currency_Add s claimCoins)) 0 (bucket_items (db_SiafundOutputs tx)).

Definition checkSiacoinCount (tx : DB) : res (list error) :=
  claims ← claimSiacoins tx;
  expectedSiacoins ← CalculateNumSiacoins (blockHeight tx);
  let totalSiacoins :=
    Currency_Add (Currency_Add (Currency_Add (dscoSiacoins tx) (scoSiacoins tx)) (fcSiacoins tx)) claims in
  Ok (if negb (Currency_Equals totalSiacoins expectedSiacoins) then [errWrongNumberOfSiacoins] else []).

Definition checkSiafundCount (tx : DB) : list error :=
  let total := foldl (λ s p, Currency_Add s (sfo_Value p.2)) 0 (bucket_items (db_SiafundOutputs tx)) in
  if negb (Currency_Equals total SiafundCount) then [errWrongNumberOfSiafunds] else [].

(** One bucket of [checkDSCOs]; the maps keep what was added before an error
    ends the iteration. *)
Definition checkDSCOBucket (st : gset BlockHeight * gset SiacoinOutputID * option error)
    (p : BlockHeight * gmap SiacoinOutputID SiacoinOutput) :
    gset BlockHeight * gset SiacoinOutputID * option error :=
  match st with
  | (_, _, Some _) => st
  | (dscoTracker, idMap, None) =>
      let '(height, b) := p in
      if decide (height ∈ dscoTracker) then (dscoTracker, idMap, Some errRepeatDSCOMap) else
      let dscoTracker := {[height]} ∪ dscoTracker in
      let '(idMap, total, err) :=
        foldl (λ '(idMap, total, err) '(id, sco),
          match err with
          | Some _ => (idMap, total, err)
          | None =>
              if decide (id ∈ idMap) then (idMap, total, Some errRepeatDelayedOutput)
              else ({[id]} ∪ idMap, Currency_Add total (sco_Value sco), None)
          end) (idMap, 0, None) (bucket_items b) in
      match err with
      | Some _ => (dscoTracker, idMap, err)
      | None =>
          let minimumValue := CalculateCoinbase (u64 (height - MaturityDelay)) in
          (dscoTracker, idMap, if Currency_Cmp total minimumValue <? 0 then Some errDSCOBucketTotal else None)
      end
  end.

(** The heights from [currentHeight+1] to [currentHeight+MaturityDelay]. *)
Definition upcomingHeights (currentHeight : BlockHeight) : list BlockHeight :=
  filter (λ i, MaturityDelay ≤ i) (seqZ (currentHeight + 1) MaturityDelay).

Definition checkDSCOs (tx : DB) : list error :=
  let '(dscoTracker, _, err) := foldl checkDSCOBucket (∅, ∅, None) (dsco_buckets tx) in
  let expected := upcomingHeights (blockHeight tx) in
  match err with Some e => [e] | None => [] end ++
  map (λ _, errMissingDSCOBucket) (filter (λ i, i ∉ dscoTracker) expected) ++
  (if decide (size dscoTracker = length expected) then [] else [errTooManyDSCOBuckets]).

(** Without the reentrancy flag: the checks do not call each other. *)
Definition checkConsistency (tx : DB) : res (list error) :=
  siacoins ← checkSiacoinCount tx;
  Ok (checkDSCOs tx ++ siacoins ++ checkSiafundCount tx).
End checks.

(** ** The counts as sums over the database *)

Section counts.
Context `{N : Net} `{C : Crypto} `{!NetOk N}.

Lemma bucket_sum {A} (f : A → Z) (m : gmap (list byte) A) : sumZ (λ p, f p.2) (bucket_items m) = map_sumZ f m.
Proof. unfold map_sumZ. apply sumZ_perm, bucket_items_perm. Qed.

Lemma sum_outputs_value b total : sum_outputs b total = total + map_sumZ sco_Value b.
Proof. unfold sum_outputs, Currency_Add. by rewrite (foldl_sumZ (λ p, sco_Value p.2)), bucket_sum. Qed.

Lemma dscoSiacoins_value tx : dscoSiacoins tx = map_sumZ (map_sumZ sco_Value) (db_DSCO tx).
Proof.
  unfold dscoSiacoins. transitivity (sumZ (λ p, map_sumZ sco_Value p.2) (dsco_buckets tx)).
  - rewrite <- (Z.add_0_l (sumZ _ _)), <- foldl_sumZ. generalize 0. generalize (dsco_buckets tx).
    intros l. induction l as [|p l IH]; intros a; [done|]. cbn. by rewrite sum_outputs_value.
  - unfold dsco_buckets, map_sumZ at 2. rewrite sumZ_map. cbn.
    rewrite (sumZ_perm _ _ _ (merge_sort_Permutation key_le _)), sumZ_map. done.
Qed.

Lemma fcSiacoins_value tx : fcSiacoins tx = map_sumZ fc_coins (db_FileContracts tx).
Proof.
  unfold fcSiacoins, Currency_Add.
  rewrite (foldl_sumZ (λ p, foldl (λ c o, c + sco_Value o) 0 (fc_ValidProofOutputs p.2))), <- bucket_sum.
  apply sumZ_ext. intros p _. by rewrite (foldl_sumZ sco_Value).
Qed.

Lemma foldM_Ok_sum {A} (f : A → Z) a l : foldM (λ s x, Ok (s + f x)) a l = Ok (a + sumZ f l).
Proof.
  revert a. induction l as [|x l IH]; intros a; cbn; [f_equal; lia|]. rewrite IH. f_equal. lia.
Qed.

Lemma claimSiacoins_value tx :
  ledger_inv tx → siafunds tx = 10000 →
  ∃ c, claimSiacoins tx = Ok c ∧
    10000 * c = 10000 * db_SiafundPool tx - map_sumZ claim_base (db_SiafundOutputs tx).
Proof.
  intros Hi Hf.
  set (claim := λ sfo, Currency_Sub (db_SiafundPool tx) (sfo_ClaimStart sfo) * sfo_Value sfo / 10000).
  exists (map_sumZ claim (db_SiafundOutputs tx)). split.
  - rewrite <- bucket_sum. exact (foldM_Ok_sum (λ p, claim p.2) 0 (bucket_items (db_SiafundOutputs tx))).
  - replace (10000 * db_SiafundPool tx) with (db_SiafundPool tx * siafunds tx) by (rewrite Hf; lia).
    unfold siafunds. rewrite <- !map_sumZ_mul.
    rewrite <- Z.add_opp_r, <- (Z.mul_1_l (map_sumZ claim_base _)), <- Z.mul_opp_l, <- map_sumZ_mul, <- map_sumZ_add.
    apply map_sumZ_ext. intros id sfo Hsfo. destruct (li_claims _ Hi _ _ Hsfo) as [Hle Hm].
    pose proof (claim_exact _ _ Hle Hm (proj2 (li_pool _ Hi))) as He. unfold claim, claim_base.
    rewrite Currency_Sub_le in * by lia. set (q := (db_SiafundPool tx - sfo_ClaimStart sfo) / 10000) in *.
    rewrite <- He. replace (q * 10000 * sfo_Value sfo) with (q * sfo_Value sfo * 10000) by lia.
    rewrite Z.div_mul by lia. nia.
Qed.

Lemma checkSiacoinCount_worth tx :
  ledger_inv tx → siafunds tx = 10000 → is_u64 (db_BlockHeight tx) →
  ∃ errs, checkSiacoinCount tx = Ok errs ∧
    (errs = [] ↔ worth tx = 10000 * (AirdropCoins + coinbases (Z.to_nat (db_BlockHeight tx)))).
Proof.
  intros Hi Hf Hh. destruct (claimSiacoins_value tx Hi Hf) as (c & Hc & Ec).
  unfold checkSiacoinCount. rewrite Hc. cbn [mbind res_bind]. unfold blockHeight.
  pose proof (CalculateNumSiacoins_value (Z.to_nat (db_BlockHeight tx))) as Hn.
  rewrite Z2Nat.id in Hn by ulia. rewrite Hn by ulia. cbn [mbind res_bind].
  eexists. split; [done|]. rewrite dscoSiacoins_value, fcSiacoins_value. unfold scoSiacoins.
  rewrite sum_outputs_value, Currency_Equals_eqb. unfold Currency_Add, worth.
  destruct (Z.eqb_spec (map_sumZ (map_sumZ sco_Value) (db_DSCO tx) + (0 + map_sumZ sco_Value (db_SiacoinOutputs tx)) +
    map_sumZ fc_coins (db_FileContracts tx) + c) (AirdropCoins + coinbases (Z.to_nat (db_BlockHeight tx)))); cbn [negb].
  - split; [intros _; lia|done].
  - split; [done|intros; exfalso; lia].
Qed.

Lemma checkSiafundCount_value tx : checkSiafundCount tx = [] ↔ siafunds tx = 10000.
Proof.
  unfold checkSiafundCount, siafunds, Currency_Add.
  rewrite (foldl_sumZ (λ p, sfo_Value p.2)), bucket_sum, Currency_Equals_eqb.
  change SiafundCount with 10000. rewrite Z.add_0_l.
  by destruct (Z.eqb_spec (map_sumZ sfo_Value (db_SiafundOutputs tx)) 10000).
Qed.
End counts.

(** ** The delayed output buckets *)

Section window.
Context `{N : Net} `{C : Crypto} `{!NetOk N}.

(** There is a bucket for each of the next [MaturityDelay] heights, from height
    [MaturityDelay] on, and no other. *)
Definition dsco_window (tx : DB) : Prop :=
  ∀ h, is_Some (db_DSCO tx !! h) ↔
    db_BlockHeight tx < h ≤ db_BlockHeight tx + MaturityDelay ∧ MaturityDelay ≤ h.

Lemma dsco_run_domain dir ds l ds' h :
  dsco_run dir ds l = Ok ds' → is_Some (ds' !! h) ↔ is_Some (ds !! h).
Proof.
  revert ds. induction l as [|d l IH]; intros ds; cbn; [by intros [= <-]|]. intros H.
  apply bind_Ok in H as (ds1 & H1 & H). rewrite (IH _ H). unfold nest_step in H1.
  destruct (ds !! dscod_MaturityHeight d) as [b|] eqn:E; [|done]. injection H1 as <-.
  destruct (decide (dscod_MaturityHeight d = h)) as [<-|Hne].
  - rewrite lookup_insert_eq, E. split; eauto.
  - by rewrite lookup_insert_ne.
Qed.

Lemma window_preserved tx pb tx' pb' :
  block_ready tx pb → pb_Height pb ≠ 7200 → generateAndApplyDiff tx pb = Ok (tx', pb') →
  db_BlockHeight tx + 1 + MaturityDelay < 2 ^ 64 → dsco_window tx → dsco_window tx'.
Proof.
  intros Hr Hfork H Hh Hw. pose proof net_MaturityDelay as Hmd.
  destruct (generate_tracks _ _ _ _ Hr Hfork H) as (st & Ht & _ & _ & ->).
  destruct (tr_dsco _ _ _ _ Ht) as (ds & Hds & Hdb). destruct (tr_rest _ _ _ _ Ht) as [Hbh _].
  pose proof (br_current _ _ Hr) as Hc. pose proof (br_height _ _ Hr) as Hph.
  rewrite u64_id in Hph by ulia. intros h. cbn. rewrite Hdb.
  change (db_BlockHeight (with_bucket tx pb)) with (db_BlockHeight tx) in Hbh. rewrite Hbh, (u64_id (_ + 1)) by ulia.
  assert (newBucket pb = db_BlockHeight tx + 1 + MaturityDelay) as Hnb.
  { unfold newBucket. rewrite Hph. apply u64_id. ulia. }
  assert (is_Some (ds !! h) ↔ h = newBucket pb ∨ is_Some (db_DSCO tx !! h)) as Hds'.
  { rewrite (dsco_run_domain _ _ _ _ _ Hds). cbn. destruct (decide (newBucket pb = h)) as [<-|Hne].
    - rewrite lookup_insert_eq. split; eauto.
    - rewrite lookup_insert_ne by done. intuition congruence. }
  rewrite (Hw h) in Hds'. unfold drop_bucket, matured_bucket. rewrite Hph, Hnb in *.
  destruct (Z.ltb_spec (db_BlockHeight tx + 1) MaturityDelay).
  - rewrite Hds'. unfold is_u64 in *. lia.
  - destruct (decide (db_BlockHeight tx + 1 = h)) as [<-|Hne].
    + rewrite lookup_delete_eq. split; [by intros [? ?]|lia].
    + rewrite lookup_delete_ne, Hds' by done. unfold is_u64 in *. lia.
Qed.
End window.

(** ** Main properties *)

(** C3: A block other than the one at height 7200 cannot create or destroy money:
    if the consensus set holds the expected number of siacoins and of siafunds
    before the block, it does after it, as [checkSiacoinCount] and
    [checkSiafundCount] count them, when the block's payouts pass
    [checkMinerPayouts] and the ids it creates collide with none that exist; the
    invariants that make siafund claims exact are kept too.  The block at height
    7200 is an exception in the code, not only here: it puts a new allocation of
    10,000 siafunds into the set and removes what is left of the genesis outputs
    under their ids, so the count is kept only if no genesis siafund was spent
    before. *)
Theorem money_supply_preserved `{N : Net} `{C : Crypto} `{!NetOk N}
    (tx : DB) (pb : processedBlock) (tx' : DB) (pb' : processedBlock) :
  block_ready tx pb → pb_Height pb ≠ 7200 → db_BlockHeight tx + 1 < 2 ^ 64 →
  Forall values_nonneg (b_Transactions (pb_Block pb)) →
  checkMinerPayouts (pb_Block pb) (pb_Height pb) = Ok true →
  generateAndApplyDiff tx pb = Ok (tx', pb') → no_collisions tx pb' →
  ledger_inv tx → checkSiacoinCount tx = Ok [] → checkSiafundCount tx = [] →
  checkSiacoinCount tx' = Ok [] ∧ checkSiafundCount tx' = [] ∧ ledger_inv tx'.
Proof.
  intros Hr Hfork Hmax Hnn Hpay H Hnc Hi Hsc Hsf. rewrite checkSiafundCount_value in *.
  pose proof (br_current _ _ Hr) as Hc. pose proof (br_height _ _ Hr) as Hph. rewrite u64_id in Hph by ulia.
  destruct (generate_worth _ _ _ _ Hr Hfork H Hnc Hi Hnn) as (W & F & Hi'). rewrite F.
  destruct (checkMinerPayouts_valid (pb_Block pb) (pb_Height pb)) as (ok & Hok & Hval); [by eapply block_ready_height|].
  rewrite Hpay in Hok. injection Hok as <-. destruct (proj1 Hval eq_refl) as [Hsub _].
  unfold CalculateSubsidy in Hsub. rewrite add_fees_sum in Hsub.
  assert (db_BlockHeight tx' = db_BlockHeight tx + 1) as Hh'.
  { destruct (generate_tracks _ _ _ _ Hr Hfork H) as (st & Ht & _ & _ & ->). cbn.
    destruct (tr_rest _ _ _ _ Ht) as [-> _]. apply u64_id. ulia. }
  destruct (checkSiacoinCount_worth tx Hi Hsf Hc) as (e & He & Hw). rewrite Hsc in He. injection He as <-.
  destruct (checkSiacoinCount_worth tx' Hi' ltac:(congruence) ltac:(rewrite Hh'; ulia)) as (e' & He' & Hw').
  split; [|done]. rewrite He'. f_equal. apply Hw'. rewrite W, (proj1 Hw eq_refl), Hh'.
  replace (Z.to_nat (db_BlockHeight tx + 1)) with (S (Z.to_nat (db_BlockHeight tx))) by ulia.
  rewrite coinbases_S. replace (Z.of_nat (S (Z.to_nat (db_BlockHeight tx)))) with (pb_Height pb) by ulia. lia.
Qed.

(** The delayed outputs live in exactly one bucket per upcoming height: if
    this holds before a block it holds after it, so the bucket that matures and
    the bucket that the next block fills always exist as the code expects
    ([tx.Bucket] never returns nil there). *)
Lemma delayed_buckets_preserved `{N : Net} `{C : Crypto} `{!NetOk N}
    (tx : DB) (pb : processedBlock) (tx' : DB) (pb' : processedBlock) :
  block_ready tx pb → pb_Height pb ≠ 7200 → db_BlockHeight tx + 1 + MaturityDelay < 2 ^ 64 →
  generateAndApplyDiff tx pb = Ok (tx', pb') →
  dsco_window tx →
  dsco_window tx' ∧ is_Some (db_DSCO tx' !! newBucket pb) ∧ db_DSCO tx' !! (newBucket pb + 1) = None ∧
  (MaturityDelay ≤ pb_Height pb + 1 → is_Some (db_DSCO tx' !! (pb_Height pb + 1))).
Proof.
  intros Hr Hfork Hh H Hw. pose proof (window_preserved _ _ _ _ Hr Hfork H Hh Hw) as Hw'.
  pose proof net_MaturityDelay. pose proof (br_current _ _ Hr). pose proof (br_height _ _ Hr) as Hph.
  rewrite u64_id in Hph by ulia.
  assert (db_BlockHeight tx' = pb_Height pb) as Hh'.
  { destruct (generate_tracks _ _ _ _ Hr Hfork H) as (st & Ht & _ & _ & ->). cbn.
    destruct (tr_rest _ _ _ _ Ht) as [-> _]. rewrite Hph. apply u64_id. ulia. }
  assert (newBucket pb = pb_Height pb + MaturityDelay) as Hnb by (apply u64_id; ulia).
  split_and!; [done|..].
  - apply Hw'. rewrite Hh', Hnb. ulia.
  - apply eq_None_not_Some. rewrite (Hw' _), Hh', Hnb. lia.
  - intros Hle. apply Hw'. rewrite Hh'. lia.
Qed.

(** The concrete block of [BlockDiffs]. *)

Lemma example_ledger : ledger_inv example.tip.
Proof. split; [by vm_compute|vm_decide|vm_decide]. Qed.

Lemma money_supply_preserved_witness :
  checkSiacoinCount example.result.1 = Ok [] ∧ checkSiafundCount example.result.1 = [].
Proof.
  destruct (money_supply_preserved (N := example.net) (NetOk0 := testingNet_ok _ _)
    example.tip example.pblock example.result.1 example.result.2 example.ready) as (H1 & H2 & _).
  - discriminate.
  - reflexivity.
  - vm_decide.
  - vm_compute. reflexivity.
  - exact example.generated.
  - exact example.collision_free.
  - exact example_ledger.
  - vm_compute. reflexivity.
  - vm_compute. reflexivity.
  - split; [exact H1|exact H2].
Defined.

