(* ===== verification/Allocations.v ===== *)
(** * The hard-coded allocations

    The addresses and genesis allocations of [types/constants.go] for the three
    builds, with the parser of the address strings they are written in
    ([UnlockHash.LoadString] of [types/encoding.go]).  [network] is the network
    of a build with its own tables.

    The tables are checked: in every build the airdrop adds up to the airdropped
    coins that [CalculateNumSiacoins] counts and the siafunds to [SiafundCount],
    so these are facts and not assumptions about the genesis block. *)

From S2P Require Import Prelude Encoding Currency Target Crypto Types Codec Block Signatures.
From Stdlib Require Import (notations) String.

(** ** Address strings *)

Definition UnlockHashChecksumSize : nat := 6.

(** [hexDigit] of the package [fmt]. *)
Definition hexDigit (c : byte) : option Z :=
  let z := Z_of_byte c in
  if (48 <=? z) && (z <=? 57) then Some (z - 48)
  else if (97 <=? z) && (z <=? 102) then Some (z - 97 + 10)
  else if (65 <=? z) && (z <=? 70) then Some (z - 65 + 10)
  else None.

(** Blanks that [fmt.Sscanf] skips before a value. *)
Definition isBlank (c : byte) : bool := let z := Z_of_byte c in (z =? 32) || (z =? 9) || (z =? 11) || (z =? 12) || (z =? 13).
Fixpoint skipSpace (s : list byte) : list byte :=
  match s with
  | c :: s' => if isBlank c then skipSpace s' else s
  | [] => []
  end.

(** Pairs of digits up to the first character that is not a digit; a digit
    without a partner is an error. *)
Fixpoint hexPairs (fuel : nat) (s : list byte) : res (list byte) :=
  match fuel, s with
  | S fuel, c1 :: s =>
      match hexDigit c1 with
      | None => Ok []
      | Some d1 =>
          match s with
          | [] => Err ErrOther
          | c2 :: s =>
              match hexDigit c2 with
              | None => Err ErrOther
              | Some d2 => bs ← hexPairs fuel s; Ok (byte_of_Z (d1 * 16 + d2) :: bs)
              end
          end
      end
  | _, _ => Ok []
  end.

(** [fmt.Sscanf] with the verb for hexadecimal bytes. *)
Definition Sscanf_hex (s : list byte) : res (list byte) :=
  bs ← hexPairs (length s) (skipSpace s);
  if decide (bs = []) then Err ErrOther else Ok bs.

Section addresses.
Context `{C : Crypto}.

Definition UnlockHash_LoadString (strUH : list byte) : res UnlockHash :=
  if negb (len strUH =? Z.of_nat (HashSize * 2 + UnlockHashChecksumSize * 2)) then Err ErrOther else
  byteUnlockHash ← Sscanf_hex (take (HashSize * 2) strUH);
  checksum ← Sscanf_hex (drop (HashSize * 2) strUH);
  let expectedChecksum := HashBytes byteUnlockHash in
  if negb (bool_decide (take UnlockHashChecksumSize expectedChecksum = checksum)) then Err ErrOther
  else Ok (go_copy zeroHash byteUnlockHash).

(** A string that does not load gives the zero address. *)
Definition UnlockHashFromAddrStr (addrStr : String.string) : UnlockHash :=
  match UnlockHash_LoadString (String.list_byte_of_string addrStr) with Ok dest => dest | _ => zeroHash end.

(** ** The tables *)

Definition hash_literal (l : list Z) : UnlockHash := map byte_of_Z l.

Definition burnAddress : UnlockHash :=
  UnlockHashFromAddrStr "000000000000000000000000000000000000000000000000000000000000000089eb0d6a8a69".
Definition devFundAddress : UnlockHash :=
  UnlockHashFromAddrStr "aefe0af2713c112ba4d10dee7753726e5c4de3f237ea455151342615c95d0e797d7a8cce7b05".

(** The same in every build. *)
Definition airdropTable : list SiacoinOutput := [
    mkSCO AirdropCommunityValue (UnlockHashFromAddrStr "436890aacc53f93f9cc4538d9b4abba27dd5be6ff8a064fae7b78a67809db5e210819ffc4a21");
    mkSCO AirdropPoolValue (UnlockHashFromAddrStr "78054218b7d0bc04929e5a3e6a2ac5fed29b98898cba3d740dd31a1aae6e8c8b3ce7467d4e8f");
    mkSCO AirdropNebulousLabsValue (UnlockHashFromAddrStr "7d0c44f7664e2d34e53efde0661a6f628ec9264785ae8e3cd7c973e8d190c3c97b5e3ecbc567");
    mkSCO AirdropSiaPrimeValue (UnlockHashFromAddrStr "aefe0af2713c112ba4d10dee7753726e5c4de3f237ea455151342615c95d0e797d7a8cce7b05")].

(** The dev and testing builds. *)
Definition devSiafundTable : list SiafundOutput := [
    mkSFO 2000 (hash_literal [214; 166; 197; 164; 29; 201; 53; 236; 106; 239; 10; 158; 127; 131; 20; 138; 63; 221; 230; 16; 98; 247; 32; 77; 210; 68; 116; 12; 241; 89; 27; 223]) 0;
    mkSFO 7000 (hash_literal [209; 246; 228; 60; 248; 78; 242; 110; 9; 8; 227; 248; 225; 216; 163; 52; 142; 93; 47; 176; 103; 41; 137; 80; 212; 8; 132; 58; 241; 189; 2; 17]) 0;
    mkSFO 1000 (UnlockConditions_UnlockHash (mkUC 0 [] 0)) 0].

(** The standard build. *)
Definition forkedSiafundTable : list SiafundOutput := [
    mkSFO 10000 (UnlockHashFromAddrStr "436890aacc53f93f9cc4538d9b4abba27dd5be6ff8a064fae7b78a67809db5e210819ffc4a21") 0].
Definition standardSiafundTable : list SiafundOutput := [
    mkSFO 2 (hash_literal [4; 57; 229; 188; 127; 20; 204; 245; 211; 167; 232; 130; 208; 64; 146; 62; 69; 98; 81; 102; 221; 7; 123; 100; 70; 107; 199; 113; 121; 26; 198; 252]) 0;
    mkSFO 6 (hash_literal [4; 158; 29; 42; 105; 119; 43; 5; 138; 72; 190; 190; 101; 114; 79; 243; 189; 248; 208; 151; 30; 187; 233; 148; 225; 233; 28; 159; 19; 232; 75; 244]) 0;
    mkSFO 7 (hash_literal [8; 7; 66; 250; 25; 74; 247; 108; 162; 79; 220; 151; 202; 228; 241; 11; 130; 138; 13; 248; 193; 167; 136; 197; 65; 63; 234; 174; 205; 216; 71; 230]) 0;
    mkSFO 8 (hash_literal [44; 106; 239; 51; 138; 102; 242; 19; 204; 197; 248; 178; 219; 122; 152; 251; 19; 20; 52; 32; 175; 32; 4; 156; 73; 33; 163; 165; 222; 184; 217; 218]) 0;
    mkSFO 3 (hash_literal [44; 163; 31; 233; 74; 103; 55; 132; 230; 159; 97; 78; 149; 147; 65; 110; 164; 211; 105; 173; 158; 29; 202; 43; 85; 217; 85; 75; 83; 37; 205; 223]) 0;
    mkSFO 1 (hash_literal [51; 151; 146; 84; 199; 7; 59; 89; 111; 172; 227; 200; 62; 55; 165; 253; 238; 186; 28; 145; 47; 137; 200; 15; 70; 199; 187; 125; 243; 104; 179; 240]) 0;
    mkSFO 10 (hash_literal [53; 118; 253; 229; 254; 229; 28; 131; 233; 156; 108; 58; 197; 152; 17; 160; 74; 252; 11; 49; 112; 240; 66; 119; 40; 98; 114; 251; 5; 86; 233; 117]) 0;
    mkSFO 50 (hash_literal [56; 219; 3; 50; 28; 3; 166; 95; 141; 163; 202; 35; 60; 199; 219; 10; 151; 176; 228; 97; 176; 133; 189; 33; 211; 202; 83; 197; 31; 208; 254; 193]) 0;
    mkSFO 75 (hash_literal [68; 190; 140; 87; 96; 232; 150; 32; 161; 177; 204; 65; 228; 223; 87; 217; 134; 90; 25; 56; 51; 45; 72; 107; 129; 12; 29; 202; 6; 7; 50; 13]) 0;
    mkSFO 10 (hash_literal [69; 14; 201; 200; 90; 73; 245; 45; 154; 94; 161; 19; 199; 241; 203; 56; 13; 63; 5; 220; 121; 245; 247; 52; 194; 181; 252; 76; 130; 6; 114; 36]) 0;
    mkSFO 10 (hash_literal [72; 128; 253; 207; 169; 48; 1; 26; 237; 205; 169; 102; 196; 224; 42; 186; 95; 151; 59; 226; 203; 136; 251; 223; 165; 38; 88; 110; 47; 213; 121; 224]) 0;
    mkSFO 50 (hash_literal [72; 130; 164; 227; 218; 28; 60; 15; 56; 151; 212; 242; 77; 131; 232; 131; 42; 57; 132; 173; 113; 118; 66; 183; 38; 79; 96; 178; 105; 108; 26; 247]) 0;
    mkSFO 10 (hash_literal [74; 210; 58; 228; 111; 69; 253; 120; 53; 195; 110; 26; 115; 76; 211; 202; 199; 159; 204; 14; 78; 92; 14; 131; 250; 22; 141; 236; 154; 44; 39; 135]) 0;
    mkSFO 15 (hash_literal [85; 198; 154; 41; 196; 116; 226; 114; 202; 94; 214; 147; 87; 84; 247; 164; 195; 79; 58; 123; 26; 33; 68; 65; 116; 79; 181; 241; 241; 208; 215; 184]) 0;
    mkSFO 121 (hash_literal [87; 239; 83; 125; 152; 14; 19; 22; 203; 136; 46; 192; 203; 87; 224; 190; 77; 236; 125; 18; 142; 223; 146; 70; 16; 23; 252; 19; 100; 69; 91; 111]) 0;
    mkSFO 222 (hash_literal [91; 201; 101; 11; 188; 40; 35; 111; 236; 133; 31; 124; 97; 246; 140; 136; 143; 245; 152; 174; 111; 245; 188; 124; 21; 125; 187; 192; 203; 92; 253; 57]) 0;
    mkSFO 10 (hash_literal [110; 240; 238; 173; 78; 138; 185; 138; 179; 227; 135; 153; 54; 132; 46; 62; 226; 206; 204; 35; 174; 107; 156; 15; 142; 2; 93; 132; 163; 60; 50; 89]) 0;
    mkSFO 3 (hash_literal [114; 58; 147; 44; 64; 69; 72; 184; 65; 178; 213; 94; 157; 44; 88; 106; 92; 31; 145; 193; 215; 200; 215; 233; 99; 116; 36; 197; 160; 70; 79; 153]) 0;
    mkSFO 1 (hash_literal [123; 106; 229; 101; 220; 252; 50; 203; 38; 183; 133; 152; 250; 167; 210; 155; 252; 102; 150; 29; 187; 3; 178; 53; 11; 145; 143; 33; 166; 115; 250; 40]) 0;
    mkSFO 5 (hash_literal [124; 101; 207; 175; 50; 119; 207; 26; 62; 15; 247; 141; 150; 174; 73; 247; 238; 28; 77; 255; 222; 104; 166; 244; 112; 86; 227; 80; 215; 45; 69; 143]) 0;
    mkSFO 10 (hash_literal [130; 184; 72; 15; 227; 79; 217; 205; 120; 254; 67; 69; 10; 49; 76; 194; 222; 30; 242; 62; 88; 179; 51; 117; 27; 166; 140; 6; 7; 22; 222; 185]) 0;
    mkSFO 25 (hash_literal [134; 137; 198; 172; 96; 54; 45; 10; 100; 128; 91; 225; 226; 134; 143; 108; 31; 70; 187; 228; 54; 212; 70; 229; 149; 57; 64; 166; 153; 123; 238; 180]) 0;
    mkSFO 1 (hash_literal [143; 253; 118; 229; 109; 181; 141; 224; 91; 144; 123; 160; 203; 221; 119; 104; 172; 13; 105; 77; 171; 185; 122; 54; 229; 168; 6; 130; 160; 130; 182; 151]) 0;
    mkSFO 8 (hash_literal [147; 108; 249; 16; 36; 249; 108; 184; 196; 212; 241; 120; 219; 63; 45; 184; 86; 53; 96; 207; 130; 96; 210; 251; 136; 9; 193; 160; 131; 198; 221; 185]) 0;
    mkSFO 58 (hash_literal [155; 79; 89; 28; 69; 71; 239; 198; 246; 2; 198; 254; 92; 59; 192; 205; 229; 152; 36; 186; 110; 122; 233; 221; 76; 143; 3; 238; 89; 231; 192; 23]) 0;
    mkSFO 2 (hash_literal [156; 32; 76; 105; 213; 46; 66; 50; 27; 85; 56; 9; 106; 193; 80; 145; 19; 101; 84; 177; 145; 4; 125; 28; 79; 252; 43; 83; 118; 110; 206; 247]) 0;
    mkSFO 23 (hash_literal [157; 169; 134; 24; 254; 22; 58; 188; 119; 87; 201; 238; 55; 168; 194; 131; 88; 18; 39; 168; 37; 2; 198; 194; 93; 202; 116; 146; 189; 17; 108; 44]) 0;
    mkSFO 10 (hash_literal [158; 51; 104; 36; 242; 114; 67; 16; 168; 230; 4; 111; 241; 72; 5; 14; 182; 102; 169; 156; 144; 220; 103; 117; 223; 8; 58; 187; 124; 102; 80; 44]) 0;
    mkSFO 1 (hash_literal [160; 175; 59; 33; 223; 30; 82; 60; 34; 110; 28; 203; 249; 93; 3; 16; 218; 12; 250; 206; 138; 231; 85; 67; 69; 191; 68; 198; 160; 87; 154; 68]) 0;
    mkSFO 75 (hash_literal [163; 94; 51; 220; 14; 144; 83; 112; 62; 10; 0; 173; 161; 234; 211; 176; 186; 84; 9; 189; 250; 111; 33; 231; 114; 87; 100; 75; 72; 217; 11; 26]) 0;
    mkSFO 3 (hash_literal [170; 7; 138; 116; 205; 20; 132; 197; 166; 251; 75; 93; 69; 6; 109; 244; 212; 119; 173; 114; 34; 18; 25; 21; 111; 203; 203; 253; 138; 104; 27; 36]) 0;
    mkSFO 90 (hash_literal [173; 120; 128; 104; 186; 86; 151; 140; 191; 23; 231; 193; 77; 245; 243; 104; 196; 55; 155; 243; 111; 15; 84; 139; 148; 187; 173; 47; 104; 69; 141; 39]) 0;
    mkSFO 20 (hash_literal [179; 185; 228; 166; 139; 94; 13; 193; 255; 227; 174; 99; 120; 105; 109; 221; 247; 4; 155; 243; 229; 37; 26; 98; 222; 12; 91; 80; 223; 33; 61; 56]) 0;
    mkSFO 5 (hash_literal [193; 49; 103; 20; 170; 135; 182; 85; 149; 18; 159; 194; 152; 120; 162; 208; 49; 158; 220; 188; 114; 79; 1; 131; 62; 27; 86; 57; 244; 46; 64; 66]) 0;
    mkSFO 1 (hash_literal [196; 71; 45; 222; 0; 21; 12; 121; 197; 224; 101; 65; 40; 57; 19; 119; 112; 205; 166; 23; 2; 91; 75; 231; 69; 143; 221; 68; 245; 75; 7; 52]) 0;
    mkSFO 44 (hash_literal [196; 214; 236; 211; 227; 216; 152; 127; 164; 2; 235; 14; 235; 46; 142; 231; 83; 38; 7; 131; 208; 29; 179; 189; 62; 88; 129; 180; 119; 158; 214; 97]) 0;
    mkSFO 23 (hash_literal [206; 58; 114; 148; 131; 49; 87; 197; 86; 18; 216; 26; 62; 79; 152; 175; 33; 4; 132; 160; 108; 231; 53; 200; 48; 76; 125; 94; 156; 85; 32; 130]) 0;
    mkSFO 80 (hash_literal [200; 103; 135; 126; 197; 2; 203; 63; 241; 6; 245; 195; 220; 102; 27; 74; 232; 249; 201; 86; 207; 34; 51; 26; 180; 151; 136; 108; 112; 56; 132; 72]) 0;
    mkSFO 2 (hash_literal [200; 249; 245; 218; 58; 253; 76; 250; 88; 114; 70; 239; 14; 2; 250; 123; 10; 192; 198; 61; 187; 155; 247; 152; 165; 174; 198; 24; 142; 39; 177; 119]) 0;
    mkSFO 1 (hash_literal [209; 1; 199; 184; 186; 57; 21; 137; 33; 252; 219; 184; 130; 38; 32; 98; 63; 252; 250; 79; 70; 146; 169; 78; 180; 161; 29; 93; 38; 45; 175; 176]) 0;
    mkSFO 2 (hash_literal [212; 107; 233; 43; 185; 138; 79; 253; 12; 237; 214; 17; 219; 198; 151; 92; 81; 129; 17; 120; 139; 58; 66; 119; 126; 220; 132; 136; 3; 108; 57; 58]) 0;
    mkSFO 3 (hash_literal [214; 244; 146; 173; 173; 80; 33; 185; 29; 133; 77; 167; 185; 1; 38; 23; 111; 179; 104; 150; 105; 162; 120; 26; 245; 63; 114; 119; 52; 1; 44; 222]) 0;
    mkSFO 1 (hash_literal [217; 218; 172; 16; 53; 134; 160; 226; 44; 138; 93; 53; 181; 62; 4; 209; 190; 27; 0; 93; 105; 17; 169; 61; 98; 145; 131; 112; 121; 55; 97; 184]) 0;
    mkSFO 1 (hash_literal [223; 162; 172; 55; 54; 193; 37; 142; 200; 213; 230; 48; 186; 145; 184; 206; 15; 225; 167; 19; 37; 70; 38; 48; 135; 87; 205; 81; 187; 237; 181; 180]) 0;
    mkSFO 1 (hash_literal [241; 46; 139; 41; 40; 63; 47; 169; 131; 173; 124; 246; 228; 213; 102; 44; 100; 217; 62; 237; 133; 154; 248; 69; 228; 2; 36; 206; 47; 250; 249; 170]) 0;
    mkSFO 50 (hash_literal [241; 50; 229; 211; 66; 32; 115; 241; 117; 87; 180; 239; 76; 246; 14; 129; 105; 181; 153; 105; 105; 203; 229; 237; 23; 130; 193; 170; 100; 201; 38; 71]) 0;
    mkSFO 8841 (hash_literal [125; 12; 68; 247; 102; 78; 45; 52; 229; 62; 253; 224; 102; 26; 111; 98; 142; 201; 38; 71; 133; 174; 142; 60; 215; 201; 115; 232; 209; 144; 195; 201]) 0].

Definition standardAllocations : Allocations :=
  mkAlloc devFundAddress burnAddress airdropTable standardSiafundTable forkedSiafundTable.
Definition devAllocations : Allocations :=
  mkAlloc devFundAddress burnAddress airdropTable devSiafundTable devSiafundTable.

(** The network of a build; [now] is the time of start-up, which the testing
    build uses. *)
Definition network (release : Release) (now : Timestamp) : Net :=
  match release with
  | standard => standardNet standardAllocations
  | dev => devNet devAllocations
  | testing => testingNet now devAllocations
  end.

(** ** What the tables add up to *)

Lemma network_ok release now : NetOk (network release now).
Proof. destruct release; [apply standardNet_ok|apply devNet_ok|apply testingNet_ok]. Qed.

Lemma network_airdrop release now : sumZ sco_Value (@GenesisAirdropAllocation (network release now)) = AirdropCoins.
Proof. by destruct release. Qed.

Lemma network_siafunds release now :
  sumZ sfo_Value (@GenesisSiafundAllocation (network release now)) = SiafundCount ∧
  sumZ sfo_Value (@ForkedGenesisSiafundAllocation (network release now)) = SiafundCount ∧
  Forall (λ sfo, sfo_ClaimStart sfo = 0) (@GenesisSiafundAllocation (network release now)).
Proof. destruct release; (split_and!; [done|done|]); repeat constructor. Qed.

Lemma network_RootTarget release now :
  hash_ok (@RootTarget (network release now)) ∧ 0 < Target_Int (@RootTarget (network release now)).
Proof. by destruct release. Qed.
End addresses.
