(* ===== verification/Genesis.v ===== *)
(** * Starting a node

    Models the initialisation of the consensus set: the genesis block with its
    diffs ([NewCustomConsensusSet]), [createConsensusDB], [initDB], [initOak]
    and [loadDB], and the queries of [modules/consensus/consensusset.go].

    [genesis_establishes_invariants] is the base case of the invariants that
    the other files show to be preserved. *)

From S2P Require Import Prelude Encoding Currency Target Crypto Types Codec Block Signatures ValidTransaction ConsensusDB BlockValidation Difficulty ConsensusValid MapDiffs Diffs ApplyTransaction BlockDiffs Fork Changelog Subscribe Accept Heaviest Replay Conservation Consistency Allocations.

Section genesis.
Context `{N : Net} `{C : Crypto}.

(** ** Creating the database *)

Definition RootDepth : Target := replicate 32 xff.

(** The diffs of the genesis outputs. *)
Definition genesisSiacoinDiffs : list SiacoinOutputDiff :=
  match b_Transactions GenesisBlock with
  | t :: _ => imap (λ i sco, mkSCOD DiffApply (Transaction_SiacoinOutputID t (Z.of_nat i)) sco) (t_SiacoinOutputs t)
  | _ => []
  end.
Definition genesisSiafundDiffs : list SiafundOutputDiff :=
  match b_Transactions GenesisBlock with
  | _ :: t :: _ => imap (λ i sfo, mkSFOD DiffApply (Transaction_SiafundOutputID t (Z.of_nat i)) sfo) (t_SiafundOutputs t)
  | _ => []
  end.

Definition blockRoot : processedBlock :=
  mkPB GenesisBlock 0 RootDepth RootTarget true genesisSiacoinDiffs [] genesisSiafundDiffs [] [] zeroHash.

(** The height starts below zero, so that pushing the genesis block makes it 0. *)
Definition createConsensusDB : res DB :=
  let tx := set_db_BlockHeight (u64 (0 - 1)) emptyDB in
  let tx := foldl (λ tx scod, commitSiacoinOutputDiff tx scod DiffApply) tx (pb_SiacoinOutputDiffs blockRoot) in
  let tx := setSiafundPool tx (NewCurrency64 0) in
  let tx := foldl (λ tx sfod, commitSiafundOutputDiff tx sfod DiffApply) tx (pb_SiafundOutputDiffs blockRoot) in
  let tx := createDSCOBucket tx MaturityDelay in
  tx ← addDSCO tx MaturityDelay (Block_MinerPayoutID (pb_Block blockRoot) 0)
         (mkSCO (CalculateCoinbase 0) zeroHash);
  let tx := pushPath tx (Block_ID (pb_Block blockRoot)) in
  Ok (addBlockMap tx blockRoot).

(** The file before and after: [None] is a database without buckets. *)
Definition initDB (file : option (DB * ChangeLog)) : res (DB * ChangeLog) :=
  match file with
  | Some db => Ok db
  | None => tx ← createConsensusDB; Ok (tx, createChangeLog blockRoot)
  end.

(** The loop body: the totals of the block at height [i]. *)
Definition initOakBlock (st : DB * Z * Target * Timestamp * Target) (i : BlockHeight) :
    res (DB * Z * Target * Timestamp * Target) :=
  let '(tx, totalTime, totalTarget, parentTimestamp, parentChildTarget) := st in
  id ← getPath tx i;
  pb ← getBlockMap tx id;
  '(tx, totalTime, totalTarget) ←
    storeBlockTotals tx i id totalTime parentTimestamp (b_Timestamp (pb_Block pb)) totalTarget parentChildTarget;
  Ok (tx, totalTime, totalTarget, b_Timestamp (pb_Block pb), pb_ChildTarget pb).

(** [oakInit] is whether the init field is set. *)
Definition initOak (oakInit : bool) (tx : DB) : res DB :=
  if oakInit then Ok tx else
  let height := blockHeight tx in
  '(tx, totalTime, totalTarget) ←
    storeBlockTotals tx 0 (Block_ID GenesisBlock) 0 GenesisTimestamp GenesisTimestamp RootDepth RootTarget;
  '(tx, _, _, _, _) ← foldM initOakBlock (tx, totalTime, totalTarget, GenesisTimestamp, RootTarget) (seqZ 1 height);
  Ok tx.

Definition loadDB (file : option (DB * ChangeLog)) (oakInit : bool) : res (DB * ChangeLog) :=
  '(tx, cl) ← initDB file;
  tx ← initOak oakInit tx;
  let genesisID := match getPath tx 0 with Ok id => id | _ => zeroHash end in
  _ ← guard_err (negb (bool_decide (genesisID = Block_ID (pb_Block blockRoot)))) errWrongGenesis;
  Ok (tx, cl).

(** ** Queries *)

Definition BlockAtHeight (tx : DB) (height : BlockHeight) : option Block :=
  match (id ← getPath tx height; getBlockMap tx id) with Ok pb => Some (pb_Block pb) | _ => None end.

Definition BlockByID (tx : DB) (id : BlockID) : option (Block * BlockHeight) :=
  match getBlockMap tx id with Ok pb => Some (pb_Block pb, pb_Height pb) | _ => None end.

Definition ChildTarget (stopped : bool) (tx : DB) (id : BlockID) : option Target :=
  if stopped then None else
  match getBlockMap tx id with Ok pb => Some (pb_ChildTarget pb) | _ => None end.

Definition InCurrentPath (stopped : bool) (tx : DB) (id : BlockID) : bool :=
  if stopped then false else
  match getBlockMap tx id with
  | Ok pb => match getPath tx (pb_Height pb) with Ok pathID => bool_decide (pathID = id) | _ => false end
  | _ => false
  end.

Definition CurrentBlock (stopped : bool) (tx : DB) : res Block :=
  if stopped then Ok (mkBlock zeroHash (replicate 8 x00) 0 [] [])
  else pb ← currentProcessedBlock tx; Ok (pb_Block pb).

Definition Height (stopped : bool) (tx : DB) : BlockHeight := if stopped then 0 else blockHeight tx.

Definition MinimumValidChildTimestamp (stopped : bool) (tx : DB) (id : BlockID) : res (option Timestamp) :=
  if stopped then Ok None else
  match getBlockMap tx id with
  | Ok pb => t ← minimumValidChildTimestamp (db_BlockMap tx) pb; Ok (Some t)
  | _ => Ok None
  end.

Definition StorageProofSegment (stopped : bool) (tx : DB) (fcid : FileContractID) : res Z :=
  if stopped then Err ErrStopped else storageProofSegment tx fcid.
End genesis.

(** ** The first state *)

Section first.
Context `{N : Net} `{C : Crypto} `{!NetOk N}.

(** What the first state needs of a network: the airdrop and the siafunds add
    up to what the supply functions expect, the root target is a target, and the
    genesis ids are distinct and not zero. *)
Record genesis_ok : Prop := {
  go_airdrop : sumZ sco_Value GenesisAirdropAllocation = AirdropCoins;
  go_siafunds : sumZ sfo_Value GenesisSiafundAllocation = 10000;
  go_claims : Forall (λ sfo, sfo_ClaimStart sfo = 0) GenesisSiafundAllocation;
  go_target : hash_ok RootTarget ∧ 0 < Target_Int RootTarget;
  go_sco : kv_fresh scod_Direction scod_ID scod_SiacoinOutput ∅ genesisSiacoinDiffs;
  go_sfo : kv_fresh sfod_Direction sfod_ID sfod_SiafundOutput ∅ genesisSiafundDiffs;
  go_id : Block_ID GenesisBlock ≠ zeroHash;
  go_entry : changeEntry_ID (genesisEntry blockRoot) ≠ zeroHash;
}.

(** The part of it that is about the hash function: no collision among the ids of
    the genesis outputs, and no zero hash. *)
Record genesis_ids : Prop := {
  gi_sco : kv_fresh scod_Direction scod_ID scod_SiacoinOutput ∅ genesisSiacoinDiffs;
  gi_sfo : kv_fresh sfod_Direction sfod_ID sfod_SiafundOutput ∅ genesisSiafundDiffs;
  gi_id : Block_ID GenesisBlock ≠ zeroHash;
  gi_entry : changeEntry_ID (genesisEntry blockRoot) ≠ zeroHash;
}.

Lemma RootDepth_weight : hash_ok RootDepth ∧ 0 < Target_Int RootDepth.
Proof. split; [done|]. by vm_compute. Qed.

Lemma Forall_imap {A B} (P : B → Prop) (g : nat → A → B) l : (∀ i x, x ∈ l → P (g i x)) → Forall P (imap g l).
Proof.
  revert g. induction l as [|x l IH]; intros g Hg; [constructor|]. rewrite imap_cons. constructor; [apply Hg; set_solver|].
  apply IH. intros i y Hy. apply Hg. set_solver.
Qed.

(** Only insertions: nothing to be present before. *)
Lemma inserts_present {K V D} `{Countable K} (dirOf : D → bool) (keyOf : D → K) (valOf : D → V) R m l :
  Forall (λ d, dirOf d = true) l → kv_present dirOf keyOf valOf R m l.
Proof.
  intros Hl. revert m. induction Hl as [|d l Hd _ IH]; intros m; [done|]. split; [|apply IH].
  intros E. congruence.
Qed.

Lemma sfo_run_Forall (P : SiafundOutput → Prop) m l :
  Forall (λ d, P (sfod_SiafundOutput d)) l → map_Forall (λ _, P) m → map_Forall (λ _, P) (sfo_run true m l).
Proof.
  intros Hl. revert m. induction Hl as [|d l Hd _ IH]; intros m Hm; [done|].
  apply IH. unfold kv_step. case_match; [by apply map_Forall_insert_2|by apply map_Forall_delete].
Qed.

Definition genesisDB : DB :=
  mkDB 0 {[Block_ID GenesisBlock := blockRoot]} {[0 := Block_ID GenesisBlock]}
    (sco_run true ∅ genesisSiacoinDiffs) ∅ (sfo_run true ∅ genesisSiafundDiffs) 0
    {[MaturityDelay := {[Block_MinerPayoutID GenesisBlock 0 := mkSCO (CalculateCoinbase 0) zeroHash]}]} ∅ ∅.

Lemma createConsensusDB_value : createConsensusDB = Ok genesisDB.
Proof.
  unfold createConsensusDB. rewrite commit_sco_run, commit_sfo_run.
  unfold createDSCOBucket, addDSCO. cbn. rewrite lookup_empty. cbn. rewrite lookup_insert_eq. cbn.
  unfold addBlockMap, pushPath. cbn. rewrite insert_insert_eq, !insert_empty. done.
Qed.

Lemma genesis_sums :
  genesis_ok →
  map_sumZ sco_Value (db_SiacoinOutputs genesisDB) = AirdropCoins ∧
  map_sumZ sfo_Value (db_SiafundOutputs genesisDB) = 10000 ∧
  map_sumZ claim_base (db_SiafundOutputs genesisDB) = 0.
Proof.
  intros []. cbn [db_SiacoinOutputs db_SiafundOutputs genesisDB].
  assert (Forall (λ d, scod_Direction d = true) genesisSiacoinDiffs) by (by apply Forall_imap).
  assert (Forall (λ d, sfod_Direction d = true) genesisSiafundDiffs) by (by apply Forall_imap).
  unfold sco_run, sfo_run. rewrite (kv_sum _ _ _ eq sco_Value), !(kv_sum _ _ _ eq sfo_Value), !(kv_sum _ _ _ eq claim_base)
    by (done || (by intros ? ? ->) || by apply inserts_present).
  rewrite !map_sumZ_empty. unfold signed, genesisSiacoinDiffs, genesisSiafundDiffs.
  cbn [b_Transactions GenesisBlock t_SiacoinOutputs t_SiafundOutputs].
  split_and!; [by rewrite (sumZ_imap _ _ sco_Value)|by rewrite (sumZ_imap _ _ sfo_Value)|].
  rewrite (sumZ_imap _ _ claim_base) by done. rewrite (sumZ_ext claim_base (λ _, 0)); [by rewrite sumZ_zero|].
  intros sfo Hin. rewrite Forall_forall in go_claims0. unfold claim_base. rewrite go_claims0 by done. lia.
Qed.

Lemma genesis_ledger : genesis_ok → ledger_inv genesisDB.
Proof.
  intros Hg. split; [done| |by apply map_Forall_empty].
  assert (Forall (λ d, sfo_ClaimStart (sfod_SiafundOutput d) = 0) genesisSiafundDiffs) as Hz.
  { apply Forall_imap. intros i sfo Hin. pose proof (go_claims Hg) as Hc. rewrite Forall_forall in Hc. by apply Hc. }
  assert (map_Forall (λ _ sfo, sfo_ClaimStart sfo = 0) (db_SiafundOutputs genesisDB)) as Hm.
  { by apply sfo_run_Forall; [|apply map_Forall_empty]. }
  intros id sfo Hl. pose proof (Hm id sfo Hl) as E. cbn in E. rewrite E. done.
Qed.

Lemma genesis_window : dsco_window genesisDB.
Proof.
  pose proof net_MaturityDelay. intros h. cbn. destruct (decide (h = MaturityDelay)) as [->|Hne].
  - rewrite lookup_singleton_eq. split; [lia|eauto].
  - rewrite lookup_singleton_ne by done. split; [by intros []|lia].
Qed.

Lemma genesis_counts : genesis_ok → checkSiacoinCount genesisDB = Ok [] ∧ checkSiafundCount genesisDB = [].
Proof.
  intros Hg. destruct (genesis_sums Hg) as (S1 & S2 & S3). pose proof (genesis_ledger Hg) as Hi. split.
  - destruct (checkSiacoinCount_worth genesisDB Hi S2) as (errs & -> & Hw); [done|]. f_equal. apply Hw.
    unfold worth. rewrite S1, S3. cbn [db_DSCO db_FileContracts db_SiafundPool genesisDB].
    rewrite map_sumZ_empty, map_sumZ_singleton, map_sumZ_singleton. cbn [sco_Value].
    change (coinbases (Z.to_nat (db_BlockHeight genesisDB))) with (CalculateCoinbase 0 + 0). lia.
  - rewrite checkSiafundCount_value. exact S2.
Qed.

Lemma genesis_replay oak : genesis_ok → replay_ok (set_db_Oak oak genesisDB).
Proof.
  intros Hg. assert (zeroHash ≠ Block_ID GenesisBlock) as Hz by (intros E; by destruct (go_id Hg)).
  assert (shape (set_db_Oak oak genesisDB) = {[Block_ID GenesisBlock := skeleton blockRoot]}) as Hs
    by (unfold shape; cbn; by rewrite map_fmap_singleton).
  split; cbn [db_BlockMap db_BlockPath set_db_Oak genesisDB].
  - by apply lookup_singleton_ne.
  - intros h id Hl. apply lookup_singleton_Some in Hl as [_ <-]. exists blockRoot. by rewrite lookup_singleton_eq.
  - apply map_Forall_singleton. by constructor.
  - rewrite Hs. intros id pb parent H1 H2. apply lookup_singleton_Some in H1 as [_ <-].
    by apply lookup_singleton_Some in H2 as [? _].
Qed.

(** Totals of the genesis block are added. *)
Lemma loadDB_value :
  genesis_ok → ∃ totals, loadDB None false =
    Ok (set_db_Oak {[Block_ID GenesisBlock := totals]} genesisDB, createChangeLog blockRoot).
Proof.
  intros Hg. unfold loadDB, initDB, initOak. rewrite createConsensusDB_value. cbn [mbind res_bind].
  destruct RootDepth_weight as [R1 R2], (go_target Hg) as [R3 R4].
  destruct (storeBlockTotals_total genesisDB 0 (Block_ID GenesisBlock) 0 GenesisTimestamp GenesisTimestamp RootDepth RootTarget R1 R2 R3 R4)
    as (tt & ->).
  exists tt. cbn [mbind res_bind]. change (blockHeight genesisDB) with 0.
  change (seqZ 1 0) with (@nil Z). cbn [foldM mbind res_bind db_Oak genesisDB]. rewrite insert_empty.
  set (tx := set_db_Oak _ _). assert (getPath tx 0 = Ok (Block_ID GenesisBlock)) as -> by done.
  by rewrite bool_decide_true by done.
Qed.
End first.

(** The tables of the three builds are right. *)
Lemma network_genesis_ok `{C : Crypto} release now :
  genesis_ids (N := network release now) → genesis_ok (N := network release now).
Proof.
  intros [H1 H2 H3 H4]. destruct (network_siafunds release now) as (S1 & _ & S3).
  split; [apply network_airdrop|exact S1|exact S3|apply network_RootTarget|done..].
Qed.

Lemma genesis_invariants `{N : Net} `{C : Crypto} `{!NetOk N} (synced : bool) (subscribers : list nat) :
  genesis_ok →
  ∃ tx cl, loadDB None false = Ok (tx, cl) ∧
    let cs := mkCS tx cl ∅ synced subscribers in
    node_ok cs ∧ all_weighed tx ∧ log_ok log_of cs [genesisEntry blockRoot] ∧ chained [blockRoot] tx ∧ stored tx [blockRoot] ∧
    ledger_inv tx ∧ checkSiacoinCount tx = Ok [] ∧ checkSiafundCount tx = [] ∧ dsco_window tx ∧ replay_ok tx.
Proof.
  intros Hg. destruct (loadDB_value Hg) as (tt & E). do 2 eexists. split; [exact E|]. clear E.
  set (tx := set_db_Oak _ _). destruct RootDepth_weight as [R1 R2], (go_target Hg) as [R3 R4].
  assert (shape tx = {[Block_ID GenesisBlock := skeleton blockRoot]}) as Hs by (unfold shape; cbn; by rewrite map_fmap_singleton).
  assert (currentBlockID tx = Block_ID GenesisBlock) as Hc by done.
  assert (weighed (skeleton blockRoot)) as Hw by done.
  unfold node_ok, log_ok. cbn [cs_db cs_log]. split; [split; [split|]|split_and!].
  - rewrite Hs. by apply map_Forall_singleton.
  - intros h id Hl. change (({[0 := Block_ID GenesisBlock]} : gmap BlockHeight BlockID) !! h = Some id) in Hl.
    apply lookup_singleton_Some in Hl as [_ <-]. rewrite Hs, lookup_singleton_eq. eauto.
  - rewrite Hs. apply map_Forall_singleton. by left.
  - exists (skeleton blockRoot). cbn [cs_db]. rewrite Hc, Hs, lookup_singleton_eq. split; [done|].
    apply map_Forall_singleton. by apply heavierThan_self.
  - unfold all_weighed. rewrite Hs. by apply map_Forall_singleton.
  - apply log_create, Hg.
  - apply Forall_singleton. split; [done|]. apply Forall_singleton. cbn [cs_db]. rewrite Hs, lookup_singleton_eq. eauto.
  - exists (genesisEntry blockRoot). split; [done|]. by rewrite Hc.
  - constructor; [done|done|cbn; by rewrite lookup_singleton_eq| |].
    + intros h Hh. cbn in *. apply lookup_singleton_ne. lia.
    + intros h id. cbn. rewrite lookup_empty. cbn. split; [set_solver|]. intros (fc & Hf & _). by rewrite lookup_empty in Hf.
  - apply Forall_singleton. cbn. by rewrite lookup_singleton_eq.
  - destruct (genesis_ledger Hg). by split.
  - apply (genesis_counts Hg).
  - apply (genesis_counts Hg).
  - apply genesis_window.
  - by apply genesis_replay.
Qed.

(** ** Main properties *)

(** C19: A fresh node starts in a state that satisfies every invariant of the
    other theorems, in each of the three builds with the constants and the
    allocation tables it hard-codes: [loadDB] succeeds, the database holds the
    chain of the genesis block alone, the block tree and the change log are in
    order, no block outweighs the tip, the supply of siacoins and siafunds is
    the expected one (so the tables add up), the delayed outputs are in their
    buckets, and subscribers can replay the ledger from there.  Of the hash
    function it needs that the ids of the genesis outputs are distinct and that
    the ids of the genesis block and of its log entry are not zero. *)
Theorem genesis_establishes_invariants `{N : Net} `{C : Crypto} (release : Release) (now : Timestamp)
    (synced : bool) (subscribers : list nat) :
  N = network release now → genesis_ids →
  ∃ tx cl, loadDB None false = Ok (tx, cl) ∧
    let cs := mkCS tx cl ∅ synced subscribers in
    node_ok cs ∧ all_weighed tx ∧ log_ok log_of cs [genesisEntry blockRoot] ∧ chained [blockRoot] tx ∧ stored tx [blockRoot] ∧
    ledger_inv tx ∧ checkSiacoinCount tx = Ok [] ∧ checkSiafundCount tx = [] ∧ dsco_window tx ∧ replay_ok tx.
Proof.
  intros -> Hids. apply (genesis_invariants (NetOk0 := network_ok release now)). by apply network_genesis_ok.
Qed.

(** A test network with one airdrop output and two siafund outputs. *)
Module example_genesis.
Definition key (b : byte) : Hash := replicate 32 b.
Definition net : Net :=
  testingNet 2000000000
    (mkAlloc (key x0d) (key x0b) [mkSCO AirdropCoins (key x01)] [mkSFO 9000 (key x02) 0; mkSFO 1000 (key x03) 0] []).
Lemma genesis_example_ok : genesis_ok (N := net) (C := toyCrypto).
Proof. split; vm_decide. Qed.
End example_genesis.

Lemma genesis_establishes_invariants_witness :
  ∃ tx cl, loadDB (N := network (C := toyCrypto) testing 2000000000) (C := toyCrypto) None false = Ok (tx, cl) ∧
    checkSiacoinCount (N := network (C := toyCrypto) testing 2000000000) tx = Ok [].
Proof.
  destruct (genesis_establishes_invariants (N := network (C := toyCrypto) testing 2000000000) (C := toyCrypto)
    testing 2000000000 true [] eq_refl) as (tx & cl & E & _ & _ & _ & _ & _ & _ & H & _).
  - split; vm_decide.
  - exists tx, cl. split; [exact E|exact H].
Defined.
