(* ===== verification/Synchronize.v ===== *)
(** * Synchronisation with peers

    Models [modules/consensus/synchronize.go]: the block history, both ends of
    the SendBlocks and SendBlk calls, the relaying of headers and the initial
    download.  A connection is a [Reader] for what arrives and the bytes written
    for what is sent; a write that fails ends the call like a read at the end of
    the connection, so it is not modelled apart.  Deadlines, closing connections
    and thread groups only decide when the reader ends.

    Locks are released between the rounds of a call: [views k] is the database
    of the sender at its [k]-th lock, and [others k] is what other threads do to
    the consensus set of the receiver before its [k]-th batch. *)

From S2P Require Import Prelude Encoding Currency Target Crypto Types Codec Marshal Block Signatures ValidTransaction ConsensusDB BlockValidation Difficulty ConsensusValid MapDiffs Diffs ApplyTransaction BlockDiffs Fork Changelog Subscribe Accept Errors Heaviest Replay Conservation Consistency Genesis.

(** ** Types of the messages *)

Definition HashT : GoType := TArray 32 TByte.
Definition HistoryT : GoType := TArray 32 HashT.
Definition emptyBlock : Block := mkBlock zeroHash (replicate 8 x00) 0 [] [].
(** [unsafe.Sizeof(types.Block{})] is 96. *)
Definition BlockT : GoType := TSia Block Block_codec emptyBlock 96 8.
Definition BlocksT : GoType := TSlice BlockT.
Definition HeaderT : GoType :=
  TStruct (FCons HashT (FCons (TArray 8 TByte) (FCons (TUint 64) (FCons HashT FNil)))).
Definition header_of (v : denote HeaderT) : BlockHeader :=
  let '(parent, (nonce, (timestamp, (root, _)))) := v in mkHeader parent nonce timestamp root.

Definition BlockHeaderSize : Z := 80.
Definition minNumOutbound : Z := 1.

Section synchronize.
Context `{N : Net} `{C : Crypto}.

Definition MaxCatchUpBlocks : BlockHeight :=
  match build_Release with standard => 10 | dev => 50 | testing => 3 end.

(** [err == nil] is the caller's case. *)
Definition isTimeoutErr (e : error) : bool := bool_decide (e = errTimeout).

(** ** The block history *)

(** The id next to an error is the zero id. *)
Definition pathID (tx : DB) (height : BlockHeight) : BlockID :=
  match getPath tx height with Ok id => id | _ => zeroHash end.

(** The loop: [n] entries to go, the next one is number [i]. *)
Fixpoint historyLoop (tx : DB) (n : nat) (i : Z) (height step : BlockHeight) : list BlockID :=
  match n with
  | O => []
  | S n =>
      let step := if 9 <=? i then u64 (step * 2) else step in
      pathID tx height :: (if height <=? step then [] else historyLoop tx n (i + 1) (u64 (height - step)) step)
  end.

(** Entries that the loop does not reach keep the zero id. *)
Definition blockHistory (tx : DB) : list BlockID :=
  let ids := historyLoop tx 31 0 (blockHeight tx) 1 in
  ids ++ replicate (31 - length ids) zeroHash ++ [pathID tx 0].

(** ** Sending blocks *)

(** [None] is [found == false]. *)
Fixpoint findStart (tx : DB) (csHeight : BlockHeight) (knownBlocks : list BlockID) : option BlockHeight :=
  match knownBlocks with
  | [] => None
  | id :: knownBlocks =>
      match getBlockMap tx id with
      | Ok pb =>
          match getPath tx (pb_Height pb) with
          | Ok pathID =>
              if negb (bool_decide (pathID = Block_ID (pb_Block pb))) then findStart tx csHeight knownBlocks
              else if pb_Height pb =? csHeight then None
              else Some (u64 (pb_Height pb + 1))
          | _ => findStart tx csHeight knownBlocks
          end
      | _ => findStart tx csHeight knownBlocks
      end
  end.

(** [for i := i; i <= height && i < stop; i++]: at most [MaxCatchUpBlocks] rounds. *)
Fixpoint collectBlocks (fuel : nat) (tx : DB) (height stop i : BlockHeight) : res (list Block) :=
  match fuel with
  | O => Ok []
  | S fuel =>
      if negb ((i <=? height) && (i <? stop)) then Ok [] else
      id ← getPath tx i;
      pb ← getBlockMap tx id;
      blocks ← collectBlocks fuel tx height stop (u64 (i + 1));
      Ok (pb_Block pb :: blocks)
  end.

(** One round: the blocks and whether more are available. *)
Definition nextBatch (tx : DB) (start : BlockHeight) : res (list Block * bool) :=
  let height := blockHeight tx in
  let stop := u64 (start + MaxCatchUpBlocks) in
  blocks ← collectBlocks (Z.to_nat MaxCatchUpBlocks) tx height stop start;
  Ok (blocks, stop <=? height).

Definition writeBatch (blocks : list Block) (more : bool) : res (list byte) :=
  m1 ← WriteObject BlocksT blocks; m2 ← WriteObject TBool more; Ok (m1 ++ m2).

(** The rounds of the loop, as long as the chain is ahead of them: a bound on
    the number of rounds is the fuel. *)
Fixpoint sendLoop (fuel k : nat) (views : nat → DB) (start : BlockHeight) : list byte * res unit :=
  match fuel with
  | O => ([], Panic)
  | S fuel =>
      match nextBatch (views k) start with
      | Ok (blocks, moreAvailable) =>
          match writeBatch blocks moreAvailable with
          | Ok msg =>
              if moreAvailable then
                let '(out, r) := sendLoop fuel (S k) views (u64 (start + MaxCatchUpBlocks)) in (msg ++ out, r)
              else (msg, Ok ())
          | Err e => ([], Err e)
          | Panic => ([], Panic)
          end
      | Err e => ([], Err e)
      | Panic => ([], Panic)
      end
  end.

(** What is written, and the result. *)
Definition rpcSendBlocks (fuel : nat) (views : nat → DB) (r : Reader) : list byte * res unit :=
  match (ReadObject HistoryT (zero HistoryT) r (32 * Z.of_nat HashSize)).1 with
  | Ok knownBlocks =>
      match findStart (views O) (blockHeight (views O)) knownBlocks with
      | None =>
          match writeBatch [] false with
          | Ok msg => (msg, Ok ())
          | Err e => ([], Err e)
          | Panic => ([], Panic)
          end
      | Some start => sendLoop fuel 1 views start
      end
  | Err e => ([], Err e)
  | Panic => ([], Panic)
  end.

(** ** Receiving blocks *)

Record Receiving := mkReceiving {
  rv_cs : ConsensusSet;
  rv_stalled : bool;
  rv_chainExtended : bool;
}.

(** The loop; every round reads at least 16 bytes, so the length of the input
    bounds the rounds. *)
Fixpoint receiveLoop (fuel k : nat) (others : nat → ConsensusSet → ConsensusSet) (clock : nat → nat → Timestamp)
    (rv : Receiving) (r : Reader) : Receiving * res unit :=
  match fuel with
  | O => (rv, Panic)
  | S fuel =>
      match ReadObject BlocksT (zero BlocksT) r (u64 (MaxCatchUpBlocks * BlockSizeLimit)) with
      | (Ok newBlocks, r) =>
          match ReadObject TBool true r 1 with
          | (Ok moreAvailable, r) =>
              if len newBlocks =? 0 then
                if moreAvailable then receiveLoop fuel (S k) others clock rv r else (rv, Ok ())
              else
                let out := managedAcceptBlocks (others k (rv_cs rv)) (clock k) newBlocks in
                let extended := match out_result out with Ok b => b | _ => false end in
                let rv := mkReceiving (out_cs out) false (extended || rv_chainExtended rv) in
                match out_result out with
                | Panic => (rv, Panic)
                | Ok _ | Err ErrNonExtendingBlock | Err ErrBlockKnown =>
                    if moreAvailable then receiveLoop fuel (S k) others clock rv r else (rv, Ok ())
                | Err e => (rv, Err e)
                end
          | (Err e, _) => (rv, Err e)
          | (Panic, _) => (rv, Panic)
          end
      | (Err e, _) => (rv, Err e)
      | (Panic, _) => (rv, Panic)
      end
  end.

Record Received := mkReceived {
  rc_cs : ConsensusSet;
  rc_sent : list byte;
  rc_result : res unit;
  rc_broadcast : option BlockHeader; (* relayed to the peers *)
}.

Definition managedCurrentBlock (cs : ConsensusSet) : res Block := pb ← currentProcessedBlock (cs_db cs); Ok (pb_Block pb).

Definition managedReceiveBlocks (others : nat → ConsensusSet → ConsensusSet) (clock : nat → nat → Timestamp)
    (cs : ConsensusSet) (r : Reader) : Received :=
  match WriteObject HistoryT (blockHistory (cs_db cs)) with
  | Ok history =>
      let '(rv, result) := receiveLoop (S (length (rd_bytes r))) 0 others clock (mkReceiving cs true false) r in
      let broadcast := if cs_synced (rv_cs rv) && rv_chainExtended rv
                       then match managedCurrentBlock (rv_cs rv) with Ok b => Some (Block_Header b) | _ => None end
                       else None in
      let result := match result with
                    | Err e => if isTimeoutErr e && rv_stalled rv then Err errSendBlocksStalled else Err e
                    | result => result
                    end in
      mkReceived (rv_cs rv) history result broadcast
  | Err e => mkReceived cs [] (Err e) None
  | Panic => mkReceived cs [] Panic None
  end.

(** ** Single blocks *)

Definition rpcSendBlk (tx : DB) (r : Reader) : res (list byte) :=
  id ← (ReadObject HashT (zero HashT) r (Z.of_nat HashSize)).1;
  pb ← getBlockMap tx id;
  WriteObject BlockT (pb_Block pb).

Definition managedReceiveBlock (clock : nat → Timestamp) (cs : ConsensusSet) (id : BlockID) (r : Reader) : Received :=
  match WriteObject HashT id with
  | Ok request =>
      match (ReadObject BlockT (zero BlockT) r BlockSizeLimit).1 with
      | Ok block =>
          let out := managedAcceptBlocks cs clock [block] in
          mkReceived (out_cs out) request (_ ← out_result out; Ok ())
            (match out_result out with Ok true => Some (Block_Header block) | _ => None end)
      | Err e => mkReceived cs request (Err e) None
      | Panic => mkReceived cs request Panic None
      end
  | Err e => mkReceived cs [] (Err e) None
  | Panic => mkReceived cs [] Panic None
  end.

(** What a header from a peer leads to: a call back to the peer. *)
Inductive RelayAction :=
  | RequestBlocks  (* SendBlocks *)
  | RequestBlock (id : BlockID).  (* SendBlk *)

Definition threadedRPCRelayHeader (now : Timestamp) (cs : ConsensusSet) (r : Reader) : res RelayAction :=
  v ← (ReadObject HeaderT (zero HeaderT) r BlockHeaderSize).1;
  let h := header_of v in
  match validateHeader (cs_dosBlocks cs) now (cs_db cs) h with
  | Err errOrphan => Ok RequestBlocks
  | Err e => Err e
  | Panic => Panic
  | Ok _ => Ok (RequestBlock (BlockHeader_ID h))
  end.

(** ** The initial download *)

(** A peer in a round: whether it connected to us, and the result of asking it
    for blocks. *)
Record IBDPeer := mkIBDPeer { ip_Inbound : bool; ip_result : res unit }.

(** The counters after a round, and whether each peer was disconnected. *)
Definition ibdPeer (st : Z * Z * list bool) (p : IBDPeer) : Z * Z * list bool :=
  let '(numOutboundSynced, numOutboundNotSynced, disconnected) := st in
  if ip_Inbound p then (numOutboundSynced, numOutboundNotSynced, disconnected ++ [false])
  else match ip_result p with
       | Ok _ => (numOutboundSynced + 1, numOutboundNotSynced, disconnected ++ [false])
       | Err e => (numOutboundSynced, numOutboundNotSynced + 1, disconnected ++ [negb (isTimeoutErr e)])
       | Panic => (numOutboundSynced, numOutboundNotSynced, disconnected)
       end.

Definition ibdRound (peers : list IBDPeer) : Z * Z * list bool := foldl ibdPeer (0, 0, []) peers.

Definition ibdDone (numOutboundSynced numOutboundNotSynced : Z) (afterDeadline : bool) : bool :=
  (numOutboundNotSynced <? numOutboundSynced) && ((minNumOutbound <=? numOutboundSynced) || afterDeadline).

(** The rounds up to the one that ends the download: its number. *)
Fixpoint threadedInitialBlockchainDownload (k : nat) (rounds : list (list IBDPeer * bool)) : option nat :=
  match rounds with
  | [] => None
  | (peers, afterDeadline) :: rounds =>
      let '(numOutboundSynced, numOutboundNotSynced, _) := ibdRound peers in
      if ibdDone numOutboundSynced numOutboundNotSynced afterDeadline then Some k
      else threadedInitialBlockchainDownload (S k) rounds
  end.

Definition Synced (stopped : bool) (cs : ConsensusSet) : bool := if stopped then false else cs_synced cs.
End synchronize.

(** ** The history covers the chain *)

Section history.
Context `{N : Net} `{C : Crypto}.

(** The heights of the entries. *)
Fixpoint historyHeights (n : nat) (i : Z) (height step : BlockHeight) : list Z :=
  match n with
  | O => []
  | S n =>
      let step := if 9 <=? i then u64 (step * 2) else step in
      height :: (if height <=? step then [] else historyHeights n (i + 1) (u64 (height - step)) step)
  end.

Lemma historyLoop_heights tx n i height step :
  historyLoop tx n i height step = map (pathID tx) (historyHeights n i height step).
Proof.
  revert i height step. induction n as [|n IH]; intros i height step; cbn [historyLoop historyHeights map]; [done|].
  f_equal. destruct (height <=? _); [done|apply IH].
Qed.

Definition heights (tx : DB) : list Z := historyHeights 31 0 (blockHeight tx) 1.

Lemma blockHistory_heights tx :
  blockHistory tx = map (pathID tx) (heights tx) ++ replicate (31 - length (heights tx)) zeroHash ++ [pathID tx 0].
Proof. unfold blockHistory, heights. by rewrite historyLoop_heights, length_map. Qed.

Lemma length_historyHeights n i height step : (length (historyHeights n i height step) ≤ n)%nat.
Proof.
  revert i height step. induction n as [|n IH]; intros i height step; cbn [historyHeights length]; [done|].
  destruct (height <=? _); cbn [length]; [lia|]. specialize (IH (i + 1) (u64 (height - (if 9 <=? i then u64 (step * 2) else step)))
    (if 9 <=? i then u64 (step * 2) else step)). lia.
Qed.

Lemma length_blockHistory tx : length (blockHistory tx) = 32%nat.
Proof.
  rewrite blockHistory_heights, !length_app, length_map, length_replicate. cbn [length].
  pose proof (length_historyHeights 31 0 (blockHeight tx) 1). unfold heights. lia.
Qed.

(** The step and the depth of entry [i]: nine steps of one, then doubling. *)
Definition history_inv (i step depth : Z) : Prop :=
  (0 ≤ i < 9 ∧ step = 1 ∧ depth = i) ∨ (9 ≤ i ∧ step = 2 ^ (i - 9) ∧ depth = 7 + 2 * step).

Lemma history_step i step depth :
  history_inv i step depth → i ≤ 31 →
  let step' := if 9 <=? i then u64 (step * 2) else step in
  0 < step' ∧ history_inv (i + 1) step' (depth + step') ∧ (i < 9 → step' = 1) ∧ depth + step' ≤ 2 * (depth + 1).
Proof.
  intros Hi Hle. unfold history_inv in *. destruct Hi as [(H1 & -> & ->)|(H1 & Hs & ->)].
  - rewrite (proj2 (Z.leb_gt _ _)) by lia. cbv zeta. split_and!; try lia.
    destruct (decide (i = 8)) as [->|]; [right; cbn; lia|left; lia].
  - rewrite (proj2 (Z.leb_le _ _)) by lia. cbv zeta.
    assert (0 < step ≤ 2 ^ 22) by (subst step; split; [lia|apply Z.pow_le_mono_r; lia]).
    rewrite u64_id by ulia. split_and!; try lia. right. split_and!; [lia| |lia].
    replace (i + 1 - 9) with (Z.succ (i - 9)) by lia. rewrite Z.pow_succ_r by lia. lia.
Qed.

Lemma historyHeights_covers n i height step depth top c :
  history_inv i step depth → i + Z.of_nat n = 31 → 0 ≤ height → top = height + depth → top < 2 ^ 23 → 0 ≤ c ≤ height →
  ∃ x, 0 ≤ x ≤ c ∧ top - x ≤ 2 * (top - c) ∧ (x = 0 ∨ x ∈ historyHeights n i height step).
Proof.
  revert i height step depth. induction n as [|n IH]; intros i height step depth Hi Hn Hh Ht Hmax Hc.
  { exfalso. assert (i = 31) as -> by lia. destruct Hi as [|(_ & -> & ->)]; [lia|]. cbn in Ht. lia. }
  destruct (history_step i step depth Hi ltac:(lia)) as (Hs & Hi' & Hs1 & Hd). cbn [historyHeights]. cbv zeta in *.
  set (step' := if 9 <=? i then u64 (step * 2) else step) in *. clearbody step'.
  assert (0 ≤ depth) by (destruct Hi as [|(? & -> & ->)]; lia).
  destruct (decide (c = height)) as [->|Hne]; [exists height; split_and!; [lia..|right; set_solver]|].
  destruct (Z.leb_spec height step') as [Hb|Hb].
  { exists 0. split_and!; [lia..| |by left]. destruct (decide (i < 9)) as [|]; [specialize (Hs1 ltac:(lia)); lia|lia]. }
  rewrite u64_id by ulia. destruct (decide (c ≤ height - step')) as [Hle|Hgt].
  { destruct (IH (i + 1) (height - step') step' (depth + step')) as (x & H1 & H2 & H3); [done|lia..|].
    exists x. split_and!; [lia..|set_solver]. }
  exists (height - step'). split_and!; [lia..|right]. destruct n as [|n]; [|cbn [historyHeights]; set_solver].
  exfalso. assert (i = 30) as -> by lia. destruct Hi' as [|(_ & E1 & E2)]; [lia|]. cbn in E1. lia.
Qed.

Lemma historyHeights_sorted n i height step depth :
  history_inv i step depth → i + Z.of_nat n = 31 → 0 ≤ height < 2 ^ 64 →
  Forall (λ x, 0 ≤ x ≤ height) (historyHeights n i height step) ∧ StronglySorted Z.gt (historyHeights n i height step).
Proof.
  revert i height step depth. induction n as [|n IH]; intros i height step depth Hi Hn Hh; [split; constructor|].
  destruct (history_step i step depth Hi ltac:(lia)) as (Hs & Hi' & _). cbn [historyHeights]. cbv zeta in *.
  set (step' := if 9 <=? i then u64 (step * 2) else step) in *. clearbody step'.
  destruct (Z.leb_spec height step') as [Hb|Hb]; [split; repeat constructor; lia|].
  rewrite u64_id by ulia. destruct (IH (i + 1) (height - step') step' (depth + step') Hi' ltac:(lia) ltac:(lia)) as [F S].
  split; constructor; try lia; try done; (eapply Forall_impl; [exact F|cbn; lia]).
Qed.
End history.

(** ** What the sender sends *)

Section sender.
Context `{N : Net} `{C : Crypto}.
Abbreviation pid pb := (Block_ID (pb_Block pb)) (only parsing).

(** The path holds a stored block at every height up to the tip. *)
Record chain_ok (tx : DB) : Prop := {
  co_height : 0 ≤ blockHeight tx < 2 ^ 63;
  co_path h : 0 ≤ h ≤ blockHeight tx →
    ∃ pb, db_BlockPath tx !! h = Some (pid pb) ∧ db_BlockMap tx !! pid pb = Some pb ∧ pb_Height pb = h;
  co_above h id : db_BlockPath tx !! h = Some id → 0 ≤ h ≤ blockHeight tx;
  co_keyed : map_Forall (λ id pb, pid pb = id) (db_BlockMap tx);
  co_zero : db_BlockMap tx !! zeroHash = None;
}.

Definition off_chain (tx : DB) (id : BlockID) : Prop := ∀ h, db_BlockPath tx !! h ≠ Some id.

Lemma on_chain tx h id :
  chain_ok tx → db_BlockPath tx !! h = Some id → ∃ pb, db_BlockMap tx !! id = Some pb ∧ pid pb = id ∧ pb_Height pb = h.
Proof.
  intros Hc Hl. destruct (co_path _ Hc h (co_above _ Hc _ _ Hl)) as (pb & E1 & E2 & E3). rewrite Hl in E1. injection E1 as ->. eauto.
Qed.

Lemma zero_off_chain tx : chain_ok tx → off_chain tx zeroHash.
Proof. intros Hc h Hl. destruct (on_chain _ _ _ Hc Hl) as (pb & E & _). by rewrite (co_zero _ Hc) in E. Qed.

(** The start is the child of the first known block that is on the path. *)
Lemma findStart_spec tx ids :
  chain_ok tx →
  (Forall (off_chain tx) ids ∧ findStart tx (blockHeight tx) ids = None) ∨
  ∃ pre id post h, ids = pre ++ id :: post ∧ Forall (off_chain tx) pre ∧ db_BlockPath tx !! h = Some id ∧
    findStart tx (blockHeight tx) ids = if h =? blockHeight tx then None else Some (h + 1).
Proof.
  intros Hc. induction ids as [|id ids IH]; [by left|].
  assert ((off_chain tx id ∧ findStart tx (blockHeight tx) (id :: ids) = findStart tx (blockHeight tx) ids) ∨
    ∃ h, db_BlockPath tx !! h = Some id ∧
      findStart tx (blockHeight tx) (id :: ids) = if h =? blockHeight tx then None else Some (h + 1)) as [[Hoff E]|(h & Hl & E)].
  { cbn [findStart]. unfold getBlockMap, getPath. destruct (db_BlockMap tx !! id) as [pb|] eqn:Em.
    2: { left. split; [|done]. intros h Hl. destruct (on_chain _ _ _ Hc Hl) as (pb & E & _). congruence. }
    pose proof (co_keyed _ Hc _ _ Em) as Hid. cbn in Hid.
    assert (db_BlockPath tx !! pb_Height pb = Some id ∨ off_chain tx id) as [Hon|Hoff].
    { destruct (decide (db_BlockPath tx !! pb_Height pb = Some id)) as [|Hne]; [by left|right]. intros h Hl.
      destruct (on_chain _ _ _ Hc Hl) as (pb' & E & _ & Eh). rewrite Em in E. injection E as <-. by rewrite Eh in Hne. }
    - right. exists (pb_Height pb). split; [done|]. rewrite Hon, Hid, bool_decide_true by done. cbn [negb].
      pose proof (co_above _ Hc _ _ Hon). pose proof (co_height _ Hc). by rewrite u64_id by ulia.
    - left. split; [done|]. destruct (db_BlockPath tx !! pb_Height pb) as [id'|] eqn:El; [|done].
      rewrite bool_decide_false; [done|]. intros ->. rewrite Hid in El. by apply (Hoff (pb_Height pb)). }
  - rewrite E. destruct IH as [[Hall E']|(pre & id' & post & h & -> & Hpre & Hl & E')]; [left|right].
    + split; [by constructor|done].
    + exists (id :: pre), id', post, h. split_and!; [done|by constructor|done|done].
  - right. exists [], id, ids, h. by split_and!.
Qed.

(** Blocks have the same height wherever they are known. *)
Definition same_heights (tx tx' : DB) : Prop :=
  ∀ id pb pb', db_BlockMap tx !! id = Some pb → db_BlockMap tx' !! id = Some pb' → pb_Height pb = pb_Height pb'.

Lemma pathID_lookup tx h : chain_ok tx → 0 ≤ h ≤ blockHeight tx → db_BlockPath tx !! h = Some (pathID tx h).
Proof. intros Hc Hh. destruct (co_path _ Hc h Hh) as (pb & E & _). unfold pathID, getPath. by rewrite E. Qed.

Lemma heights_ok tx : chain_ok tx → Forall (λ x, 0 ≤ x ≤ blockHeight tx) (heights tx) ∧ StronglySorted Z.gt (heights tx).
Proof.
  intros Hc. pose proof (co_height _ Hc). apply (historyHeights_sorted 31 0 (blockHeight tx) 1 0); [|done|lia]. left. lia.
Qed.

Lemma heights_cover tx c :
  chain_ok tx → blockHeight tx < 2 ^ 23 → 0 ≤ c ≤ blockHeight tx →
  ∃ x, 0 ≤ x ≤ c ∧ blockHeight tx - x ≤ 2 * (blockHeight tx - c) ∧ (x = 0 ∨ x ∈ heights tx).
Proof.
  intros Hok Hmax Hc. unfold heights. apply (historyHeights_covers 31 0 (blockHeight tx) 1 0); [left; lia|done|lia|lia|done|done].
Qed.

Lemma split_first {A} (l1 l2 pre post : list A) a b :
  l1 ++ a :: l2 = pre ++ b :: post → a ∉ pre → b ∈ l1 ∨ b = a.
Proof.
  revert pre. induction l1 as [|z l1 IH]; intros [|p pre] E Hn; cbn in E; injection E as -> E; [by right|set_solver|set_solver|].
  destruct (IH pre E); set_solver.
Qed.

(** The start that the sender finds is close to where the chains part. *)
Lemma history_start txA txB c :
  chain_ok txA → chain_ok txB → same_heights txA txB → blockHeight txA < 2 ^ 23 →
  0 ≤ c ≤ blockHeight txA → (∀ h, 0 ≤ h ≤ c → db_BlockPath txA !! h = db_BlockPath txB !! h) →
  ∃ f, 0 ≤ f ≤ blockHeight txB ∧ f ≤ blockHeight txA ∧ db_BlockPath txA !! f = db_BlockPath txB !! f ∧
    blockHeight txA - f ≤ 2 * (blockHeight txA - c) ∧
    findStart txB (blockHeight txB) (blockHistory txA) = if f =? blockHeight txB then None else Some (f + 1).
Proof.
  intros HA HB Hsame Hmax Hc Hcom. destruct (heights_ok _ HA) as [Hr Hs]. rewrite Forall_forall in Hr.
  destruct (heights_cover txA c HA Hmax Hc) as (x & Hx & Hd & Hin).
  assert (∀ y, 0 ≤ y ≤ blockHeight txA → ∀ h, db_BlockPath txB !! h = Some (pathID txA y) → h = y) as Hy.
  { intros y Hy h Hl. destruct (on_chain _ _ _ HB Hl) as (pb & E1 & _ & <-).
    destruct (on_chain _ _ _ HA (pathID_lookup _ _ HA Hy)) as (pa & E2 & _ & <-). symmetry. by eapply Hsame. }
  assert (∀ y, 0 ≤ y ≤ c → db_BlockPath txB !! y = Some (pathID txA y)) as Hon.
  { intros y Hyc. rewrite <- Hcom by done. apply pathID_lookup; [done|lia]. }
  rewrite blockHistory_heights. revert Hr Hs Hin. generalize (heights txA) as hs. intros hs Hr Hs Hin.
  assert (∀ id, id ∈ replicate (31 - length hs) zeroHash → off_chain txB id) as Hzs.
  { intros id [-> _]%elem_of_replicate. by apply zero_off_chain. }
  revert Hzs. generalize (replicate (31 - length hs) zeroHash) as zs. intros zs Hzs.
  destruct (findStart_spec txB (map (pathID txA) hs ++ zs ++ [pathID txA 0]) HB) as [[Hoff _]|(pre & id & post & h & E & Hpre & Hl & ->)].
  { exfalso. apply Forall_app in Hoff as [_ Hoff]. apply Forall_app in Hoff as [_ Hoff]. apply Forall_cons in Hoff as [Hoff _].
    apply (Hoff 0), Hon. lia. }
  assert (∃ y, id = pathID txA y ∧ 0 ≤ y ≤ blockHeight txA ∧ x ≤ y) as (y & -> & Hyr & Hxy).
  { assert (id ∈ map (pathID txA) hs ∨ id = pathID txA 0) as Hid.
    { assert (id ∈ pre ++ id :: post) as Hid by (apply elem_of_app; right; left). rewrite <- E in Hid.
      apply elem_of_app in Hid as [|Hid]; [by left|]. apply elem_of_app in Hid as [Hid|Hid]; [by destruct (Hzs _ Hid h)|].
      right. by apply list_elem_of_singleton in Hid. }
    destruct Hin as [->|Hin].
    { destruct Hid as [Hid| ->]; [|exists 0; split_and!; [done|lia..]]. apply list_elem_of_fmap in Hid as (y & -> & Hy').
      exists y. specialize (Hr y Hy'). split_and!; [done|lia..]. }
    apply list_elem_of_split in Hin as (hs1 & hs2 & Ehs). rewrite Ehs, map_app, <- app_assoc in E. cbn [map app] in E.
    destruct (split_first _ _ _ _ _ _ E) as [Hid'| ->].
    - rewrite Forall_forall in Hpre. intros Hp. by apply (Hpre _ Hp x), Hon.
    - apply list_elem_of_fmap in Hid' as (y & -> & Hy'). exists y. rewrite Ehs in Hs, Hr.
      pose proof (StronglySorted_app_1_elem_of Z.gt hs1 (x :: hs2) y x Hs Hy' ltac:(set_solver)).
      specialize (Hr y ltac:(set_solver)). split_and!; [done|lia..].
    - exists x. split_and!; [done|lia..]. }
  pose proof (co_above _ HB _ _ Hl) as Hab. pose proof (Hy y Hyr h Hl) as ->. exists y. split_and!; [lia..| |lia|done].
  rewrite Hl. apply pathID_lookup; [done|lia].
Qed.
End sender.

(** *** Batches *)

Section batches.
Context `{N : Net} `{C : Crypto}.
Abbreviation pid pb := (Block_ID (pb_Block pb)) (only parsing).

Lemma MaxCatchUpBlocks_range : 0 < MaxCatchUpBlocks ≤ 50.
Proof. unfold MaxCatchUpBlocks. destruct build_Release; lia. Qed.

(** The chain from a height up to the tip. *)
Definition chainBlock (tx : DB) (h : Z) : Block :=
  match db_BlockMap tx !! pathID tx h with Some pb => pb_Block pb | None => emptyBlock end.
Definition chainBlocks (tx : DB) (start : Z) : list Block := map (chainBlock tx) (seqZ start (blockHeight tx + 1 - start)).

Fixpoint batches (n : nat) (l : list Block) : list (list Block * bool) :=
  match n with
  | O => []
  | S n =>
      let M := Z.to_nat MaxCatchUpBlocks in
      (take M l, MaxCatchUpBlocks <? len l) :: (if MaxCatchUpBlocks <? len l then batches n (drop M l) else [])
  end.

Lemma collectBlocks_value tx fuel i :
  chain_ok tx → 0 ≤ i ≤ blockHeight tx + 1 →
  collectBlocks fuel tx (blockHeight tx) (i + Z.of_nat fuel) i =
  Ok (map (chainBlock tx) (seqZ i (Z.min (blockHeight tx + 1 - i) (Z.of_nat fuel)))).
Proof.
  intros Hc. pose proof (co_height _ Hc) as Hh. revert i. induction fuel as [|fuel IH]; intros i Hi.
  { rewrite Z.min_r by lia. done. }
  cbn [collectBlocks]. rewrite (proj2 (Z.ltb_lt i _)) by lia. rewrite andb_true_r. destruct (Z.leb_spec i (blockHeight tx)) as [Hle|Hgt].
  2: { rewrite Z.min_l by lia. replace (blockHeight tx + 1 - i) with 0 by lia. done. }
  cbn [negb]. destruct (co_path _ Hc i ltac:(lia)) as (pb & E1 & E2 & _). unfold getPath. rewrite E1. cbn [mbind res_bind].
  unfold getBlockMap. rewrite E2. cbn [mbind res_bind]. rewrite u64_id by ulia.
  replace (i + Z.of_nat (S fuel)) with (i + 1 + Z.of_nat fuel) by lia. rewrite IH by lia. cbn [mbind res_bind].
  rewrite (seqZ_cons i) by lia. cbn [map]. f_equal. f_equal.
  - unfold chainBlock, pathID, getPath. by rewrite E1, E2.
  - do 2 f_equal. lia.
Qed.

Lemma length_chainBlocks tx start : len (chainBlocks tx start) = Z.max 0 (blockHeight tx + 1 - start).
Proof. unfold len, chainBlocks. rewrite length_map, length_seqZ. lia. Qed.

(** The blocks of a round and those that are left. *)
Lemma chainBlocks_split tx start k :
  0 ≤ k → start ≤ blockHeight tx + 1 →
  take (Z.to_nat k) (chainBlocks tx start) = map (chainBlock tx) (seqZ start (Z.min (blockHeight tx + 1 - start) k)) ∧
  (start + k ≤ blockHeight tx + 1 → drop (Z.to_nat k) (chainBlocks tx start) = chainBlocks tx (start + k)).
Proof.
  intros Hk Hs. unfold chainBlocks. destruct (decide (start + k ≤ blockHeight tx + 1)) as [Hle|Hgt].
  - replace (blockHeight tx + 1 - start) with (k + (blockHeight tx + 1 - (start + k))) by lia.
    rewrite seqZ_app, map_app by lia. assert (Z.to_nat k = length (map (chainBlock tx) (seqZ start k))) as E
      by (rewrite length_map, length_seqZ; lia).
    rewrite Z.min_r by lia. rewrite E. by rewrite take_app_length, drop_app_length.
  - rewrite Z.min_l by lia. rewrite take_ge by (rewrite length_map, length_seqZ; lia). split; [done|lia].
Qed.

Lemma nextBatch_value tx start :
  chain_ok tx → 0 ≤ start ≤ blockHeight tx →
  nextBatch tx start = Ok (take (Z.to_nat MaxCatchUpBlocks) (chainBlocks tx start), MaxCatchUpBlocks <? len (chainBlocks tx start)).
Proof.
  intros Hc Hs. pose proof MaxCatchUpBlocks_range as HM. pose proof (co_height _ Hc). unfold nextBatch.
  assert (u64 (start + MaxCatchUpBlocks) = start + Z.of_nat (Z.to_nat MaxCatchUpBlocks)) as -> by (rewrite u64_id by ulia; lia).
  rewrite collectBlocks_value by (done || lia). cbn [mbind res_bind].
  destruct (chainBlocks_split tx start MaxCatchUpBlocks) as [-> _]; [lia..|]. rewrite length_chainBlocks.
  rewrite Z2Nat.id by lia. f_equal. f_equal. destruct (Z.leb_spec (start + MaxCatchUpBlocks) (blockHeight tx)), (Z.ltb_spec MaxCatchUpBlocks (Z.max 0 (blockHeight tx + 1 - start))); lia.
Qed.

(** *** The messages of a batch *)

Lemma encode_blocks (l : list Block) : encode_each (encode BlockT) l = Ok (concat (map Block_MarshalSia l)).
Proof. induction l as [|b l IH]; [done|]. cbn [encode_each map concat]. by rewrite IH. Qed.

Lemma Marshal_blocks (l : list Block) : Marshal BlocksT l = Ok (WriteInt (len l) ++ concat (map Block_MarshalSia l)).
Proof.
  destruct l as [|b l]; [done|]. change (Marshal BlocksT (b :: l)) with (encode_slice BlockT (encode BlockT) (b :: l)).
  unfold encode_slice. rewrite encode_elems_other by done. assert (len (b :: l) ≠ 0) as Hn by (unfold len; cbn; lia).
  change (denote BlockT) with Block. rewrite (proj2 (Z.eqb_neq _ _) Hn), encode_blocks. done.
Qed.

Definition batchMessage (b : list Block * bool) : list byte :=
  prefix_WritePrefixedBytes (WriteInt (len b.1) ++ concat (map Block_MarshalSia b.1)) ++ prefix_WritePrefixedBytes (WriteBool b.2).

Lemma writeBatch_value l more : writeBatch l more = Ok (batchMessage (l, more)).
Proof. unfold writeBatch, WriteObject. by rewrite Marshal_blocks. Qed.

Lemma sendLoop_value tx fuel k start :
  chain_ok tx → 0 ≤ start ≤ blockHeight tx → (length (chainBlocks tx start) ≤ fuel)%nat →
  sendLoop fuel k (λ _, tx) start = (concat (map batchMessage (batches fuel (chainBlocks tx start))), Ok ()).
Proof.
  intros Hc. pose proof MaxCatchUpBlocks_range as HM. pose proof (co_height _ Hc). revert k start.
  induction fuel as [|fuel IH]; intros k start Hs Hf; pose proof (length_chainBlocks tx start) as Hl; unfold len in Hl; [lia|].
  cbn [sendLoop batches]. rewrite nextBatch_value by done. rewrite writeBatch_value. cbn [map concat].
  destruct (Z.ltb_spec MaxCatchUpBlocks (len (chainBlocks tx start))) as [Hlt|Hge]; [|cbn [map concat]; by rewrite app_nil_r].
  unfold len in Hlt. destruct (chainBlocks_split tx start MaxCatchUpBlocks) as [_ Hd]; [lia..|].
  rewrite Hd by lia. rewrite u64_id by ulia. rewrite IH; [done|lia|].
  pose proof (length_chainBlocks tx (start + MaxCatchUpBlocks)) as Hl'. unfold len in Hl'. lia.
Qed.

(** The batches are the blocks, in order; only the last one says that there is
    nothing more. *)
Inductive batched : list (list Block * bool) → list Block → Prop :=
  | batched_last l : batched [(l, false)] l
  | batched_more l bs rest : batched bs rest → batched ((l, true) :: bs) (l ++ rest).

Lemma batches_batched n l : (length l ≤ n)%nat → (0 < n)%nat → batched (batches n l) l.
Proof.
  pose proof MaxCatchUpBlocks_range as HM. revert l. induction n as [|n IH]; intros l Hn H0; [lia|]. cbn [batches].
  destruct (Z.ltb_spec MaxCatchUpBlocks (len l)) as [Hlt|Hge]; unfold len in *.
  - rewrite <- (take_drop (Z.to_nat MaxCatchUpBlocks) l) at 3. constructor. apply IH; [rewrite length_drop|]; lia.
  - rewrite take_ge by lia. constructor.
Qed.
End batches.

(** ** What the receiver makes of it *)

Section receiver.
Context `{N : Net} `{C : Crypto}.

(** The call failed, with an error that the receiver does not tolerate, which it
    stops with. *)
Definition rejected (out : Outcome) (r : res unit) : Prop :=
  match out_result out with
  | Err e => r = Err e ∧ e ≠ ErrNonExtendingBlock ∧ e ≠ ErrBlockKnown
  | Panic => r = Panic
  | Ok _ => False
  end.

(** *** The loop *)

(** A batch that the receiver can read. *)
Record batch_ok (l : list Block) : Prop := {
  bo_number : len l ≤ MaxCatchUpBlocks;
  bo_wire : Forall Block_wire_ok l;
  bo_each : Forall (λ b, len (Block_MarshalSia b) ≤ BlockSizeLimit) l;
  bo_size : 8 + sumZ (λ b, len (Block_MarshalSia b)) l ≤ MaxCatchUpBlocks * BlockSizeLimit;
}.

Lemma len_concat_map {A} (f : A → list byte) l : len (concat (map f l)) = sumZ (λ x, len (f x)) l.
Proof. induction l as [|x l IH]; [done|]. cbn [map concat sumZ]. by rewrite len_app, IH. Qed.

Lemma blocks_encodable (l : list Block) :
  len l ≤ MaxCatchUpBlocks → Forall Block_wire_ok l → Forall (λ b, len (Block_MarshalSia b) ≤ BlockSizeLimit) l →
  encodable BlocksT l.
Proof.
  intros H1 H2 H3. pose proof MaxCatchUpBlocks_range as HM.
  change (len l ≤ 2 ^ 31 - 1 ∧ 0 ≤ 96 ∧ len l * 96 ≤ MaxSliceSize ∧ Forall (λ b, Block_wire_ok b ∧ len (Block_MarshalSia b) ≤ MaxObjectSize) l).
  unfold MaxSliceSize. split_and!; [lia..|]. apply Forall_and. split; [done|].
  eapply Forall_impl; [exact H3|]. unfold BlockSizeLimit, MaxObjectSize. cbn. lia.
Qed.

Lemma counted_blocks (l : list Block) : counted BlocksT l = 8.
Proof. change (8 + sumZ (λ _ : Block, 0) l = 8). by rewrite sumZ_zero. Qed.

Lemma read_batch l more rest e :
  batch_ok l →
  ∃ r, ReadObject BlocksT (zero BlocksT) (mkReader (batchMessage (l, more) ++ rest) e) (u64 (MaxCatchUpBlocks * BlockSizeLimit)) = (Ok l, r) ∧
    ReadObject TBool true r 1 = (Ok more, mkReader rest e).
Proof.
  intros [H1 H2 H3 H4]. pose proof MaxCatchUpBlocks_range as HM. unfold batchMessage. cbn [fst snd]. rewrite <- app_assoc.
  assert (u64 (MaxCatchUpBlocks * BlockSizeLimit) = MaxCatchUpBlocks * BlockSizeLimit) as -> by (rewrite u64_id; unfold is_u64, BlockSizeLimit in *; lia).
  destruct (ReadObject_WriteObject BlocksT l (MaxCatchUpBlocks * BlockSizeLimit) (prefix_WritePrefixedBytes (WriteBool more) ++ rest) e)
    as (data & E1 & _ & HR & _).
  - by apply blocks_encodable.
  - rewrite counted_blocks. unfold MaxObjectSize. lia.
  - unfold BlockSizeLimit. lia.
  - rewrite Marshal_blocks in E1. apply Ok_inj in E1 as <-. eexists. split; [apply HR|].
    + rewrite len_app, len_concat_map. unfold WriteInt, WriteUint64. rewrite len_EncUint64. lia.
    + by destruct more.
Qed.

Lemma length_batchMessage b : (8 ≤ length (batchMessage b))%nat.
Proof. unfold batchMessage, prefix_WritePrefixedBytes, WriteInt, WriteUint64. rewrite !length_app, !length_EncUint64. lia. Qed.

(** One batch: stored, or refused with the error that ends the call. *)
Lemma receive_round others clock fuel k rv l more rest e :
  (∀ k cs, evolves cs (others k cs)) → batch_ok l → Forall (λ b, Block_ID b ≠ zeroHash) l →
  tree_ok (cs_db (rv_cs rv)) → tip_known (cs_db (rv_cs rv)) →
  ∃ rv1, evolves (rv_cs rv) (rv_cs rv1) ∧
    (Forall (stored_in (cs_db (rv_cs rv1))) l ∧
     receiveLoop (S fuel) k others clock rv (mkReader (batchMessage (l, more) ++ rest) e) =
       (if more then receiveLoop fuel (S k) others clock rv1 (mkReader rest e) else (rv1, Ok ())) ∨
     ∃ r, let out := managedAcceptBlocks (others k (rv_cs rv)) (clock k) l in
       receiveLoop (S fuel) k others clock rv (mkReader (batchMessage (l, more) ++ rest) e) = (rv1, r) ∧
       rv_stalled rv1 = false ∧ rv_cs rv1 = out_cs out ∧ rejected out r).
Proof.
  intros Hoth Hbo Hz Hok Hk. destruct (read_batch l more rest e Hbo) as (r & E1 & E2). cbn [receiveLoop]. rewrite E1, E2.
  change (denote BlockT) with Block. destruct (Z.eqb_spec (len l) 0) as [E0|_].
  { apply len_0 in E0 as ->. exists rv. split; [done|]. left. by split; [constructor|]. }
  destruct (ev_tree _ _ (Hoth k (rv_cs rv)) Hok Hk) as [Hok' Hk'].
  pose proof (managedAcceptBlocks_stored (others k (rv_cs rv)) (clock k) l Hok' Hk' Hz) as Hst.
  pose proof (managedAcceptBlocks_evolves (others k (rv_cs rv)) (clock k) l Hz) as Hev. cbv zeta in *.
  assert (evolves (rv_cs rv) (out_cs (managedAcceptBlocks (others k (rv_cs rv)) (clock k) l))) as Hev' by (etrans; [apply Hoth|exact Hev]).
  set (out := managedAcceptBlocks (others k (rv_cs rv)) (clock k) l) in *. unfold rejected.
  exists (mkReceiving (out_cs out) false (match out_result out with Ok b => b | _ => false end || rv_chainExtended rv)).
  split; [exact Hev'|].
  destruct (out_result out) as [b|err|] eqn:Er; [left; split; [apply (tw_stored _ _ _ Hst)|done]| |].
  - destruct err; first [exact (False_ind _ Hst) | left; split; [exact (tw_stored _ _ _ Hst)|done] |
      right; eexists; (split; [reflexivity|]); done].
  - right. by exists Panic.
Qed.

(** The batch with number [i] is refused: the node is then in state [cs'], has
    stored the blocks of the batches before it and keeps what the failed call
    leaves. *)
Definition stopped_at (others : nat → ConsensusSet → ConsensusSet) (clock : nat → nat → Timestamp) (k : nat) (cs : ConsensusSet)
    (bs : list (list Block * bool)) (r : res unit) (final : ConsensusSet) : Prop :=
  ∃ i b cs', bs !! i = Some b ∧ evolves cs cs' ∧ Forall (stored_in (cs_db cs')) (concat (map fst (take i bs))) ∧
    let out := managedAcceptBlocks cs' (clock (k + i)%nat) b.1 in rejected out r ∧ final = out_cs out.

Lemma receiveLoop_batches others clock :
  (∀ k cs, evolves cs (others k cs)) →
  ∀ bs l, batched bs l → Forall (λ b, batch_ok b.1) bs → Forall (λ b, Block_ID b ≠ zeroHash) l →
  ∀ fuel k rv e, (length (concat (map batchMessage bs)) < fuel)%nat → tree_ok (cs_db (rv_cs rv)) → tip_known (cs_db (rv_cs rv)) →
  ∃ rv' r, receiveLoop fuel k others clock rv (mkReader (concat (map batchMessage bs)) e) = (rv', r) ∧
    evolves (rv_cs rv) (rv_cs rv') ∧
    ((r = Ok () ∧ Forall (stored_in (cs_db (rv_cs rv'))) l) ∨
     rv_stalled rv' = false ∧ stopped_at others clock k (rv_cs rv) bs r (rv_cs rv')).
Proof.
  intros Hoth bs l Hb. induction Hb as [l|l bs rest Hb IH]; intros Hbo Hz fuel k rv e Hf Hok Hk; destruct fuel as [|fuel]; try lia;
    apply Forall_cons in Hbo as [Hbo1 Hbo]; cbn [fst] in Hbo1; cbn [map concat] in *.
  - destruct (receive_round others clock fuel k rv l false [] e Hoth Hbo1 Hz Hok Hk) as (rv1 & Hev & [[Hst E]|(r & E & Hsl & Ecs & Hr)]).
    + exists rv1, (Ok ()). split_and!; [done|done|by left].
    + exists rv1, r. split_and!; [done|done|right]. split; [done|]. exists 0%nat, (l, false), (others k (rv_cs rv)).
      rewrite Nat.add_0_r. split_and!; [done|apply Hoth|constructor|done..].
  - apply Forall_app in Hz as [Hz1 Hz2].
    destruct (receive_round others clock fuel k rv l true (concat (map batchMessage bs)) e Hoth Hbo1 Hz1 Hok Hk)
      as (rv1 & Hev & [[Hst E]|(r & E & Hsl & Ecs & Hr)]).
    + destruct (ev_tree _ _ Hev Hok Hk) as [Hok1 Hk1]. rewrite length_app in Hf. pose proof (length_batchMessage (l, true)).
      destruct (IH Hbo Hz2 fuel (S k) rv1 e ltac:(lia) Hok1 Hk1) as (rv' & r & E' & Hev' & Hres). exists rv', r. rewrite E, E'.
      assert (∀ cs', evolves (rv_cs rv1) cs' → Forall (stored_in (cs_db cs')) l) as Hkeep.
      { intros cs' He. eapply Forall_impl; [exact Hst|]. intros b. by apply stored_in_mono, (ev_grown _ _ He). }
      split_and!; [done|by etrans|]. destruct Hres as [[-> Hst']|(Hsl & i & b & cs' & Hi & He & Hbef & Hr)]; [left|right].
      * split; [done|]. apply Forall_app. auto.
      * split; [done|]. exists (S i), b, cs'. rewrite Nat.add_succ_r. cbn [take map concat].
        split_and!; [done|by etrans|apply Forall_app; auto|apply Hr..].
    + exists rv1, r. split_and!; [done|done|right]. split; [done|]. exists 0%nat, (l, true), (others k (rv_cs rv)).
      rewrite Nat.add_0_r. split_and!; [done|apply Hoth|constructor|done..].
Qed.
End receiver.

(** ** The two ends together *)

Section exchange.
Context `{N : Net} `{C : Crypto} `{!CryptoLaws C}.

Lemma pathID_hash tx h : chain_ok tx → hash_ok (pathID tx h).
Proof.
  intros Hc. unfold pathID, getPath. destruct (db_BlockPath tx !! h) as [id|] eqn:E; [|done].
  destruct (on_chain _ _ _ Hc E) as (pb & _ & <- & _). apply Sum256_length.
Qed.

Lemma encodable_bytes (l : list byte) : Forall (encodable TByte) l.
Proof. by apply Forall_true. Qed.

Lemma history_encodable tx : chain_ok tx → encodable HistoryT (blockHistory tx).
Proof.
  intros Hc. split; [apply length_blockHistory|]. rewrite blockHistory_heights.
  assert (Forall hash_ok (map (pathID tx) (heights tx) ++ replicate (31 - length (heights tx)) zeroHash ++ [pathID tx 0])) as Hall.
  { apply Forall_app. split; [apply List.Forall_map, Forall_true; intros h; by apply pathID_hash|].
    apply Forall_app. split; [by apply Forall_replicate|]. apply Forall_singleton. by apply pathID_hash. }
  eapply Forall_impl; [exact Hall|]. intros id Hid. split; [exact Hid|apply encodable_bytes].
Qed.

Lemma sumZ_const {A} (f : A → Z) (c : Z) l : Forall (λ x, f x = c) l → sumZ f l = c * len l.
Proof. induction 1 as [|x l Hx _ IH]; [unfold len; cbn; lia|]. cbn [sumZ]. rewrite Hx, IH, len_cons. lia. Qed.

Lemma encode_hashes (l : list (list byte)) : encode_each (encode HashT) l = Ok (concat l).
Proof. induction l as [|x l IH]; [done|]. cbn [encode_each concat]. by rewrite IH. Qed.

Lemma Marshal_history (l : denote HistoryT) : Marshal HistoryT l = Ok (concat l).
Proof. apply encode_hashes. Qed.

Lemma counted_history (l : denote HistoryT) : counted HistoryT l = sumZ (λ id : list byte, len id) l.
Proof. done. Qed.

(** The history arrives. *)
Lemma history_arrives (l : denote HistoryT) e :
  length l = 32%nat → Forall (λ id : list byte, len id = 32) l → encodable HistoryT l →
  ∃ hist, WriteObject HistoryT l = Ok hist ∧
    (ReadObject HistoryT (zero HistoryT) (mkReader hist e) (32 * Z.of_nat HashSize)).1 = Ok l.
Proof.
  intros Hl H32 He. assert (sumZ (λ id : list byte, len id) l = 1024) as Hsum.
  { rewrite (sumZ_const _ 32) by done. unfold len. by rewrite Hl. }
  destruct (ReadObject_WriteObject HistoryT l (32 * Z.of_nat HashSize) [] e He) as (data & E1 & E2 & HR & _);
    [rewrite counted_history, Hsum; done|done|].
  rewrite app_nil_r in HR. exists (prefix_WritePrefixedBytes data). split; [done|]. rewrite HR; [done|].
  rewrite Marshal_history in E1. apply Ok_inj in E1 as <-. rewrite <- (map_id l). by rewrite len_concat_map, Hsum.
Qed.

Lemma history_read tx e :
  chain_ok tx → ∃ hist, WriteObject HistoryT (blockHistory tx) = Ok hist ∧
    (ReadObject HistoryT (zero HistoryT) (mkReader hist e) (32 * Z.of_nat HashSize)).1 = Ok (blockHistory tx).
Proof.
  intros Hc. pose proof (history_encodable _ Hc) as He. pose proof He as [Hl Hv]. apply history_arrives; [exact Hl| |exact He].
  eapply Forall_impl; [exact Hv|]. intros id [Hid _]. unfold len. by rewrite Hid.
Qed.

(** What the peer answers: the batches after the start that it finds. *)
Definition answer (fuel : nat) (tx : DB) (f : Z) : list (list Block * bool) :=
  if f =? blockHeight tx then [([], false)] else batches fuel (chainBlocks tx (f + 1)).

Lemma rpcSendBlocks_value fuel txA txB f hist e :
  chain_ok txA → chain_ok txB → 0 ≤ f ≤ blockHeight txB → (Z.to_nat (blockHeight txB) ≤ fuel)%nat →
  findStart txB (blockHeight txB) (blockHistory txA) = (if f =? blockHeight txB then None else Some (f + 1)) →
  WriteObject HistoryT (blockHistory txA) = Ok hist →
  rpcSendBlocks fuel (λ _, txB) (mkReader hist e) = (concat (map batchMessage (answer fuel txB f)), Ok ()).
Proof.
  intros HA HB Hf Hfuel Hs Hh. destruct (history_read txA e HA) as (hist' & E1 & E2). rewrite Hh in E1. apply Ok_inj in E1 as <-.
  unfold rpcSendBlocks. rewrite E2, Hs. unfold answer. destruct (Z.eqb_spec f (blockHeight txB)) as [|Hne].
  - rewrite writeBatch_value. cbn [map concat]. by rewrite app_nil_r.
  - rewrite sendLoop_value; [done|done|lia|]. pose proof (length_chainBlocks txB (f + 1)) as Hl. unfold len in Hl. lia.
Qed.

Lemma answer_batched fuel tx f :
  0 ≤ f ≤ blockHeight tx → (Z.to_nat (blockHeight tx) ≤ fuel)%nat → batched (answer fuel tx f) (chainBlocks tx (f + 1)).
Proof.
  intros Hf Hfuel. unfold answer. destruct (Z.eqb_spec f (blockHeight tx)) as [->|Hne].
  - assert (chainBlocks tx (blockHeight tx + 1) = []) as ->; [|constructor].
    pose proof (length_chainBlocks tx (blockHeight tx + 1)) as Hl. apply len_0. lia.
  - pose proof (length_chainBlocks tx (f + 1)) as Hl. unfold len in Hl. apply batches_batched; lia.
Qed.

Lemma chainBlocks_ids tx start : chain_ok tx → 0 ≤ start → Forall (λ b, Block_ID b ≠ zeroHash) (chainBlocks tx start).
Proof.
  intros Hc Hs. unfold chainBlocks. apply List.Forall_map, Forall_forall. intros h Hh%elem_of_seqZ.
  destruct (co_path _ Hc h ltac:(lia)) as (pb & E1 & E2 & _). unfold chainBlock, pathID, getPath. rewrite E1, E2.
  intros Hz. rewrite Hz, (co_zero _ Hc) in E2. done.
Qed.

(** The tip of the peer is the last block it sends, or is known already. *)
Lemma tip_received txA txB tx f :
  chain_ok txB → tree_ok txA → shape txA ⊆ shape tx → 0 ≤ f ≤ blockHeight txB → db_BlockPath txA !! f = db_BlockPath txB !! f →
  Forall (stored_in tx) (chainBlocks txB (f + 1)) → is_Some (shape tx !! currentBlockID txB).
Proof.
  intros HB HA Hsub Hf Hcom Hst. destruct (co_path _ HB (blockHeight txB)) as (pb & E1 & E2 & _); [pose proof (co_height _ HB); lia|].
  unfold currentBlockID, getPath. rewrite E1. destruct (decide (f = blockHeight txB)) as [->|Hne].
  - rewrite E1 in Hcom. destruct (to_path _ HA _ _ Hcom) as [x Hx]. exists x. by eapply lookup_weaken.
  - rewrite Forall_forall in Hst. apply (Hst (pb_Block pb)). unfold chainBlocks. apply list_elem_of_fmap.
    exists (blockHeight txB). split; [|apply elem_of_seqZ; lia]. unfold chainBlock, pathID, getPath. by rewrite E1, E2.
Qed.
End exchange.

Lemma WriteObject_history (l : denote HistoryT) : WriteObject HistoryT l = Ok (prefix_WritePrefixedBytes (concat l)).
Proof. unfold WriteObject. by rewrite Marshal_history. Qed.

(** *** A batch that does not fit *)

Lemma read_full_batch `{N : Net} (l : list Block) rest e :
  len l = MaxCatchUpBlocks → Forall Block_wire_ok l → Forall (λ b, len (Block_MarshalSia b) = BlockSizeLimit) l →
  ∃ r, ReadObject BlocksT (zero BlocksT) (mkReader (prefix_WritePrefixedBytes (WriteInt (len l) ++ concat (map Block_MarshalSia l)) ++ rest) e)
    (u64 (MaxCatchUpBlocks * BlockSizeLimit)) = (Err errPrefixTooLarge, r).
Proof.
  intros Hl Hwire Hsize. pose proof MaxCatchUpBlocks_range as HM.
  assert (sumZ (λ b, len (Block_MarshalSia b)) l = MaxCatchUpBlocks * BlockSizeLimit) as Hsum by (rewrite (sumZ_const _ BlockSizeLimit), Hl by done; lia).
  rewrite u64_id by (unfold is_u64, BlockSizeLimit; lia).
  destruct (ReadObject_WriteObject BlocksT l (MaxCatchUpBlocks * BlockSizeLimit) rest e) as (data & E1 & _ & _ & HR).
  - apply blocks_encodable; [lia|done|]. eapply Forall_impl; [exact Hsize|]. cbn. lia.
  - rewrite counted_blocks. unfold MaxObjectSize. lia.
  - unfold BlockSizeLimit. lia.
  - rewrite Marshal_blocks in E1. apply Ok_inj in E1 as <-. eexists. apply HR. rewrite len_app, len_concat_map, Hsum.
    unfold WriteInt, WriteUint64. rewrite len_EncUint64. unfold BlockSizeLimit. lia.
Qed.

Lemma receiveLoop_refuse `{N : Net} `{C : Crypto} fuel k others clock rv r r' e :
  ReadObject BlocksT (zero BlocksT) r (u64 (MaxCatchUpBlocks * BlockSizeLimit)) = (Err e, r') →
  receiveLoop (S fuel) k others clock rv r = (rv, Err e).
Proof. intros E. cbn [receiveLoop]. by rewrite E. Qed.

(** ** Main properties *)

(** C23: SendBlocks starts close to where two chains part.  If the chains of the
    requester and of the sender agree up to height [c], then the sender finds in
    the requester's block history (of 32 ids, for chains of up to 2^23 blocks) a
    block [f] that is on both chains and at most twice as deep below the
    requester's tip as [c], and sends its own blocks after [f], all of them and in
    order, in batches of at most [MaxCatchUpBlocks], of which only the last says
    that there is nothing more. *)
Theorem rpcSendBlocks_from_common_parent `{N : Net} `{C : Crypto} `{!CryptoLaws C} (txA txB : DB) (c : Z) (fuel : nat) (e : error) :
  chain_ok txA → chain_ok txB → same_heights txA txB → blockHeight txA < 2 ^ 23 → (Z.to_nat (blockHeight txB) ≤ fuel)%nat →
  0 ≤ c ≤ blockHeight txA → (∀ h, 0 ≤ h ≤ c → db_BlockPath txA !! h = db_BlockPath txB !! h) →
  ∃ hist f bs, WriteObject HistoryT (blockHistory txA) = Ok hist ∧
    0 ≤ f ≤ blockHeight txB ∧ db_BlockPath txA !! f = db_BlockPath txB !! f ∧
    blockHeight txA - f ≤ 2 * (blockHeight txA - c) ∧
    rpcSendBlocks fuel (λ _, txB) (mkReader hist e) = (concat (map batchMessage bs), Ok ()) ∧
    batched bs (chainBlocks txB (f + 1)) ∧ Forall (λ b, len b.1 ≤ MaxCatchUpBlocks) bs.
Proof.
  intros HA HB Hsame Hmax Hfuel Hc Hcom. destruct (history_start txA txB c HA HB Hsame Hmax Hc Hcom) as (f & Hf & HfA & Hcf & Hd & Hs).
  destruct (history_read txA e HA) as (hist & Hh & _). exists hist, f, (answer fuel txB f).
  split; [done|]. split; [lia|]. split; [done|]. split; [lia|]. split; [by apply (rpcSendBlocks_value fuel txA)|].
  split; [by apply answer_batched|].
  pose proof MaxCatchUpBlocks_range as HM. unfold answer. destruct (f =? blockHeight txB); [apply Forall_singleton; change (0 ≤ MaxCatchUpBlocks); lia|].
  generalize (chainBlocks txB (f + 1)) as l. clear -HM. induction fuel as [|fuel IH]; intros l; [constructor|]. cbn [batches].
  constructor; [unfold len; cbn [fst]; rewrite length_take; lia|]. destruct (_ <? _); [apply IH|constructor].
Qed.

(** C10: Synchronising with a peer works, over the wire and while other calls
    change the node in between.  The node sends its history, the peer answers
    with the batches of its blocks after a common one, and the node reads them.
    Either it returns no error, knows the peer's tip and its own tip is not
    outweighed by it.  Or it stops at one of these batches, because
    [managedAcceptBlocks] rejects it in the state the node is in then, with an
    error other than [ErrNonExtendingBlock] and [ErrBlockKnown], which is the
    result; it has stored the blocks of all the batches before.  Conditions: the
    peer's database does not change during the call, the chains start with the
    same block, the node's chain has fewer than 2^23 blocks, no batch of the peer
    exceeds the limit of the reader, and no target of a block stored afterwards
    is zero (the weights divide by it). *)
Theorem synchronised_with_peer `{N : Net} `{C : Crypto} `{!CryptoLaws C} (cs : ConsensusSet) (txB : DB) (fuel : nat)
    (others : nat → ConsensusSet → ConsensusSet) (clock : nat → nat → Timestamp) (e : error) :
  node_ok cs → chain_ok (cs_db cs) → chain_ok txB → same_heights (cs_db cs) txB → blockHeight (cs_db cs) < 2 ^ 23 →
  db_BlockPath (cs_db cs) !! 0 = db_BlockPath txB !! 0 → (Z.to_nat (blockHeight txB) ≤ fuel)%nat →
  (∀ f, 0 ≤ f ≤ blockHeight txB → Forall (λ b, batch_ok b.1) (answer fuel txB f)) →
  (∀ k cs, evolves cs (others k cs)) →
  let sent := rpcSendBlocks fuel (λ _, txB) (mkReader (rc_sent (managedReceiveBlocks others clock cs (mkReader [] e))) e) in
  let rc := managedReceiveBlocks others clock cs (mkReader sent.1 e) in
  all_weighed (cs_db (rc_cs rc)) →
  sent.2 = Ok () ∧ node_ok (rc_cs rc) ∧
  ∃ f, 0 ≤ f ≤ blockHeight txB ∧ db_BlockPath (cs_db cs) !! f = db_BlockPath txB !! f ∧
    sent.1 = concat (map batchMessage (answer fuel txB f)) ∧ batched (answer fuel txB f) (chainBlocks txB (f + 1)) ∧
    ((rc_result rc = Ok () ∧ ∃ tip tipB, shape (cs_db (rc_cs rc)) !! currentBlockID (cs_db (rc_cs rc)) = Some tip ∧
        shape (cs_db (rc_cs rc)) !! currentBlockID txB = Some tipB ∧ heavierThan tipB tip = Ok false) ∨
     stopped_at others clock 0 cs (answer fuel txB f) (rc_result rc) (rc_cs rc)).
Proof.
  intros [Hok Hh] HA HB Hsame Hmax Hgen Hfuel Hbo Hoth.
  destruct (history_start (cs_db cs) txB 0 HA HB Hsame Hmax) as (f & Hf & _ & Hcf & _ & Hs);
    [pose proof (co_height _ HA); lia|intros h Hh0; by replace h with 0 by lia|].
  destruct (history_read (cs_db cs) e HA) as (hist & Hhist & _). unfold managedReceiveBlocks at 1.
  rewrite Hhist. destruct (receiveLoop (S (length (rd_bytes (mkReader [] e)))) 0 others clock (mkReceiving cs true false) (mkReader [] e)) as [rv0 r0].
  cbn [rc_sent]. rewrite (rpcSendBlocks_value fuel (cs_db cs) txB f hist e HA HB Hf Hfuel Hs Hhist). cbn [fst snd].
  unfold managedReceiveBlocks. rewrite Hhist. cbn [rd_bytes].
  destruct (receiveLoop_batches others clock Hoth _ _ (answer_batched fuel txB f Hf Hfuel) (Hbo f Hf) (chainBlocks_ids txB (f + 1) HB ltac:(lia))
    (S (length (concat (map batchMessage (answer fuel txB f))))) 0 (mkReceiving cs true false) e ltac:(lia) Hok (heaviest_tip_known _ Hh))
    as (rv & r & -> & Hev & Hres). cbn [rc_cs rc_result rv_cs]. intros Hw. cbn [rv_cs] in Hev, Hres.
  assert (node_ok (rv_cs rv)) as Hn by (split; [by apply (ev_tree _ _ Hev), heaviest_tip_known|by apply (ev_heaviest _ _ Hev)]).
  split_and!; [done|done..|]. exists f. split; [exact Hf|]. split; [exact Hcf|]. split; [done|].
  split; [by apply answer_batched|].
  destruct Hres as [[-> Hst]|(Hsl & i & b & cs' & Hi & He & Hbef & Hr & Ecs)]; [left|right].
  - split; [done|]. destruct Hn as [_ (tip & Htip & Hall)].
    destruct (tip_received (cs_db cs) txB (cs_db (rv_cs rv)) f HB Hok (ev_grown _ _ Hev Hok (heaviest_tip_known _ Hh)) Hf Hcf Hst) as [tipB HtB].
    exists tip, tipB. split_and!; [done|done|]. by apply (Hall _ _ HtB).
  - exists i, b, cs'. split; [exact Hi|]. split; [exact He|]. split; [exact Hbef|]. split; [|exact Ecs]. unfold rejected in *. destruct (out_result _) as [|err|]; [done| |subst r; done].
    destruct Hr as (-> & Hne). split; [|done]. by rewrite Hsl, andb_false_r.
Qed.

(** C37: A full batch cannot be received.  Blocks of exactly the size limit are
    valid, but the limit of the reader leaves no room for the length that
    precedes them: a node that is sent [MaxCatchUpBlocks] of them refuses the
    message and drops the call without having accepted anything, so it cannot
    synchronise past them. *)
Theorem full_batch_refused `{N : Net} `{C : Crypto} (cs : ConsensusSet) (others : nat → ConsensusSet → ConsensusSet)
    (clock : nat → nat → Timestamp) (l : list Block) (more : bool) (rest : list byte) (e : error) :
  len l = MaxCatchUpBlocks → Forall Block_wire_ok l → Forall (λ b, len (Block_MarshalSia b) = BlockSizeLimit) l →
  let rc := managedReceiveBlocks others clock cs (mkReader (batchMessage (l, more) ++ rest) e) in
  rc_result rc = Err errPrefixTooLarge ∧ rc_cs rc = cs ∧ rc_broadcast rc = None.
Proof.
  intros Hl Hwire Hsize. unfold batchMessage. cbn [fst snd]. rewrite <- app_assoc.
  destruct (read_full_batch l (prefix_WritePrefixedBytes (WriteBool more) ++ rest) e Hl Hwire Hsize) as (r & E).
  unfold managedReceiveBlocks. rewrite WriteObject_history, (receiveLoop_refuse _ _ _ _ _ _ _ _ E).
  cbv zeta. cbn [rv_cs rv_stalled rv_chainExtended rc_result rc_cs rc_broadcast]. by rewrite andb_false_r.
Qed.

(** *** Witnesses *)

(** Deciding the conditions on concrete databases. *)
Lemma chain_ok_check `{N : Net} `{C : Crypto} tx :
  0 ≤ blockHeight tx < 2 ^ 63 → Forall (λ h, is_Some (db_BlockPath tx !! h)) (seqZ 0 (blockHeight tx + 1)) →
  map_Forall (λ h id, 0 ≤ h ≤ blockHeight tx ∧ pb_Height <$> db_BlockMap tx !! id = Some h) (db_BlockPath tx) →
  map_Forall (λ id pb, Block_ID (pb_Block pb) = id) (db_BlockMap tx) → db_BlockMap tx !! zeroHash = None → chain_ok tx.
Proof.
  intros H1 H2 H3 H4 H5. split; try done.
  - intros h Hh. rewrite Forall_forall in H2. destruct (H2 h) as [id Hid]; [apply elem_of_seqZ; lia|].
    destruct (H3 h id Hid) as [_ Hp]. apply fmap_Some in Hp as (pb & Hm & ->). exists pb. pose proof (H4 _ _ Hm) as E. cbn in E. by rewrite E.
  - intros h id Hid. apply (H3 h id Hid).
Qed.

Lemma same_heights_check tx tx' :
  map_Forall (λ id pb, pb_Height <$> db_BlockMap tx' !! id = None ∨ pb_Height <$> db_BlockMap tx' !! id = Some (pb_Height pb)) (db_BlockMap tx) →
  same_heights tx tx'.
Proof.
  intros H id pb pb' E1 E2. destruct (H id pb E1) as [E|E]; rewrite E2 in E; [done|]. by injection E as ->.
Qed.

(** A fresh node, and a peer that has one block more. *)
Module example_sync.
Definition net : Net := example_genesis.net.
#[local] Existing Instance net.
Definition emptyCS : ConsensusSet := mkCS emptyDB (mkLog ∅ None) ∅ false [].
Definition cs : ConsensusSet := match loadDB None false with Ok (tx, cl) => mkCS tx cl ∅ true [] | _ => emptyCS end.
Definition block : Block := Eval vm_compute in
  let dev := example.supply (CalculateDevSubsidy 1) in
  mkBlock (currentBlockID (cs_db cs)) (x01 :: replicate 7 x00) 2000000001
    [mkSCO (CalculateCoinbase 1 - dev) (replicate 32 x44); mkSCO dev (replicate 32 x0d)] [].
Definition clock (k i : nat) : Timestamp := 2000000500.
Definition peer : DB := cs_db (out_cs (managedAcceptBlocks cs (clock 0) [block])).
Definition others (k : nat) (cs : ConsensusSet) : ConsensusSet := cs.

Lemma node_genesis_ok : node_ok cs.
Proof.
  split; [split|].
  - vm_decide.
  - assert (map_Forall (λ _ id, is_Some (shape (cs_db cs) !! id)) (db_BlockPath (cs_db cs))) as H by vm_decide.
    intros h id Hl. exact (H h id Hl).
  - unfold ancestors_stored. vm_decide.
  - exists (skeleton blockRoot). split; [vm_compute; reflexivity|vm_decide].
Qed.
Lemma cs_chain : chain_ok (cs_db cs).
Proof. apply chain_ok_check; vm_decide. Qed.
Lemma peer_chain : chain_ok peer.
Proof. apply chain_ok_check; vm_decide. Qed.
Lemma heights_agree : same_heights (cs_db cs) peer.
Proof. apply same_heights_check. vm_decide. Qed.
Lemma block_wire : Block_wire_ok block.
Proof.
  unfold block. wire_check.
Qed.
Lemma batches_ok f : 0 ≤ f ≤ blockHeight peer → Forall (λ b, batch_ok b.1) (answer 5 peer f).
Proof.
  intros Hf. assert (blockHeight peer = 1) as Eh by (vm_compute; reflexivity). rewrite Eh in Hf.
  assert (f = 0 ∨ f = 1) as [->| ->] by lia.
  - assert (answer 5 peer 0 = [([block], false)]) as -> by (vm_compute; reflexivity). apply Forall_singleton.
    split; [vm_decide|apply Forall_singleton, block_wire|vm_decide|vm_decide].
  - assert (answer 5 peer 1 = [([], false)]) as -> by (vm_compute; reflexivity). apply Forall_singleton.
    split; [vm_decide|constructor|constructor|vm_decide].
Qed.

(** A valid block of exactly the size limit: two transactions with data. *)
Definition padding (n : nat) : Transaction := mkTxn [] [] [] [] [] [] [] [] [replicate n x00] [].
Definition full_block (n m : nat) : Block := mkBlock zeroHash (replicate 8 x00) 0 [] [padding n; padding m].

Lemma full_block_size n m : len (Block_MarshalSia (full_block n m)) = Z.of_nat n + Z.of_nat m + 240.
Proof.
  unfold Block_MarshalSia, full_block, Transaction_MarshalSia, Transaction_MarshalSiaNoSignatures, enc_slice, enc_WritePrefix. cbn [b_ParentID b_Nonce b_Timestamp b_MinerPayouts b_Transactions padding
    t_SiacoinInputs t_SiacoinOutputs t_FileContracts t_FileContractRevisions t_StorageProofs t_SiafundInputs t_SiafundOutputs
    t_MinerFees t_ArbitraryData t_TransactionSignatures map concat].
  rewrite !len_app, !len_EncUint64, !len_nil. unfold len. rewrite !length_replicate. change (length zeroHash) with 32%nat. lia.
Qed.

Lemma full_block_wire n m : Z.of_nat n ≤ MaxSliceSize → Z.of_nat m ≤ MaxSliceSize → Block_wire_ok (full_block n m).
Proof.
  intros Hn Hm. repeat split; try done; repeat constructor; try done; cbn; unfold len; rewrite ?length_replicate; try done.
Qed.
End example_sync.

Lemma rpcSendBlocks_from_common_parent_witness :
  ∃ hist f bs, WriteObject HistoryT (blockHistory (cs_db example_sync.cs)) = Ok hist ∧
    rpcSendBlocks (N := example_sync.net) 5 (λ _, example_sync.peer) (mkReader hist ErrEOF) = (concat (map batchMessage bs), Ok ()) ∧
    batched bs (chainBlocks example_sync.peer (f + 1)).
Proof.
  destruct (rpcSendBlocks_from_common_parent (N := example_sync.net) (CryptoLaws0 := toyCrypto_laws) (cs_db example_sync.cs)
    example_sync.peer 0 5 ErrEOF example_sync.cs_chain example_sync.peer_chain example_sync.heights_agree)
    as (hist & f & bs & H1 & _ & _ & _ & H2 & H3 & _).
  - vm_compute. reflexivity.
  - apply Nat.leb_le. vm_compute. reflexivity.
  - vm_decide.
  - intros h Hh. replace h with 0 by lia. vm_compute. reflexivity.
  - exists hist, f, bs. split; [exact H1|]. split; [exact H2|exact H3].
Defined.

Definition example_sync_sent : list byte * res unit :=
  rpcSendBlocks (N := example_sync.net) 5 (λ _, example_sync.peer) (mkReader (rc_sent
    (managedReceiveBlocks (N := example_sync.net) example_sync.others example_sync.clock example_sync.cs (mkReader [] ErrEOF))) ErrEOF).

Lemma synchronised_with_peer_witness :
  example_sync_sent.2 = Ok () ∧
  node_ok (N := example_sync.net) (rc_cs (managedReceiveBlocks (N := example_sync.net) example_sync.others example_sync.clock
    example_sync.cs (mkReader example_sync_sent.1 ErrEOF))).
Proof.
  destruct (synchronised_with_peer (N := example_sync.net) (CryptoLaws0 := toyCrypto_laws) example_sync.cs example_sync.peer 5
    example_sync.others example_sync.clock ErrEOF example_sync.node_genesis_ok example_sync.cs_chain example_sync.peer_chain
    example_sync.heights_agree) as (H1 & H2 & _).
  - vm_compute. reflexivity.
  - vm_compute. reflexivity.
  - apply Nat.leb_le. vm_compute. reflexivity.
  - exact example_sync.batches_ok.
  - intros k cs. reflexivity.
  - unfold all_weighed. vm_decide.
  - split; [exact H1|exact H2].
Defined.

Lemma full_batch_refused_witness :
  ∃ l : list Block, rc_result (managedReceiveBlocks (N := example_sync.net) example_sync.others example_sync.clock
    example_sync.cs (mkReader (batchMessage (l, true) ++ []) errTimeout)) = Err errPrefixTooLarge.
Proof.
  pose (b := example_sync.full_block (Z.to_nat 1000000) (Z.to_nat 999760)).
  exists [b; b; b]. apply (full_batch_refused (N := example_sync.net) example_sync.cs example_sync.others example_sync.clock [b; b; b] true [] errTimeout).
  - reflexivity.
  - repeat (apply Forall_cons; split); try exact (List.Forall_nil _); apply example_sync.full_block_wire; unfold MaxSliceSize; lia.
  - repeat (apply Forall_cons; split); try exact (List.Forall_nil _); unfold b; rewrite example_sync.full_block_size; unfold BlockSizeLimit; lia.
Defined.
