(* ===== verification/MapRange.v ===== *)
(** * Ranging over Go maps

    [for k, v := range m] visits every entry of a map once, in an order that
    the language leaves open and that may differ from one execution of the same
    loop to the next.  [sort.Slice] leaves the order of equal elements open.
    Both choices are made by [shuffle]: every execution of such a loop has a
    position, a list of numbers that the callers extend, and [shuffle at] is the
    permutation chosen at the position [at].  The theorems hold for every
    instance of [MapOrder]. *)

From S2P Require Import Prelude.

(** Where in an execution a loop over a map is run. *)
Abbreviation position := (list nat) (only parsing).

Class MapOrder := {
  shuffle : position → ∀ {A}, list A → list A;
  shuffle_perm (at_ : position) {A} (l : list A) : shuffle at_ l ≡ₚ l;
}.

(** Two instances, for evaluating the model. *)
Definition inOrder : MapOrder := {|
  shuffle := λ _ _ l, l;
  shuffle_perm := λ _ _ l, Permutation_refl l;
|}.
Definition reversed : MapOrder := {|
  shuffle := λ _ _ l, rev l;
  shuffle_perm := λ _ _ l, Permutation_sym (Permutation_rev l);
|}.

Section range.
Context `{MO : MapOrder} `{Countable K} {A : Type}.
Implicit Types (m : gmap K A) (s : gset K).

(** The entries of a map, and the keys of a [map[K]struct{}], as visited. *)
Definition range (at_ : position) m : list (K * A) := shuffle at_ (map_to_list m).
Definition range_keys (at_ : position) s : list K := shuffle at_ (elements s).

Lemma range_perm at_ m : range at_ m ≡ₚ map_to_list m.
Proof. apply shuffle_perm. Qed.

Lemma elem_of_range at_ m k x : (k, x) ∈ range at_ m ↔ m !! k = Some x.
Proof. by rewrite range_perm, elem_of_map_to_list. Qed.

Lemma range_NoDup at_ m : NoDup (range at_ m).*1.
Proof. rewrite range_perm. apply NoDup_fst_map_to_list. Qed.

Lemma range_keys_perm at_ s : range_keys at_ s ≡ₚ elements s.
Proof. apply shuffle_perm. Qed.

Lemma elem_of_range_keys at_ s k : k ∈ range_keys at_ s ↔ k ∈ s.
Proof. by rewrite range_keys_perm, elem_of_elements. Qed.

Lemma range_keys_NoDup at_ s : NoDup (range_keys at_ s).
Proof. rewrite range_keys_perm. apply NoDup_elements. Qed.
End range.

(** [sort.Slice(l, less)], [le] being the order that [less] is the strict part of. *)
Definition sort_Slice `{MapOrder} (at_ : position) {A} (le : relation A) `{∀ x y, Decision (le x y)} (l : list A) : list A :=
  merge_sort le (shuffle at_ l).

Lemma sort_Slice_perm `{MapOrder} at_ {A} (le : relation A) `{∀ x y, Decision (le x y)} l :
  sort_Slice at_ le l ≡ₚ l.
Proof. unfold sort_Slice. by rewrite merge_sort_Permutation, shuffle_perm. Qed.

Lemma sort_Slice_sorted `{MapOrder} at_ {A} (le : relation A) `{∀ x y, Decision (le x y)}
  `{!Transitive le} `{!Total le} l : StronglySorted le (sort_Slice at_ le l).
Proof. apply StronglySorted_merge_sort; apply _. Qed.

(** A loop that gives the same value to many keys. *)
Lemma foldl_insert_lookup `{Countable K} {A V : Type} (f : A → K) (v : V) (l : list A) (m : gmap K V) (k : K) :
  foldl (λ m x, <[f x := v]> m) m l !! k = if decide (k ∈ map f l) then Some v else m !! k.
Proof.
  revert m. induction l as [|x l IH]; intros m; cbn; [done|]. rewrite IH.
  destruct (decide (k ∈ map f l)); [rewrite decide_True by (by right); done|].
  destruct (decide (k = f x)) as [->|].
  - by rewrite lookup_insert_eq, decide_True by (by left).
  - rewrite lookup_insert_ne, decide_False by (try rewrite elem_of_cons; naive_solver). done.
Qed.
