(* ===== verification/Standard.v ===== *)
(** * The standard rules of the transaction pool

    Models [modules/transactionpool/standard.go] and the limits of
    [modules/transactionpool.go]: rules beyond consensus that a transaction has
    to satisfy to be relayed. *)

From S2P Require Import Prelude Encoding Currency Target Crypto Types Codec Block.

Definition TransactionSetSizeLimit : Z := 250000.
Definition TransactionSizeLimit : Z := 32000.

(** "NonSia" *)
Definition PrefixNonSia : Specifier := specifier [x4e; x6f; x6e; x53; x69; x61].
(** "HostAnnouncement" *)
Definition PrefixHostAnnouncement : Specifier :=
  specifier [x48; x6f; x73; x74; x41; x6e; x6e; x6f; x75; x6e; x63; x65; x6d; x65; x6e; x74].

Definition checkUnlockConditions (uc : UnlockConditions) : res unit :=
  checkM (λ pk, guard_err
    (negb (bool_decide (spk_Algorithm pk = SignatureEntropy)) &&
     negb (bool_decide (spk_Algorithm pk = SignatureEd25519))) errUnrecognizedKeyType)
    (uc_PublicKeys uc).

Definition whitelisted (prefix : Specifier) : bool :=
  bool_decide (prefix = PrefixHostAnnouncement) || bool_decide (prefix = PrefixNonSia).

(** The variable [prefix] is declared outside the loop: an entry shorter than a
    specifier overwrites its leading bytes only. *)
Definition checkArbitraryData (arbs : list (list byte)) : res Specifier :=
  foldM (λ prefix arb,
    let prefix := go_copy prefix arb in
    if whitelisted prefix then Ok prefix else Err ErrInvalidArbPrefix)
    (replicate SpecifierLen x00) arbs.

Definition isStandardTransaction (t : Transaction) : res Z :=
  let tlen := len (Transaction_MarshalSia t) in
  _ ← guard_err (TransactionSizeLimit <? tlen) ErrLargeTransaction;
  _ ← checkM (λ sci, checkUnlockConditions (sci_UnlockConditions sci)) (t_SiacoinInputs t);
  _ ← checkM (λ fcr, checkUnlockConditions (fcr_UnlockConditions fcr)) (t_FileContractRevisions t);
  _ ← checkM (λ sfi, checkUnlockConditions (sfi_UnlockConditions sfi)) (t_SiafundInputs t);
  _ ← checkArbitraryData (t_ArbitraryData t);
  Ok (u64 tlen).

Definition isStandardTransactionSet (ts : list Transaction) : res Z :=
  foldM (λ totalSize t,
    tSize ← isStandardTransaction t;
    let totalSize := u64 (totalSize + tSize) in
    _ ← guard_err (TransactionSetSizeLimit <? totalSize) ErrLargeTransactionSet;
    Ok totalSize) 0 ts.

(** ** What the rules say *)

Definition keys_recognised (uc : UnlockConditions) : Prop :=
  Forall (λ pk, spk_Algorithm pk = SignatureEntropy ∨ spk_Algorithm pk = SignatureEd25519) (uc_PublicKeys uc).

Lemma checkUnlockConditions_Ok uc : checkUnlockConditions uc = Ok () ↔ keys_recognised uc.
Proof.
  unfold checkUnlockConditions, keys_recognised. rewrite checkM_Ok. apply Forall_iff. intros pk.
  rewrite guard_err_Ok, andb_false_iff, !negb_false_iff, !bool_decide_eq_true. done.
Qed.

Definition arb_recognised (arb : list byte) : Prop :=
  take SpecifierLen arb = PrefixHostAnnouncement ∨ take SpecifierLen arb = PrefixNonSia.

Lemma whitelisted_true p : whitelisted p = true ↔ p = PrefixHostAnnouncement ∨ p = PrefixNonSia.
Proof. unfold whitelisted. by rewrite orb_true_iff, !bool_decide_eq_true. Qed.

(** Entries that are long enough overwrite the variable. *)
Lemma go_copy_long (p arb : list byte) :
  length p = SpecifierLen → (SpecifierLen ≤ length arb)%nat → go_copy p arb = take SpecifierLen arb.
Proof. unfold go_copy. intros Hp Ha. rewrite Hp, (drop_ge p), app_nil_r by lia. done. Qed.

Lemma arbs_long p arbs :
  length p = SpecifierLen → Forall (λ arb, SpecifierLen ≤ length arb)%nat arbs →
  (∃ q, foldM (λ prefix arb,
    let prefix := go_copy prefix arb in
    if whitelisted prefix then Ok prefix else Err ErrInvalidArbPrefix) p arbs = Ok q) ↔
  Forall arb_recognised arbs.
Proof.
  revert p. induction arbs as [|arb arbs IH]; intros p Hp Hl; cbn [foldM].
  { split; [constructor|eauto]. }
  apply Forall_cons in Hl as [Ha Hl]. cbn zeta. rewrite (go_copy_long p arb) by done. rewrite Forall_cons.
  unfold arb_recognised at 1. rewrite <- whitelisted_true.
  destruct (whitelisted (take SpecifierLen arb)); cbn [mbind res_bind].
  - rewrite IH; [tauto| |done]. rewrite length_take. lia.
  - split; [by intros [q [=]]|by intros [[=] _]].
Qed.

Lemma arbs_empty_tail p arbs q :
  foldM (λ prefix arb,
    let prefix := go_copy prefix arb in
    if whitelisted prefix then Ok prefix else Err ErrInvalidArbPrefix) p arbs = Ok q →
  arbs ≠ [] → whitelisted q = true.
Proof.
  revert p. induction arbs as [|arb arbs IH]; intros p H Hne; [done|].
  cbn [foldM] in H. destruct (whitelisted (go_copy p arb)) eqn:E; [|done]. cbn [mbind res_bind] in H.
  destruct arbs; [|by eapply IH]. injection H as <-. done.
Qed.

(** The keys of a transaction, and its size. *)
Definition transaction_keys_recognised (t : Transaction) : Prop :=
  Forall (λ sci, keys_recognised (sci_UnlockConditions sci)) (t_SiacoinInputs t) ∧
  Forall (λ fcr, keys_recognised (fcr_UnlockConditions fcr)) (t_FileContractRevisions t) ∧
  Forall (λ sfi, keys_recognised (sfi_UnlockConditions sfi)) (t_SiafundInputs t).

Lemma isStandardTransaction_Ok t n :
  isStandardTransaction t = Ok n ↔
  n = len (Transaction_MarshalSia t) ∧ n ≤ TransactionSizeLimit ∧ transaction_keys_recognised t ∧
  ∃ p, checkArbitraryData (t_ArbitraryData t) = Ok p.
Proof.
  unfold isStandardTransaction, transaction_keys_recognised. cbn zeta.
  rewrite !bind_unit_Ok, guard_err_Ok, !checkM_Ok, Z.ltb_ge, bind_Ok.
  setoid_rewrite checkUnlockConditions_Ok.
  pose proof (len_nonneg (Transaction_MarshalSia t)) as Hn.
  assert (len (Transaction_MarshalSia t) ≤ TransactionSizeLimit →
    u64 (len (Transaction_MarshalSia t)) = len (Transaction_MarshalSia t)) as Hu.
  { intros Hle. apply u64_id. unfold TransactionSizeLimit in Hle. ulia. }
  split.
  - intros (Hle & H1 & H2 & H3 & p & Hp & [= <-]). rewrite Hu by done. eauto 10.
  - intros (-> & Hle & (H1 & H2 & H3) & p & Hp). rewrite Hu by done. eauto 10.
Qed.

(** Replacing the arbitrary data of a transaction. *)
Definition with_ArbitraryData (arbs : list (list byte)) (t : Transaction) : Transaction :=
  mkTxn (t_SiacoinInputs t) (t_SiacoinOutputs t) (t_FileContracts t) (t_FileContractRevisions t)
    (t_StorageProofs t) (t_SiafundInputs t) (t_SiafundOutputs t) (t_MinerFees t) arbs
    (t_TransactionSignatures t).

(** The set as a whole: every transaction is standard and the sizes add up
    to at most the limit. *)
Lemma isStandardTransactionSet_sum ts total n :
  0 ≤ total ≤ TransactionSetSizeLimit →
  foldM (λ totalSize t,
    tSize ← isStandardTransaction t;
    let totalSize := u64 (totalSize + tSize) in
    _ ← guard_err (TransactionSetSizeLimit <? totalSize) ErrLargeTransactionSet;
    Ok totalSize) total ts = Ok n ↔
  n = total + sumZ (λ t, len (Transaction_MarshalSia t)) ts ∧ n ≤ TransactionSetSizeLimit ∧
  Forall (λ t, ∃ k, isStandardTransaction t = Ok k) ts.
Proof.
  revert total. induction ts as [|t ts IH]; intros total Ht; cbn [foldM sumZ].
  { split; [intros [= <-]; split_and!; [lia|lia|constructor]|intros (-> & _ & _); f_equal; lia]. }
  rewrite Forall_cons.
  destruct (isStandardTransaction t) as [k|e|] eqn:E; cbn [mbind res_bind];
    [|split; [done|by intros (_ & _ & [? [=]] & _)]..].
  apply isStandardTransaction_Ok in E as (-> & Hk & _).
  pose proof (len_nonneg (Transaction_MarshalSia t)) as H0. set (k := len _) in *.
  assert (u64 (total + k) = total + k) as ->.
  { apply u64_id. unfold TransactionSetSizeLimit, TransactionSizeLimit in *. ulia. }
  unfold guard_err. destruct (Z.ltb_spec TransactionSetSizeLimit (total + k)); cbn [mbind res_bind].
  - split; [done|]. intros (-> & Hle & _ & _).
    assert (0 ≤ sumZ (λ t, len (Transaction_MarshalSia t)) ts) by (apply sumZ_nonneg; intros; apply len_nonneg).
    lia.
  - rewrite IH by lia. split; intros (-> & ? & ?); split_and!; eauto; try lia; tauto.
Qed.

Lemma isStandardTransactionSet_Ok ts n :
  isStandardTransactionSet ts = Ok n ↔
  n = sumZ (λ t, len (Transaction_MarshalSia t)) ts ∧ n ≤ TransactionSetSizeLimit ∧
  Forall (λ t, ∃ k, isStandardTransaction t = Ok k) ts.
Proof.
  unfold isStandardTransactionSet. rewrite isStandardTransactionSet_sum; [done|].
  unfold TransactionSetSizeLimit. lia.
Qed.

(** C33: The standard rules, and where the check of arbitrary data departs from
    them.  When all the arbitrary data is long enough to hold a prefix, a
    transaction is standard exactly when it is not too large, its public keys
    are of a known type and every entry starts with the 16 bytes of a known
    specifier.  (The document of the rules also asks that a host announcement
    decodes with no data left, and takes the six letters NonSia as a prefix;
    the code does neither.)  But the variable that holds the prefix survives from one entry to the next: an
    entry without any prefix (here an empty one) is refused on its own and
    accepted after another entry. *)
Theorem isStandardTransaction_spec (t : Transaction) (n : Z) :
  (Forall (λ arb, SpecifierLen ≤ length arb)%nat (t_ArbitraryData t) →
   isStandardTransaction t = Ok n ↔
   n = len (Transaction_MarshalSia t) ∧ n ≤ TransactionSizeLimit ∧ transaction_keys_recognised t ∧
   Forall arb_recognised (t_ArbitraryData t)) ∧
  (isStandardTransaction t = Ok n → t_ArbitraryData t ≠ [] →
   len (Transaction_MarshalSia (with_ArbitraryData (t_ArbitraryData t ++ [[]]) t)) ≤ TransactionSizeLimit →
   (∃ m, isStandardTransaction (with_ArbitraryData (t_ArbitraryData t ++ [[]]) t) = Ok m) ∧
   ¬ ∃ m, isStandardTransaction (with_ArbitraryData [[]] t) = Ok m).
Proof.
  split.
  - intros Hl. rewrite isStandardTransaction_Ok. unfold checkArbitraryData. by rewrite arbs_long.
  - rewrite isStandardTransaction_Ok. intros (_ & _ & Hk & p & Hp) Hne Hsz. split.
    + eexists. apply isStandardTransaction_Ok. split_and!; [reflexivity|done|exact Hk|].
      unfold checkArbitraryData in *. cbn [t_ArbitraryData with_ArbitraryData]. rewrite foldM_app, Hp.
      cbn [mbind res_bind foldM]. exists p. assert (go_copy p [] = p) as ->.
      { unfold go_copy. by rewrite take_nil. }
      by rewrite (arbs_empty_tail _ _ _ Hp Hne).
    + intros [m Hm]. apply isStandardTransaction_Ok in Hm as (_ & _ & _ & q & Hq). vm_compute in Hq. done.
Qed.

Definition example_announcement : Transaction :=
  mkTxn [] [] [] [] [] [] [] [] [PrefixHostAnnouncement ++ [x00; x01]] [].

Lemma isStandardTransaction_spec_witness :
  isStandardTransaction example_announcement = Ok 106 ∧
  (∃ m, isStandardTransaction (with_ArbitraryData [PrefixHostAnnouncement ++ [x00; x01]; []] example_announcement) = Ok m) ∧
  ¬ ∃ m, isStandardTransaction (with_ArbitraryData [[]] example_announcement) = Ok m.
Proof.
  pose proof (isStandardTransaction_spec example_announcement 106) as [H1 H2].
  assert (isStandardTransaction example_announcement = Ok 106) as E.
  { apply H1; [constructor; [vm_decide|constructor]|]. split_and!; [reflexivity|done|repeat constructor|].
    constructor; [by left|constructor]. }
  split; [exact E|]. apply H2; [exact E|done|vm_compute; discriminate].
Defined.
