(* ===== verification/FindSets.v ===== *)
(** * Splitting a block into sets of dependent transactions

    Models [findSets] of [modules/transactionpool/update.go], which the fee
    estimator runs on every block: transactions that spend what an earlier
    transaction of the block created belong to the same set.  The sets are
    numbered; when a transaction joins several sets, one of them is kept and
    the numbers of the others are forwarded to it ([forwards]).

    The theorem [findSets_components] says that the sets are the connected
    components of the dependency graph, each in an order in which parents come
    before children, whatever the iteration orders of the maps. *)

From S2P Require Import Prelude Encoding Currency Target Crypto Types Codec Block MapRange.

Abbreviation ObjectID := (list byte) (only parsing).

Record setFinder := mkSF {
  txMap : gmap TransactionID Z;
  setMap : gmap Z (list Transaction);
  objMap : gmap ObjectID TransactionID;
  forwards : gmap Z Z;
}.

Definition set_forwards (fw : gmap Z Z) (sf : setFinder) : setFinder :=
  mkSF (txMap sf) (setMap sf) (objMap sf) fw.
Definition set_objMap (om : gmap ObjectID TransactionID) (sf : setFinder) : setFinder :=
  mkSF (txMap sf) (setMap sf) om (forwards sf).

(** The loop of [forward]: [prev] is its argument, [ret] the number reached and
    [next] the result of the last lookup. *)
Fixpoint forwardLoop (fuel : nat) (fw : gmap Z Z) (prev ret : Z) (next : option Z) : res (gmap Z Z * Z) :=
  match next, fuel with
  | None, _ => Ok (fw, ret)
  | Some _, O => Panic
  | Some n, S fuel =>
      let fw := <[prev := n]> fw in
      forwardLoop fuel fw prev n (fw !! n)
  end.

Definition forward (fuel : nat) (fw : gmap Z Z) (prev : Z) : res (gmap Z Z * Z) :=
  forwardLoop fuel fw prev prev (fw !! prev).

Section findSets.
Context `{MO : MapOrder} `{C : Crypto}.

(** The body of the four loops over the inputs of a transaction. *)
Definition addParent (fuel : nat) (acc : setFinder * gset Z) (oid : ObjectID) : res (setFinder * gset Z) :=
  let '(sf, parentSets) := acc in
  match objMap sf !! oid with
  | None => Ok acc
  | Some txid =>
      '(fw, parentSet) ← forward fuel (forwards sf) (default 0 (txMap sf !! txid));
      Ok (set_forwards fw sf, {[parentSet]} ∪ parentSets)
  end.

Definition mergeInto (base : Z) (sf : setFinder) (j : Z) : setFinder :=
  mkSF (txMap sf)
    (delete j (<[base := default [] (setMap sf !! base) ++ default [] (setMap sf !! j)]> (setMap sf)))
    (objMap sf) (<[j := base]> (forwards sf)).

Definition findSetsStep (at_ : position) (fuel : nat) (i : Z) (sf : setFinder) (t : Transaction) : res setFinder :=
  let tid := Transaction_ID t in
  acc ← foldM (λ acc obj, addParent fuel acc (sci_ParentID obj)) (sf, ∅) (t_SiacoinInputs t);
  acc ← foldM (λ acc obj, addParent fuel acc (fcr_ParentID obj)) acc (t_FileContractRevisions t);
  acc ← foldM (λ acc obj, addParent fuel acc (sp_ParentID obj)) acc (t_StorageProofs t);
  acc ← foldM (λ acc obj, addParent fuel acc (sfi_ParentID obj)) acc (t_SiafundInputs t);
  let '(sf, parentSets) := acc in
  let sf :=
    match range_keys (Z.to_nat i :: at_) parentSets with
    | [] => mkSF (<[tid := i]> (txMap sf)) (<[i := [t]]> (setMap sf)) (objMap sf) (forwards sf)
    | base :: rest =>
        let sf := mkSF (<[tid := base]> (txMap sf)) (setMap sf) (objMap sf) (forwards sf) in
        let sf := foldl (mergeInto base) sf rest in
        mkSF (txMap sf) (<[base := default [] (setMap sf !! base) ++ [t]]> (setMap sf)) (objMap sf) (forwards sf)
    end in
  let om := objMap sf in
  let om := foldl (λ om '(j, _), <[Transaction_SiacoinOutputID t j := tid]> om) om (imap (λ j x, (Z.of_nat j, x)) (t_SiacoinOutputs t)) in
  let om := foldl (λ om '(j, _), <[Transaction_FileContractID t j := tid]> om) om (imap (λ j x, (Z.of_nat j, x)) (t_FileContracts t)) in
  let om := foldl (λ om fcr, <[fcr_ParentID fcr := tid]> om) om (t_FileContractRevisions t) in
  let om := foldl (λ om '(j, _), <[Transaction_SiafundOutputID t j := tid]> om) om (imap (λ j x, (Z.of_nat j, x)) (t_SiafundOutputs t)) in
  Ok (set_objMap om sf).

Definition findSets (at_ : position) (ts : list Transaction) : res (list (list Transaction)) :=
  sf ← foldMi (findSetsStep (0%nat :: at_) (length ts)) 0 (mkSF ∅ ∅ ∅ ∅) ts;
  Ok (range (1%nat :: at_) (setMap sf)).*2.
End findSets.

(** ** Following the forwards *)

Inductive leads (fw : gmap Z Z) : Z → Z → Prop :=
  | leads_root r : fw !! r = None → leads fw r r
  | leads_step j k r : fw !! j = Some k → leads fw k r → leads fw j r.

(** Forwards go up in rank: there are no cycles, and chains are no longer
    than the bound. *)
Definition ranked (fw : gmap Z Z) (rank : Z → nat) (b : nat) : Prop :=
  (∀ j k, fw !! j = Some k → rank j < rank k)%nat ∧ ∀ j, (rank j ≤ b)%nat.

Section leads.
Implicit Types (fw : gmap Z Z) (rank : Z → nat).

Lemma leads_det fw j r r' : leads fw j r → leads fw j r' → r = r'.
Proof. intros H. revert r'. induction H; inversion 1; simplify_eq; auto. Qed.

Lemma leads_is_root fw j r : leads fw j r → fw !! r = None.
Proof. by induction 1. Qed.

Lemma leads_total fw rank b j : ranked fw rank b → ∃ r, leads fw j r.
Proof.
  intros [Hup Hb]. remember (b - rank j)%nat as d eqn:Hd. revert j Hd.
  induction d as [d IH] using lt_wf_ind. intros j Hd.
  destruct (fw !! j) as [k|] eqn:E; [|exists j; by constructor].
  pose proof (Hup _ _ E). pose proof (Hb k).
  destruct (IH (b - rank k)%nat ltac:(lia) k eq_refl) as [r Hr]. exists r. by econstructor.
Qed.

(** Redirecting a node does not matter to the nodes above it. *)
Lemma leads_above fw rank b prev n k r :
  ranked fw rank b → (rank prev < rank k)%nat → leads fw k r → leads (<[prev := n]> fw) k r.
Proof.
  intros [Hup Hb] Hlt H. induction H as [r Hr|j k r Hj _ IH].
  - constructor. rewrite lookup_insert_ne; [done|]. intros ->. lia.
  - econstructor; [rewrite lookup_insert_ne; [exact Hj|]; intros ->; lia|].
    apply IH. pose proof (Hup _ _ Hj). lia.
Qed.

Lemma leads_collapse fw rank b prev n j r :
  ranked fw rank b → (rank prev < rank n)%nat → leads fw prev r → leads fw n r →
  ∀ s, leads fw j s → leads (<[prev := n]> fw) j s.
Proof.
  intros Hrk Hlt Hp Hn s H. induction H as [t Ht|j k t Hj Hk IH].
  - destruct (decide (t = prev)) as [->|]; [|constructor; by rewrite lookup_insert_ne].
    pose proof (leads_det _ _ _ _ Hp (leads_root _ _ Ht)) as ->.
    econstructor; [apply lookup_insert_eq|]. by eapply leads_above.
  - destruct (decide (j = prev)) as [->|]; [|econstructor; [by rewrite lookup_insert_ne|done]].
    econstructor; [apply lookup_insert_eq|].
    rewrite (leads_det _ _ _ _ (leads_step _ _ _ _ Hj Hk) Hp). by eapply leads_above.
Qed.

(** What [forward] may do to the forwards. *)
Record collapsed (fw fw' : gmap Z Z) (rank : Z → nat) (b : nat) : Prop := {
  col_ranked : ranked fw' rank b;
  col_leads : ∀ j r, leads fw j r → leads fw' j r;
  col_dom : ∀ j, fw' !! j = None ↔ fw !! j = None;
}.

Lemma collapsed_refl fw rank b : ranked fw rank b → collapsed fw fw rank b.
Proof. by split. Qed.

Lemma collapsed_trans fw1 fw2 fw3 rank b :
  collapsed fw1 fw2 rank b → collapsed fw2 fw3 rank b → collapsed fw1 fw3 rank b.
Proof. intros [] []. split; [done|auto|]. intros j. naive_solver. Qed.

Lemma forwardLoop_spec fuel fw rank b prev ret r :
  ranked fw rank b → leads fw prev r → leads fw ret r →
  prev = ret ∨ ((rank prev < rank ret)%nat ∧ is_Some (fw !! prev)) →
  (b - rank ret ≤ fuel)%nat →
  ∃ fw', forwardLoop fuel fw prev ret (fw !! ret) = Ok (fw', r) ∧ collapsed fw fw' rank b.
Proof.
  revert fw ret. induction fuel as [|fuel IH]; intros fw ret Hrk Hp Hr Hlt Hfuel.
  - pose proof Hrk as [Hup Hb]. destruct (fw !! ret) as [n|] eqn:E.
    { pose proof (Hup _ _ E). pose proof (Hb n). lia. }
    exists fw. pose proof (leads_det _ _ _ _ Hr (leads_root _ _ E)) as ->.
    split; [done|by apply collapsed_refl].
  - pose proof Hrk as [Hup Hb]. destruct (fw !! ret) as [n|] eqn:E; cbn [forwardLoop].
    2: { exists fw. pose proof (leads_det _ _ _ _ Hr (leads_root _ _ E)) as ->.
         split; [done|by apply collapsed_refl]. }
    pose proof (Hup _ _ E) as Hrn. pose proof (Hb n) as Hbn.
    assert (rank prev < rank n)%nat as Hpn by (destruct Hlt as [->|[? _]]; lia).
    assert (leads fw n r) as Hn.
    { inversion Hr; simplify_eq. done. }
    set (fw1 := <[prev := n]> fw).
    assert (collapsed fw fw1 rank b) as Hc.
    { split.
      - split; [|done]. intros j k. unfold fw1. rewrite lookup_insert_Some.
        intros [[<- <-]|[_ Hj]]; [done|by apply Hup].
      - intros j s. by eapply leads_collapse.
      - intros j. unfold fw1. rewrite lookup_insert_None.
        destruct (decide (prev = j)) as [<-|]; [|naive_solver].
        split; [by intros [_ ?]|]. destruct Hlt as [->|[_ [m Hm]]]; congruence. }
    destruct (IH fw1 n) as (fw' & -> & Hc').
    + apply Hc. + by apply Hc. + by apply Hc.
    + right. split; [done|]. unfold fw1. rewrite lookup_insert_eq. eauto.
    + lia.
    + exists fw'. split; [done|]. by eapply collapsed_trans.
Qed.

Lemma forward_spec fuel fw rank b prev :
  ranked fw rank b → (b ≤ fuel)%nat →
  ∃ fw' r, forward fuel fw prev = Ok (fw', r) ∧ leads fw prev r ∧ collapsed fw fw' rank b.
Proof.
  intros Hrk Hb. destruct (leads_total _ _ _ prev Hrk) as [r Hr].
  destruct (forwardLoop_spec fuel fw rank b prev prev r) as (fw' & E & Hc); auto; [lia|].
  exists fw', r. by split.
Qed.
End leads.

(** ** The dependency graph of a list of transactions *)

Section components.
Context `{MO : MapOrder} `{C : Crypto}.

(** The objects a transaction needs, and the ones it leaves for others. *)
Definition consumed (t : Transaction) : list ObjectID :=
  map sci_ParentID (t_SiacoinInputs t) ++ map fcr_ParentID (t_FileContractRevisions t) ++
  map sp_ParentID (t_StorageProofs t) ++ map sfi_ParentID (t_SiafundInputs t).
Definition produced (t : Transaction) : list ObjectID :=
  imap (λ j _, Transaction_SiacoinOutputID t (Z.of_nat j)) (t_SiacoinOutputs t) ++
  imap (λ j _, Transaction_FileContractID t (Z.of_nat j)) (t_FileContracts t) ++
  map fcr_ParentID (t_FileContractRevisions t) ++
  imap (λ j _, Transaction_SiafundOutputID t (Z.of_nat j)) (t_SiafundOutputs t).

Context (ts : list Transaction).

(** Among the first [k] transactions, the [i]-th is the last that leaves [oid]. *)
Definition latest (k : nat) (oid : ObjectID) (i : nat) : Prop :=
  (i < k)%nat ∧ (∃ t, ts !! i = Some t ∧ oid ∈ produced t) ∧
  ∀ i' t', (i < i' < k)%nat → ts !! i' = Some t' → oid ∉ produced t'.

(** The [j]-th transaction uses what the [i]-th left. *)
Definition depends (i j : nat) : Prop :=
  ∃ t oid, ts !! j = Some t ∧ oid ∈ consumed t ∧ latest j oid i.

Lemma latest_lt k oid i : latest k oid i → (i < k)%nat.
Proof. by intros [? _]. Qed.

Lemma latest_unique k oid i j : latest k oid i → latest k oid j → i = j.
Proof.
  intros (Hi & (ti & Hti & Hpi) & Hli) (Hj & (tj & Htj & Hpj) & Hlj).
  destruct (lt_eq_lt_dec i j) as [[Hlt|Heq]|Hgt]; [|done|]; exfalso.
  - by apply (Hli j tj). - by apply (Hlj i ti).
Qed.

Lemma latest_S k oid t i :
  ts !! k = Some t →
  latest (S k) oid i ↔ (oid ∈ produced t ∧ i = k) ∨ ((oid ∉ produced t) ∧ latest k oid i).
Proof.
  intros Hk. unfold latest. split.
  - intros (Hi & (ti & Hti & Hpi) & Hl). destruct (decide (i = k)) as [->|]; [left; naive_solver|].
    right. split; [apply (Hl k); [lia|done]|]. split; [lia|]. split; [eauto|].
    intros i' t' ?. apply Hl. lia.
  - intros [[Hp ->]|[Hp (Hi & Hti & Hl)]].
    + split; [lia|]. split; [eauto|]. intros; lia.
    + split; [lia|]. split; [done|]. intros i' t' ? Hi'. destruct (decide (i' = k)) as [->|]; [naive_solver|].
      eapply Hl; [|done]. lia.
Qed.

(** The last of the first [k] transactions that has the id [tid]. *)
Definition last_with (k : nat) (tid : TransactionID) (i : nat) : Prop :=
  (i < k)%nat ∧ (∃ t, ts !! i = Some t ∧ Transaction_ID t = tid) ∧
  ∀ i' t', (i < i' < k)%nat → ts !! i' = Some t' → Transaction_ID t' ≠ tid.

Definition pick (g : list nat) : list Transaction := omap (ts !!.) g.

Lemma pick_app g h : pick (g ++ h) = pick g ++ pick h.
Proof. apply omap_app. Qed.

(** All positions held by a family of groups. *)
Definition members (G : gmap Z (list nat)) : list nat := concat (map_to_list G).*2.

Lemma members_insert G r g : G !! r = None → members (<[r := g]> G) ≡ₚ g ++ members G.
Proof. intros Hr. unfold members. by rewrite map_to_list_insert. Qed.

Lemma members_delete G r : members G ≡ₚ (default [] (G !! r)) ++ members (delete r G).
Proof.
  destruct (G !! r) as [g|] eqn:E; cbn.
  - rewrite <- (insert_id G r g) at 1 by done. rewrite <- insert_delete_eq.
    apply members_insert, lookup_delete_eq.
  - by rewrite delete_id.
Qed.

Lemma members_update G r g : members (<[r := g]> G) ≡ₚ g ++ members (delete r G).
Proof. rewrite <- insert_delete_eq. apply members_insert, lookup_delete_eq. Qed.

(** The state after [k] transactions: [G] gives the positions in each set. *)
Record finv (k b : nat) (sf : setFinder) (G : gmap Z (list nat)) (rank : Z → nat) : Prop := {
  fi_ranked : ranked (forwards sf) rank b;
  fi_keys : ∀ j, is_Some (forwards sf !! j) ∨ is_Some (G !! j) → j < Z.of_nat k;
  fi_roots : ∀ r, is_Some (G !! r) → forwards sf !! r = None;
  fi_sets : setMap sf = pick <$> G;
  fi_members : members G ≡ₚ seq 0 k;
  fi_tx : ∀ i t, (i < k)%nat → ts !! i = Some t → is_Some (txMap sf !! Transaction_ID t);
  fi_last : ∀ tid s, txMap sf !! tid = Some s →
    ∃ i r g, last_with k tid i ∧ leads (forwards sf) s r ∧ G !! r = Some g ∧ i ∈ g;
  fi_obj : ∀ oid tid, objMap sf !! oid = Some tid ↔
    ∃ i t, latest k oid i ∧ ts !! i = Some t ∧ Transaction_ID t = tid;
  fi_conn : ∀ r g, G !! r = Some g → g ≠ [] ∧ ∀ i j, i ∈ g → j ∈ g → rtsc depends i j;
  fi_order : ∀ i j, (j < k)%nat → depends i j → ∃ r g, G !! r = Some g ∧ [i; j] `sublist_of` g;
}.

Lemma finv_collapsed k b sf G rank fw :
  collapsed (forwards sf) fw rank b → finv k b sf G rank → finv k b (set_forwards fw sf) G rank.
Proof.
  intros [Hr Hl Hd] []. split; cbn; auto.
  - intros j. rewrite <- !not_eq_None_Some, Hd, !not_eq_None_Some. auto.
  - intros r Hr'. apply Hd. auto.
  - intros tid s0 Hs. destruct (fi_last0 tid s0 Hs) as (i & r & g & ? & ? & ? & ?). eauto 10.
Qed.

(** Transactions with the same id leave the same objects. *)
Hypothesis same_objects : ∀ t t', t ∈ ts → t' ∈ ts → Transaction_ID t = Transaction_ID t' → produced t = produced t'.

Lemma parent_found k b sf G rank oid tid :
  finv k b sf G rank → objMap sf !! oid = Some tid →
  ∃ i r g, latest k oid i ∧ leads (forwards sf) (default 0 (txMap sf !! tid)) r ∧ G !! r = Some g ∧ i ∈ g.
Proof.
  intros Hf Ho. apply (fi_obj _ _ _ _ _ Hf) in Ho as (i & t & Hl & Ht & <-).
  destruct (fi_tx _ _ _ _ _ Hf i t (latest_lt _ _ _ Hl) Ht) as [s Hs]. rewrite Hs. cbn.
  destruct (fi_last _ _ _ _ _ Hf _ _ Hs) as (i' & r & g & (Hi' & (t' & Ht' & Hid) & Hlast) & Hr & Hg & Hin).
  assert (i' = i) as ->; [|by exists i, r, g].
  destruct Hl as (Hi & (t0 & Ht0 & Hp) & Hl). assert (t0 = t) as -> by congruence.
  destruct (lt_eq_lt_dec i' i) as [[Hlt|Heq]|Hgt]; [|done|]; exfalso.
  - apply (Hlast i t); [lia|done|done].
  - apply (Hl i' t'); [lia|done|].
    rewrite (same_objects t' t); [done|by eapply list_elem_of_lookup_2..|done].
Qed.

(** The sets of the transactions that left one of [oids]. *)
Definition parent_roots (k : nat) (G : gmap Z (list nat)) (oids : list ObjectID) (r : Z) : Prop :=
  ∃ oid i g, oid ∈ oids ∧ latest k oid i ∧ G !! r = Some g ∧ i ∈ g.

Lemma addParents_spec k b fuel sf G rank P oids :
  finv k b sf G rank → (b ≤ fuel)%nat →
  (∀ i r r' g g', G !! r = Some g → G !! r' = Some g' → i ∈ g → i ∈ g' → r = r') →
  ∃ fw P', foldM (addParent fuel) (sf, P) oids = Ok (set_forwards fw sf, P') ∧
    finv k b (set_forwards fw sf) G rank ∧
    ∀ r, r ∈ P' ↔ r ∈ P ∨ parent_roots k G oids r.
Proof.
  intros Hf Hb Hdisj. revert sf P Hf. induction oids as [|oid oids IH]; intros sf P Hf.
  { exists (forwards sf), P. destruct sf; cbn. split_and!; [done|done|].
    intros r. split; [by left|]. intros [?|(? & ? & ? & ?%elem_of_nil & _)]; done. }
  cbn [foldM addParent].
  assert (∀ r, parent_roots k G (oid :: oids) r ↔
    (∃ i g, latest k oid i ∧ G !! r = Some g ∧ i ∈ g) ∨ parent_roots k G oids r) as Hcons.
  { intros r. unfold parent_roots. setoid_rewrite elem_of_cons. naive_solver. }
  destruct (objMap sf !! oid) as [tid|] eqn:Ho; cbn [mbind res_bind].
  - destruct (parent_found _ _ _ _ _ _ _ Hf Ho) as (i & r & g & Hl & Hr & Hg & Hin).
    destruct (forward_spec fuel _ _ _ (default 0 (txMap sf !! tid)) (fi_ranked _ _ _ _ _ Hf) Hb)
      as (fw & r' & -> & Hr' & Hc). cbn [mbind res_bind].
    rewrite (leads_det _ _ _ _ Hr' Hr).
    destruct (IH (set_forwards fw sf) ({[r]} ∪ P)) as (fw' & P' & -> & Hf' & HP).
    { by eapply finv_collapsed. }
    exists fw', P'. split_and!; [done|done|]. intros s. rewrite HP, Hcons.
    rewrite elem_of_union, elem_of_singleton. split.
    + intros [[->|?]|?]; eauto 10.
    + intros [?|[(i' & g' & Hl' & Hg' & Hin')|?]]; [auto| |auto].
      pose proof (latest_unique _ _ _ _ Hl Hl') as <-. left; left. by eapply Hdisj.
  - destruct (IH sf P Hf) as (fw' & P' & -> & Hf' & HP). exists fw', P'. split_and!; [done|done|].
    intros s. rewrite HP, Hcons. split; [tauto|].
    intros [?|[(i & g & Hl & _)|?]]; [auto| |auto]. exfalso.
    destruct Hl as (Hi & (t & Ht & Hp) & Hl).
    assert (objMap sf !! oid = Some (Transaction_ID t)) as Hc.
    { apply (fi_obj _ _ _ _ _ Hf). exists i, t. split_and!; [split; eauto|done|done]. }
    congruence.
Qed.

Lemma members_disjoint k G i r r' g g' :
  members G ≡ₚ seq 0 k → G !! r = Some g → G !! r' = Some g' → i ∈ g → i ∈ g' → r = r'.
Proof.
  intros Hm Hg Hg' Hi Hi'. destruct (decide (r = r')) as [|Hne]; [done|exfalso].
  assert (NoDup (members G)) as Hnd by (rewrite Hm; apply NoDup_seq).
  rewrite (members_delete G r), Hg in Hnd. cbn in Hnd. apply NoDup_app in Hnd as (_ & Hd & _).
  apply (Hd i Hi). rewrite (members_delete _ r'), lookup_delete_ne, Hg' by done. cbn. set_solver.
Qed.

Lemma leads_merge fw j base s r :
  fw !! j = None → fw !! base = None → j ≠ base → leads fw s r →
  leads (<[j := base]> fw) s (if decide (r = j) then base else r).
Proof.
  intros Hj Hb Hne H. induction H as [r Hr|x y r Hx _ IH].
  - case_decide as E; [subst r; econstructor; [apply lookup_insert_eq|]|]; constructor; by rewrite lookup_insert_ne.
  - econstructor; [|exact IH]. rewrite lookup_insert_ne; [done|]. congruence.
Qed.

Lemma mergeInto_spec k sf G rank base gb j gj :
  finv k (S k) sf G rank → rank base = S k → (rank j ≤ k)%nat → j ≠ base →
  G !! base = Some gb → G !! j = Some gj →
  (∃ i, i ∈ gb ∧ depends i k) → (∃ i, i ∈ gj ∧ depends i k) →
  finv k (S k) (mergeInto base sf j) (<[base := gb ++ gj]> (delete j G)) rank.
Proof.
  intros [Hrk Hkeys Hroots Hsets Hmem Htx Hlast Hobj Hconn Hord] Hrb Hrj Hne Hgb Hgj (ib & Hib & Hdb) (ij & Hij & Hdj).
  assert (forwards sf !! j = None) as Hfj by (apply Hroots; eauto).
  assert (forwards sf !! base = None) as Hfb by (apply Hroots; eauto).
  (* where the members of a group are now *)
  assert (∀ r g, G !! r = Some g → ∃ g', <[base := gb ++ gj]> (delete j G) !! (if decide (r = j) then base else r) = Some g' ∧
    g `sublist_of` g') as Hmove.
  { intros r g Hg. case_decide as E; [subst r|destruct (decide (r = base)) as [->|]].
    - rewrite lookup_insert_eq. exists (gb ++ gj). simplify_eq. split; [done|by apply sublist_inserts_l].
    - rewrite lookup_insert_eq. exists (gb ++ gj). simplify_eq. split; [done|by apply sublist_inserts_r].
    - rewrite lookup_insert_ne, lookup_delete_ne by done. eauto. }
  split; cbn.
  - destruct Hrk as [Hup Hb]. split; [|done]. intros x y. rewrite lookup_insert_Some.
    intros [[<- <-]|[_ ?]]; [lia|auto].
  - intros x [[y Hx]|[y Hx]]; apply Hkeys.
    + apply lookup_insert_Some in Hx as [[<- _]|[_ Hx]]; eauto.
    + apply lookup_insert_Some in Hx as [[<- _]|[_ [_ Hx]%lookup_delete_Some]]; eauto.
  - intros r [g Hr]. rewrite lookup_insert_None.
    apply lookup_insert_Some in Hr as [[<- _]|[_ [Hn Hr]%lookup_delete_Some]]; [done|]. eauto.
  - rewrite Hsets, !lookup_fmap, Hgb, Hgj. cbn. rewrite <- pick_app, <- fmap_insert, <- fmap_delete.
    by rewrite delete_insert_ne by done.
  - rewrite members_update, <- Hmem, (members_delete G j), Hgj. cbn.
    rewrite (members_delete (delete j G) base), lookup_delete_ne, Hgb by done. cbn.
    rewrite !(assoc_L (++)). f_equiv. apply Permutation_app_comm.
  - auto.
  - intros tid s Hs. destruct (Hlast tid s Hs) as (i & r & g & Hi & Hl & Hg & Hin).
    destruct (Hmove _ _ Hg) as (g' & Hg' & Hsub).
    exists i, (if decide (r = j) then base else r), g'. split_and!; [done|by apply leads_merge|done|].
    by eapply elem_of_sublist.
  - done.
  - intros r g. rewrite lookup_insert_Some. intros [[<- <-]|[_ [_ Hr]%lookup_delete_Some]]; [|by eapply Hconn].
    destruct (Hconn _ _ Hgb) as [Hnb Hcb], (Hconn _ _ Hgj) as [_ Hcj]. split; [by destruct gb|].
    assert (∀ i, i ∈ gb ++ gj → rtsc depends i k) as Hk.
    { intros i. rewrite elem_of_app. intros [Hi|Hi].
      - transitivity ib; [auto|]. by apply rtsc_lr.
      - transitivity ij; [auto|]. by apply rtsc_lr. }
    intros i i' Hi Hi'. transitivity k; [auto|]. symmetry. auto.
  - intros i i' Hi' Hd. destruct (Hord i i' Hi' Hd) as (r & g & Hg & Hsub).
    destruct (Hmove _ _ Hg) as (g' & Hg' & Hsub'). eexists _, g'. split; [exact Hg'|]. by etrans.
Qed.

Lemma mergeAll_spec k base rest sf G rank gb :
  finv k (S k) sf G rank → rank base = S k → (∀ j, j ≠ base → rank j ≤ k)%nat →
  NoDup (base :: rest) → G !! base = Some gb → (∃ i, i ∈ gb ∧ depends i k) →
  (∀ j, j ∈ rest → ∃ g i, G !! j = Some g ∧ i ∈ g ∧ depends i k) →
  ∃ G' gb', finv k (S k) (foldl (mergeInto base) sf rest) G' rank ∧ G' !! base = Some gb' ∧
    gb ⊆ gb' ∧ ∀ j g, j ∈ rest → G !! j = Some g → g ⊆ gb'.
Proof.
  intros Hf Hrb Hrk. revert sf G gb Hf. induction rest as [|j rest IH]; intros sf G gb Hf Hnd Hgb Hdb Hrest.
  { exists G, gb. split_and!; [done|done|done|]. intros ? ? ?%elem_of_nil. done. }
  apply NoDup_cons in Hnd as [Hb [Hj Hnd]%NoDup_cons].
  destruct (Hrest j) as (gj & ij & Hgj & Hij & Hdj); [by left|].
  assert (j ≠ base) as Hne by (intros ->; apply Hb; by left).
  cbn [foldl]. destruct (IH (mergeInto base sf j) (<[base := gb ++ gj]> (delete j G)) (gb ++ gj)) as (G' & gb' & Hf' & Hg' & Hsub & Hall).
  - apply mergeInto_spec; eauto.
  - apply NoDup_cons. split; [|done]. set_solver.
  - apply lookup_insert_eq.
  - destruct Hdb as (i & Hi & Hd). exists i. set_solver.
  - intros j' Hj'. assert (j' ≠ base ∧ j' ≠ j) as [? ?] by (split; intros ->; set_solver).
    rewrite lookup_insert_ne, lookup_delete_ne by done. apply Hrest. by right.
  - exists G', gb'. split_and!; [done|done|set_solver|].
    intros j' g Hj' Hg. apply elem_of_cons in Hj' as [->|Hj']; [simplify_eq; set_solver|].
    assert (j' ≠ base ∧ j' ≠ j) as [? ?] by (split; intros ->; set_solver).
    apply (Hall j'); [done|]. by rewrite lookup_insert_ne, lookup_delete_ne by done.
Qed.

(** Adding the [k]-th transaction to the set [r], which holds all its parents. *)
Lemma finv_add k b sf G rank t r om :
  finv k b sf G rank → ts !! k = Some t → forwards sf !! r = None → r ≤ Z.of_nat k →
  (∀ i, depends i k → i ∈ default [] (G !! r)) →
  (∀ g, G !! r = Some g → ∃ i, i ∈ g ∧ depends i k) →
  (∀ oid, om !! oid = if decide (oid ∈ produced t) then Some (Transaction_ID t) else objMap sf !! oid) →
  finv (S k) b (mkSF (<[Transaction_ID t := r]> (txMap sf)) (<[r := default [] (setMap sf !! r) ++ [t]]> (setMap sf)) om (forwards sf))
    (<[r := default [] (G !! r) ++ [k]]> G) rank.
Proof.
  intros [Hrk Hkeys Hroots Hsets Hmem Htx Hlast Hobj Hconn Hord] Ht Hr Hrle Hpar Hdep Hom. split; cbn.
  - done.
  - intros j [Hj|[g Hj]]; [specialize (Hkeys j); lia || (assert (j < Z.of_nat k) by auto; lia)|].
    apply lookup_insert_Some in Hj as [[<- _]|[_ Hj]]; [lia|]. assert (j < Z.of_nat k) by eauto. lia.
  - intros j [g Hj]. apply lookup_insert_Some in Hj as [[<- _]|[_ Hj]]; eauto.
  - rewrite Hsets, lookup_fmap, fmap_insert, pick_app. f_equal. destruct (G !! r); cbn; by rewrite Ht.
  - rewrite members_update, <- (assoc_L (++)), (Permutation_app_comm [k]), (assoc_L (++)), <- members_delete, Hmem.
    change (0%nat :: seq 1 k) with (seq 0 (S k)). by rewrite seq_S.
  - intros i t' Hi Ht'. destruct (decide (Transaction_ID t' = Transaction_ID t)) as [->|].
    { rewrite lookup_insert_eq. eauto. }
    rewrite lookup_insert_ne by done. apply (Htx i); [|done]. destruct (decide (i = k)); [congruence|lia].
  - intros tid s. rewrite lookup_insert_Some. intros [[<- <-]|[Hne Hs]].
    + exists k, r, (default [] (G !! r) ++ [k]). split_and!; [|by constructor|apply lookup_insert_eq|set_solver].
      split; [lia|]. split; [eauto|]. intros; lia.
    + destruct (Hlast tid s Hs) as (i & r' & g & (Hi & Hit & Hil) & Hl & Hg & Hin).
      assert (last_with (S k) tid i) as Hlw.
      { split; [lia|]. split; [done|]. intros i' t' Hi' Ht'. destruct (decide (i' = k)) as [->|]; [congruence|].
        eapply Hil; [|done]. lia. }
      destruct (decide (r' = r)) as [->|].
      * exists i, r, (default [] (G !! r) ++ [k]). rewrite Hg. cbn.
        split_and!; [done|done|apply lookup_insert_eq|set_solver].
      * exists i, r', g. rewrite lookup_insert_ne by done. done.
  - intros oid tid. rewrite Hom. setoid_rewrite (latest_S _ _ _ _ Ht). case_decide as Hp.
    + split; [intros [= <-]; exists k, t; auto|].
      intros (i & t' & [[_ ->]|[? _]] & Ht' & <-); [congruence|done].
    + rewrite Hobj. split; intros (i & t' & ? & ? & ?); exists i, t'; naive_solver.
  - intros r' g. rewrite lookup_insert_Some. intros [[<- <-]|[_ Hg]]; [|by eapply Hconn].
    split; [by destruct (default [] (G !! r))|].
    assert (∀ i, i ∈ default [] (G !! r) ++ [k] → rtsc depends i k) as Hk.
    { intros i. rewrite elem_of_app, list_elem_of_singleton. intros [Hi| ->]; [|reflexivity].
      destruct (G !! r) as [g|] eqn:E; [|by apply elem_of_nil in Hi]. cbn in Hi.
      destruct (Hdep g eq_refl) as (i' & Hi' & Hd'). transitivity i'; [by eapply (Hconn r)|by apply rtsc_lr]. }
    intros i j Hi Hj. transitivity k; [auto|]. symmetry. auto.
  - intros i j Hj Hd. destruct (decide (j = k)) as [->|].
    + exists r, (default [] (G !! r) ++ [k]). rewrite lookup_insert_eq. split; [done|].
      change [i; k] with ([i] ++ [k]). apply sublist_app; [|done]. apply singleton_sublist_l. auto.
    + destruct (Hord i j) as (r' & g & Hg & Hsub); [lia|done|].
      destruct (decide (r' = r)) as [->|].
      * exists r, (default [] (G !! r) ++ [k]). rewrite lookup_insert_eq, Hg. cbn. split; [done|].
        by apply sublist_inserts_r.
      * exists r', g. by rewrite lookup_insert_ne by done.
Qed.

Lemma finv_rerank k sf G rank base :
  finv k k sf G rank → is_Some (G !! base) →
  finv k (S k) sf G (λ j, if decide (j = base) then S k else rank j).
Proof.
  intros [[Hup Hb] Hkeys Hroots Hsets Hmem Htx Hlast Hobj Hconn Hord] Hbase. split; auto. split.
  - intros x y Hxy. pose proof (Hup _ _ Hxy). pose proof (Hb x). case_decide; [|case_decide; lia].
    subst. rewrite Hroots in Hxy by done. done.
  - intros j. pose proof (Hb j). case_decide; lia.
Qed.

Lemma finv_bound k b b' sf G rank : (b ≤ b')%nat → finv k b sf G rank → finv k b' sf G rank.
Proof.
  intros Hle [[Hup Hb] ? ? ? ? ? ? ? ? ?]. split; auto. split; [done|]. intros j. pose proof (Hb j). lia.
Qed.

Lemma foldl_mergeInto base tx sf rest :
  foldl (mergeInto base) (mkSF tx (setMap sf) (objMap sf) (forwards sf)) rest =
  mkSF tx (setMap (foldl (mergeInto base) sf rest)) (objMap sf) (forwards (foldl (mergeInto base) sf rest)) ∧
  txMap (foldl (mergeInto base) sf rest) = txMap sf ∧ objMap (foldl (mergeInto base) sf rest) = objMap sf.
Proof.
  revert sf. induction rest as [|j rest IH]; intros sf; cbn [foldl]; [done|].
  destruct (IH (mergeInto base sf j)) as (E1 & E2 & E3). by rewrite E2, E3.
Qed.

Lemma foldM_map {A B S} (f : S → B → res S) (g : A → B) s l :
  foldM (λ s x, f s (g x)) s l = foldM f s (map g l).
Proof. revert s. induction l as [|x l IH]; intros s; cbn; [done|]. by destruct (f s (g x)); cbn. Qed.

(** The outputs of a transaction end up in [objMap]. *)
Lemma indexed_outputs {A : Type} (F : Z → ObjectID) (tid : TransactionID) (om : gmap ObjectID TransactionID) (l : list A) oid :
  foldl (λ om '(j, _), <[F j := tid]> om) om (imap (λ j x, (Z.of_nat j, x)) l) !! oid =
  if decide (oid ∈ imap (λ j _, F (Z.of_nat j)) l) then Some tid else om !! oid.
Proof.
  assert (imap (λ j _, F (Z.of_nat j)) l = map (F ∘ fst) (imap (λ j x, (Z.of_nat j, x)) l)) as ->.
  { symmetry. exact (fmap_imap (λ j x, (Z.of_nat j, x)) (F ∘ fst) l). }
  rewrite <- (foldl_insert_lookup (F ∘ fst)). f_equal.
  generalize (imap (λ j x, (Z.of_nat j, x)) l). intros items. revert om.
  induction items as [|[j x] items IH]; intros om; cbn; [done|apply IH].
Qed.

(** The four loops are one loop over the objects the transaction needs. *)
Lemma parents_loop fuel acc t B (K : setFinder * gset Z → res B) :
  (acc ← foldM (λ acc obj, addParent fuel acc (sci_ParentID obj)) acc (t_SiacoinInputs t);
   acc ← foldM (λ acc obj, addParent fuel acc (fcr_ParentID obj)) acc (t_FileContractRevisions t);
   acc ← foldM (λ acc obj, addParent fuel acc (sp_ParentID obj)) acc (t_StorageProofs t);
   acc ← foldM (λ acc obj, addParent fuel acc (sfi_ParentID obj)) acc (t_SiafundInputs t); K acc) =
  (foldM (addParent fuel) acc (consumed t) ≫= K).
Proof.
  unfold consumed. rewrite !foldM_app, (foldM_map (addParent fuel) sci_ParentID).
  destruct (foldM _ acc _) as [a| |]; cbn [mbind res_bind]; [|done..].
  rewrite foldM_app, (foldM_map (addParent fuel) fcr_ParentID).
  destruct (foldM _ a _) as [a'| |]; cbn [mbind res_bind]; [|done..].
  rewrite foldM_app, (foldM_map (addParent fuel) sp_ParentID).
  destruct (foldM _ a' _) as [a''| |]; cbn [mbind res_bind]; [|done..].
  by rewrite (foldM_map (addParent fuel) sfi_ParentID).
Qed.

Lemma findSetsStep_spec at_ fuel k sf G rank t :
  finv k k sf G rank → ts !! k = Some t → (k ≤ fuel)%nat →
  ∃ sf' G' rank', findSetsStep at_ fuel (Z.of_nat k) sf t = Ok sf' ∧ finv (S k) (S k) sf' G' rank'.
Proof.
  intros Hf Ht Hk. unfold findSetsStep. cbn zeta. rewrite parents_loop.
  destruct (addParents_spec k k fuel sf G rank ∅ (consumed t) Hf Hk) as (fw & P & E & Hf1 & HP).
  { intros i r r' g g'. eapply members_disjoint, Hf. }
  assert (∀ r, r ∈ P ↔ ∃ i g, G !! r = Some g ∧ i ∈ g ∧ depends i k) as HP'.
  { intros r. rewrite HP. unfold parent_roots, depends. split.
    - intros [?%not_elem_of_empty|(oid & i & g & ? & ? & ? & ?)]; [done|]. exists i, g. eauto 10.
    - intros (i & g & Hg & Hi & t' & oid & Ht' & Hc & Hl). right. simplify_eq. by exists oid, i, g. }
  rewrite E. cbn [mbind res_bind]. clear E. set (sf1 := set_forwards fw sf) in *.
  assert (∀ i, depends i k → ∃ r g, G !! r = Some g ∧ i ∈ g) as Hin.
  { intros i (_ & oid & _ & _ & Hl). assert (i ∈ members G) as Hm.
    { rewrite (fi_members _ _ _ _ _ Hf). apply elem_of_seq. apply latest_lt in Hl. lia. }
    apply list_elem_of_In, in_concat in Hm as (g & Hg & Hi%list_elem_of_In).
    apply list_elem_of_In, list_elem_of_fmap in Hg as [[r g'] [-> Hr]].
    apply elem_of_map_to_list in Hr. by exists r, g'. }
  assert (∀ sf', objMap sf' = objMap sf1 → ∀ oid,
    foldl (λ om '(j, _), <[Transaction_SiafundOutputID t j := Transaction_ID t]> om)
      (foldl (λ om fcr, <[fcr_ParentID fcr := Transaction_ID t]> om)
        (foldl (λ om '(j, _), <[Transaction_FileContractID t j := Transaction_ID t]> om)
          (foldl (λ om '(j, _), <[Transaction_SiacoinOutputID t j := Transaction_ID t]> om)
            (objMap sf') (imap (λ j x, (Z.of_nat j, x)) (t_SiacoinOutputs t)))
          (imap (λ j x, (Z.of_nat j, x)) (t_FileContracts t)))
        (t_FileContractRevisions t))
      (imap (λ j x, (Z.of_nat j, x)) (t_SiafundOutputs t)) !! oid =
    if decide (oid ∈ produced t) then Some (Transaction_ID t) else objMap sf1 !! oid) as Hom.
  { intros sf' -> oid. rewrite indexed_outputs, foldl_insert_lookup, !indexed_outputs. unfold produced.
    repeat case_decide; try done; exfalso; set_solver. }
  destruct (range_keys _ P) as [|base rest] eqn:ER.
  - assert (∀ r, r ∉ P) as Hnone by (intros r Hr; apply (elem_of_range_keys (Z.to_nat (Z.of_nat k) :: at_)) in Hr; rewrite ER in Hr; by apply elem_of_nil in Hr).
    assert (G !! Z.of_nat k = None) as HGk.
    { apply eq_None_not_Some. intros H. pose proof (fi_keys _ _ _ _ _ Hf1 (Z.of_nat k) (or_intror H)). lia. }
    eexists _, (<[Z.of_nat k := default [] (G !! Z.of_nat k) ++ [k]]> G), rank. split; [reflexivity|].
    apply (finv_bound (S k) k); [lia|]. unfold set_objMap; cbn [txMap setMap forwards objMap].
    replace [t] with (default [] (setMap sf1 !! Z.of_nat k) ++ [t]).
    2: { rewrite (fi_sets _ _ _ _ _ Hf1), lookup_fmap, HGk. done. }
    apply finv_add; [exact Hf1|done| |lia| | |].
    + apply eq_None_not_Some. intros H. pose proof (fi_keys _ _ _ _ _ Hf1 (Z.of_nat k) (or_introl H)). lia.
    + intros i Hd. destruct (Hin i Hd) as (r & g & Hg & Hi). destruct (Hnone r). apply HP'. eauto.
    + rewrite HGk. done.
    + by apply (Hom (mkSF (<[Transaction_ID t:=Z.of_nat k]> (txMap sf1)) (setMap sf1) (objMap sf1) (forwards sf1))).
  - pose proof (range_keys_NoDup (Z.to_nat (Z.of_nat k) :: at_) P) as Hnd. rewrite ER in Hnd.
    assert (∀ r, r ∈ base :: rest ↔ r ∈ P) as HrP by (intros r; rewrite <- ER; apply elem_of_range_keys).
    destruct (proj1 (HP' base) (proj1 (HrP base) ltac:(by left))) as (ib & gb & Hgb & Hib & Hdb).
    destruct (mergeAll_spec k base rest sf1 G (λ j, if decide (j = base) then S k else rank j) gb)
      as (G' & gb' & Hf2 & Hgb' & Hsub & Hall); eauto.
    + apply finv_rerank; eauto.
    + by rewrite decide_True.
    + intros j Hj. rewrite decide_False by done. apply Hf1.
    + intros j Hj. destruct (proj1 (HP' j) (proj1 (HrP j) ltac:(by right))) as (i & g & ? & ? & ?). eauto.
    + destruct (foldl_mergeInto base (<[Transaction_ID t := base]> (txMap sf1)) sf1 rest) as (E1 & E2 & E3).
      cbn zeta. rewrite E1. cbn [txMap setMap objMap forwards].
      eexists _, (<[base := default [] (G' !! base) ++ [k]]> G'), _. split; [reflexivity|].
      unfold set_objMap. cbn [txMap setMap forwards objMap].
      rewrite <- E2. eapply finv_add; [exact Hf2|done| | | | |].
      * apply (fi_roots _ _ _ _ _ Hf2). eauto.
      * pose proof (fi_keys _ _ _ _ _ Hf2 base (or_intror (ex_intro _ _ Hgb'))). lia.
      * intros i Hd. rewrite Hgb'. cbn. destruct (Hin i Hd) as (r & g & Hg & Hi).
        assert (r ∈ base :: rest) as Hr by (apply HrP, HP'; eauto).
        apply elem_of_cons in Hr as [->|Hr]; [|by apply (Hall r g)]. simplify_eq. by apply Hsub.
      * rewrite Hgb'. intros g [= <-]. exists ib. auto.
      * rewrite E3. apply (Hom sf1). done.
Qed.

Lemma findSets_loop at_ fuel k sf G rank :
  (k ≤ length ts)%nat → (length ts ≤ fuel)%nat → finv k k sf G rank →
  ∃ sf' G' rank', foldMi (findSetsStep at_ fuel) (Z.of_nat k) sf (drop k ts) = Ok sf' ∧
    finv (length ts) (length ts) sf' G' rank'.
Proof.
  intros Hk Hfuel. remember (drop k ts) as rest eqn:Hr. revert k sf G rank Hk Hr.
  induction rest as [|t rest IH]; intros k sf G rank Hk Hr Hf; cbn [foldMi].
  { assert (k = length ts) as ->; [|by exists sf, G, rank].
    apply (f_equal length) in Hr. rewrite length_drop in Hr. cbn in Hr. lia. }
  assert (ts !! k = Some t) as Ht.
  { rewrite <- (Nat.add_0_r k), <- lookup_drop, <- Hr. done. }
  destruct (findSetsStep_spec at_ fuel k sf G rank t Hf Ht) as (sf1 & G1 & rank1 & -> & Hf1); [lia|].
  cbn [mbind res_bind]. replace (Z.of_nat k + 1) with (Z.of_nat (S k)) by lia.
  eapply IH; [apply lookup_lt_Some in Ht; lia| |exact Hf1].
  replace (S k) with (k + 1)%nat by lia. by rewrite <- drop_drop, <- Hr.
Qed.

Lemma finv_start : finv 0 0 (mkSF ∅ ∅ ∅ ∅) ∅ (λ _, 0%nat).
Proof.
  split; cbn; try done.
  - intros j [[? H]|[? H]]; by rewrite lookup_empty in H.
  - intros; lia.
  - intros oid tid. rewrite lookup_empty. split; [done|]. intros (i & t & Hl & _). apply latest_lt in Hl. lia.
  - intros; lia.
Qed.

Lemma findSets_groups at_ :
  ∃ groups, findSets at_ ts = Ok (map pick groups) ∧ concat groups ≡ₚ seq 0 (length ts) ∧
    Forall (λ g, g ≠ [] ∧ ∀ i j, i ∈ g → j ∈ g → rtsc depends i j) groups ∧
    ∀ i j, depends i j → ∃ g, g ∈ groups ∧ [i; j] `sublist_of` g.
Proof.
  unfold findSets.
  destruct (findSets_loop (0%nat :: at_) (length ts) 0 _ _ _ ltac:(lia) ltac:(lia) finv_start)
    as (sf & G & rank & E & Hf). rewrite drop_0 in E. change (Z.of_nat 0) with 0 in E. rewrite E. cbn [mbind res_bind].
  assert ((range (1%nat :: at_) (setMap sf)).*2 ≡ₚ map pick (map_to_list G).*2) as Hp.
  { rewrite range_perm, (fi_sets _ _ _ _ _ Hf), map_to_list_fmap.
    change map with (@fmap list _ (list nat) (list Transaction)) || idtac.
    rewrite <- !list_fmap_compose. done. }
  symmetry in Hp. apply Permutation_sym, Permutation_map_inv in Hp as (groups & -> & Hg).
  exists groups. split_and!; [done| | |].
  - rewrite <- Hg. apply Hf.
  - rewrite <- Hg. apply Forall_forall. intros g [[r g'] [-> Hr%elem_of_map_to_list]]%list_elem_of_fmap.
    by apply (fi_conn _ _ _ _ _ Hf r).
  - intros i j Hd. assert (j < length ts)%nat as Hj.
    { destruct Hd as (t & _ & Ht & _). by eapply lookup_lt_Some. }
    destruct (fi_order _ _ _ _ _ Hf i j Hj Hd) as (r & g & Hr & Hsub). exists g. split; [|done].
    rewrite <- Hg. apply list_elem_of_fmap. exists (r, g). split; [done|]. by apply elem_of_map_to_list.
Qed.
End components.

(** ** Transaction ids *)

(** Everything but the signatures, which the id does not cover. *)
Definition unsigned (t : Transaction) : Transaction :=
  mkTxn (t_SiacoinInputs t) (t_SiacoinOutputs t) (t_FileContracts t) (t_FileContractRevisions t)
    (t_StorageProofs t) (t_SiafundInputs t) (t_SiafundOutputs t) (t_MinerFees t) (t_ArbitraryData t) [].

(** Among the transactions [T], equal ids mean equal transactions up to
    signatures. *)
Definition collision_free `{C : Crypto} (T : Transaction → Prop) : Prop :=
  ∀ t t', T t → T t' → Transaction_ID t = Transaction_ID t' → unsigned t = unsigned t'.

(** This is so when the hash function does not collide on them. *)
Lemma collision_free_hash `{C : Crypto} (T : Transaction → Prop) :
  (∀ t, T t → Transaction_wire_ok (unsigned t) ∧ len (Transaction_MarshalSia (unsigned t)) ≤ MaxObjectSize) →
  (∀ t t', T t → T t' → Transaction_ID t = Transaction_ID t' →
    Transaction_MarshalSiaNoSignatures t = Transaction_MarshalSiaNoSignatures t') →
  collision_free T.
Proof.
  intros Hw Hh t t' Ht Ht' E. destruct (Hw t Ht) as [Hw1 Hl1], (Hw t' Ht') as [Hw2 Hl2].
  assert (Transaction_MarshalSia (unsigned t) = Transaction_MarshalSia (unsigned t')) as Hm.
  { unfold Transaction_MarshalSia. f_equal. exact (Hh t t' Ht Ht' E). }
  apply (MarshalSia_prefix_free (unsigned t) (unsigned t') [] []); auto.
  rewrite !app_nil_r. exact Hm.
Qed.

Lemma produced_unsigned `{C : Crypto} t : produced (unsigned t) = produced t.
Proof. done. Qed.

(** C25: [findSets] always terminates (the chains of forwards are acyclic and
    no longer than the block) and splits a list of transactions into exactly
    the connected components of its dependency graph, whatever the iteration
    orders of its maps: every position is in exactly one set, two positions are
    in one set only if a path of dependencies joins them, and if a transaction
    uses what another left, both are in one set, the parent first. *)
Theorem findSets_components `{MO : MapOrder} `{C : Crypto} (at_ : list nat) (ts : list Transaction)
    (Hids : collision_free (λ t, t ∈ ts)) :
  ∃ groups, findSets at_ ts = Ok (map (pick ts) groups) ∧ concat groups ≡ₚ seq 0 (length ts) ∧
    Forall (λ g, g ≠ [] ∧ ∀ i j, i ∈ g → j ∈ g → rtsc (depends ts) i j) groups ∧
    ∀ i j, depends ts i j → ∃ g, g ∈ groups ∧ [i; j] `sublist_of` g.
Proof.
  apply findSets_groups. intros t t' Ht Ht' E. rewrite <- (produced_unsigned t), <- (produced_unsigned t').
  by rewrite (Hids t t').
Qed.

(** A block of four transactions, where the third joins the sets of the first
    two. *)
Module example_sets.
Definition pay (n : Z) : Transaction := mkTxn [] [mkSCO n zeroHash] [] [] [] [] [] [] [] [].
Definition spends (l : list (list byte)) : Transaction :=
  mkTxn (map (λ id, mkSCI id (mkUC 0 [] 0)) l) [mkSCO 9 zeroHash] [] [] [] [] [] [] [] [].
Definition t1 : Transaction := pay 1.
Definition t2 : Transaction := pay 2.
Definition out (t : Transaction) : ObjectID := @Transaction_SiacoinOutputID toyCrypto t 0.
Definition t3 : Transaction := spends [out t1; out t2].
Definition t4 : Transaction := spends [zeroHash].
Definition block : list Transaction := [t1; t2; t3; t4].

Lemma block_ids_differ : @collision_free toyCrypto (λ t, t ∈ block).
Proof.
  intros t t' Ht Ht' E.
  assert (Forall (λ x, Forall (λ y, @Transaction_ID toyCrypto x = @Transaction_ID toyCrypto y → x = y) block) block) as H
    by vm_decide.
  rewrite Forall_forall in H. specialize (H t Ht). rewrite Forall_forall in H. by rewrite (H t' Ht' E).
Qed.
End example_sets.

Lemma findSets_components_witness :
  @findSets reversed toyCrypto [] example_sets.block =
    Ok [[example_sets.t1; example_sets.t2; example_sets.t3]; [example_sets.t4]] ∧
  ∃ groups, @findSets reversed toyCrypto [] example_sets.block = Ok (map (pick example_sets.block) groups) ∧
    concat groups ≡ₚ seq 0 4.
Proof.
  split; [vm_compute; reflexivity|].
  destruct (@findSets_components reversed toyCrypto [] example_sets.block example_sets.block_ids_differ) as (groups & H1 & H2 & _).
  exists groups. split; [exact H1|exact H2].
Defined.
