(* ===== verification/TransactionPool.v ===== *)
(** * The transaction pool

    Models [modules/transactionpool]: accepting sets of unconfirmed
    transactions (accept.go), following the consensus set (update.go), telling
    subscribers (subscribe.go), the persistent part (database.go, persist.go) and the
    queries (transactionpool.go).

    The state is the struct [TransactionPool]; the buckets of its database are
    the record [poolDB].  [txnFn] is the consensus set's [tryTransactionSet] that the
    pool is handed.  Loops over maps take their order from [MapOrder].  The
    floating point fee factor is the field of [FeeCurve]. *)

From S2P Require Import Prelude Encoding Currency Target Crypto Types Codec Block ConsensusDB BlockDiffs Changelog MapRange Standard FindSets.
From Stdlib Require Import QArith.
#[local] Open Scope Z_scope.

Abbreviation TransactionSetID := (list byte) (only parsing).
Abbreviation Subscriber := nat (only parsing).

(** ** State *)

(** [modules.UnconfirmedTransactionSet] and [modules.TransactionPoolDiff]; a nil
    [Change] is [None]. *)
Record UnconfirmedTransactionSet := mkUTS {
  ut_Change : option ConsensusChange;
  ut_ID : TransactionSetID;
  ut_IDs : list TransactionID;
  ut_Sizes : list Z;
  ut_Transactions : list Transaction;
}.

Record TransactionPoolDiff := mkTPD {
  tpd_AppliedTransactions : list UnconfirmedTransactionSet;
  tpd_RevertedTransactions : list TransactionSetID;
}.

Record medianPersist := mkMP {
  mp_RecentMedians : list Currency;
  mp_RecentMedianFee : Currency;
}.

(** The buckets of the pool's database. *)
Record poolDB := mkPoolDB {
  pdb_BlockHeight : option BlockHeight;
  pdb_ConfirmedTransactions : gset TransactionID;
  pdb_FeeMedian : option medianPersist;
  pdb_RecentBlockID : option BlockID;
  pdb_RecentConsensusChange : option ConsensusChangeID;
}.

Record TransactionPool := mkTP {
  tp_knownObjects : gmap ObjectID TransactionSetID;
  tp_subscriberSets : gmap TransactionSetID UnconfirmedTransactionSet;
  tp_transactionHeights : gmap TransactionID BlockHeight;
  tp_transactionSets : gmap TransactionSetID (list Transaction);
  tp_transactionSetDiffs : gmap TransactionSetID ConsensusChange;
  tp_transactionListSize : Z;
  tp_blockHeight : BlockHeight;
  tp_recentMedians : list Currency;
  tp_recentMedianFee : Currency;
  tp_subscribers : list Subscriber;
  tp_db : poolDB;
}.

Definition set_tp_blockHeight (v : BlockHeight) (tp : TransactionPool) : TransactionPool :=
  mkTP (tp_knownObjects tp) (tp_subscriberSets tp) (tp_transactionHeights tp) (tp_transactionSets tp)
    (tp_transactionSetDiffs tp) (tp_transactionListSize tp) v (tp_recentMedians tp)
    (tp_recentMedianFee tp) (tp_subscribers tp) (tp_db tp).
Definition set_tp_medians (l : list Currency) (fee : Currency) (tp : TransactionPool) : TransactionPool :=
  mkTP (tp_knownObjects tp) (tp_subscriberSets tp) (tp_transactionHeights tp) (tp_transactionSets tp)
    (tp_transactionSetDiffs tp) (tp_transactionListSize tp) (tp_blockHeight tp) l fee
    (tp_subscribers tp) (tp_db tp).
Definition set_tp_db (v : poolDB) (tp : TransactionPool) : TransactionPool :=
  mkTP (tp_knownObjects tp) (tp_subscriberSets tp) (tp_transactionHeights tp) (tp_transactionSets tp)
    (tp_transactionSetDiffs tp) (tp_transactionListSize tp) (tp_blockHeight tp) (tp_recentMedians tp)
    (tp_recentMedianFee tp) (tp_subscribers tp) v.
Definition set_tp_heights (v : gmap TransactionID BlockHeight) (tp : TransactionPool) : TransactionPool :=
  mkTP (tp_knownObjects tp) (tp_subscriberSets tp) v (tp_transactionSets tp)
    (tp_transactionSetDiffs tp) (tp_transactionListSize tp) (tp_blockHeight tp) (tp_recentMedians tp)
    (tp_recentMedianFee tp) (tp_subscribers tp) (tp_db tp).
Definition set_tp_subscriberSets (v : gmap TransactionSetID UnconfirmedTransactionSet) (tp : TransactionPool) : TransactionPool :=
  mkTP (tp_knownObjects tp) v (tp_transactionHeights tp) (tp_transactionSets tp)
    (tp_transactionSetDiffs tp) (tp_transactionListSize tp) (tp_blockHeight tp) (tp_recentMedians tp)
    (tp_recentMedianFee tp) (tp_subscribers tp) (tp_db tp).
Definition set_tp_subscribers (v : list Subscriber) (tp : TransactionPool) : TransactionPool :=
  mkTP (tp_knownObjects tp) (tp_subscriberSets tp) (tp_transactionHeights tp) (tp_transactionSets tp)
    (tp_transactionSetDiffs tp) (tp_transactionListSize tp) (tp_blockHeight tp) (tp_recentMedians tp)
    (tp_recentMedianFee tp) v (tp_db tp).
(** The five fields that describe the unconfirmed sets. *)
Definition set_tp_sets (known : gmap ObjectID TransactionSetID) (heights : gmap TransactionID BlockHeight)
    (sets : gmap TransactionSetID (list Transaction)) (diffs : gmap TransactionSetID ConsensusChange)
    (size : Z) (tp : TransactionPool) : TransactionPool :=
  mkTP known (tp_subscriberSets tp) heights sets diffs size (tp_blockHeight tp) (tp_recentMedians tp)
    (tp_recentMedianFee tp) (tp_subscribers tp) (tp_db tp).

Definition set_pdb_BlockHeight (h : BlockHeight) (db : poolDB) : poolDB :=
  mkPoolDB (Some h) (pdb_ConfirmedTransactions db) (pdb_FeeMedian db) (pdb_RecentBlockID db) (pdb_RecentConsensusChange db).
Definition set_pdb_Confirmed (s : gset TransactionID) (db : poolDB) : poolDB :=
  mkPoolDB (pdb_BlockHeight db) s (pdb_FeeMedian db) (pdb_RecentBlockID db) (pdb_RecentConsensusChange db).
Definition set_pdb_FeeMedian (mp : medianPersist) (db : poolDB) : poolDB :=
  mkPoolDB (pdb_BlockHeight db) (pdb_ConfirmedTransactions db) (Some mp) (pdb_RecentBlockID db) (pdb_RecentConsensusChange db).
Definition set_pdb_RecentBlockID (id : BlockID) (db : poolDB) : poolDB :=
  mkPoolDB (pdb_BlockHeight db) (pdb_ConfirmedTransactions db) (pdb_FeeMedian db) (Some id) (pdb_RecentConsensusChange db).
Definition set_pdb_RecentConsensusChange (id : ConsensusChangeID) (db : poolDB) : poolDB :=
  mkPoolDB (pdb_BlockHeight db) (pdb_ConfirmedTransactions db) (pdb_FeeMedian db) (pdb_RecentBlockID db) (Some id).

(** ** Constants (consts.go) *)

Definition maxTxnAge : BlockHeight := 24.
Definition TransactionPoolSizeForFee : Z := 500000.
Definition blockFeeEstimationDepth : Z := 6.
Definition maxMultiplier : Z := 3.
(** The [float64] nearest to 1.2. *)
Definition minExtendMultiplier : Q := 5404319552844595 # 4503599627370496.
(** [types.SiacoinPrecision.Div64(100).Div64(1e3)] *)
Definition minEstimation : Currency := SiacoinPrecision / 100 / 1000.

(** [math.Pow(float64(size) / TransactionPoolSizeTarget, TransactionPoolExponentiation)],
    as a function of the size. *)
Class FeeCurve := { feeFactor : Z → Q }.

(** ** The database (database.go, persist.go) *)

Definition deleteTransaction (id : TransactionID) (tp : TransactionPool) : TransactionPool :=
  set_tp_db (set_pdb_Confirmed (pdb_ConfirmedTransactions (tp_db tp) ∖ {[id]}) (tp_db tp)) tp.
Definition putTransaction (id : TransactionID) (tp : TransactionPool) : TransactionPool :=
  set_tp_db (set_pdb_Confirmed ({[id]} ∪ pdb_ConfirmedTransactions (tp_db tp)) (tp_db tp)) tp.
Definition transactionConfirmed (tp : TransactionPool) (id : TransactionID) : bool :=
  bool_decide (id ∈ pdb_ConfirmedTransactions (tp_db tp)).
(** [encoding.Unmarshal] of a missing value fails. *)
Definition getBlockHeight (tp : TransactionPool) : res BlockHeight :=
  match pdb_BlockHeight (tp_db tp) with Some bh => Ok bh | None => Err ErrOther end.
Definition putBlockHeight (height : BlockHeight) (tp : TransactionPool) : TransactionPool :=
  let tp := set_tp_blockHeight height tp in
  set_tp_db (set_pdb_BlockHeight height (tp_db tp)) tp.
Definition getFeeMedian (tp : TransactionPool) : res medianPersist :=
  match pdb_FeeMedian (tp_db tp) with Some mp => Ok mp | None => Err errNilFeeMedian end.
Definition putFeeMedian (mp : medianPersist) (tp : TransactionPool) : TransactionPool :=
  set_tp_db (set_pdb_FeeMedian mp (tp_db tp)) tp.
Definition getRecentBlockID (tp : TransactionPool) : res BlockID :=
  match pdb_RecentBlockID (tp_db tp) with
  | None => Err errNilRecentBlock
  | Some idBytes =>
      let recentID := go_copy zeroHash idBytes in
      if bool_decide (recentID = zeroHash) then Err errNilRecentBlock else Ok recentID
  end.
Definition putRecentBlockID (recentID : BlockID) (tp : TransactionPool) : TransactionPool :=
  set_tp_db (set_pdb_RecentBlockID recentID (tp_db tp)) tp.
Definition getRecentConsensusChange (tp : TransactionPool) : res ConsensusChangeID :=
  match pdb_RecentConsensusChange (tp_db tp) with
  | None => Err errNilConsensusChange
  | Some ccBytes => Ok (go_copy zeroHash ccBytes)
  end.
Definition putRecentConsensusChange (cc : ConsensusChangeID) (tp : TransactionPool) : TransactionPool :=
  set_tp_db (set_pdb_RecentConsensusChange cc (tp_db tp)) tp.

Definition resetDB (tp : TransactionPool) : TransactionPool :=
  let tp := set_tp_db (set_pdb_Confirmed ∅ (tp_db tp)) tp in
  let tp := putRecentBlockID zeroHash tp in
  let tp := putRecentConsensusChange ConsensusChangeBeginning tp in
  putBlockHeight 0 tp.

Section pool.
Context `{MO : MapOrder} `{C : Crypto} `{F : FeeCurve}.

(** ** Accepting transaction sets (accept.go) *)

(** [encoding.Marshal(ts)] of a [[]types.Transaction] *)
Definition Transactions_Marshal (ts : list Transaction) : list byte := enc_slice Transaction_MarshalSia ts.
Definition TransactionSetID_of (ts : list Transaction) : TransactionSetID := HashObject (Transactions_Marshal ts).

(** The objects of one transaction, in the order of the loops. *)
Definition transactionObjects (t : Transaction) : list ObjectID :=
  map sci_ParentID (t_SiacoinInputs t) ++
  imap (λ i _, Transaction_SiacoinOutputID t (Z.of_nat i)) (t_SiacoinOutputs t) ++
  imap (λ i _, Transaction_FileContractID t (Z.of_nat i)) (t_FileContracts t) ++
  map fcr_ParentID (t_FileContractRevisions t) ++
  map sp_ParentID (t_StorageProofs t) ++
  map sfi_ParentID (t_SiafundInputs t) ++
  imap (λ i _, Transaction_SiafundOutputID t (Z.of_nat i)) (t_SiafundOutputs t).

Definition relatedObjectIDs (at_ : position) (ts : list Transaction) : list ObjectID :=
  let oidMap := foldl (λ m t, foldl (λ m oid, {[oid]} ∪ m) m (transactionObjects t)) (∅ : gset ObjectID) ts in
  range_keys at_ oidMap.

Definition requiredFeesToExtendTpool (tp : TransactionPool) : res Currency :=
  if tp_transactionListSize tp <? TransactionPoolSizeForFee then Ok ZeroCurrency else
  Currency_Div64 (Currency_MulFloat SiacoinPrecision (feeFactor (tp_transactionListSize tp))) 1000.

Definition checkTransactionSetComposition (tp : TransactionPool) (ts : list Transaction) : res Z :=
  let setID := TransactionSetID_of ts in
  _ ← guard_err (bool_decide (is_Some (tp_transactionSets tp !! setID))) ErrDuplicateTransactionSet;
  isStandardTransactionSet ts.

(** The fees of a set against what the pool asks for. *)
Definition checkFees (tp : TransactionPool) (setSize : Z) (ts : list Transaction) : res unit :=
  required ← requiredFeesToExtendTpool tp;
  let requiredFees := Currency_Mul64 required setSize in
  let setFees := add_fees 0 ts in
  guard_err (0 <? Currency_Cmp requiredFees setFees) errLowMinerFees.

(** [modules.NewConsensusConflict("... is invalid: " + err.Error())] *)
Definition consensusConflict {A} (r : res A) : res A :=
  match r with Ok a => Ok a | Err _ => Err ErrConsensusConflict | Panic => Panic end.

Definition findConflicts (tp : TransactionPool) (oids : list ObjectID) : list TransactionSetID :=
  omap (λ oid, tp_knownObjects tp !! oid) oids.

(** The ids of the transactions of the conflicting sets, with their sets. *)
Definition conflictMap (tp : TransactionPool) (conflicts : list TransactionSetID) : gmap TransactionID TransactionSetID :=
  foldl (λ m conflict,
    foldl (λ m conflictTxn, <[Transaction_ID conflictTxn := conflict]> m) m
      (default [] (tp_transactionSets tp !! conflict))) ∅ conflicts.

Definition removeConflict (tp : TransactionPool) (conflict : TransactionSetID) : TransactionPool :=
  let conflictSet := default [] (tp_transactionSets tp !! conflict) in
  set_tp_sets (tp_knownObjects tp) (tp_transactionHeights tp) (delete conflict (tp_transactionSets tp))
    (delete conflict (tp_transactionSetDiffs tp))
    (tp_transactionListSize tp - len (Transactions_Marshal conflictSet)) tp.

(** The object ids of the diffs, in the order of the three loops. *)
Definition diffObjects (cc : ConsensusChange) : list ObjectID :=
  map scod_ID (cc_SiacoinOutputDiffs cc) ++ map fcd_ID (cc_FileContractDiffs cc) ++
  map sfod_ID (cc_SiafundOutputDiffs cc).

(** The recursion runs at most once more ([handleConflicts_twice]): two rounds
    of fuel are enough. *)
Fixpoint handleConflicts (fuel : nat) (at_ : position) (tp : TransactionPool) (ts : list Transaction)
    (conflicts : list TransactionSetID) (txnFn : list Transaction → res ConsensusChange) : res TransactionPool :=
  match fuel with
  | O => Panic
  | S fuel =>
      let cmap := conflictMap tp conflicts in
      let dedupSet := filter (λ t, cmap !! Transaction_ID t = None) ts in
      if len dedupSet =? 0 then Err ErrDuplicateTransactionSet
      else if len dedupSet <? len ts then
        let oids := relatedObjectIDs (0%nat :: at_) dedupSet in
        handleConflicts fuel (1%nat :: at_) tp dedupSet (findConflicts tp oids) txnFn
      else
        let supersetMap : gset TransactionSetID := list_to_set (map_to_list cmap).*2 in
        let superset := foldl (λ superset conflict, superset ++ default [] (tp_transactionSets tp !! conflict))
                          [] (range_keys (2%nat :: at_) supersetMap) ++ dedupSet in
        setSize ← checkTransactionSetComposition tp superset;
        _ ← checkFees tp setSize superset;
        cc ← consensusConflict (txnFn superset);
        let tp := foldl removeConflict tp (range_keys (3%nat :: at_) supersetMap) in
        let setID := TransactionSetID_of superset in
        Ok (set_tp_sets
              (foldl (λ m oid, <[oid := setID]> m) (tp_knownObjects tp) (diffObjects cc))
              (tp_transactionHeights tp)
              (<[setID := superset]> (tp_transactionSets tp))
              (<[setID := cc]> (tp_transactionSetDiffs tp))
              (tp_transactionListSize tp + len (Transactions_Marshal superset)) tp)
  end.

Definition recordHeight (tp : TransactionPool) (heights : gmap TransactionID BlockHeight) (txn : Transaction) :
    gmap TransactionID BlockHeight :=
  match heights !! Transaction_ID txn with
  | Some _ => heights
  | None => <[Transaction_ID txn := tp_blockHeight tp]> heights
  end.

Definition acceptTransactionSet (at_ : position) (tp : TransactionPool) (ts : list Transaction)
    (txnFn : list Transaction → res ConsensusChange) : res TransactionPool :=
  if len ts =? 0 then Err errEmptySet else
  let ts := filter (λ txn, transactionConfirmed tp (Transaction_ID txn) = false) ts in
  if len ts =? 0 then Err ErrDuplicateTransactionSet else
  setSize ← checkTransactionSetComposition tp ts;
  _ ← checkFees tp setSize ts;
  let oids := relatedObjectIDs (0%nat :: at_) ts in
  let conflicts := findConflicts tp oids in
  if 0 <? len conflicts then handleConflicts 2 (1%nat :: at_) tp ts conflicts txnFn
  else
    cc ← consensusConflict (txnFn ts);
    let setID := TransactionSetID_of ts in
    Ok (set_tp_sets
          (foldl (λ m oid, <[oid := setID]> m) (tp_knownObjects tp) oids)
          (foldl (recordHeight tp) (tp_transactionHeights tp) ts)
          (<[setID := ts]> (tp_transactionSets tp))
          (<[setID := cc]> (tp_transactionSetDiffs tp))
          (tp_transactionListSize tp + len (Transactions_Marshal ts)) tp).

(** ** Telling the subscribers (subscribe.go) *)

Definition unconfirmedSet (tp : TransactionPool) (id : TransactionSetID) (set : list Transaction) : UnconfirmedTransactionSet :=
  mkUTS (tp_transactionSetDiffs tp !! id) id (map Transaction_ID set)
    (map (λ t, u64 (len (Transaction_MarshalSia t))) set) set.

(** Returns the diff, which goes to every subscriber. *)
Definition updateSubscribersTransactions (at_ : position) (tp : TransactionPool) : TransactionPool * TransactionPoolDiff :=
  let reverted := omap (λ '(id, _), match tp_transactionSets tp !! id with Some _ => None | None => Some id end)
                    (range (0%nat :: at_) (tp_subscriberSets tp)) in
  let subs := foldl (λ subs revert, delete revert subs) (tp_subscriberSets tp) reverted in
  let '(subs, applied) := foldl (λ acc '(id, set),
      match acc.1 !! id with
      | Some _ => acc
      | None => let ut := unconfirmedSet tp id set in (<[id := ut]> acc.1, acc.2 ++ [ut])
      end) (subs, []) (range (1%nat :: at_) (tp_transactionSets tp)) in
  (set_tp_subscriberSets subs tp, mkTPD applied reverted).

(** A second subscription of the same subscriber is reported by
    [build.Critical], which only prints, and carried out. *)
Definition TransactionPoolSubscribe (at_ : position) (subscriber : Subscriber) (tp : TransactionPool) :
    TransactionPool * TransactionPoolDiff :=
  (set_tp_subscribers (tp_subscribers tp ++ [subscriber]) tp,
   mkTPD (range at_ (tp_subscriberSets tp)).*2 []).

Fixpoint removeFirst (subscriber : Subscriber) (l : list Subscriber) : list Subscriber :=
  match l with
  | [] => []
  | s :: l => if decide (s = subscriber) then l else s :: removeFirst subscriber l
  end.
Definition Unsubscribe (subscriber : Subscriber) (tp : TransactionPool) : TransactionPool :=
  set_tp_subscribers (removeFirst subscriber (tp_subscribers tp)) tp.

(** [AcceptTransactionSet], as called by the node and by [relayTransactionSet]:
    the set is relayed to the peers and the subscribers are told only when it
    is accepted; the pool is unchanged otherwise. *)
Record AcceptOutcome := mkAO {
  ao_pool : TransactionPool;
  ao_err : option error;
  ao_broadcast : option (list Transaction);
  ao_diff : option TransactionPoolDiff;
}.
Definition AcceptTransactionSet (at_ : position) (tp : TransactionPool) (ts : list Transaction)
    (txnFn : list Transaction → res ConsensusChange) : res AcceptOutcome :=
  match acceptTransactionSet (0%nat :: at_) tp ts txnFn with
  | Ok tp' =>
      let '(tp', diff) := updateSubscribersTransactions (1%nat :: at_) tp' in
      Ok (mkAO tp' None (Some ts) (Some diff))
  | Err e => Ok (mkAO tp (Some e) None None)
  | Panic => Panic
  end.

(** ** Following the consensus set (update.go) *)

Definition purge (tp : TransactionPool) : TransactionPool :=
  set_tp_sets ∅ (tp_transactionHeights tp) ∅ ∅ 0 tp.
Definition PurgeTransactionPool (tp : TransactionPool) : TransactionPool := purge tp.

Record feeSummary := mkFS {
  fs_fee : Currency;
  fs_size : Z;
}.
Definition fee_le (x y : feeSummary) : Prop := fs_fee x ≤ fs_fee y.
#[export] Instance fee_le_dec x y : Decision (fee_le x y).
Proof. unfold fee_le. apply _. Defined.

Definition setSummary (set : list Transaction) : res feeSummary :=
  let feeSum := add_fees 0 set in
  let sizeSum := foldl (λ s txn, s + len (Transaction_MarshalSia txn)) 0 set in
  feeAvg ← Currency_Div64 feeSum (u64 sizeSum);
  Ok (mkFS feeAvg sizeSum).

(** Scrolling through the sorted fees. *)
Fixpoint percentile (progress : Z) (fees : list feeSummary) : option Currency :=
  match fees with
  | [] => None
  | f :: fees =>
      let progress := progress + fs_size f in
      if BlockSizeLimit / 4 <? u64 progress then Some (fs_fee f) else percentile progress fees
  end.

(** The fee of a block: the fees per byte of its sets and of the unused space,
    sorted; the one reached after a quarter of the space. *)
Definition blockFee (at_ : position) (txns : list Transaction) : res (option Currency) :=
  txnSets ← findSets (0%nat :: at_) txns;
  '(fees, totalSize) ← foldM (λ '(fees, totalSize) set,
      f ← setSummary set; Ok (fees ++ [f], totalSize + fs_size f)) ([], 0) txnSets;
  let remaining := BlockSizeLimit - totalSize in
  let fees := fees ++ [mkFS ZeroCurrency remaining] in
  Ok (percentile 0 (sort_Slice (1%nat :: at_) fee_le fees)).

(** [for len(l) > blockFeeEstimationDepth { l = l[1:] }] *)
Definition trimMedians (l : list Currency) : list Currency :=
  drop (length l - Z.to_nat blockFeeEstimationDepth) l.

Context `{N : Net}.
Definition GenesisID : BlockID := Block_ID GenesisBlock.

(** The local variables [recentID] and [resetSanityCheck]. *)
Record cursor := mkCursor {
  cu_recentID : BlockID;
  cu_resetSanityCheck : bool;
}.

Definition revertBlock (acc : TransactionPool * cursor) (block : Block) : res (TransactionPool * cursor) :=
  let '(tp, cu) := acc in
  if bool_decide (Block_ID block ≠ cu_recentID cu) && negb (cu_resetSanityCheck cu) then Panic else
  let cu := mkCursor (b_ParentID block) (cu_resetSanityCheck cu) in
  let tp := if (0 <? tp_blockHeight tp) || bool_decide (Block_ID block ≠ GenesisID)
            then set_tp_blockHeight (u64 (tp_blockHeight tp - 1)) tp else tp in
  let tp := foldl (λ tp txn, deleteTransaction (Transaction_ID txn) tp) tp (b_Transactions block) in
  let tp := if 0 <? len (tp_recentMedians tp)
            then set_tp_medians (take (length (tp_recentMedians tp) - 1) (tp_recentMedians tp)) (tp_recentMedianFee tp) tp
            else tp in
  Ok (tp, cu).

Definition applyBlock (at_ : position) (acc : TransactionPool * cursor) (block : Block) : res (TransactionPool * cursor) :=
  let '(tp, cu) := acc in
  if bool_decide (b_ParentID block ≠ cu_recentID cu) && negb (cu_resetSanityCheck cu) then Panic else
  let cu := mkCursor (Block_ID block) (cu_resetSanityCheck cu) in
  let tp := if (0 <? tp_blockHeight tp) || bool_decide (Block_ID block ≠ GenesisID)
            then set_tp_blockHeight (u64 (tp_blockHeight tp + 1)) tp else tp in
  let tp := foldl (λ tp txn, putTransaction (Transaction_ID txn) tp) tp (b_Transactions block) in
  fee ← blockFee at_ (b_Transactions block);
  let medians := match fee with Some f => tp_recentMedians tp ++ [f] | None => tp_recentMedians tp end in
  Ok (set_tp_medians (trimMedians medians) (tp_recentMedianFee tp) tp, cu).

(** The median of the recent medians; an empty list is indexed out of range. *)
Definition medianOfMedians (at_ : position) (l : list Currency) : res Currency :=
  let safeMedians := sort_Slice at_ Z.le l in
  go_index safeMedians (len safeMedians / 2).

(** Dropping what is too old from an unconfirmed set. *)
Definition pruneTxn (acc : TransactionPool * list Transaction) (txn : Transaction) : TransactionPool * list Transaction :=
  let '(tp, validTxns) := acc in
  let seen := tp_transactionHeights tp !! Transaction_ID txn in
  if (u64 (tp_blockHeight tp - default 0 seen) <=? maxTxnAge) || bool_decide (seen = None)
  then (tp, validTxns ++ [txn])
  else (set_tp_heights (delete (Transaction_ID txn) (tp_transactionHeights tp)) tp, validTxns).

Definition pruneSet (acc : TransactionPool * list (list Transaction)) (tSet : list Transaction) :
    TransactionPool * list (list Transaction) :=
  let '(tp, validTxns) := foldl pruneTxn (acc.1, []) tSet in
  (tp, acc.2 ++ [validTxns]).

(** Adding one transaction back; [forget] says whether a refused one loses its
    height. *)
Definition readd (at_ : position) (txnFn : list Transaction → res ConsensusChange) (forget : bool)
    (tp : TransactionPool) (txn : Transaction) : res TransactionPool :=
  match acceptTransactionSet at_ tp [txn] txnFn with
  | Ok tp => Ok tp
  | Err _ => Ok (if forget then set_tp_heights (delete (Transaction_ID txn) (tp_transactionHeights tp)) tp else tp)
  | Panic => Panic
  end.

(** The first half: blocks, fees and the on-disk structures. *)
Definition followBlocks (at_ : position) (tp : TransactionPool) (cc : ConsensusChange) : res TransactionPool :=
  let '(recentID, reset) := match getRecentBlockID tp with
                            | Ok id => (id, false)
                            | Err e => (zeroHash, bool_decide (e = errNilRecentBlock))
                            | Panic => (zeroHash, false)
                            end in
  acc ← foldM revertBlock (tp, mkCursor recentID reset) (cc_RevertedBlocks cc);
  '(tp, cu) ← foldMi (λ i, applyBlock (Z.to_nat i :: 0%nat :: at_)) 0 acc (cc_AppliedBlocks cc);
  fee ← medianOfMedians (1%nat :: at_) (tp_recentMedians tp);
  let tp := set_tp_medians (tp_recentMedians tp) fee tp in
  let tp := putRecentConsensusChange (cc_ID cc) tp in
  let tp := putRecentBlockID (cu_recentID cu) tp in
  let tp := putBlockHeight (tp_blockHeight tp) tp in
  Ok (putFeeMedian (mkMP (tp_recentMedians tp) (tp_recentMedianFee tp)) tp).

(** The second half: the unconfirmed sets are taken out and added back one
    transaction at a time. *)
Definition refill (at_ : position) (tp : TransactionPool) (cc : ConsensusChange)
    (txnFn : list Transaction → res ConsensusChange) : res TransactionPool :=
  let txids : gset TransactionID :=
    list_to_set (b ← cc_AppliedBlocks cc; map Transaction_ID (b_Transactions b)) in
  let unconfirmedSets := map (λ '(_, tSet), filter (λ txn, Transaction_ID txn ∉ txids) tSet)
                           (range (0%nat :: at_) (tp_transactionSets tp)) in
  let tp := purge tp in
  let '(tp, unconfirmedSets) := foldl pruneSet (tp, []) unconfirmedSets in
  tp ← foldMi (λ i tp block, foldMi (λ j tp txn,
         if decide (Transaction_ID txn ∈ txids) then Ok tp
         else readd (Z.to_nat j :: Z.to_nat i :: 1%nat :: at_) txnFn false tp txn)
         0 tp (b_Transactions block)) 0 tp (rev (cc_RevertedBlocks cc));
  foldMi (λ i tp set, foldMi (λ j tp txn,
    readd (Z.to_nat j :: Z.to_nat i :: 2%nat :: at_) txnFn true tp txn) 0 tp set) 0 tp unconfirmedSets.

(** [txnFn] is [cc.TryTransactionSet]. *)
Definition ProcessConsensusChange (at_ : position) (tp : TransactionPool) (cc : ConsensusChange)
    (txnFn : list Transaction → res ConsensusChange) : res (TransactionPool * TransactionPoolDiff) :=
  tp ← followBlocks (0%nat :: at_) tp cc;
  tp ← refill (1%nat :: at_) tp cc txnFn;
  Ok (updateSubscribersTransactions (2%nat :: at_) tp).

(** ** Starting (transactionpool.go, persist.go) *)

(** The fields that [New] makes, over the database found on disk. *)
Definition New (db : poolDB) : TransactionPool := mkTP ∅ ∅ ∅ ∅ ∅ 0 0 [] 0 [] db.

(** [subscribe id tp] is [ConsensusSetSubscribe(tp, id, ...)]: the pool after the
    changes it was sent, and the error. *)
Definition initPersist (tp : TransactionPool)
    (subscribe : ConsensusChangeID → TransactionPool → TransactionPool * res unit) : TransactionPool * res unit :=
  let '(tp, cc) := match getRecentConsensusChange tp with
                   | Ok cc => (tp, cc)
                   | _ => (putRecentConsensusChange ConsensusChangeBeginning tp, zeroHash)
                   end in
  let tp := match getBlockHeight tp with
            | Ok bh => set_tp_blockHeight bh tp
            | _ => putRecentConsensusChange ConsensusChangeBeginning (putBlockHeight 0 tp)
            end in
  let tp := match getFeeMedian tp with
            | Ok mp => set_tp_medians (mp_RecentMedians mp) (mp_RecentMedianFee mp) tp
            | _ => tp
            end in
  match subscribe cc tp with
  | (tp, Err ErrInvalidConsensusChangeID) => subscribe ConsensusChangeBeginning (resetDB tp)
  | r => r
  end.

(** ** Queries (transactionpool.go) *)

(** [stopped] is whether the thread group refuses new calls. *)
Definition FeeEstimation (stopped : bool) (tp : TransactionPool) : res (Currency * Currency) :=
  if stopped then Ok (0, 0) else
  let min := tp_recentMedianFee tp in
  let max := Currency_Mul64 (tp_recentMedianFee tp) maxMultiplier in
  required ← requiredFeesToExtendTpool tp;
  let requiredMin := Currency_MulFloat required minExtendMultiplier in
  let requiredMax := Currency_MulFloat requiredMin (maxMultiplier # 1) in
  let min := if Currency_Cmp min requiredMin <? 0 then requiredMin else min in
  let max := if Currency_Cmp max requiredMax <? 0 then requiredMax else max in
  let min := if Currency_Cmp min minEstimation <? 0 then minEstimation else min in
  let max := if Currency_Cmp max (Currency_Mul64 minEstimation maxMultiplier) <? 0
             then Currency_Mul64 minEstimation maxMultiplier else max in
  Ok (min, max).

Definition TransactionList (at_ : position) (tp : TransactionPool) : list Transaction :=
  foldl (λ txns '(_, tSet), txns ++ tSet) [] (range at_ (tp_transactionSets tp)).

Definition TransactionConfirmed (stopped : bool) (tp : TransactionPool) (id : TransactionID) : res bool :=
  if stopped then Err ErrStopped else Ok (transactionConfirmed tp id).

Definition TransactionSet (tp : TransactionPool) (oid : ObjectID) : list Transaction :=
  match tp_knownObjects tp !! oid with
  | None => []
  | Some tSetID => default [] (tp_transactionSets tp !! tSetID)
  end.

(** The parent ids a transaction mentions. *)
Definition addOutputIDs (parentIDs : gset ObjectID) (txn : Transaction) : gset ObjectID :=
  list_to_set (map sci_ParentID (t_SiacoinInputs txn) ++ map fcr_ParentID (t_FileContractRevisions txn) ++
    map sfi_ParentID (t_SiafundInputs txn) ++ map sp_ParentID (t_StorageProofs txn) ++
    map ts_ParentID (t_TransactionSignatures txn)) ∪ parentIDs.

(** All three loops look for ids of siacoin outputs. *)
Definition isParent (parentIDs : gset ObjectID) (t : Transaction) : bool :=
  existsb (λ id, bool_decide (id ∈ parentIDs))
    (imap (λ i _, Transaction_SiacoinOutputID t (Z.of_nat i)) (t_SiacoinOutputs t)) ||
  existsb (λ id, bool_decide (id ∈ parentIDs))
    (imap (λ i _, Transaction_SiacoinOutputID t (Z.of_nat i)) (t_FileContracts t)) ||
  existsb (λ id, bool_decide (id ∈ parentIDs))
    (imap (λ i _, Transaction_SiacoinOutputID t (Z.of_nat i)) (t_SiafundOutputs t)).

(** The scan of one set, stopping at the first transaction with the id. *)
Fixpoint scanSet (id : TransactionID) (before tSet : list Transaction) : option (Transaction * list Transaction) :=
  match tSet with
  | [] => None
  | t :: tSet => if bool_decide (Transaction_ID t = id) then Some (t, before) else scanSet id (before ++ [t]) tSet
  end.

Definition Transaction_query (at_ : position) (tp : TransactionPool) (id : TransactionID) :
    Transaction * list Transaction * bool :=
  let '(txn, allParents, exists_) := foldl (λ acc '(_, tSet),
      match scanSet id [] tSet with Some (t, ps) => (t, ps, true) | None => acc end)
      (zeroTransaction, [], false) (range at_ (tp_transactionSets tp)) in
  let '(_, necessaryParents) := foldl (λ '(parentIDs, necessary) parent,
      if isParent parentIDs parent then (addOutputIDs parentIDs parent, parent :: necessary)
      else (parentIDs, necessary)) (addOutputIDs ∅ txn, []) (rev allParents) in
  (txn, necessaryParents, exists_).

(** [CalculateFee] of modules/transactionpool.go *)
Definition CalculateFee (ts : list Transaction) : res Currency :=
  Currency_Div64 (add_fees 0 ts) (u64 (len (Transactions_Marshal ts))).
End pool.
