(* ===== verification/PoolInvariant.v ===== *)
(** * What the transaction pool guarantees

    The invariant [pool_ok] of the pool: every set in it is keyed by its hash,
    standard, valid for the consensus set on its own and unconfirmed; the
    recorded size is the sum of the sizes; and no object is touched by two sets,
    so that two sets can not spend the same output.  It is proved against an
    interface of the consensus set, [ConsensusView]: a set is accepted together
    with diffs of exactly the objects its transactions mention.
    [tryTransactionSet_view] shows that the consensus set implements it. *)

From S2P Require Import Prelude Encoding Currency Target Crypto Types Codec Block Signatures ValidTransaction ConsensusDB ConsensusValid MapDiffs Diffs ApplyTransaction BlockDiffs Changelog MapRange Standard FindSets TransactionPool.
From Stdlib Require Import QArith.
#[local] Open Scope Z_scope.

(** ** Objects *)

Section objects.
Context `{MO : MapOrder} `{C : Crypto}.

(** A set of transactions mentions an object. *)
Definition touches (ts : list Transaction) (oid : ObjectID) : Prop :=
  ∃ t, t ∈ ts ∧ oid ∈ transactionObjects t.

Lemma touches_app ts us oid : touches (ts ++ us) oid ↔ touches ts oid ∨ touches us oid.
Proof. unfold touches. setoid_rewrite elem_of_app. naive_solver. Qed.

Lemma touches_cons t ts oid : touches (t :: ts) oid ↔ oid ∈ transactionObjects t ∨ touches ts oid.
Proof.
  unfold touches. setoid_rewrite elem_of_cons. split.
  - intros (t' & [->|Ht] & Ho); eauto.
  - intros [Ho|(t' & Ht & Ho)]; eauto.
Qed.

Lemma touches_subset ts us oid : ts ⊆ us → touches ts oid → touches us oid.
Proof. intros Hs (t & Ht & Ho). exists t. auto. Qed.

Lemma elem_of_relatedObjectIDs at_ ts oid : oid ∈ relatedObjectIDs at_ ts ↔ touches ts oid.
Proof.
  unfold relatedObjectIDs. rewrite elem_of_range_keys.
  assert (∀ (l : list ObjectID) (m : gset ObjectID),
    oid ∈ foldl (λ m oid, {[oid]} ∪ m) m l ↔ oid ∈ m ∨ oid ∈ l) as Hin.
  { induction l as [|x l IH]; intros m; cbn; [set_solver|]. rewrite IH. set_solver. }
  assert (∀ m : gset ObjectID, oid ∈ foldl (λ m t, foldl (λ m oid, {[oid]} ∪ m) m (transactionObjects t)) m ts ↔
    oid ∈ m ∨ touches ts oid) as ->; [|set_solver].
  induction ts as [|t ts IH]; intros m; cbn.
  - split; [auto|]. intros [?|(t & ?%elem_of_nil & _)]; done.
  - rewrite IH, Hin. unfold touches. setoid_rewrite elem_of_cons. naive_solver.
Qed.

Lemma transactionObjects_unsigned t : transactionObjects (unsigned t) = transactionObjects t.
Proof. done. Qed.

Lemma same_id_same_objects (T : Transaction → Prop) t t' :
  collision_free T → T t → T t' → Transaction_ID t = Transaction_ID t' →
  transactionObjects t = transactionObjects t'.
Proof.
  intros Hc Ht Ht' E. rewrite <- (transactionObjects_unsigned t), <- (transactionObjects_unsigned t').
  by rewrite (Hc t t').
Qed.
End objects.

(** What the pool relies on: the diffs of an accepted set name exactly the
    objects that its transactions mention. *)
Class ConsensusView `{C : Crypto} (txnFn : list Transaction → res ConsensusChange) : Prop := {
  cv_objects ts cc : txnFn ts = Ok cc → ∀ oid, oid ∈ diffObjects cc ↔ touches ts oid;
}.

(** *** The consensus set provides it *)

Section view.
Context `{N : Net} `{C : Crypto}.

Definition pbObjects (pb : processedBlock) : list ObjectID :=
  map scod_ID (pb_SiacoinOutputDiffs pb) ++ map fcd_ID (pb_FileContractDiffs pb) ++
  map sfod_ID (pb_SiafundOutputDiffs pb).

(** [st'] has the objects of [st] and those of [l]. *)
Definition adds (l : list ObjectID) (st st' : State) : Prop :=
  ∀ oid, oid ∈ pbObjects st'.2 ↔ oid ∈ pbObjects st.2 ∨ oid ∈ l.

Lemma adds_refl st : adds [] st st.
Proof. intros oid. set_solver. Qed.

Lemma adds_trans l k st1 st2 st3 : adds l st1 st2 → adds k st2 st3 → adds (l ++ k) st1 st3.
Proof. intros H1 H2 oid. rewrite (H2 oid), (H1 oid). set_solver. Qed.

Lemma adds_same l k st st' : (∀ x, x ∈ l ↔ x ∈ k) → adds l st st' → adds k st st'.
Proof. intros H Ha oid. by rewrite (Ha oid), H. Qed.

Lemma adds_foldM {A} (f : State → A → res State) (g : A → ObjectID) l st st' :
  (∀ s x s', f s x = Ok s' → adds [g x] s s') → foldM f st l = Ok st' → adds (map g l) st st'.
Proof.
  intros Hf. revert st. induction l as [|x l IH]; intros st H; cbn in *.
  - injection H as <-. apply adds_refl.
  - res_inv. apply (adds_trans [g x] (map g l) _ a); [by apply Hf|by apply IH].
Qed.

Lemma adds_foldMi {A} (f : Z → State → A → res State) (g : nat → A → ObjectID) l st st' :
  (∀ i s x s', f (Z.of_nat i) s x = Ok s' → adds [g i x] s s') → ∀ k, foldMi f (Z.of_nat k) st l = Ok st' →
  adds (imap (λ i, g (k + i)%nat) l) st st'.
Proof.
  intros Hf. revert st. induction l as [|x l IH]; intros st k H; cbn in *.
  - injection H as <-. apply adds_refl.
  - res_inv. replace (Z.of_nat k + 1) with (Z.of_nat (S k)) in H by lia.
    apply (adds_trans [g (k + 0)%nat x] (imap ((λ i, g (k + i)%nat) ∘ S) l) _ a).
    + rewrite Nat.add_0_r. by apply Hf.
    + specialize (IH a (S k) H).
      rewrite (imap_ext _ (λ i, g (S k + i)%nat)); [done|]. intros i y _. cbn. f_equal. lia.
Qed.

Lemma adds_none_foldMi {A} (f : Z → State → A → res State) l i st st' :
  (∀ i s x s', f i s x = Ok s' → adds [] s s') → foldMi f i st l = Ok st' → adds [] st st'.
Proof.
  intros Hf. revert i st. induction l as [|x l IH]; intros i st H; cbn in *.
  - injection H as <-. apply adds_refl.
  - res_inv. apply (adds_trans [] [] _ a); [by eapply Hf|by eapply IH].
Qed.

Lemma adds_sco st d : adds [scod_ID d] st (recordSiacoinOutputDiff st d).
Proof. intros oid. destruct st. unfold pbObjects. cbn. rewrite map_app. cbn. set_solver. Qed.
Lemma adds_sfo st d : adds [sfod_ID d] st (recordSiafundOutputDiff st d).
Proof. intros oid. destruct st. unfold pbObjects. cbn. rewrite map_app. cbn. set_solver. Qed.
Lemma adds_fc st d st' : recordFileContractDiff st d = Ok st' → adds [fcd_ID d] st st'.
Proof.
  destruct st as [tx pb]. unfold recordFileContractDiff. intros H. res_inv. intros oid. unfold pbObjects. cbn.
  rewrite map_app. cbn. set_solver.
Qed.
Lemma adds_dsco st d st' : recordDelayedSiacoinOutputDiff st d = Ok st' → adds [] st st'.
Proof.
  destruct st as [tx pb]. unfold recordDelayedSiacoinOutputDiff. intros H. res_inv. intros oid. unfold pbObjects. cbn.
  set_solver.
Qed.
Lemma adds_pool st d : adds [] st (recordSiafundPoolDiff st d).
Proof. destruct st as [tx pb]. intros oid. unfold pbObjects. cbn. set_solver. Qed.

Lemma applySiacoinInputs_adds st t st' :
  applySiacoinInputs st t = Ok st' → adds (map sci_ParentID (t_SiacoinInputs t)) st st'.
Proof. apply adds_foldM. intros s x s' H. res_inv. apply adds_sco. Qed.

Lemma applySiacoinOutputs_adds st t st' :
  applySiacoinOutputs st t = Ok st' →
  adds (imap (λ i _, Transaction_SiacoinOutputID t (Z.of_nat i)) (t_SiacoinOutputs t)) st st'.
Proof.
  apply (adds_foldMi _ (λ i _, Transaction_SiacoinOutputID t (Z.of_nat i)) _ _ _) with (k := 0%nat).
  intros i s x s' H. cbn zeta in H. res_inv. apply adds_sco.
Qed.

Lemma applyFileContracts_adds st t st' :
  applyFileContracts st t = Ok st' →
  adds (imap (λ i _, Transaction_FileContractID t (Z.of_nat i)) (t_FileContracts t)) st st'.
Proof.
  apply (adds_foldMi _ (λ i _, Transaction_FileContractID t (Z.of_nat i)) _ _ _) with (k := 0%nat).
  intros i s x s' H. cbn zeta in H. res_inv. apply adds_fc in E. apply (adds_trans [Transaction_FileContractID t (Z.of_nat i)] [] _ a); [exact E|apply adds_pool].
Qed.

Lemma applyFileContractRevisions_adds st t st' :
  applyFileContractRevisions st t = Ok st' → adds (map fcr_ParentID (t_FileContractRevisions t)) st st'.
Proof.
  apply adds_foldM. intros s x s' H. res_inv. apply adds_fc in E0, H. cbn in *.
  apply (adds_same ([fcr_ParentID x] ++ [fcr_ParentID x])); [set_solver|]. by eapply adds_trans.
Qed.

Lemma applyStorageProofs_adds st t st' :
  applyStorageProofs st t = Ok st' → adds (map sp_ParentID (t_StorageProofs t)) st st'.
Proof.
  apply adds_foldM. intros s x s' H. res_inv. apply adds_fc in H. cbn in *.
  apply (adds_trans [] [sp_ParentID x] _ a0); [|exact H].
  eapply adds_none_foldMi; [|exact E0]. intros i s1 y s2. apply adds_dsco.
Qed.

Lemma applySiafundInputs_adds st t st' :
  applySiafundInputs st t = Ok st' → adds (map sfi_ParentID (t_SiafundInputs t)) st st'.
Proof.
  apply adds_foldM. intros s x s' H. apply bind_Ok in H as (sfo & _ & H). apply bind_Ok in H as (q & _ & H).
  apply bind_Ok in H as (s1 & E1%adds_dsco & [= <-]).
  apply (adds_trans [] [sfi_ParentID x] _ s1); [exact E1|apply adds_sfo].
Qed.

Lemma applySiafundOutputs_adds st t st' :
  applySiafundOutputs st t = Ok st' →
  adds (imap (λ i _, Transaction_SiafundOutputID t (Z.of_nat i)) (t_SiafundOutputs t)) st st'.
Proof.
  apply (adds_foldMi _ (λ i _, Transaction_SiafundOutputID t (Z.of_nat i)) _ _ _) with (k := 0%nat).
  intros i s x s' H. cbn zeta in H. res_inv. apply adds_sfo.
Qed.

Lemma applyTransaction_adds st t st' : applyTransaction st t = Ok st' → adds (transactionObjects t) st st'.
Proof.
  unfold applyTransaction, transactionObjects. intros H. res_inv.
  eapply adds_trans; [by apply applySiacoinInputs_adds|].
  eapply adds_trans; [by apply applySiacoinOutputs_adds|].
  eapply adds_trans; [by apply applyFileContracts_adds|].
  eapply adds_trans; [by apply applyFileContractRevisions_adds|].
  eapply adds_trans; [by apply applyStorageProofs_adds|].
  eapply adds_trans; [by apply applySiafundInputs_adds|by apply applySiafundOutputs_adds].
Qed.

Lemma applyTransactions_objects st ts st' :
  applyTransactions st ts = Ok st' → ∀ oid, oid ∈ pbObjects st'.2 ↔ oid ∈ pbObjects st.2 ∨ touches ts oid.
Proof.
  unfold applyTransactions. revert st. induction ts as [|t ts IH]; intros st H oid; cbn in *.
  - injection H as <-. split; [auto|]. intros [?|(t & ?%elem_of_nil & _)]; done.
  - apply bind_Ok in H as (st1 & H1 & H). apply bind_Ok in H1 as (_ & _ & H1).
    rewrite (IH _ H oid), (applyTransaction_adds _ _ _ H1 oid), touches_cons. tauto.
Qed.
End view.

#[export] Instance tryTransactionSet_view `{N : Net} `{C : Crypto} (db : DB) : ConsensusView (tryTransactionSet db).
Proof.
  split. unfold tryTransactionSet. intros ts cc H oid. apply bind_Ok in H as ([db' pb] & H & [= <-]).
  pose proof (applyTransactions_objects _ _ _ H oid) as Ho. unfold diffObjects. cbn in *. unfold pbObjects in Ho.
  cbn in Ho. rewrite Ho. set_solver.
Qed.

(** ** The invariant *)

Section invariant.
Context `{MO : MapOrder} `{C : Crypto} `{F : FeeCurve}.
Context (txnFn : list Transaction → res ConsensusChange) (T : Transaction → Prop).

Definition unconfirmed (tp : TransactionPool) (t : Transaction) : Prop :=
  transactionConfirmed tp (Transaction_ID t) = false.

(** A set that may be in the pool, with its diffs. *)
Record set_ok (tp : TransactionPool) (id : TransactionSetID) (set : list Transaction) : Prop := {
  so_id : id = TransactionSetID_of set;
  so_nonempty : set ≠ [];
  so_T : Forall T set;
  so_standard : ∃ n, isStandardTransactionSet set = Ok n;
  so_valid : ∃ cc, txnFn set = Ok cc ∧ tp_transactionSetDiffs tp !! id = Some cc;
  so_unconfirmed : Forall (unconfirmed tp) set;
}.

Record pool_ok (tp : TransactionPool) : Prop := {
  po_set : ∀ id set, tp_transactionSets tp !! id = Some set → set_ok tp id set;
  po_diffs : ∀ id, is_Some (tp_transactionSetDiffs tp !! id) → is_Some (tp_transactionSets tp !! id);
  po_size : tp_transactionListSize tp = map_sumZ (λ set, len (Transactions_Marshal set)) (tp_transactionSets tp);
  po_known : ∀ id set oid, tp_transactionSets tp !! id = Some set → touches set oid →
    tp_knownObjects tp !! oid = Some id;
}.

(** No object is touched by two sets. *)
Lemma pool_ok_disjoint tp id id' set set' oid :
  pool_ok tp → tp_transactionSets tp !! id = Some set → tp_transactionSets tp !! id' = Some set' →
  touches set oid → touches set' oid → id = id'.
Proof. intros Hok H1 H2 T1 T2. pose proof (po_known _ Hok _ _ _ H1 T1). pose proof (po_known _ Hok _ _ _ H2 T2). congruence. Qed.

Lemma pool_ok_purge tp : pool_ok (purge tp).
Proof.
  split; cbn.
  - intros id set H. by rewrite lookup_empty in H.
  - intros id [? H]. by rewrite lookup_empty in H.
  - by rewrite map_sumZ_empty.
  - intros id set oid H. by rewrite lookup_empty in H.
Qed.

Lemma removeConflict_ok tp c :
  pool_ok tp → is_Some (tp_transactionSets tp !! c) → pool_ok (removeConflict tp c).
Proof.
  intros [Hset Hd Hs Hk] [cset Hc]. unfold removeConflict. rewrite Hc. split; cbn.
  - intros id set [Hne H]%lookup_delete_Some. destruct (Hset id set H). split; auto. cbn.
    by rewrite lookup_delete_ne.
  - intros id [cc [Hne H]%lookup_delete_Some]. rewrite lookup_delete_ne by done. eauto.
  - rewrite Hs, (map_sumZ_delete _ _ _ _ Hc). lia.
  - intros id set oid [Hne H]%lookup_delete_Some. by apply Hk.
Qed.

Lemma removeConflicts_ok tp cs :
  pool_ok tp → NoDup cs → (∀ c, c ∈ cs → is_Some (tp_transactionSets tp !! c)) →
  let tp' := foldl removeConflict tp cs in
  pool_ok tp' ∧ (∀ id set, tp_transactionSets tp' !! id = Some set ↔ tp_transactionSets tp !! id = Some set ∧ id ∉ cs) ∧
  tp_knownObjects tp' = tp_knownObjects tp ∧ tp_db tp' = tp_db tp.
Proof.
  revert tp. induction cs as [|c cs IH]; intros tp Hok Hnd Hin; cbn.
  { split_and!; [done| |done|done]. intros id set. split; [intros ?; split; [done|apply not_elem_of_nil]|by intros [? _]]. }
  apply NoDup_cons in Hnd as [Hc Hnd].
  destruct (IH (removeConflict tp c)) as (Hok' & Hsets & Hkn & Hdb); [|done| |].
  - apply removeConflict_ok; [done|]. apply Hin. by left.
  - intros c' Hc'. cbn. rewrite lookup_delete_ne by (intros ->; done). apply Hin. by right.
  - split_and!; [done| |done|done]. intros id set. rewrite Hsets. cbn. rewrite lookup_delete_Some, not_elem_of_cons.
    split; [intros [[? ?] ?]|intros [? [? ?]]]; auto.
Qed.

(** Adding a set that shares no object with the sets that stay. *)
Lemma addSet_ok tp id set cc known heights :
  pool_ok tp → tp_transactionSets tp !! id = None →
  id = TransactionSetID_of set → set ≠ [] → Forall T set → (∃ n, isStandardTransactionSet set = Ok n) →
  txnFn set = Ok cc → Forall (unconfirmed tp) set →
  (∀ oid, known !! oid = Some id ↔ touches set oid ∨ tp_knownObjects tp !! oid = Some id) →
  (∀ oid, ¬ touches set oid → known !! oid = tp_knownObjects tp !! oid) →
  (∀ oid id' set', tp_transactionSets tp !! id' = Some set' → touches set' oid → ¬ touches set oid) →
  pool_ok (set_tp_sets known heights (<[id := set]> (tp_transactionSets tp))
    (<[id := cc]> (tp_transactionSetDiffs tp))
    (tp_transactionListSize tp + len (Transactions_Marshal set)) tp).
Proof.
  intros [Hset Hd Hs Hk] Hnew Hid Hne HT Hstd Hcc Hun Hkn1 Hkn2 Hdisj. split; cbn.
  - intros id' set'. rewrite lookup_insert_Some. intros [[<- <-]|[Hn H]].
    + split; auto. exists cc. split; [done|]. cbn. apply lookup_insert_eq.
    + destruct (Hset id' set' H). split; auto. cbn. by rewrite lookup_insert_ne.
  - intros id' [cc' H]. apply lookup_insert_Some in H as [[<- _]|[Hn H]]; [rewrite lookup_insert_eq; eauto|].
    rewrite lookup_insert_ne by done. eauto.
  - rewrite map_sumZ_insert by done. lia.
  - intros id' set' oid. rewrite lookup_insert_Some. intros [[<- <-]|[Hn H]] Ht.
    + apply Hkn1. by left.
    + rewrite Hkn2; [by eapply Hk|]. by eapply Hdisj.
Qed.

Lemma known_inserts (known : gmap ObjectID TransactionSetID) (id : TransactionSetID) (oids : list ObjectID) (oid : ObjectID) :
  foldl (λ m oid, <[oid := id]> m) known oids !! oid = if decide (oid ∈ oids) then Some id else known !! oid.
Proof. by rewrite (foldl_insert_lookup (λ x, x)), map_id. Qed.

(** *** The conflict map *)

Definition conflictStep (tp : TransactionPool) (m : gmap TransactionID TransactionSetID) (c : TransactionSetID) :=
  foldl (λ m t, <[Transaction_ID t := c]> m) m (default [] (tp_transactionSets tp !! c)).

Lemma conflictMap_sound (tp : TransactionPool) (conflicts : list TransactionSetID) (m : gmap TransactionID TransactionSetID) (tid : TransactionID) (c : TransactionSetID) :
  foldl (conflictStep tp) m conflicts !! tid = Some c →
  m !! tid = Some c ∨ (c ∈ conflicts ∧ ∃ set t, tp_transactionSets tp !! c = Some set ∧ t ∈ set ∧ Transaction_ID t = tid).
Proof.
  revert m. induction conflicts as [|x l IH]; intros m H; cbn in H; [auto|].
  destruct (IH _ H) as [H'|(Hc & Hx)]; [|right; split; [by right|done]].
  unfold conflictStep in H'. rewrite foldl_insert_lookup in H'. case_decide as Hin; [|auto].
  injection H' as ->. right. split; [by left|].
  destruct (tp_transactionSets tp !! c) as [set|]; [|by apply elem_of_nil in Hin].
  apply list_elem_of_fmap in Hin as (t & -> & Ht). by exists set, t.
Qed.

Lemma conflictMap_complete (tp : TransactionPool) (conflicts : list TransactionSetID) (m : gmap TransactionID TransactionSetID)
    (c : TransactionSetID) (set : list Transaction) (t : Transaction) :
  c ∈ conflicts → tp_transactionSets tp !! c = Some set → t ∈ set →
  is_Some (foldl (conflictStep tp) m conflicts !! Transaction_ID t).
Proof.
  assert (∀ l m tid, is_Some (m !! tid) → is_Some (foldl (conflictStep tp) m l !! tid)) as Hmono.
  { induction l as [|x l IH]; intros m' tid Hm; cbn; [done|]. apply IH. unfold conflictStep.
    rewrite foldl_insert_lookup. case_decide; eauto. }
  revert m. induction conflicts as [|x l IH]; intros m Hc Hset Ht; [by apply elem_of_nil in Hc|]. cbn.
  apply elem_of_cons in Hc as [->|Hc]; [|by apply IH]. apply Hmono. unfold conflictStep.
  rewrite foldl_insert_lookup, Hset. rewrite decide_True; [eauto|]. cbn. by apply list_elem_of_fmap_2.
Qed.

(** *** Accepting *)

Context (Hids : collision_free T) `{!ConsensusView txnFn}.

(** The sets that the merged set replaces: all live sets that share an object
    with [ts]. *)
Lemma supersetMap_complete tp ts conflicts id set oid :
  pool_ok tp → (∀ oid id, touches ts oid → tp_knownObjects tp !! oid = Some id → id ∈ conflicts) →
  tp_transactionSets tp !! id = Some set → touches set oid → touches ts oid →
  ∃ tid, conflictMap tp conflicts !! tid = Some id.
Proof.
  intros Hok Hall Hset Hts Htts. pose proof (po_known _ Hok _ _ _ Hset Hts) as Hk.
  pose proof Hts as (t & Ht & Ho).
  destruct (conflictMap_complete tp conflicts ∅ id set t (Hall _ _ Htts Hk) Hset Ht) as [c Hc].
  exists (Transaction_ID t). change (conflictMap tp conflicts) with (foldl (conflictStep tp) ∅ conflicts).
  destruct (conflictMap_sound _ _ _ _ _ Hc) as [He|(_ & set' & t' & Hset' & Ht' & Hid)]; [by rewrite lookup_empty in He|].
  rewrite Hc. f_equal. eapply (pool_ok_disjoint tp c id set' set oid Hok Hset' Hset); [|done].
  exists t'. split; [done|]. pose proof (so_T _ _ _ (po_set _ Hok _ _ Hset)) as HT. pose proof (so_T _ _ _ (po_set _ Hok _ _ Hset')) as HT'.
  rewrite Forall_forall in HT, HT'. by rewrite (same_id_same_objects T t' t Hids) by auto.
Qed.

Definition merged (tp : TransactionPool) (cs : list TransactionSetID) : list Transaction :=
  foldl (λ superset conflict, superset ++ default [] (tp_transactionSets tp !! conflict)) [] cs.

Lemma elem_of_merged tp cs t :
  t ∈ merged tp cs ↔ ∃ c set, c ∈ cs ∧ tp_transactionSets tp !! c = Some set ∧ t ∈ set.
Proof.
  unfold merged.
  assert (∀ acc, t ∈ foldl (λ superset conflict, superset ++ default [] (tp_transactionSets tp !! conflict)) acc cs ↔
    t ∈ acc ∨ ∃ c set, c ∈ cs ∧ tp_transactionSets tp !! c = Some set ∧ t ∈ set) as ->.
  2: { split; [intros [?%elem_of_nil|?]; done|auto]. }
  induction cs as [|c cs IH]; intros acc; cbn.
  { split; [auto|]. intros [?|(? & ? & ?%elem_of_nil & _)]; done. }
  rewrite IH, elem_of_app. setoid_rewrite elem_of_cons.
  destruct (tp_transactionSets tp !! c) as [set|] eqn:E; cbn; [|rewrite elem_of_nil]; naive_solver.
Qed.

Lemma checkComposition_Ok tp ts n :
  checkTransactionSetComposition tp ts = Ok n ↔
  tp_transactionSets tp !! TransactionSetID_of ts = None ∧ isStandardTransactionSet ts = Ok n.
Proof.
  unfold checkTransactionSetComposition. rewrite bind_unit_Ok, guard_err_Ok, bool_decide_eq_false.
  by rewrite <- eq_None_not_Some.
Qed.

Lemma consensusConflict_Ok {A} (r : res A) a : consensusConflict r = Ok a ↔ r = Ok a.
Proof. by destruct r. Qed.

Lemma filter_same {A} (P : A → Prop) `{∀ x, Decision (P x)} l :
  len l ≤ len (filter P l) → filter P l = l ∧ Forall P l.
Proof.
  unfold len. induction l as [|x l IH]; intros Hl; [done|].
  assert (length (filter P l) ≤ length l)%nat by apply length_filter.
  rewrite filter_cons in *. case_decide; cbn in Hl; [|lia].
  destruct IH as [-> ?]; [lia|]. split; [done|by constructor].
Qed.

Lemma Forall_list_filter {A} (P Q : A → Prop) `{∀ x, Decision (Q x)} l : Forall P l → Forall P (filter Q l).
Proof. rewrite !Forall_forall. intros H0 x [_ Hx]%list_elem_of_filter. auto. Qed.

Lemma mergeConflicts_ok tp ts at1 at2 conflicts heights cc n :
  pool_ok tp → ts ≠ [] → Forall T ts → Forall (unconfirmed tp) ts →
  (∀ oid id, touches ts oid → tp_knownObjects tp !! oid = Some id → id ∈ conflicts) →
  let supersetMap : gset TransactionSetID := list_to_set (map_to_list (conflictMap tp conflicts)).*2 in
  let superset := merged tp (range_keys at1 supersetMap) ++ ts in
  let setID := TransactionSetID_of superset in
  let tp' := foldl removeConflict tp (range_keys at2 supersetMap) in
  checkTransactionSetComposition tp superset = Ok n → txnFn superset = Ok cc →
  pool_ok (set_tp_sets (foldl (λ m oid, <[oid := setID]> m) (tp_knownObjects tp') (diffObjects cc)) heights
    (<[setID := superset]> (tp_transactionSets tp')) (<[setID := cc]> (tp_transactionSetDiffs tp'))
    (tp_transactionListSize tp' + len (Transactions_Marshal superset)) tp').
Proof.
  intros Hok Hne HT Hun Hall supersetMap superset setID tp' [Hnew Hstd]%checkComposition_Ok Hcc.
  assert (∀ c, c ∈ supersetMap ↔ ∃ tid, conflictMap tp conflicts !! tid = Some c) as HK.
  { intros c. unfold supersetMap. rewrite elem_of_list_to_set, list_elem_of_fmap. split.
    - intros ([tid c'] & -> & H%elem_of_map_to_list). eauto.
    - intros (tid & H). exists (tid, c). split; [done|]. by apply elem_of_map_to_list. }
  assert (∀ c, c ∈ supersetMap → is_Some (tp_transactionSets tp !! c)) as Hlive.
  { intros c [tid Htid]%HK. destruct (conflictMap_sound tp conflicts ∅ tid c Htid) as [He|(_ & set & _ & ? & _)]; [|eauto].
    by rewrite lookup_empty in He. }
  destruct (removeConflicts_ok tp (range_keys at2 supersetMap) Hok) as (Hok' & Hsets & Hkn & Hdb).
  { apply range_keys_NoDup. } { intros c. rewrite elem_of_range_keys. apply Hlive. }
  fold tp' in Hok', Hsets, Hkn, Hdb. setoid_rewrite elem_of_range_keys in Hsets.
  assert (∀ t, t ∈ superset → (∃ c set, c ∈ supersetMap ∧ tp_transactionSets tp !! c = Some set ∧ t ∈ set) ∨ t ∈ ts) as Hsup.
  { intros t. unfold superset. rewrite elem_of_app, elem_of_merged. setoid_rewrite elem_of_range_keys. done. }
  apply addSet_ok; auto.
  - apply eq_None_not_Some. intros [set Hs]. apply Hsets in Hs as [Hs _]. unfold setID in Hs. congruence.
  - unfold superset. intros E. apply app_eq_nil in E as [_ ->]. done.
  - apply Forall_forall. intros t Ht. destruct (Hsup t Ht) as [(c & set & _ & Hs & Hin)|Hin].
    + pose proof (so_T _ _ _ (po_set _ Hok _ _ Hs)) as H. rewrite Forall_forall in H. auto.
    + rewrite Forall_forall in HT. auto.
  - eauto.
  - apply Forall_forall. intros t Ht. unfold unconfirmed, transactionConfirmed. rewrite Hdb.
    destruct (Hsup t Ht) as [(c & set & _ & Hs & Hin)|Hin].
    + pose proof (so_unconfirmed _ _ _ (po_set _ Hok _ _ Hs)) as H. rewrite Forall_forall in H. by apply H.
    + rewrite Forall_forall in Hun. by apply Hun.
  - intros oid. rewrite known_inserts. rewrite <- (cv_objects _ _ Hcc oid). case_decide; naive_solver.
  - intros oid Ho. rewrite known_inserts, decide_False; [done|]. by rewrite (cv_objects _ _ Hcc oid).
  - intros oid id' set' [Hs' Hn']%Hsets Ht' (t & Ht & Ho). destruct (Hsup t Ht) as [(c & set & Hc & Hs & Hin)|Hin].
    + apply Hn'. rewrite (pool_ok_disjoint tp id' c set' set oid Hok Hs' Hs Ht'); [done|]. by exists t.
    + apply Hn', HK. eapply supersetMap_complete; [done|exact Hall|exact Hs'|exact Ht'|]. by exists t.
Qed.

(** [findConflicts] finds every owner of an object of the set. *)
Lemma findConflicts_complete at_ tp ts oid id :
  touches ts oid → tp_knownObjects tp !! oid = Some id → id ∈ findConflicts tp (relatedObjectIDs at_ ts).
Proof.
  intros Ht Hk. unfold findConflicts. apply list_elem_of_omap. exists oid. split; [|done].
  by apply elem_of_relatedObjectIDs.
Qed.

Lemma handleConflicts_ok fuel at_ tp ts conflicts tp' :
  pool_ok tp → Forall T ts → Forall (unconfirmed tp) ts →
  (∀ oid id, touches ts oid → tp_knownObjects tp !! oid = Some id → id ∈ conflicts) →
  handleConflicts fuel at_ tp ts conflicts txnFn = Ok tp' → pool_ok tp'.
Proof.
  revert at_ ts conflicts. induction fuel as [|fuel IH]; intros at_ ts conflicts Hok HT Hun Hall H; [done|].
  cbn [handleConflicts] in H. destruct (Z.eqb_spec (len (filter (λ t, conflictMap tp conflicts !! Transaction_ID t = None) ts)) 0) as [|Hne]; [done|].
  destruct (Z.ltb_spec (len (filter (λ t, conflictMap tp conflicts !! Transaction_ID t = None) ts)) (len ts)) as [|Hge].
  - refine (IH _ _ _ Hok _ _ _ H); [by apply Forall_list_filter..|].
    intros oid id. apply findConflicts_complete.
  - apply filter_same in Hge as [E Hnone]. rewrite E in H, Hne.
    apply bind_Ok in H as (n & Hn & H). apply bind_Ok in H as (_ & _ & H). apply bind_Ok in H as (cc & Hcc & [= <-]).
    rewrite consensusConflict_Ok in Hcc.
    assert (ts ≠ []) as Hts by (by intros ->). clear IH.
    eapply (mergeConflicts_ok tp ts (2%nat :: at_) (3%nat :: at_) conflicts); [done..|exact Hn|exact Hcc].
Qed.

Lemma acceptTransactionSet_ok at_ tp ts tp' :
  pool_ok tp → Forall T ts → acceptTransactionSet at_ tp ts txnFn = Ok tp' → pool_ok tp'.
Proof.
  intros Hok HT H. unfold acceptTransactionSet in H. destruct (len ts =? 0); [done|].
  set (us := filter (λ txn, transactionConfirmed tp (Transaction_ID txn) = false) ts) in *.
  assert (Forall T us) as HTu by (by apply Forall_list_filter).
  assert (Forall (unconfirmed tp) us) as Hun.
  { apply Forall_forall. intros t Ht. by apply list_elem_of_filter in Ht as [? _]. }
  destruct (Z.eqb_spec (len us) 0) as [|Hne]; [done|].
  apply bind_Ok in H as (n & Hn & H). apply bind_Ok in H as (_ & _ & H).
  destruct (Z.ltb_spec 0 (len (findConflicts tp (relatedObjectIDs (0%nat :: at_) us)))) as [|Hc].
  - eapply handleConflicts_ok; [done|exact HTu|done| |exact H]. intros oid id. apply findConflicts_complete.
  - apply bind_Ok in H as (cc & Hcc & [= <-]). rewrite consensusConflict_Ok in Hcc. apply checkComposition_Ok in Hn as [Hnew Hstd].
    assert (∀ oid id, touches us oid → tp_knownObjects tp !! oid ≠ Some id) as Hfree.
    { intros oid id Ht Hk. pose proof (findConflicts_complete (0%nat :: at_) _ _ _ _ Ht Hk) as Hin.
      destruct (findConflicts _ _); [by apply elem_of_nil in Hin|]. unfold len in Hc. cbn in Hc. lia. }
    apply addSet_ok; eauto.
    + by intros ->.
    + intros oid. rewrite known_inserts. rewrite <- (elem_of_relatedObjectIDs (0%nat :: at_)). case_decide; naive_solver.
    + intros oid Ho. rewrite known_inserts, decide_False; [done|]. by rewrite elem_of_relatedObjectIDs.
    + intros oid id' set' Hs Ht Ht'. apply (Hfree oid id'); [done|]. by eapply po_known.
Qed.
End invariant.

(** *** The recursion of [handleConflicts] *)

Section recursion.
Context `{MO : MapOrder} `{C : Crypto} `{F : FeeCurve}.

Lemma conflictMap_subset (tp : TransactionPool) (cs cs' : list TransactionSetID) (tid : TransactionID) :
  cs' ⊆ cs → conflictMap tp cs !! tid = None → conflictMap tp cs' !! tid = None.
Proof.
  intros Hs Hn. destruct (conflictMap tp cs' !! tid) as [c|] eqn:E; [|done].
  destruct (conflictMap_sound tp cs' ∅ tid c E) as [He|(Hc & set & t & Hset & Ht & <-)]; [by rewrite lookup_empty in He|].
  destruct (conflictMap_complete tp cs ∅ c set t (Hs _ Hc) Hset Ht) as [c' Hc'].
  change (foldl (conflictStep tp) ∅ cs) with (conflictMap tp cs) in Hc'. congruence.
Qed.

Lemma filter_same_all {A} (P : A → Prop) `{∀ x, Decision (P x)} (l : list A) : (∀ x, x ∈ l → P x) → filter P l = l.
Proof.
  intros Hl. induction l as [|x l IH]; [done|].
  rewrite filter_cons_True by (apply Hl; by left). f_equal. apply IH. intros y Hy. apply Hl. by right.
Qed.

Lemma handleConflicts_final n m at_ tp ts conflicts txnFn :
  (∀ t, t ∈ ts → conflictMap tp conflicts !! Transaction_ID t = None) →
  handleConflicts (S n) at_ tp ts conflicts txnFn = handleConflicts (S m) at_ tp ts conflicts txnFn.
Proof.
  intros Hnone. cbn [handleConflicts]. rewrite (filter_same_all _ _ Hnone).
  by rewrite Z.ltb_irrefl.
Qed.

Lemma handleConflicts_fuel n at1 at2 tp ts txnFn :
  handleConflicts (2 + n) at1 tp ts (findConflicts tp (relatedObjectIDs at2 ts)) txnFn =
  handleConflicts 2 at1 tp ts (findConflicts tp (relatedObjectIDs at2 ts)) txnFn.
Proof.
  change (2 + n)%nat with (S (S n)). cbn [handleConflicts].
  destruct (_ =? 0); [done|]. destruct (_ <? _); [|done].
  apply (handleConflicts_final n 0). intros t [Hn Ht]%list_elem_of_filter.
  eapply conflictMap_subset; [|exact Hn]. intros c (oid & Ho & Hk)%list_elem_of_omap.
  apply list_elem_of_omap. exists oid. split; [|done]. apply elem_of_relatedObjectIDs.
  apply elem_of_relatedObjectIDs in Ho. eapply touches_subset; [|exact Ho].
  intros t' [_ ?]%list_elem_of_filter. done.
Qed.
End recursion.

(** ** What is in the pool afterwards *)

Section contents.
Context `{MO : MapOrder} `{C : Crypto} `{F : FeeCurve}.
Context (txnFn : list Transaction → res ConsensusChange).

Definition in_pool (tp : TransactionPool) (t : Transaction) : Prop :=
  ∃ id set, tp_transactionSets tp !! id = Some set ∧ t ∈ set.

(** From [tp] to [tp'] the transactions of [ts] were added and none was lost;
    a transaction of [ts] whose id was there already need not be added again. *)
Record added (ts : list Transaction) (tp tp' : TransactionPool) : Prop := {
  ad_kept : ∀ t, in_pool tp t → in_pool tp' t;
  ad_new : ∀ t, t ∈ ts → ∃ t', in_pool tp' t' ∧ Transaction_ID t' = Transaction_ID t;
  ad_only : ∀ t, in_pool tp' t → in_pool tp t ∨ t ∈ ts;
}.

Lemma removed_sets (cs : list TransactionSetID) tp :
  ∀ id set, tp_transactionSets (foldl removeConflict tp cs) !! id = Some set ↔
    tp_transactionSets tp !! id = Some set ∧ id ∉ cs.
Proof.
  revert tp. induction cs as [|c cs IH]; intros tp id set; cbn.
  { split; [intros ?; split; [done|apply not_elem_of_nil]|by intros [? _]]. }
  rewrite IH. cbn. rewrite lookup_delete_Some, not_elem_of_cons. naive_solver.
Qed.

Lemma handleConflicts_added fuel at_ tp ts conflicts tp' :
  handleConflicts fuel at_ tp ts conflicts txnFn = Ok tp' → added ts tp tp'.
Proof.
  revert at_ ts conflicts. induction fuel as [|fuel IH]; intros at_ ts conflicts H; [done|].
  cbn [handleConflicts] in H. destruct (_ =? 0); [done|]. destruct (Z.ltb_spec (len (filter (λ t, conflictMap tp conflicts !! Transaction_ID t = None) ts)) (len ts)) as [Hlt|Hge].
  - destruct (IH _ _ _ H) as [Hk Hn Ho]. split; [done| |].
    + intros t Ht. destruct (conflictMap tp conflicts !! Transaction_ID t) as [c|] eqn:E.
      * destruct (conflictMap_sound tp conflicts ∅ _ c E) as [He|(_ & set & t' & Hset & Ht' & Hid)]; [by rewrite lookup_empty in He|].
        exists t'. split; [apply Hk; by exists c, set|done].
      * apply Hn. by apply list_elem_of_filter.
    + intros t [?|[_ ?]%list_elem_of_filter]%Ho; auto.
  - apply filter_same in Hge as [E _]. rewrite E in H.
    apply bind_Ok in H as (n & Hn & H). apply bind_Ok in H as (_ & _ & H). apply bind_Ok in H as (cc & _ & [= <-]).
    apply checkComposition_Ok in Hn as [Hnew _].
    set (K := list_to_set (map_to_list (conflictMap tp conflicts)).*2 : gset TransactionSetID) in *.
    change (foldl _ [] (range_keys (2%nat :: at_) K)) with (merged tp (range_keys (2%nat :: at_) K)) in *.
    set (sup := merged tp (range_keys (2%nat :: at_) K) ++ ts) in *.
    assert (∀ t, t ∈ sup → in_pool tp t ∨ t ∈ ts) as Hsup.
    { intros t [(c & set & _ & Hs & Ht)%elem_of_merged|?]%elem_of_app; [left; by exists c, set|auto]. }
    split.
    + intros t (id & set & Hs & Ht). destruct (decide (id ∈ K)) as [Hin|Hout].
      * exists (TransactionSetID_of sup), sup. cbn. rewrite lookup_insert_eq. split; [done|].
        apply elem_of_app. left. apply elem_of_merged. exists id, set. split; [by apply elem_of_range_keys|done].
      * exists id, set. cbn. split; [|done]. rewrite lookup_insert_ne by congruence.
        apply removed_sets. split; [done|]. by rewrite elem_of_range_keys.
    + intros t Ht. exists t. split; [|done]. exists (TransactionSetID_of sup), sup. cbn. rewrite lookup_insert_eq.
      split; [done|]. apply elem_of_app. by right.
    + intros t (id & set & Hs & Ht). cbn in Hs. apply lookup_insert_Some in Hs as [[<- <-]|[_ Hs]]; [auto|].
      apply removed_sets in Hs as [Hs _]. left. by exists id, set.
Qed.

Lemma acceptTransactionSet_added at_ tp ts tp' :
  acceptTransactionSet at_ tp ts txnFn = Ok tp' →
  added (filter (λ t, transactionConfirmed tp (Transaction_ID t) = false) ts) tp tp'.
Proof.
  unfold acceptTransactionSet. intros H. destruct (len ts =? 0); [done|].
  set (us := filter (λ txn, transactionConfirmed tp (Transaction_ID txn) = false) ts) in *. destruct (_ =? 0); [done|].
  apply bind_Ok in H as (n & Hn & H). apply bind_Ok in H as (_ & _ & H). destruct (0 <? _); [by eapply handleConflicts_added|].
  apply bind_Ok in H as (cc & _ & [= <-]). apply checkComposition_Ok in Hn as [Hnew _]. split.
  - intros t (id & set & Hs & Ht). exists id, set. cbn. rewrite lookup_insert_ne by congruence. done.
  - intros t Ht. exists t. split; [|done]. exists (TransactionSetID_of us), us. cbn. by rewrite lookup_insert_eq.
  - intros t (id & set & Hs & Ht). cbn in Hs. apply lookup_insert_Some in Hs as [[<- <-]|[_ Hs]]; [auto|].
    left. by exists id, set.
Qed.
End contents.

(** ** Theorems *)

(** C4: Accepting a transaction set keeps the pool sound, for any consensus set
    behind it: every set in the pool is stored under its hash, standard,
    unconfirmed, and valid on its own with its diffs recorded; the recorded
    size is right; and two different sets never mention the same object, so no
    two sets of the pool can spend the same output, also after sets were merged
    because the new one depends on them. *)
Theorem acceptTransactionSet_preserves `{MO : MapOrder} `{C : Crypto} `{F : FeeCurve}
    (txnFn : list Transaction → res ConsensusChange) (T : Transaction → Prop)
    (at_ : list nat) (tp tp' : TransactionPool) (ts : list Transaction) :
  collision_free T → ConsensusView txnFn → pool_ok txnFn T tp → Forall T ts →
  acceptTransactionSet at_ tp ts txnFn = Ok tp' →
  pool_ok txnFn T tp' ∧
  ∀ id id' set set' oid, tp_transactionSets tp' !! id = Some set → tp_transactionSets tp' !! id' = Some set' →
    touches set oid → touches set' oid → id = id'.
Proof.
  intros Hids Hview Hok HT H. pose proof (acceptTransactionSet_ok txnFn T Hids at_ tp ts tp' Hok HT H) as Hok'.
  split; [done|]. intros id id' set set' oid. by apply (pool_ok_disjoint txnFn T tp').
Qed.

(** C24: Accepting a transaction set adds exactly its unconfirmed transactions:
    what was in the pool stays in it (possibly in a merged set), every
    unconfirmed transaction of the new set is in the pool afterwards, at least
    under the same id, and nothing else is. *)
Theorem acceptTransactionSet_contents `{MO : MapOrder} `{C : Crypto} `{F : FeeCurve}
    (txnFn : list Transaction → res ConsensusChange) (at_ : list nat) (tp tp' : TransactionPool) (ts : list Transaction) :
  acceptTransactionSet at_ tp ts txnFn = Ok tp' →
  (∀ t, in_pool tp t → in_pool tp' t) ∧
  (∀ t, t ∈ ts → transactionConfirmed tp (Transaction_ID t) = false →
    ∃ t', in_pool tp' t' ∧ Transaction_ID t' = Transaction_ID t) ∧
  (∀ t, in_pool tp' t → in_pool tp t ∨ (t ∈ ts ∧ transactionConfirmed tp (Transaction_ID t) = false)).
Proof.
  intros [Hk Hn Ho]%acceptTransactionSet_added. split_and!; [done| |].
  - intros t Ht Hc. apply Hn. by apply list_elem_of_filter.
  - intros t [?|[? ?]%list_elem_of_filter]%Ho; auto.
Qed.

(** ** A concrete pool

    Over the database of [BlockDiffs.example]: a transaction [tA] that forms a
    contract, an unrelated payment [tB], and [tC], which spends an output of [tA]
    and is merged with it. *)
Module example_pool.
#[export] Existing Instance inOrder.
Definition cubic : FeeCurve := {| feeFactor size := Qpower (size # 3000000) 3 |}.
#[export] Existing Instance cubic.

Definition db : DB := example.tip.
Definition tA : Transaction := example.txn.
Definition tB : Transaction :=
  mkTxn [mkSCI (example.key x06) example.anyone]
    [mkSCO (example.supply (CalculateNumSiacoins 20) - 3010700) example.anyoneHash] [] [] [] [] [] [] [] [].
Definition tC : Transaction :=
  mkTxn [mkSCI (Transaction_SiacoinOutputID tA 0) example.anyone] [mkSCO 900000 (example.key x05)] [] [] [] [] [] [] [] [].

Definition T (t : Transaction) : Prop := t ∈ [tA; tB; tC].
Definition txnFn : list Transaction → res ConsensusChange := tryTransactionSet db.
Definition emptyPoolDB : poolDB := mkPoolDB None ∅ None None None.
Definition get (r : res TransactionPool) : TransactionPool := match r with Ok tp => tp | _ => New emptyPoolDB end.

Definition pool0 : TransactionPool := New emptyPoolDB.
Definition pool1 : TransactionPool := Eval vm_compute in get (acceptTransactionSet [1%nat] pool0 [tA] txnFn).
Definition pool2 : TransactionPool := Eval vm_compute in get (acceptTransactionSet [2%nat] pool1 [tB] txnFn).
Definition pool3 : TransactionPool := Eval vm_compute in get (acceptTransactionSet [3%nat] pool2 [tA; tC] txnFn).

Lemma accept1 : acceptTransactionSet [1%nat] pool0 [tA] txnFn = Ok pool1.
Proof. vm_cast_no_check (eq_refl (Ok pool1)). Qed.
Lemma accept2 : acceptTransactionSet [2%nat] pool1 [tB] txnFn = Ok pool2.
Proof. vm_cast_no_check (eq_refl (Ok pool2)). Qed.
Lemma accept3 : acceptTransactionSet [3%nat] pool2 [tA; tC] txnFn = Ok pool3.
Proof. vm_cast_no_check (eq_refl (Ok pool3)). Qed.

Lemma pool_ids : collision_free T.
Proof.
  intros t t' Ht Ht' E.
  assert (Forall (λ x, Forall (λ y, Transaction_ID x = Transaction_ID y → x = y) [tA; tB; tC]) [tA; tB; tC]) as H by vm_decide.
  rewrite Forall_forall in H. specialize (H t Ht). rewrite Forall_forall in H. by rewrite (H t' Ht' E).
Qed.

Lemma all_T ts : (∀ t, t ∈ ts → t ∈ [tA; tB; tC]) → Forall T ts.
Proof. intros H. by apply Forall_forall. Qed.

Lemma ok0 : pool_ok txnFn T pool0.
Proof. apply (pool_ok_purge txnFn T (New emptyPoolDB)). Qed.
Lemma ok1 : pool_ok txnFn T pool1.
Proof. eapply acceptTransactionSet_ok; [apply pool_ids|apply _|apply ok0| |apply accept1]. apply all_T. set_solver. Qed.
Lemma ok2 : pool_ok txnFn T pool2.
Proof. eapply acceptTransactionSet_ok; [apply pool_ids|apply _|apply ok1| |apply accept2]. apply all_T. set_solver. Qed.
End example_pool.

Lemma acceptTransactionSet_preserves_witness :
  pool_ok example_pool.txnFn example_pool.T example_pool.pool3 ∧
  map_to_list (tp_transactionSets example_pool.pool3) ≠ [] ∧
  size (tp_transactionSets example_pool.pool3) = 2%nat.
Proof.
  split; [|split; [vm_compute; discriminate|vm_compute; reflexivity]].
  refine (proj1 (acceptTransactionSet_preserves example_pool.txnFn example_pool.T [3%nat] example_pool.pool2
    example_pool.pool3 [example_pool.tA; example_pool.tC] example_pool.pool_ids _ example_pool.ok2 _ example_pool.accept3)).
  apply example_pool.all_T. set_solver.
Defined.

Lemma acceptTransactionSet_contents_witness :
  (∀ t, in_pool example_pool.pool2 t → in_pool example_pool.pool3 t) ∧
  ∃ t', in_pool example_pool.pool3 t' ∧ Transaction_ID t' = Transaction_ID example_pool.tC.
Proof.
  destruct (acceptTransactionSet_contents example_pool.txnFn [3%nat] example_pool.pool2 example_pool.pool3
    [example_pool.tA; example_pool.tC] example_pool.accept3) as (H1 & H2 & _).
  split; [exact H1|]. apply H2; [by right; left|vm_compute; reflexivity].
Defined.
