(* ===== verification/PoolUpdate.v ===== *)
(** * Following the consensus set

    What [ProcessConsensusChange] of the transaction pool does: the fee of a
    block is the one reached after a quarter of its space, no step of it can
    panic on a consistent change, and afterwards the pool satisfies its
    invariant for the new consensus set. *)

From S2P Require Import Prelude Encoding Currency Target Crypto Types Codec Block ConsensusDB BlockDiffs Changelog MapRange Standard FindSets TransactionPool PoolInvariant.

(** ** The fee of a block *)

Lemma len_Transaction_pos t : 0 < len (Transaction_MarshalSia t).
Proof.
  unfold Transaction_MarshalSia, Transaction_MarshalSiaNoSignatures, enc_slice.
  rewrite !len_app, !len_EncUint64.
  repeat match goal with |- context [len ?l] => pose proof (len_nonneg l); generalize dependent (len l); intros end.
  lia.
Qed.

Section fees.
Context `{MO : MapOrder} `{C : Crypto}.

Definition set_size (set : list Transaction) : Z := sumZ (λ t, len (Transaction_MarshalSia t)) set.
(** Fee per byte. *)
Definition set_rate (set : list Transaction) : Currency := add_fees 0 set / set_size set.

Lemma set_size_pos set : set ≠ [] → 0 < set_size set.
Proof.
  destruct set as [|t set]; [done|]. intros _. unfold set_size. cbn.
  pose proof (len_Transaction_pos t).
  assert (0 ≤ sumZ (λ t, len (Transaction_MarshalSia t)) set) by (apply sumZ_nonneg; intros; apply len_nonneg). lia.
Qed.

Lemma setSummary_value set :
  set ≠ [] → set_size set ≤ BlockSizeLimit → setSummary set = Ok (mkFS (set_rate set) (set_size set)).
Proof.
  intros Hne Hle. pose proof (set_size_pos set Hne). unfold setSummary, Currency_Div64.
  rewrite (foldl_sumZ (λ t, len (Transaction_MarshalSia t))). change (0 + sumZ _ set) with (set_size set).
  unfold BlockSizeLimit in Hle. rewrite u64_id by ulia.
  destruct (Z.eqb_spec (set_size set) 0); [lia|done].
Qed.

Definition summaries (sets : list (list Transaction)) : list feeSummary :=
  map (λ set, mkFS (set_rate set) (set_size set)) sets.

Lemma summaries_loop sets acc total :
  Forall (λ set, set ≠ [] ∧ set_size set ≤ BlockSizeLimit) sets →
  foldM (λ '(fees, totalSize) set,
    f ← setSummary set; Ok (fees ++ [f], totalSize + fs_size f)) (acc, total) sets =
  Ok (acc ++ summaries sets, total + sumZ set_size sets).
Proof.
  revert acc total. induction sets as [|set sets IH]; intros acc total H; cbn.
  { by rewrite app_nil_r, Z.add_0_r. }
  apply Forall_cons in H as [[Hne Hle] H]. rewrite setSummary_value by done. cbn [mbind res_bind fs_size].
  rewrite IH by done. rewrite <- (assoc_L (++)). cbn. do 2 f_equal. lia.
Qed.

(** The space taken by entries that pay less than [f], or at most [f]. *)
Definition space_below (f : Currency) (fees : list feeSummary) : Z :=
  sumZ (λ x, if fs_fee x <? f then fs_size x else 0) fees.
Definition space_upto (f : Currency) (fees : list feeSummary) : Z :=
  sumZ (λ x, if fs_fee x <=? f then fs_size x else 0) fees.

Lemma percentile_spec fees progress :
  StronglySorted fee_le fees → Forall (λ x, 0 ≤ fs_size x) fees →
  0 ≤ progress ≤ BlockSizeLimit / 4 → progress + sumZ fs_size fees = BlockSizeLimit →
  ∃ f, percentile progress fees = Some f ∧ (∃ x, x ∈ fees ∧ fs_fee x = f) ∧
    progress + space_below f fees ≤ BlockSizeLimit / 4 < progress + space_upto f fees.
Proof.
  assert (BlockSizeLimit / 4 < BlockSizeLimit < 2 ^ 64) as Hlim by (unfold BlockSizeLimit; vm_compute; done).
  revert progress. induction fees as [|x fees IH]; intros progress Hs Hpos Hp Hsum.
  { cbn in Hsum. lia. }
  apply StronglySorted_inv in Hs as [Hs Hx]. apply Forall_cons in Hpos as [Hx0 Hpos]. cbn in Hsum.
  assert (0 ≤ sumZ fs_size fees) as Hr.
  { apply sumZ_nonneg. rewrite Forall_forall in Hpos. auto. }
  assert (∀ f, 0 ≤ space_upto f fees) as Hup.
  { intros f. apply sumZ_nonneg. intros y Hy. rewrite Forall_forall in Hpos. specialize (Hpos y Hy). case_match; lia. }
  cbn [percentile]. rewrite u64_id by ulia.
  destruct (Z.ltb_spec (BlockSizeLimit / 4) (progress + fs_size x)) as [Hlt|Hge].
  - exists (fs_fee x). split; [done|]. split; [exists x; split; [by left|done]|].
    unfold space_below, space_upto. cbn. rewrite Z.ltb_irrefl, Z.leb_refl. fold (space_upto (fs_fee x) fees).
    rewrite (sumZ_ext _ (λ _, 0)), sumZ_zero; [specialize (Hup (fs_fee x)); lia|].
    intros y Hy. rewrite Forall_forall in Hx. specialize (Hx y Hy). unfold fee_le in Hx.
    by rewrite (proj2 (Z.ltb_ge _ _)) by lia.
  - destruct (IH (progress + fs_size x)) as (f & -> & (y & Hy & Hyf) & Hb); [done|done|lia|lia|].
    exists f. split; [done|]. split; [exists y; split; [by right|done]|].
    rewrite Forall_forall in Hx. specialize (Hx y Hy). unfold fee_le in Hx.
    unfold space_below, space_upto in *. cbn. rewrite (proj2 (Z.leb_le (fs_fee x) f)) by lia.
    destruct (fs_fee x <? f); lia.
Qed.

#[global] Instance fee_le_trans : Transitive fee_le.
Proof. intros x y z. unfold fee_le. lia. Qed.
#[global] Instance fee_le_total : Total fee_le.
Proof. intros x y. unfold fee_le. lia. Qed.

Lemma pick_size ts g : set_size (pick ts g) = sumZ (λ i, default 0 ((λ t, len (Transaction_MarshalSia t)) <$> ts !! i)) g.
Proof.
  unfold set_size, pick. induction g as [|i g IH]; cbn; [done|].
  destruct (ts !! i); cbn; rewrite IH; lia.
Qed.

Lemma sumZ_concat {A} (f : A → Z) ls : sumZ (sumZ f) ls = sumZ f (concat ls).
Proof. induction ls as [|l ls IH]; cbn; [done|]. by rewrite sumZ_app, IH. Qed.

Lemma sumZ_positions ts : sumZ (λ i, default 0 ((λ t, len (Transaction_MarshalSia t)) <$> ts !! i)) (seq 0 (length ts)) = set_size ts.
Proof.
  induction ts as [|t ts IH] using rev_ind; [done|].
  rewrite length_app, Nat.add_comm. cbn [length Nat.add]. rewrite seq_S, sumZ_app. unfold set_size in *. rewrite sumZ_app. cbn.
  rewrite lookup_app_r, Nat.sub_diag by lia. cbn. f_equal. rewrite <- IH. apply sumZ_ext. intros i Hi.
  apply elem_of_seq in Hi. by rewrite lookup_app_l by lia.
Qed.

(** The sets of a block partition its bytes. *)
Lemma findSets_sizes at_ ts :
  collision_free (λ t, t ∈ ts) →
  ∃ sets, findSets at_ ts = Ok sets ∧ sumZ set_size sets = set_size ts ∧ Forall (λ set, set ≠ []) sets.
Proof.
  intros Hids. destruct (findSets_groups ts) with (at_ := at_) as (groups & -> & Hp & Hg & _).
  { intros t t' Ht Ht' E. rewrite <- (produced_unsigned t), <- (produced_unsigned t'). by rewrite (Hids t t'). }
  eexists. split; [reflexivity|]. split.
  - rewrite sumZ_map. rewrite (sumZ_ext _ (sumZ (λ i, default 0 ((λ t, len (Transaction_MarshalSia t)) <$> ts !! i)))).
    + by rewrite sumZ_concat, (sumZ_perm _ _ _ Hp), sumZ_positions.
    + intros g _. apply pick_size.
  - apply Forall_forall. intros set [g [-> Hin]]%list_elem_of_fmap. rewrite Forall_forall in Hg.
    destruct (Hg g Hin) as [Hne _]. destruct g as [|i g]; [done|]. unfold pick. cbn.
    assert (i ∈ seq 0 (length ts)) as Hi.
    { rewrite <- Hp. apply list_elem_of_In, in_concat. exists (i :: g). split; [by apply list_elem_of_In|by left]. }
    apply elem_of_seq in Hi. destruct (lookup_lt_is_Some_2 ts i) as [t ->]; [lia|]. done.
Qed.

Lemma blockFee_value at_ ts :
  collision_free (λ t, t ∈ ts) → set_size ts ≤ BlockSizeLimit →
  ∃ sets f, findSets (0%nat :: at_) ts = Ok sets ∧ blockFee at_ ts = Ok (Some f) ∧
    let fees := summaries sets ++ [mkFS 0 (BlockSizeLimit - set_size ts)] in
    space_below f fees ≤ BlockSizeLimit / 4 < space_upto f fees.
Proof.
  intros Hids Hsz. destruct (findSets_sizes (0%nat :: at_) ts Hids) as (sets & E & Hsum & Hne).
  assert (Forall (λ set, 0 ≤ set_size set) sets) as Hpos.
  { eapply Forall_impl; [exact Hne|]. intros set H%set_size_pos. lia. }
  assert (Forall (λ set, set ≠ [] ∧ set_size set ≤ BlockSizeLimit) sets) as Hok.
  { apply Forall_forall. intros set Hin. rewrite Forall_forall in Hne, Hpos. split; [auto|].
    apply list_elem_of_split in Hin as (l1 & l2 & ->). rewrite sumZ_app in Hsum. cbn in Hsum.
    assert (0 ≤ sumZ set_size l1) by (apply sumZ_nonneg; intros; apply Hpos; set_solver).
    assert (0 ≤ sumZ set_size l2) by (apply sumZ_nonneg; intros; apply Hpos; set_solver). lia. }
  unfold blockFee. rewrite E. cbn [mbind res_bind]. rewrite summaries_loop by done. cbn [mbind res_bind app].
  rewrite Z.add_0_l, Hsum. change ZeroCurrency with 0.
  set (fees := summaries sets ++ [mkFS 0 (BlockSizeLimit - set_size ts)]).
  destruct (percentile_spec (sort_Slice (1%nat :: at_) fee_le fees) 0) as (f & -> & _ & Hb).
  - apply sort_Slice_sorted; apply _.
  - rewrite sort_Slice_perm. unfold fees, summaries. apply Forall_app. split; [|repeat constructor; cbn; lia].
    rewrite Forall_map. eapply Forall_impl; [exact Hpos|]. done.
  - unfold BlockSizeLimit. vm_compute. by split.
  - rewrite (sumZ_perm _ _ _ (sort_Slice_perm _ _ _)). unfold fees, summaries. rewrite sumZ_app, sumZ_map. cbn.
    rewrite (sumZ_ext _ set_size) by done. lia.
  - exists sets, f. split; [done|]. split; [done|]. cbn zeta. fold fees.
    unfold space_below, space_upto in *. rewrite !(sumZ_perm _ _ _ (sort_Slice_perm _ _ _)) in Hb. lia.
Qed.
End fees.

(** ** Nothing panics *)

Section no_panic.
Context `{MO : MapOrder} `{C : Crypto} `{F : FeeCurve}.

Lemma checkM_not_Panic {A} (f : A → res unit) l : (∀ x, f x ≠ Panic) → checkM f l ≠ Panic.
Proof.
  intros Hf. unfold checkM. induction l as [|x l IH]; cbn; [done|]. specialize (Hf x). by destruct (f x) as [[]| |]; cbn.
Qed.

Lemma bind_not_Panic {A B} (r : res A) (f : A → res B) :
  r ≠ Panic → (∀ a, r = Ok a → f a ≠ Panic) → (r ≫= f) ≠ Panic.
Proof. destruct r; cbn; auto. Qed.

Lemma guard_not_Panic b e : guard_err b e ≠ Panic.
Proof. unfold guard_err. by destruct b. Qed.

Lemma foldM_not_Panic {A S} (f : S → A → res S) s l : (∀ s x, f s x ≠ Panic) → foldM f s l ≠ Panic.
Proof. intros Hf. revert s. induction l as [|x l IH]; intros s; cbn; [done|]. apply bind_not_Panic; auto. Qed.

Lemma isStandardTransactionSet_not_Panic ts : isStandardTransactionSet ts ≠ Panic.
Proof.
  apply foldM_not_Panic. intros s t. apply bind_not_Panic.
  - unfold isStandardTransaction. repeat (apply bind_not_Panic; [|intros ? _]).
    all: try apply guard_not_Panic.
    1-3: apply checkM_not_Panic; intros x; apply checkM_not_Panic; intros pk; apply guard_not_Panic.
    + apply foldM_not_Panic. intros p arb. cbn zeta. by case_match.
    + done.
  - intros n _. apply bind_not_Panic; [apply guard_not_Panic|done].
Qed.

Lemma checkComposition_not_Panic tp ts : checkTransactionSetComposition tp ts ≠ Panic.
Proof. apply bind_not_Panic; [apply guard_not_Panic|intros _ _; apply isStandardTransactionSet_not_Panic]. Qed.

Lemma checkFees_not_Panic tp n ts : checkFees tp n ts ≠ Panic.
Proof.
  apply bind_not_Panic; [|intros ? _; apply guard_not_Panic].
  unfold requiredFeesToExtendTpool, Currency_Div64. by case_match.
Qed.

Lemma consensusConflict_not_Panic {A} (r : res A) : r ≠ Panic → consensusConflict r ≠ Panic.
Proof. by destruct r. Qed.

#[local] Hint Resolve checkComposition_not_Panic checkFees_not_Panic consensusConflict_not_Panic : core.

Lemma handleConflicts_not_Panic at1 at2 tp ts txnFn :
  (∀ ts, txnFn ts ≠ Panic) →
  handleConflicts 2 at1 tp ts (findConflicts tp (relatedObjectIDs at2 ts)) txnFn ≠ Panic.
Proof.
  intros Htx. rewrite <- (handleConflicts_fuel (length ts)).
  generalize (findConflicts tp (relatedObjectIDs at2 ts)). intros conflicts.
  assert (∀ n at_ us conflicts, (length us ≤ n)%nat → handleConflicts (S n) at_ tp us conflicts txnFn ≠ Panic) as H.
  2: { apply H. lia. }
  clear at1 at2 ts conflicts. induction n as [|n IH]; intros at_ us conflicts Hn; cbn [handleConflicts];
    destruct (Z.eqb_spec (len (filter (λ t, conflictMap tp conflicts !! Transaction_ID t = None) us)) 0) as [|Hne]; try done.
  - destruct us; [done|cbn in Hn; lia].
  - destruct (Z.ltb_spec (len (filter (λ t, conflictMap tp conflicts !! Transaction_ID t = None) us)) (len us)).
    + apply IH. unfold len in *. lia.
    + repeat (apply bind_not_Panic; [auto|intros ? _]). done.
Qed.

Lemma acceptTransactionSet_not_Panic at_ tp ts txnFn :
  (∀ ts, txnFn ts ≠ Panic) → acceptTransactionSet at_ tp ts txnFn ≠ Panic.
Proof.
  intros Htx. unfold acceptTransactionSet. destruct (len ts =? 0); [done|]. destruct (_ =? 0); [done|].
  apply bind_not_Panic; [auto|intros ? _]. apply bind_not_Panic; [auto|intros ? _].
  destruct (0 <? _); [by apply handleConflicts_not_Panic|].
  apply bind_not_Panic; [auto|done].
Qed.

(** *** What accepting does not change *)

Definition same_rest (tp tp' : TransactionPool) : Prop :=
  tp_db tp' = tp_db tp ∧ tp_subscriberSets tp' = tp_subscriberSets tp ∧ tp_subscribers tp' = tp_subscribers tp ∧
  tp_blockHeight tp' = tp_blockHeight tp ∧ tp_recentMedians tp' = tp_recentMedians tp ∧
  tp_recentMedianFee tp' = tp_recentMedianFee tp.

#[global] Instance same_rest_preorder : PreOrder same_rest.
Proof. split; [done|]. unfold same_rest. intros x y z. naive_solver congruence. Qed.

Lemma removeConflicts_rest tp cs : same_rest tp (foldl removeConflict tp cs).
Proof.
  revert tp. induction cs as [|c cs IH]; intros tp; cbn; [reflexivity|].
  transitivity (removeConflict tp c); [done|apply IH].
Qed.

Lemma handleConflicts_rest fuel at_ tp ts conflicts txnFn tp' :
  handleConflicts fuel at_ tp ts conflicts txnFn = Ok tp' → same_rest tp tp'.
Proof.
  revert at_ ts conflicts. induction fuel as [|fuel IH]; intros at_ ts conflicts H; [done|].
  cbn [handleConflicts] in H. destruct (_ =? 0); [done|]. destruct (_ <? _); [by eapply IH|].
  apply bind_Ok in H as (n & _ & H). apply bind_Ok in H as (_ & _ & H). apply bind_Ok in H as (cc & _ & [= <-]).
  etransitivity; [apply removeConflicts_rest|]. done.
Qed.

Lemma acceptTransactionSet_rest at_ tp ts txnFn tp' :
  acceptTransactionSet at_ tp ts txnFn = Ok tp' → same_rest tp tp'.
Proof.
  unfold acceptTransactionSet. intros H. destruct (len ts =? 0); [done|]. destruct (_ =? 0); [done|].
  apply bind_Ok in H as (n & _ & H). apply bind_Ok in H as (_ & _ & H).
  destruct (0 <? _); [by eapply handleConflicts_rest|].
  by apply bind_Ok in H as (cc & _ & [= <-]).
Qed.
End no_panic.

(** C32: [handleConflicts] recurses at most once, as its comment says: after the
    transactions that are already in the pool are dropped, the second round
    finds nothing more to drop.  So two rounds of fuel always reach a result,
    which more fuel does not change; it is a panic only if the consensus set
    panics. *)
Theorem handleConflicts_twice `{MO : MapOrder} `{C : Crypto} `{F : FeeCurve}
    (n : nat) (at1 at2 : list nat) (tp : TransactionPool) (ts : list Transaction)
    (txnFn : list Transaction → res ConsensusChange) :
  (∀ us, txnFn us ≠ Panic) →
  let conflicts := findConflicts tp (relatedObjectIDs at2 ts) in
  handleConflicts 2 at1 tp ts conflicts txnFn ≠ Panic ∧
  handleConflicts (2 + n) at1 tp ts conflicts txnFn = handleConflicts 2 at1 tp ts conflicts txnFn.
Proof. intros Htx. split; [by apply handleConflicts_not_Panic|apply handleConflicts_fuel]. Qed.

(** ** The blocks of a change *)

Section follow.
Context `{MO : MapOrder} `{C : Crypto} `{F : FeeCurve} `{N : Net}.

(** Undoing [bs] leads from the tip [id] to [id'], and applying them. *)
Fixpoint reverts_to (id : BlockID) (bs : list Block) (id' : BlockID) : Prop :=
  match bs with
  | [] => id = id'
  | b :: bs => Block_ID b = id ∧ reverts_to (b_ParentID b) bs id'
  end.
Fixpoint applies_to (id : BlockID) (bs : list Block) (id' : BlockID) : Prop :=
  match bs with
  | [] => id = id'
  | b :: bs => b_ParentID b = id ∧ applies_to (Block_ID b) bs id'
  end.

(** What the blocks change: all but the unconfirmed sets. *)
Definition same_sets (tp tp' : TransactionPool) : Prop :=
  tp_knownObjects tp' = tp_knownObjects tp ∧ tp_subscriberSets tp' = tp_subscriberSets tp ∧
  tp_transactionHeights tp' = tp_transactionHeights tp ∧ tp_transactionSets tp' = tp_transactionSets tp ∧
  tp_transactionSetDiffs tp' = tp_transactionSetDiffs tp ∧
  tp_transactionListSize tp' = tp_transactionListSize tp ∧ tp_subscribers tp' = tp_subscribers tp.

#[global] Instance same_sets_preorder : PreOrder same_sets.
Proof. split; [done|]. unfold same_sets. intros x y z. naive_solver congruence. Qed.

Definition confirmed (tp : TransactionPool) : gset TransactionID := pdb_ConfirmedTransactions (tp_db tp).
Definition block_ids (bs : list Block) (id : TransactionID) : Prop :=
  ∃ b t, b ∈ bs ∧ t ∈ b_Transactions b ∧ Transaction_ID t = id.

Lemma block_ids_cons b bs id :
  block_ids (b :: bs) id ↔ (∃ t, t ∈ b_Transactions b ∧ Transaction_ID t = id) ∨ block_ids bs id.
Proof.
  unfold block_ids. setoid_rewrite elem_of_cons. split.
  - intros (b' & t & [->|Hb] & Ht & E); eauto 10.
  - intros [(t & Ht & E)|(b' & t & Hb & Ht & E)]; eauto 10.
Qed.

Lemma deleteTransactions_spec txns tp :
  let tp' := foldl (λ tp txn, deleteTransaction (Transaction_ID txn) tp) tp txns in
  same_sets tp tp' ∧ tp_recentMedians tp' = tp_recentMedians tp ∧
  (∀ id, id ∈ confirmed tp' ↔ id ∈ confirmed tp ∧ ¬ ∃ t, t ∈ txns ∧ Transaction_ID t = id).
Proof.
  revert tp. induction txns as [|t txns IH]; intros tp; cbn.
  { split_and!; [done|done|]. intros id. split; [intros ?; split; [done|]; by intros (? & ?%elem_of_nil & _)|by intros [? _]]. }
  destruct (IH (deleteTransaction (Transaction_ID t) tp)) as (Hs & Hm & Hc).
  split_and!; [by etransitivity; [|exact Hs]|done|]. intros id. rewrite Hc. unfold confirmed. cbn.
  setoid_rewrite elem_of_cons. rewrite elem_of_difference, elem_of_singleton. split.
  - intros [[H1 H2] H3]. split; [done|]. intros (t' & [->|Ht'] & E); [congruence|eauto].
  - intros [H1 H2]. split; [split; [done|intros ->; eauto]|]. intros (t' & Ht' & E). eauto.
Qed.

Lemma putTransactions_spec txns tp :
  let tp' := foldl (λ tp txn, putTransaction (Transaction_ID txn) tp) tp txns in
  same_sets tp tp' ∧ tp_recentMedians tp' = tp_recentMedians tp ∧
  (∀ id, id ∈ confirmed tp' ↔ id ∈ confirmed tp ∨ ∃ t, t ∈ txns ∧ Transaction_ID t = id).
Proof.
  revert tp. induction txns as [|t txns IH]; intros tp; cbn.
  { split_and!; [done|done|]. intros id. split; [auto|]. intros [?|(? & ?%elem_of_nil & _)]; done. }
  destruct (IH (putTransaction (Transaction_ID t) tp)) as (Hs & Hm & Hc).
  split_and!; [by etransitivity; [|exact Hs]|done|]. intros id. rewrite Hc. unfold confirmed. cbn.
  setoid_rewrite elem_of_cons. rewrite elem_of_union, elem_of_singleton. split.
  - intros [[->|?]|(t' & Ht' & E)]; eauto.
  - intros [?|(t' & [->|Ht'] & E)]; eauto.
Qed.

(** The sanity check passes: it is off, or the blocks are linked. *)
Lemma revertBlocks_spec bs tp cu id' :
  cu_resetSanityCheck cu = true ∨ reverts_to (cu_recentID cu) bs id' →
  ∃ tp' cu', foldM revertBlock (tp, cu) bs = Ok (tp', cu') ∧ same_sets tp tp' ∧
    cu_resetSanityCheck cu' = cu_resetSanityCheck cu ∧
    (cu_resetSanityCheck cu = true ∨ cu_recentID cu' = id') ∧
    ∀ id, id ∈ confirmed tp' ↔ id ∈ confirmed tp ∧ ¬ block_ids bs id.
Proof.
  revert tp cu. induction bs as [|b bs IH]; intros tp [rid reset] Hcu; cbn in Hcu |- *.
  { exists tp, (mkCursor rid reset). split_and!; [done|done|done|done|]. intros id.
    split; [intros ?; split; [done|]; by intros (? & ? & ?%elem_of_nil & _)|by intros [? _]]. }
  assert (bool_decide (Block_ID b ≠ rid) && negb reset = false) as ->.
  { destruct Hcu as [->|[-> _]]; [apply andb_false_r|]. by rewrite bool_decide_eq_false_2 by (by intros []). }
  set (tp1 := if (0 <? tp_blockHeight tp) || _ then _ else tp).
  destruct (deleteTransactions_spec (b_Transactions b) tp1) as (Hs & _ & Hc).
  set (tp2 := foldl _ tp1 (b_Transactions b)) in *.
  set (tp3 := if 0 <? len (tp_recentMedians tp2) then _ else tp2). cbn [mbind res_bind].
  destruct (IH tp3 (mkCursor (b_ParentID b) reset)) as (tp' & cu' & -> & Hs' & Hr' & Hid' & Hc'); [cbn; tauto|].
  exists tp', cu'. assert (same_sets tp tp1) as H1 by (unfold tp1; by case_match).
  assert (same_sets tp2 tp3) as H3 by (unfold tp3; by case_match).
  assert (confirmed tp1 = confirmed tp) as C1 by (unfold tp1; by case_match).
  assert (confirmed tp3 = confirmed tp2) as C3 by (unfold tp3; by case_match).
  split; [done|]. split; [by rewrite H1, Hs, H3|]. split; [done|]. split; [done|].
  intros id. rewrite Hc', C3, Hc, C1, block_ids_cons. tauto.
Qed.

(** A block the fee estimator can handle. *)
Definition block_ok (b : Block) : Prop :=
  collision_free (λ t, t ∈ b_Transactions b) ∧ set_size (b_Transactions b) ≤ BlockSizeLimit.

Lemma length_trimMedians l f :
  (1 ≤ length (trimMedians (l ++ [f])) ≤ Z.to_nat blockFeeEstimationDepth)%nat.
Proof. unfold trimMedians. rewrite length_drop, length_app. cbn. unfold blockFeeEstimationDepth. lia. Qed.

Lemma applyBlocks_spec at_ bs tp cu i id' :
  Forall block_ok bs → cu_resetSanityCheck cu = true ∨ applies_to (cu_recentID cu) bs id' →
  ∃ tp' cu', foldMi (λ i, applyBlock (Z.to_nat i :: at_)) i (tp, cu) bs = Ok (tp', cu') ∧ same_sets tp tp' ∧
    cu_recentID cu' = default (cu_recentID cu) (Block_ID <$> last bs) ∧
    (tp_recentMedians tp' = tp_recentMedians tp ∨
     (1 ≤ length (tp_recentMedians tp') ≤ Z.to_nat blockFeeEstimationDepth)%nat) ∧
    (bs ≠ [] → (1 ≤ length (tp_recentMedians tp') ≤ Z.to_nat blockFeeEstimationDepth)%nat) ∧
    ∀ id, id ∈ confirmed tp' ↔ id ∈ confirmed tp ∨ block_ids bs id.
Proof.
  revert tp cu i. induction bs as [|b bs IH]; intros tp [rid reset] i Hbs Hcu.
  { exists tp, (mkCursor rid reset). cbn. split_and!; [done|done|done|by left|done|]. intros id.
    split; [auto|]. intros [?|(? & ? & ?%elem_of_nil & _)]; done. }
  apply Forall_cons in Hbs as [[Hids Hsz] Hbs]. cbn in Hcu. cbn [foldMi applyBlock cu_recentID cu_resetSanityCheck].
  assert (bool_decide (b_ParentID b ≠ rid) && negb reset = false) as ->.
  { destruct Hcu as [->|[-> _]]; [apply andb_false_r|]. by rewrite bool_decide_eq_false_2 by (by intros []). }
  set (tp1 := if (0 <? tp_blockHeight tp) || _ then _ else tp).
  destruct (putTransactions_spec (b_Transactions b) tp1) as (Hs & Hm & Hc).
  set (tp2 := foldl _ tp1 (b_Transactions b)) in *.
  destruct (blockFee_value (Z.to_nat i :: at_) (b_Transactions b) Hids Hsz) as (sets & f & _ & -> & _). cbn [mbind res_bind].
  set (tp3 := set_tp_medians _ _ tp2).
  destruct (IH tp3 (mkCursor (Block_ID b) reset) (i + 1) Hbs) as (tp' & cu' & -> & Hs' & Hid' & Hm' & _ & Hc'); [cbn; tauto|].
  exists tp', cu'. assert (same_sets tp tp1) as H1 by (unfold tp1; by case_match).
  assert (confirmed tp1 = confirmed tp) as C1 by (unfold tp1; by case_match).
  assert (1 ≤ length (tp_recentMedians tp') ≤ Z.to_nat blockFeeEstimationDepth)%nat as Hlen.
  { destruct Hm' as [->|]; [apply length_trimMedians|done]. }
  split; [done|]. split; [rewrite H1, Hs; exact Hs'|]. split_and!.
  - rewrite Hid'. cbn [cu_recentID]. rewrite last_cons. by destruct (last bs).
  - by right.
  - done.
  - intros id. rewrite Hc'. change (confirmed tp3) with (confirmed tp2). rewrite Hc, C1, block_ids_cons. tauto.
Qed.

Lemma medianOfMedians_Ok at_ l : l ≠ [] → ∃ fee, medianOfMedians at_ l = Ok fee ∧ fee ∈ l.
Proof.
  intros Hne. unfold medianOfMedians.
  assert (length (sort_Slice at_ Z.le l) = length l) as El by (by rewrite sort_Slice_perm).
  destruct (go_index_lt (sort_Slice at_ Z.le l) (len (sort_Slice at_ Z.le l) / 2)) as (fee & -> & Hfee).
  { unfold len. rewrite El. destruct l as [|x l]; [done|]. cbn [length].
    split; [apply Z.div_pos; lia|]. apply Z.div_lt_upper_bound; lia. }
  exists fee. split; [done|]. apply list_elem_of_lookup_2 in Hfee. by rewrite sort_Slice_perm in Hfee.
Qed.

(** The change continues where the pool is, or the pool does not know where it is. *)
Definition continues (tp : TransactionPool) (cc : ConsensusChange) : Prop :=
  getRecentBlockID tp = Err errNilRecentBlock ∨
  ∃ id mid tip, getRecentBlockID tp = Ok id ∧ reverts_to id (cc_RevertedBlocks cc) mid ∧
    applies_to mid (cc_AppliedBlocks cc) tip.

Lemma followBlocks_spec at_ tp cc :
  continues tp cc → cc_AppliedBlocks cc ≠ [] → Forall block_ok (cc_AppliedBlocks cc) →
  ∃ tp', followBlocks at_ tp cc = Ok tp' ∧ same_sets tp tp' ∧
    pdb_RecentConsensusChange (tp_db tp') = Some (cc_ID cc) ∧
    pdb_RecentBlockID (tp_db tp') = Block_ID <$> last (cc_AppliedBlocks cc) ∧
    ∀ id, id ∈ confirmed tp' ↔ block_ids (cc_AppliedBlocks cc) id ∨
      id ∈ confirmed tp ∧ ¬ block_ids (cc_RevertedBlocks cc) id.
Proof.
  intros Hcont Hne Hbs. unfold followBlocks.
  set (start := match getRecentBlockID tp with Ok id => (id, false) | Err e => _ | Panic => _ end).
  assert (∃ mid tip, (start.2 = true ∨ reverts_to start.1 (cc_RevertedBlocks cc) mid) ∧
    (start.2 = true ∨ applies_to mid (cc_AppliedBlocks cc) tip)) as (mid & tip & Hr & Ha).
  { unfold start. destruct Hcont as [->|(id & mid & tip & -> & ? & ?)]; cbn; [exists zeroHash, zeroHash; split; left; by apply bool_decide_eq_true_2|exists mid, tip; auto]. }
  destruct start as [recentID reset]. cbn in Hr, Ha.
  destruct (revertBlocks_spec (cc_RevertedBlocks cc) tp (mkCursor recentID reset) mid Hr)
    as (tp1 & cu1 & -> & Hs1 & Hreset & Hid & Hc1). cbn [mbind res_bind].
  destruct (applyBlocks_spec (0%nat :: at_) (cc_AppliedBlocks cc) tp1 cu1 0 tip Hbs)
    as (tp2 & cu2 & -> & Hs2 & Hid2 & _ & Hm & Hc2).
  { rewrite Hreset. cbn in Hid |- *. destruct Ha as [|Ha]; [auto|]. destruct Hid as [| ->]; auto. }
  cbn [mbind res_bind]. destruct (medianOfMedians_Ok (1%nat :: at_) (tp_recentMedians tp2)) as (fee & -> & _).
  { specialize (Hm Hne). destruct (tp_recentMedians tp2); cbn in Hm; [lia|done]. }
  cbn [mbind res_bind]. eexists. split; [reflexivity|]. cbn. split_and!.
  - rewrite Hs1, Hs2. done.
  - done.
  - rewrite Hid2. destruct (last (cc_AppliedBlocks cc)) eqn:E; [done|]. by apply last_None in E.
  - intros id. etransitivity; [apply (iff_refl (id ∈ confirmed tp2))|]. rewrite Hc2, Hc1. tauto.
Qed.
End follow.

(** ** Filling the pool again *)

Section refill.
Context `{MO : MapOrder} `{C : Crypto} `{F : FeeCurve}.
Context (txnFn : list Transaction → res ConsensusChange) (T : Transaction → Prop).
Context (Hids : collision_free T) `{!ConsensusView txnFn} (Htx : ∀ ts, txnFn ts ≠ Panic).

(** The invariant does not mention the other fields. *)
Lemma pool_ok_ext tp tp' :
  tp_knownObjects tp' = tp_knownObjects tp → tp_transactionSets tp' = tp_transactionSets tp →
  tp_transactionSetDiffs tp' = tp_transactionSetDiffs tp → tp_transactionListSize tp' = tp_transactionListSize tp →
  tp_db tp' = tp_db tp → pool_ok txnFn T tp → pool_ok txnFn T tp'.
Proof.
  intros E1 E2 E3 E4 E5 [Hset Hd Hs Hk]. split; rewrite ?E1, ?E2, ?E3, ?E4; auto.
  intros id set H. destruct (Hset id set H). split; auto.
  - by rewrite E3.
  - eapply Forall_impl; [exact so_unconfirmed|]. unfold unconfirmed, transactionConfirmed. by rewrite E5.
Qed.

(** The pool while it is filled: the invariant, and the rest as it was. *)
Definition filling (tp0 tp : TransactionPool) : Prop := pool_ok txnFn T tp ∧ same_rest tp0 tp.

Lemma readd_spec at_ forget tp0 tp txn :
  filling tp0 tp → T txn → ∃ tp', readd at_ txnFn forget tp txn = Ok tp' ∧ filling tp0 tp'.
Proof.
  intros [Hok Hrest] HT. unfold readd.
  destruct (acceptTransactionSet at_ tp [txn] txnFn) as [tp'|e|] eqn:E.
  - exists tp'. split; [done|]. split; [exact (acceptTransactionSet_ok txnFn T Hids at_ tp [txn] tp' Hok (Forall_cons_2 _ _ _ HT (Forall_nil_2 _)) E)|].
    etransitivity; [exact Hrest|]. by eapply acceptTransactionSet_rest.
  - eexists. split; [reflexivity|]. destruct forget; [|done]. split; [by apply (pool_ok_ext tp)|].
    etransitivity; [exact Hrest|]. done.
  - by apply acceptTransactionSet_not_Panic in E.
Qed.

Lemma foldMi_filling {A} (f : Z → TransactionPool → A → res TransactionPool) (Q : A → Prop) tp0 :
  (∀ i tp x, filling tp0 tp → Q x → ∃ tp', f i tp x = Ok tp' ∧ filling tp0 tp') →
  ∀ l i tp, Forall Q l → filling tp0 tp → ∃ tp', foldMi f i tp l = Ok tp' ∧ filling tp0 tp'.
Proof.
  intros Hf l. induction l as [|x l IH]; intros i tp HQ Htp; cbn; [eauto|].
  apply Forall_cons in HQ as [Hx HQ]. destruct (Hf i tp x Htp Hx) as (tp1 & -> & H1). cbn. by apply IH.
Qed.

Lemma pruneTxns_spec tSet tp acc :
  let r := foldl pruneTxn (tp, acc) tSet in
  (∃ h, r.1 = set_tp_heights h tp) ∧ ∀ t, t ∈ r.2 → t ∈ acc ∨ t ∈ tSet.
Proof.
  revert tp acc. induction tSet as [|t tSet IH]; intros tp acc; cbn [foldl].
  { split; [exists (tp_transactionHeights tp); by destruct tp|auto]. }
  unfold pruneTxn at 2 4. cbn zeta. destruct (_ || _).
  - destruct (IH tp (acc ++ [t])) as (Hh & Hin). split; [done|]. intros x Hx. apply Hin in Hx. set_solver.
  - destruct (IH (set_tp_heights (delete (Transaction_ID t) (tp_transactionHeights tp)) tp) acc) as ([h Hh] & Hin).
    split; [by exists h|]. intros x Hx. apply Hin in Hx. set_solver.
Qed.

Lemma pruneSets_spec sets tp acc :
  let r := foldl pruneSet (tp, acc) sets in
  (∃ h, r.1 = set_tp_heights h tp) ∧ (Forall (Forall T) acc → Forall (Forall T) sets → Forall (Forall T) r.2).
Proof.
  revert tp acc. induction sets as [|tSet sets IH]; intros tp acc; cbn [foldl].
  { split; [exists (tp_transactionHeights tp); by destruct tp|auto]. }
  unfold pruneSet at 2 4. cbn [fst snd]. destruct (pruneTxns_spec tSet tp []) as ([h Hh] & Hin).
  destruct (foldl pruneTxn (tp, []) tSet) as [tp1 valid]. cbn in Hh, Hin. subst tp1.
  destruct (IH (set_tp_heights h tp) (acc ++ [valid])) as ([h' Hh'] & HT). split; [by exists h'|].
  intros Hacc [Ht Hsets]%Forall_cons. apply HT; [|done]. apply Forall_app. split; [done|]. repeat constructor.
  rewrite Forall_forall in Ht |- *. intros t [?%elem_of_nil|?]%Hin; [done|auto].
Qed.

Lemma refill_spec at_ tp cc :
  (∀ id set, tp_transactionSets tp !! id = Some set → Forall T set) →
  Forall (λ b, Forall T (b_Transactions b)) (cc_RevertedBlocks cc) →
  ∃ tp', refill at_ tp cc txnFn = Ok tp' ∧ filling tp tp'.
Proof.
  intros Hsets Hrev. unfold refill. cbn zeta.
  set (txids := list_to_set _ : gset TransactionID).
  set (uns := map _ (range _ _)).
  assert (Forall (Forall T) uns) as Huns.
  { apply Forall_forall. intros s [[id set] [-> Hin%elem_of_range]]%list_elem_of_fmap.
    apply Forall_list_filter. by eapply Hsets. }
  destruct (pruneSets_spec uns (purge tp) []) as ([h Hh] & HT).
  specialize (HT (Forall_nil_2 _) Huns). destruct (foldl pruneSet (purge tp, []) uns) as [tp1 sets]. cbn in Hh, HT. subst tp1.
  assert (filling tp (set_tp_heights h (purge tp))) as H0.
  { split; [eapply pool_ok_ext; [..|apply (pool_ok_purge txnFn T tp)]; done|done]. }
  destruct (foldMi_filling (λ i tp block, foldMi (λ j tp txn,
         if decide (Transaction_ID txn ∈ txids) then Ok tp
         else readd (Z.to_nat j :: Z.to_nat i :: 1%nat :: at_) txnFn false tp txn)
         0 tp (b_Transactions block)) (λ b, Forall T (b_Transactions b)) tp) with (l := rev (cc_RevertedBlocks cc)) (i := 0)
    (tp := set_tp_heights h (purge tp)) as (tp2 & -> & H2).
  - intros i tp' b Hf Hb. apply (foldMi_filling _ T); [|done|done]. intros j tp'' x Hf' Hx.
    case_decide; [eauto|]. by apply readd_spec.
  - by apply Forall_rev.
  - done.
  - cbn [mbind res_bind]. apply (foldMi_filling _ (Forall T)); [|done|done].
    intros i tp' set Hf Hset. apply (foldMi_filling _ T); [|done|done]. intros j tp'' x Hf' Hx. by apply readd_spec.
Qed.
End refill.

(** ** Theorems *)

Lemma updateSubscribers_rest `{MO : MapOrder} `{C : Crypto} at_ tp :
  ∃ subs, (updateSubscribersTransactions at_ tp).1 = set_tp_subscriberSets subs tp.
Proof. unfold updateSubscribersTransactions. case_match. by eexists. Qed.

(** C5: Processing a consensus change.  If the change continues from the block
    the pool has recorded (or none is recorded), applies at least one block and
    the consensus set does not panic, then [ProcessConsensusChange] returns: no
    sanity check, index or division fails.  Afterwards the pool satisfies its
    invariant for the new consensus set, whatever was in it before; the change
    and its last block are recorded; the confirmed transactions are those of
    the applied blocks and the earlier ones that were not reverted; and none of
    the transactions of the applied blocks is still in the pool. *)
Theorem ProcessConsensusChange_sound `{MO : MapOrder} `{C : Crypto} `{F : FeeCurve} `{N : Net}
    (txnFn : list Transaction → res ConsensusChange) (T : Transaction → Prop)
    (at_ : list nat) (tp : TransactionPool) (cc : ConsensusChange) :
  collision_free T → ConsensusView txnFn → (∀ us, txnFn us ≠ Panic) →
  continues tp cc → cc_AppliedBlocks cc ≠ [] → Forall block_ok (cc_AppliedBlocks cc) →
  (∀ id set, tp_transactionSets tp !! id = Some set → Forall T set) →
  Forall (λ b, Forall T (b_Transactions b)) (cc_RevertedBlocks cc) →
  ∃ tp' diff, ProcessConsensusChange at_ tp cc txnFn = Ok (tp', diff) ∧ pool_ok txnFn T tp' ∧
    pdb_RecentBlockID (tp_db tp') = Block_ID <$> last (cc_AppliedBlocks cc) ∧
    pdb_RecentConsensusChange (tp_db tp') = Some (cc_ID cc) ∧
    (∀ id, id ∈ confirmed tp' ↔ block_ids (cc_AppliedBlocks cc) id ∨
      id ∈ confirmed tp ∧ ¬ block_ids (cc_RevertedBlocks cc) id) ∧
    (∀ t, in_pool tp' t → ¬ block_ids (cc_AppliedBlocks cc) (Transaction_ID t)).
Proof.
  intros Hids Hview Htx Hcont Hne Hbs HT Hrev. unfold ProcessConsensusChange.
  destruct (followBlocks_spec (0%nat :: at_) tp cc Hcont Hne Hbs) as (tp1 & -> & Hs & Hcc & Hid & Hconf).
  cbn [mbind res_bind]. destruct (refill_spec txnFn T Hids Htx (1%nat :: at_) tp1 cc) as (tp2 & -> & Hok & Hdb & _).
  { destruct Hs as (_ & _ & _ & -> & _). exact HT. } { exact Hrev. }
  cbn [mbind res_bind]. destruct (updateSubscribers_rest (2%nat :: at_) tp2) as [subs Hsubs].
  destruct (updateSubscribersTransactions (2%nat :: at_) tp2) as [tp3 diff]. cbn in Hsubs. subst tp3.
  exists (set_tp_subscriberSets subs tp2), diff. split; [done|].
  assert (pool_ok txnFn T (set_tp_subscriberSets subs tp2)) as Hok3 by (by apply (pool_ok_ext txnFn T tp2)).
  assert (∀ id, id ∈ confirmed (set_tp_subscriberSets subs tp2) ↔ block_ids (cc_AppliedBlocks cc) id ∨
      id ∈ confirmed tp ∧ ¬ block_ids (cc_RevertedBlocks cc) id) as Hconf3.
  { intros id. rewrite <- Hconf. unfold confirmed. cbn. by rewrite Hdb. }
  split; [done|]. split; [cbn; by rewrite Hdb|]. split; [cbn; by rewrite Hdb|]. split; [done|].
  intros t (id & set & Hset & Ht) Hb. pose proof (so_unconfirmed _ _ _ _ _ (po_set _ _ _ Hok3 _ _ Hset)) as Hun.
  rewrite Forall_forall in Hun. specialize (Hun t Ht). unfold unconfirmed, transactionConfirmed in Hun.
  apply bool_decide_eq_false in Hun. apply Hun, (proj2 (Hconf3 _)). by left.
Qed.

(** C28: The fee recorded for a block that fits the size limit is the fee per
    byte [f] at the first quarter of the block's space, in ascending order of fee:
    the sets of dependent transactions that pay less than [f], and the unused
    space if [f] is not zero, take at most a quarter of the limit, and with those
    that pay [f] they take more.  This holds however the sets and the ties were
    ordered, and the scan always finds such an entry. *)
Theorem blockFee_first_quarter `{MO : MapOrder} `{C : Crypto} (at_ : list nat) (ts : list Transaction) :
  collision_free (λ t, t ∈ ts) → set_size ts ≤ BlockSizeLimit →
  ∃ sets f, findSets (0%nat :: at_) ts = Ok sets ∧ blockFee at_ ts = Ok (Some f) ∧
    let fees := summaries sets ++ [mkFS 0 (BlockSizeLimit - set_size ts)] in
    space_below f fees ≤ BlockSizeLimit / 4 < space_upto f fees.
Proof. apply blockFee_value. Qed.

(** ** The concrete pool, one block later *)

Module example_update.
Import example_pool.

(** The block of [BlockDiffs.example] confirms [tA]. *)
Definition cc : ConsensusChange :=
  mkCC (example.key x77) [] [example.block] [] [] [] [] [] zeroHash 0 false.
Definition newDB : DB := example.result.1.
Definition txnFn' (ts : list Transaction) : res ConsensusChange :=
  match tryTransactionSet newDB ts with Panic => Err ErrOther | r => r end.
#[export] Instance txnFn'_view : ConsensusView txnFn'.
Proof.
  split. intros ts cc' H. unfold txnFn' in H. apply (cv_objects (txnFn := tryTransactionSet newDB)).
  by destruct (tryTransactionSet newDB ts).
Qed.
Lemma txnFn'_total us : txnFn' us ≠ Panic.
Proof. unfold txnFn'. by destruct (tryTransactionSet newDB us). Qed.

Definition pool : TransactionPool := putRecentBlockID example.parentID pool3.

Lemma pool_T id set : tp_transactionSets pool !! id = Some set → Forall T set.
Proof.
  intros H. assert (map_Forall (λ _ set, Forall (λ t, t ∈ [tA; tB; tC]) set) (tp_transactionSets pool)) as Hall by vm_decide.
  exact (Hall id set H).
Qed.

Lemma block_is_ok : Forall block_ok [example.block].
Proof.
  constructor; [|constructor]. split; [|vm_compute; discriminate]. intros t t' Ht Ht' _.
  apply list_elem_of_singleton in Ht as ->, Ht' as ->. done.
Qed.

Lemma linked : continues pool cc.
Proof. right. exists example.parentID, example.parentID, (Block_ID example.block). by split_and!. Qed.

(** [tB] and [tC] are still there, now in two sets of their own. *)
Lemma two_sets :
  match ProcessConsensusChange (N := example.net) [] pool cc txnFn' with
  | Ok (tp', _) => size (tp_transactionSets tp') = 2%nat
  | _ => False
  end.
Proof. vm_compute. reflexivity. Qed.
End example_update.

Lemma handleConflicts_twice_witness :
  handleConflicts (MO := inOrder) (F := example_pool.cubic) 2 [] example_pool.pool2 [example_pool.tC]
    (findConflicts example_pool.pool2 (relatedObjectIDs (MO := inOrder) [] [example_pool.tC])) example_update.txnFn' ≠ Panic.
Proof.
  exact (proj1 (handleConflicts_twice (MO := inOrder) (F := example_pool.cubic) 5 [] [] example_pool.pool2 [example_pool.tC]
    example_update.txnFn' example_update.txnFn'_total)).
Defined.

Lemma ProcessConsensusChange_sound_witness :
  ∃ tp' diff, ProcessConsensusChange (MO := inOrder) (F := example_pool.cubic) (N := example.net) []
      example_update.pool example_update.cc example_update.txnFn' = Ok (tp', diff) ∧
    pool_ok example_update.txnFn' example_pool.T tp' ∧
    size (tp_transactionSets tp') = 2%nat.
Proof.
  destruct (ProcessConsensusChange_sound (MO := inOrder) (F := example_pool.cubic) (N := example.net)
    example_update.txnFn' example_pool.T [] example_update.pool example_update.cc example_pool.pool_ids example_update.txnFn'_view
    example_update.txnFn'_total example_update.linked ltac:(discriminate) example_update.block_is_ok
    example_update.pool_T (Forall_nil_2 _)) as (tp' & diff & H1 & H2 & _).
  exists tp', diff. split; [exact H1|]. split; [exact H2|]. pose proof example_update.two_sets as E.
  rewrite H1 in E. exact E.
Defined.

Lemma blockFee_first_quarter_witness :
  ∃ f, blockFee (MO := inOrder) [] [example_pool.tA] = Ok (Some f).
Proof.
  destruct (blockFee_first_quarter (MO := inOrder) [] [example_pool.tA]) as (sets & f & _ & H & _).
  - intros t t' Ht Ht' _. apply list_elem_of_singleton in Ht as ->, Ht' as ->. done.
  - vm_compute. discriminate.
  - exists f. exact H.
Defined.
