(* ===== verification/PoolOrder.v ===== *)
(** * The pool can be mined

    [TransactionList] promises its transactions "in an order that can acceptably
    be put into a block".  The pool only checks every set on its own; the
    theorem shows that this is enough: sets that touch no common object do not
    disturb each other, so their concatenation, in any order, is valid.

    The proof is a simulation: [agree P] relates two databases that show the same
    outputs and contracts at the ids in [P] (siafund outputs up to the claim
    start, which depends on the siafund pool); a transaction whose objects are
    in [P] is valid in one when it is in the other, and applying it keeps the
    relation and does not touch the other ids. *)

From S2P Require Import Prelude Encoding Currency Target Crypto Types Codec Block Signatures ValidTransaction ConsensusDB ConsensusValid MapDiffs Diffs ApplyTransaction BlockDiffs Changelog MapRange Standard FindSets TransactionPool PoolInvariant.

(** What validity looks at in a siafund output. *)
Definition sfo_core (sfo : SiafundOutput) : Currency * UnlockHash := (sfo_Value sfo, sfo_UnlockHash sfo).

Record agree (P : ObjectID → Prop) (a b : DB) : Prop := {
  ag_height : db_BlockHeight a = db_BlockHeight b;
  ag_path : db_BlockPath a = db_BlockPath b;
  ag_sco : ∀ id, P id → db_SiacoinOutputs a !! id = db_SiacoinOutputs b !! id;
  ag_fc : ∀ id, P id → db_FileContracts a !! id = db_FileContracts b !! id;
  ag_sfo : ∀ id, P id → sfo_core <$> db_SiafundOutputs a !! id = sfo_core <$> db_SiafundOutputs b !! id;
}.

(** Every open contract is listed under its window end. *)
Definition indexed (db : DB) : Prop :=
  ∀ id fc, db_FileContracts db !! id = Some fc → ∃ s, db_FCEX db !! fc_WindowEnd fc = Some s ∧ id ∈ s.

Lemma agree_refl P a : agree P a a.
Proof. by split. Qed.

Lemma agree_trans P a b c : agree P a b → agree P b c → agree P a c.
Proof.
  intros H1 H2. split.
  - etrans; [apply H1|apply H2].
  - etrans; [apply H1|apply H2].
  - intros id Hid. etrans; [by apply H1|by apply H2].
  - intros id Hid. etrans; [by apply H1|by apply H2].
  - intros id Hid. etrans; [by apply H1|by apply H2].
Qed.

Lemma agree_weaken (P Q : ObjectID → Prop) a b : (∀ id, Q id → P id) → agree P a b → agree Q a b.
Proof. intros HPQ []. split; auto. Qed.

Lemma fcex_ok_indexed db : fcex_ok (db_FileContracts db) (db_FCEX db) → indexed db.
Proof. intros H id fc Hfc. destruct (fcex_ok_remove _ _ _ _ H Hfc) as (b & Hb & Hin & _). eauto. Qed.

(** ** Validity *)

Lemma foldM_ext {A S} (f g : S → A → res S) s l :
  (∀ s x, x ∈ l → f s x = g s x) → foldM f s l = foldM g s l.
Proof.
  revert s. induction l as [|x l IH]; intros s H; cbn; [done|]. rewrite H by (by left).
  destruct (g s x); cbn; [|done..]. apply IH. intros s' y Hy. apply H. by right.
Qed.

Section validity.
Context `{N : Net} `{C : Crypto}.
Context (P : ObjectID → Prop) (a b : DB) (Hag : agree P a b).

Lemma validSiacoins_agree t :
  (∀ sci, sci ∈ t_SiacoinInputs t → P (sci_ParentID sci)) → validSiacoins a t = validSiacoins b t.
Proof.
  intros HP. unfold validSiacoins. f_equal. apply foldM_ext.
  intros s sci Hin. cbn beta. by rewrite (ag_sco _ _ _ Hag) by auto.
Qed.

Lemma getFileContract_agree id : P id → getFileContract a id = getFileContract b id.
Proof. intros HP. unfold getFileContract. by rewrite (ag_fc _ _ _ Hag). Qed.

Lemma storageProofSegment_agree id : P id → storageProofSegment a id = storageProofSegment b id.
Proof.
  intros HP. unfold storageProofSegment, blockHeight.
  by rewrite (ag_fc _ _ _ Hag), (ag_height _ _ _ Hag), (ag_path _ _ _ Hag).
Qed.

Lemma validStorageProofs_agree t :
  (∀ sp, sp ∈ t_StorageProofs t → P (sp_ParentID sp)) → validStorageProofs a t = validStorageProofs b t.
Proof.
  intros HP. unfold validStorageProofs, validStorageProofs100e3, checkM, blockHeight.
  rewrite (ag_height _ _ _ Hag). destruct (_ || _); apply foldM_ext; intros s sp Hin; cbn beta;
    by rewrite storageProofSegment_agree, getFileContract_agree by auto.
Qed.

Lemma validFileContractRevisions_agree t :
  (∀ fcr, fcr ∈ t_FileContractRevisions t → P (fcr_ParentID fcr)) →
  validFileContractRevisions a t = validFileContractRevisions b t.
Proof.
  intros HP. unfold validFileContractRevisions, checkM, blockHeight. rewrite (ag_height _ _ _ Hag).
  apply foldM_ext. intros s fcr Hin. cbn beta. by rewrite getFileContract_agree by auto.
Qed.

(** The two siafund outputs at an id, as read. *)
Lemma getSiafundOutput_agree id :
  P id →
  match getSiafundOutput a id, getSiafundOutput b id with
  | Ok x, Ok y => sfo_core x = sfo_core y
  | Err e, Err e' => e = e'
  | Panic, Panic => True
  | _, _ => False
  end.
Proof.
  intros HP. unfold getSiafundOutput, blockHeight. pose proof (ag_sfo _ _ _ Hag id HP) as Hs.
  rewrite (ag_height _ _ _ Hag).
  destruct (db_SiafundOutputs a !! id) as [x|], (db_SiafundOutputs b !! id) as [y|]; cbn in Hs; try done.
  injection Hs as Hv Hu. destruct (go_index _ _) as [g| |]; cbn [mbind res_bind]; [|done..].
  rewrite Hu. destruct (_ && _); unfold sfo_core; cbn; congruence.
Qed.

Lemma validSiafunds_agree t :
  (∀ sfi, sfi ∈ t_SiafundInputs t → P (sfi_ParentID sfi)) → validSiafunds a t = validSiafunds b t.
Proof.
  intros HP. unfold validSiafunds. f_equal. apply foldM_ext.
  intros s sfi Hin. cbn beta. pose proof (getSiafundOutput_agree _ (HP _ Hin)) as H.
  destruct (getSiafundOutput a _) as [x| |], (getSiafundOutput b _) as [y| |]; try done; cbn [mbind res_bind].
  - injection H as -> ->. done.
  - by rewrite H.
Qed.

Lemma validTransaction_agree t :
  (∀ oid, oid ∈ transactionObjects t → P oid) → validTransaction a t = validTransaction b t.
Proof.
  intros HP. unfold validTransaction, blockHeight. rewrite (ag_height _ _ _ Hag).
  rewrite validSiacoins_agree, validStorageProofs_agree, validFileContractRevisions_agree, validSiafunds_agree;
    [done|..]; intros x Hx; apply HP; unfold transactionObjects; rewrite !elem_of_app;
    [do 5 right; left|do 3 right; left|do 4 right; left|left]; by apply list_elem_of_fmap_2.
Qed.
End validity.

(** ** Applying *)

Section simulation.
Context `{N : Net} `{C : Crypto}.
Context (P : ObjectID → Prop).

(** There is a bucket for the delayed outputs. *)
Definition has_bucket (s : State) : Prop := is_Some (db_DSCO s.1 !! u64 (pb_Height s.2 + MaturityDelay)).

Record sim (st s : State) : Prop := {
  sim_agree : agree P st.1 s.1;
  sim_indexed : indexed s.1;
  sim_bucket : has_bucket s;
}.

Lemma foldM_sim {A} (f : State → A → res State) l :
  (∀ x st s st1, x ∈ l → sim st s → f st x = Ok st1 → ∃ s1, f s x = Ok s1 ∧ sim st1 s1) →
  ∀ st s st1, sim st s → foldM f st l = Ok st1 → ∃ s1, foldM f s l = Ok s1 ∧ sim st1 s1.
Proof.
  induction l as [|x l IH]; intros Hf st s st1 Hs H; cbn in *; [injection H as <-; eauto|].
  apply bind_Ok in H as (st0 & H0 & H). destruct (Hf x st s st0 ltac:(by left) Hs H0) as (s0 & -> & Hs0). cbn.
  eapply IH; [|exact Hs0|exact H]. intros y ? ? ? Hy. apply Hf. by right.
Qed.

Lemma foldMi_sim {A} (f : Z → State → A → res State) l :
  ∀ i, (∀ k x st s st1, l !! k = Some x → sim st s → f (i + Z.of_nat k) st x = Ok st1 →
    ∃ s1, f (i + Z.of_nat k) s x = Ok s1 ∧ sim st1 s1) →
  ∀ st s st1, sim st s → foldMi f i st l = Ok st1 → ∃ s1, foldMi f i s l = Ok s1 ∧ sim st1 s1.
Proof.
  induction l as [|x l IH]; intros i Hf st s st1 Hs H; cbn in *; [injection H as <-; eauto|].
  apply bind_Ok in H as (st0 & H0 & H). specialize (Hf 0%nat x st s st0 eq_refl Hs) as H1.
  rewrite Z.add_0_r in H1. destruct (H1 H0) as (s0 & -> & Hs0). cbn.
  eapply IH; [|exact Hs0|exact H]. intros k y ? ? ? Hk. specialize (Hf (S k) y).
  replace (i + 1 + Z.of_nat k) with (i + Z.of_nat (S k)) by lia. by apply Hf.
Qed.

Lemma sim_sco st s d : sim st s → sim (recordSiacoinOutputDiff st d) (recordSiacoinOutputDiff s d).
Proof.
  destruct st as [a pa], s as [b pb]. intros [[] Hi Hh]. unfold recordSiacoinOutputDiff, commitSiacoinOutputDiff.
  destruct (Bool.eqb _ _); split; try done; split; try done; cbn; intros id Hid.
  - destruct (decide (id = scod_ID d)) as [->|]; [by rewrite !lookup_insert_eq|]. rewrite !lookup_insert_ne by done. auto.
  - destruct (decide (id = scod_ID d)) as [->|]; [by rewrite !lookup_delete_eq|]. rewrite !lookup_delete_ne by done. auto.
Qed.

Lemma sim_sfo st s d d' :
  sim st s → sfod_Direction d = sfod_Direction d' → sfod_ID d = sfod_ID d' →
  (sfod_Direction d = true → sfo_core (sfod_SiafundOutput d) = sfo_core (sfod_SiafundOutput d')) →
  sim (recordSiafundOutputDiff st d) (recordSiafundOutputDiff s d').
Proof.
  destruct st as [a pa], s as [b pb]. intros [[] Hi Hh] Ed Eid Hc.
  unfold recordSiafundOutputDiff, commitSiafundOutputDiff, DiffApply. rewrite <- Ed, <- Eid.
  destruct (sfod_Direction d); cbn [Bool.eqb]; split; try done; split; try done; cbn; intros id Hid.
  - destruct (decide (id = sfod_ID d)) as [->|].
    + rewrite !lookup_insert_eq. cbn. f_equal. auto.
    + rewrite !lookup_insert_ne by done. auto.
  - destruct (decide (id = sfod_ID d)) as [->|]; [by rewrite !lookup_delete_eq|]. rewrite !lookup_delete_ne by done. auto.
Qed.

Lemma sim_pool st s d d' : sim st s → sim (recordSiafundPoolDiff st d) (recordSiafundPoolDiff s d').
Proof. destruct st as [a pa], s as [b pb]. intros [[] Hi Hh]. split; try done; split; done. Qed.

Lemma sim_dsco st s d d' st1 :
  sim st s → recordDelayedSiacoinOutputDiff st d = Ok st1 →
  dscod_Direction d' = true → dscod_MaturityHeight d' = u64 (pb_Height s.2 + MaturityDelay) →
  ∃ s1, recordDelayedSiacoinOutputDiff s d' = Ok s1 ∧ sim st1 s1.
Proof.
  destruct st as [a pa], s as [b pb]. intros [Hag Hi [bb Hb]] H E Em. cbn in Hag, Hi, Hb, Em.
  assert (agree P a st1.1) as Ha.
  { unfold recordDelayedSiacoinOutputDiff, commitDelayedSiacoinOutputDiff, addDSCO, removeDSCO in H.
    destruct (Bool.eqb _ _), (db_DSCO a !! _); try done; injection H as <-; by split. }
  unfold recordDelayedSiacoinOutputDiff, commitDelayedSiacoinOutputDiff, DiffApply, addDSCO. rewrite E. cbn [Bool.eqb].
  rewrite Em, Hb. cbn. eexists. split; [reflexivity|]. split; cbn.
  - apply (agree_trans _ _ a); [|apply (agree_trans _ _ b); [done|by split]]. destruct Ha. split; auto.
    + intros id Hid. symmetry. auto. + intros id Hid. symmetry. auto. + intros id Hid. symmetry. auto.
  - done.
  - unfold has_bucket. cbn. rewrite lookup_insert_eq. eauto.
Qed.

Lemma indexed_add db id fc : indexed db → indexed (addFileContract db id fc).
Proof.
  intros Hi id' fc'. unfold addFileContract. cbn. rewrite lookup_insert_Some. intros [[<- <-]|[Hne H]].
  - rewrite lookup_insert_eq. eexists. split; [done|]. set_solver.
  - destruct (Hi id' fc' H) as (s & Hs & Hin). destruct (decide (fc_WindowEnd fc = fc_WindowEnd fc')) as [E|].
    + rewrite E, lookup_insert_eq, Hs. cbn. eexists. split; [done|]. set_solver.
    + rewrite lookup_insert_ne by done. eauto.
Qed.

Lemma indexed_remove db id db' : indexed db → removeFileContract db id = Ok db' → indexed db'.
Proof.
  intros Hi. unfold removeFileContract. destruct (db_FileContracts db !! id) as [fc|] eqn:Efc; [|done]. cbn.
  destruct (db_FCEX db !! fc_WindowEnd fc) as [s|] eqn:Es; [|done]. case_decide as Hin; [|done]. intros [= <-].
  intros id' fc'. cbn. intros [Hne H]%lookup_delete_Some. destruct (Hi id' fc' H) as (s' & Hs' & Hin').
  destruct (decide (fc_WindowEnd fc = fc_WindowEnd fc')) as [E|].
  - rewrite E, lookup_insert_eq. eexists. split; [done|]. rewrite E, Hs' in Es. injection Es as ->. set_solver.
  - rewrite lookup_insert_ne by done. eauto.
Qed.

Lemma sim_fc st s d st1 :
  sim st s → recordFileContractDiff st d = Ok st1 → P (fcd_ID d) →
  ∃ s1, recordFileContractDiff s d = Ok s1 ∧ sim st1 s1.
Proof.
  destruct st as [a pa], s as [b pb]. intros [Hag Hi Hh]. cbn in Hag, Hi, Hh.
  unfold recordFileContractDiff, commitFileContractDiff. intros H HP. destruct (Bool.eqb _ _).
  - cbn in H |- *. injection H as <-. eexists. split; [reflexivity|]. split; [|by apply indexed_add|done].
    destruct Hag. split; try done; cbn; intros id Hid.
    destruct (decide (id = fcd_ID d)) as [->|]; [by rewrite !lookup_insert_eq|]. rewrite !lookup_insert_ne by done. auto.
  - apply bind_Ok in H as (a1 & Ha & [= <-]). pose proof Ha as Ha'. unfold removeFileContract in Ha.
    destruct (db_FileContracts a !! fcd_ID d) as [fc|] eqn:Ea; [|done].
    assert (db_FileContracts b !! fcd_ID d = Some fc) as Eb by (by rewrite <- (ag_fc _ _ _ Hag)).
    destruct (Hi _ _ Eb) as (sb & Hsb & Hinb).
    assert (removeFileContract b (fcd_ID d) = Ok (set_db_FCEX (<[fc_WindowEnd fc := sb ∖ {[fcd_ID d]}]> (db_FCEX b))
      (set_db_FileContracts (delete (fcd_ID d) (db_FileContracts b)) b))) as Hb.
    { unfold removeFileContract. rewrite Eb. cbn. rewrite Hsb. by rewrite decide_True. }
    rewrite Hb. cbn [mbind res_bind]. eexists. split; [reflexivity|].
    cbn in Ha. destruct (db_FCEX a !! fc_WindowEnd fc) as [sa|]; [|done]. case_decide; [|done]. injection Ha as <-.
    split; [|by eapply indexed_remove|done]. destruct Hag. split; try done; cbn; intros id Hid.
    destruct (decide (id = fcd_ID d)) as [->|]; [by rewrite !lookup_delete_eq|]. rewrite !lookup_delete_ne by done. auto.
Qed.

Lemma getSiacoinOutput_agree a b id : agree P a b → P id → getSiacoinOutput a id = getSiacoinOutput b id.
Proof. intros Hag HP. unfold getSiacoinOutput. by rewrite (ag_sco _ _ _ Hag). Qed.

Lemma applySiacoinInputs_sim t st s st1 :
  (∀ x, x ∈ t_SiacoinInputs t → P (sci_ParentID x)) → sim st s → applySiacoinInputs st t = Ok st1 →
  ∃ s1, applySiacoinInputs s t = Ok s1 ∧ sim st1 s1.
Proof.
  intros HP. apply foldM_sim. intros x st0 s0 st2 Hx Hs H.
  rewrite <- (getSiacoinOutput_agree st0.1 s0.1) by (auto; apply Hs).
  apply bind_Ok in H as (sco & -> & [= <-]). cbn. eexists. split; [reflexivity|]. by apply sim_sco.
Qed.

Lemma applySiacoinOutputs_sim t st s st1 :
  sim st s → applySiacoinOutputs st t = Ok st1 → ∃ s1, applySiacoinOutputs s t = Ok s1 ∧ sim st1 s1.
Proof.
  apply foldMi_sim. intros k x st0 s0 st2 _ Hs [= <-]. eexists. split; [reflexivity|]. by apply sim_sco.
Qed.

Lemma applyFileContracts_sim t st s st1 :
  (∀ k, is_Some (t_FileContracts t !! k) → P (Transaction_FileContractID t (Z.of_nat k))) →
  sim st s → applyFileContracts st t = Ok st1 → ∃ s1, applyFileContracts s t = Ok s1 ∧ sim st1 s1.
Proof.
  intros HP. apply foldMi_sim. intros k x st0 s0 st2 Hk Hs H. cbn zeta in H |- *.
  apply bind_Ok in H as (st3 & H3 & H).
  destruct (sim_fc st0 s0 (mkFCD DiffApply (Transaction_FileContractID t (0 + Z.of_nat k)) x) st3 Hs H3 (HP k (ex_intro _ x Hk))) as (s3 & -> & Hs3).
  cbn [mbind res_bind].
  rewrite Tax_value in H |- *. cbn [mbind res_bind] in H |- *. injection H as <-.
  eexists. split; [reflexivity|]. by apply sim_pool.
Qed.

Lemma applyFileContractRevisions_sim t st s st1 :
  (∀ x, x ∈ t_FileContractRevisions t → P (fcr_ParentID x)) → sim st s → applyFileContractRevisions st t = Ok st1 →
  ∃ s1, applyFileContractRevisions s t = Ok s1 ∧ sim st1 s1.
Proof.
  intros HP. apply foldM_sim. intros x st0 s0 st2 Hx Hs H.
  rewrite <- (getFileContract_agree P st0.1 s0.1) by (auto; apply Hs).
  apply bind_Ok in H as (fc & -> & H). apply bind_Ok in H as (st3 & H3 & H). cbn [mbind res_bind].
  destruct (sim_fc _ _ _ _ Hs H3 (HP _ Hx)) as (s3 & -> & Hs3). cbn [mbind res_bind].
  by destruct (sim_fc _ _ _ _ Hs3 H (HP _ Hx)) as (s4 & -> & Hs4); eauto.
Qed.

Lemma applyStorageProofs_sim t st s st1 :
  (∀ x, x ∈ t_StorageProofs t → P (sp_ParentID x)) → sim st s → applyStorageProofs st t = Ok st1 →
  ∃ s1, applyStorageProofs s t = Ok s1 ∧ sim st1 s1.
Proof.
  intros HP. apply foldM_sim. intros x st0 s0 st2 Hx Hs H.
  rewrite <- (getFileContract_agree P st0.1 s0.1) by (auto; apply Hs).
  apply bind_Ok in H as (fc & -> & H). apply bind_Ok in H as (st3 & H3 & H). cbn [mbind res_bind].
  match type of H3 with foldMi ?f _ _ ?l = _ => destruct (foldMi_sim f l 0) with (st := st0) (s := s0) (st1 := st3) as (s3 & E3 & Hs3) end.
  - intros k y st4 s4 st5 _ Hs4. cbn zeta. intros H5. by apply (sim_dsco _ _ _ _ _ Hs4 H5).
  - done.
  - done.
  - cbn zeta in E3 |- *. rewrite E3. cbn [mbind res_bind]. exact (sim_fc _ _ _ _ Hs3 H (HP _ Hx)).
Qed.

Lemma applySiafundInputs_sim t st s st1 :
  (∀ x, x ∈ t_SiafundInputs t → P (sfi_ParentID x)) → sim st s → applySiafundInputs st t = Ok st1 →
  ∃ s1, applySiafundInputs s t = Ok s1 ∧ sim st1 s1.
Proof.
  intros HP. apply foldM_sim. intros x st0 s0 st2 Hx Hs H.
  pose proof (getSiafundOutput_agree P st0.1 s0.1 (sim_agree _ _ Hs) _ (HP _ Hx)) as Hg.
  assert (∃ y, or_zero zeroSiafundOutput (getSiafundOutput s0.1 (sfi_ParentID x)) = Ok y) as [y Hy].
  { apply bind_Ok in H as (z & Hz & _). unfold or_zero in *.
    destruct (getSiafundOutput st0.1 _), (getSiafundOutput s0.1 _); try done; eauto. }
  rewrite Hy. apply bind_Ok in H as (z & _ & H). cbn [mbind res_bind].
  unfold Currency_Div in H |- *. change (SiafundCount =? 0) with false in *. cbn iota zeta in H |- *. cbn [mbind res_bind] in H |- *.
  apply bind_Ok in H as (st3 & H3 & [= <-]).
  match goal with |- context [recordDelayedSiacoinOutputDiff s0 ?d'] =>
    destruct (sim_dsco _ _ _ d' _ Hs H3 eq_refl eq_refl) as (s3 & -> & Hs3) end.
  cbn [mbind res_bind]. eexists. split; [reflexivity|]. by apply sim_sfo.
Qed.

Lemma applySiafundOutputs_sim t st s st1 :
  sim st s → applySiafundOutputs st t = Ok st1 → ∃ s1, applySiafundOutputs s t = Ok s1 ∧ sim st1 s1.
Proof.
  apply foldMi_sim. intros k x st0 s0 st2 _ Hs [= <-]. eexists. split; [reflexivity|]. by apply sim_sfo.
Qed.

Lemma applyTransaction_sim t st s st1 :
  (∀ oid, oid ∈ transactionObjects t → P oid) → sim st s → applyTransaction st t = Ok st1 →
  ∃ s1, applyTransaction s t = Ok s1 ∧ sim st1 s1.
Proof.
  intros HP Hs H. unfold applyTransaction in *.
  assert (∀ {A} (f : A → ObjectID) (l : list A), (∀ oid, oid ∈ map f l → oid ∈ transactionObjects t) → ∀ x, x ∈ l → P (f x)) as Hl.
  { intros A f l Hsub x Hx. by apply HP, Hsub, list_elem_of_fmap_2. }
  apply bind_Ok in H as (a1 & H1 & H). apply bind_Ok in H as (a2 & H2 & H). apply bind_Ok in H as (a3 & H3 & H).
  apply bind_Ok in H as (a4 & H4 & H). apply bind_Ok in H as (a5 & H5 & H). apply bind_Ok in H as (a6 & H6 & H).
  apply (applySiacoinInputs_sim t st s) in H1 as (s1 & -> & Hs1); [|apply Hl; intros; unfold transactionObjects; set_solver|done]. cbn [mbind res_bind].
  apply (applySiacoinOutputs_sim t a1 s1) in H2 as (s2 & -> & Hs2); [|done]. cbn [mbind res_bind].
  apply (applyFileContracts_sim t a2 s2) in H3 as (s3 & -> & Hs3); [| |done].
  2: { intros k [x Hk]. apply HP. unfold transactionObjects. rewrite !elem_of_app. do 2 right. left.
       apply elem_of_lookup_imap. by exists k, x. }
  cbn [mbind res_bind].
  apply (applyFileContractRevisions_sim t a3 s3) in H4 as (s4 & -> & Hs4); [|apply Hl; intros; unfold transactionObjects; set_solver|done]. cbn [mbind res_bind].
  apply (applyStorageProofs_sim t a4 s4) in H5 as (s5 & -> & Hs5); [|apply Hl; intros; unfold transactionObjects; set_solver|done]. cbn [mbind res_bind].
  apply (applySiafundInputs_sim t a5 s5) in H6 as (s6 & -> & Hs6); [|apply Hl; intros; unfold transactionObjects; set_solver|done]. cbn [mbind res_bind].
  by apply (applySiafundOutputs_sim t a6 s6).
Qed.

Lemma applyTransactions_sim ts st s st1 :
  (∀ oid, touches ts oid → P oid) → sim st s → applyTransactions st ts = Ok st1 →
  ∃ s1, applyTransactions s ts = Ok s1 ∧ sim st1 s1.
Proof.
  intros HP. apply foldM_sim. intros t st0 s0 st2 Ht Hs H.
  assert (∀ oid, oid ∈ transactionObjects t → P oid) as HPt by (intros oid Ho; apply HP; by exists t).
  rewrite <- (validTransaction_agree P st0.1 s0.1 (sim_agree _ _ Hs) t HPt).
  apply bind_Ok in H as ([] & -> & H). cbn [mbind res_bind]. by eapply applyTransaction_sim.
Qed.
End simulation.

(** ** What applying leaves alone *)

Section frame.
Context `{N : Net} `{C : Crypto}.
Context (Q : ObjectID → Prop) (base : DB).

Definition keeps (st : State) : Prop := agree Q base st.1.

Lemma keeps_sco st d : keeps st → ¬ Q (scod_ID d) → keeps (recordSiacoinOutputDiff st d).
Proof.
  destruct st as [a pa]. unfold recordSiacoinOutputDiff, commitSiacoinOutputDiff. intros [] HQ.
  destruct (Bool.eqb _ _); split; try done; cbn; intros id Hid; (rewrite lookup_insert_ne || rewrite lookup_delete_ne);
    [by apply ag_sco0| |by apply ag_sco0|]; congruence.
Qed.

Lemma keeps_sfo st d : keeps st → ¬ Q (sfod_ID d) → keeps (recordSiafundOutputDiff st d).
Proof.
  destruct st as [a pa]. unfold recordSiafundOutputDiff, commitSiafundOutputDiff. intros [] HQ.
  destruct (Bool.eqb _ _); split; try done; cbn; intros id Hid; (rewrite lookup_insert_ne || rewrite lookup_delete_ne);
    [by apply ag_sfo0| |by apply ag_sfo0|]; congruence.
Qed.

Lemma keeps_pool st d : keeps st → keeps (recordSiafundPoolDiff st d).
Proof. destruct st as [a pa]. intros []. by split. Qed.

Lemma keeps_dsco st d st' : keeps st → recordDelayedSiacoinOutputDiff st d = Ok st' → keeps st'.
Proof.
  destruct st as [a pa]. unfold recordDelayedSiacoinOutputDiff, commitDelayedSiacoinOutputDiff, addDSCO, removeDSCO.
  intros [] H. destruct (Bool.eqb _ _), (db_DSCO a !! _); try done; injection H as <-; by split.
Qed.

Lemma keeps_fc st d st' : keeps st → recordFileContractDiff st d = Ok st' → ¬ Q (fcd_ID d) → keeps st'.
Proof.
  destruct st as [a pa]. unfold recordFileContractDiff, commitFileContractDiff, removeFileContract.
  intros [] H HQ. destruct (Bool.eqb _ _).
  - cbn in H. injection H as <-. split; try done; cbn; intros id Hid.
    rewrite lookup_insert_ne; [by apply ag_fc0|congruence].
  - destruct (db_FileContracts a !! _) as [fc|] eqn:E; [|done]. cbn in H.
    destruct (db_FCEX a !! _); [|done]. case_decide; [|done]. cbn in H. injection H as <-.
    split; try done; cbn; intros id Hid. rewrite lookup_delete_ne; [by apply ag_fc0|congruence].
Qed.

Lemma foldMi_keeps {A} (f : Z → State → A → res State) l :
  ∀ i, (∀ k x st st', l !! k = Some x → keeps st → f (i + Z.of_nat k) st x = Ok st' → keeps st') →
  ∀ st st', keeps st → foldMi f i st l = Ok st' → keeps st'.
Proof.
  induction l as [|x l IH]; intros i Hf st st' Hs H; cbn in H; [injection H as <-; done|].
  apply bind_Ok in H as (st0 & H0 & H). eapply (IH (i + 1)); [| |exact H].
  - intros k y s s' Hk. replace (i + 1 + Z.of_nat k) with (i + Z.of_nat (S k)) by lia. by apply Hf.
  - apply (Hf 0%nat x st st0 eq_refl Hs). by rewrite Z.add_0_r.
Qed.

Lemma applyTransaction_keeps t st st' :
  (∀ oid, oid ∈ transactionObjects t → ¬ Q oid) → keeps st → applyTransaction st t = Ok st' → keeps st'.
Proof.
  intros HQ Hs H. unfold applyTransaction in H.
  apply bind_Ok in H as (a1 & H1 & H). apply bind_Ok in H as (a2 & H2 & H). apply bind_Ok in H as (a3 & H3 & H).
  apply bind_Ok in H as (a4 & H4 & H). apply bind_Ok in H as (a5 & H5 & H). apply bind_Ok in H as (a6 & H6 & H).
  assert (∀ {A} (f : A → ObjectID) (l : list A), (∀ oid, oid ∈ map f l → oid ∈ transactionObjects t) → ∀ x, x ∈ l → ¬ Q (f x)) as Hl.
  { intros A f l Hsub x Hx. by apply HQ, Hsub, list_elem_of_fmap_2. }
  assert (∀ {A} (f : nat → ObjectID) (l : list A), (∀ oid, oid ∈ imap (λ i _, f i) l → oid ∈ transactionObjects t) →
    ∀ k x, l !! k = Some x → ¬ Q (f k)) as Hi.
  { intros A f l Hsub k x Hx. apply HQ, Hsub, elem_of_lookup_imap. by exists k, x. }
  assert (keeps a1) as K1.
  { eapply foldM_inv; [|exact Hs|exact H1]. intros s x s' Hx Hks Hx'. apply bind_Ok in Hx' as (y & _ & [= <-]).
    apply keeps_sco; [done|]. apply (Hl _ sci_ParentID (t_SiacoinInputs t)); [unfold transactionObjects; set_solver|done]. }
  assert (keeps a2) as K2.
  { eapply foldMi_keeps; [|exact K1|exact H2]. intros k x s s' Hx Hks [= <-]. apply keeps_sco; [done|].
    apply (Hi _ (λ k, Transaction_SiacoinOutputID t (Z.of_nat k)) (t_SiacoinOutputs t) ltac:(unfold transactionObjects; set_solver) _ _ Hx). }
  assert (keeps a3) as K3.
  { eapply foldMi_keeps; [|exact K2|exact H3]. intros k x s s' Hx Hks Hx'. apply bind_Ok in Hx' as (y & Hy & Hx').
    apply bind_Ok in Hx' as (z & _ & [= <-]). apply keeps_pool. eapply keeps_fc; [exact Hks|exact Hy|].
    apply (Hi _ (λ k, Transaction_FileContractID t (Z.of_nat k)) (t_FileContracts t) ltac:(unfold transactionObjects; set_solver) _ _ Hx). }
  assert (keeps a4) as K4.
  { eapply foldM_inv; [|exact K3|exact H4]. intros s x s' Hx Hks Hx'. apply bind_Ok in Hx' as (y & _ & Hx').
    apply bind_Ok in Hx' as (z & Hz & Hx').
    assert (¬ Q (fcr_ParentID x)) by (apply (Hl _ fcr_ParentID (t_FileContractRevisions t)); [unfold transactionObjects; set_solver|done]).
    eapply keeps_fc; [|exact Hx'|done]. by eapply keeps_fc. }
  assert (keeps a5) as K5.
  { eapply foldM_inv; [|exact K4|exact H5]. intros s x s' Hx Hks Hx'. apply bind_Ok in Hx' as (y & _ & Hx').
    apply bind_Ok in Hx' as (z & Hz & Hx'). eapply keeps_fc; [|exact Hx'|].
    - eapply foldMi_inv; [|exact Hks|exact Hz]. intros i s1 v s2 _. apply keeps_dsco.
    - apply (Hl _ sp_ParentID (t_StorageProofs t)); [unfold transactionObjects; set_solver|done]. }
  assert (keeps a6) as K6.
  { eapply foldM_inv; [|exact K5|exact H6]. intros s x s' Hx Hks Hx'. apply bind_Ok in Hx' as (y & _ & Hx').
    apply bind_Ok in Hx' as (q & _ & Hx'). apply bind_Ok in Hx' as (z & Hz & [= <-]).
    apply keeps_sfo; [by eapply keeps_dsco|]. apply (Hl _ sfi_ParentID (t_SiafundInputs t)); [unfold transactionObjects; set_solver|done]. }
  eapply foldMi_keeps; [|exact K6|exact H]. intros k x s s' Hx Hks [= <-]. apply keeps_sfo; [done|].
  apply (Hi _ (λ k, Transaction_SiafundOutputID t (Z.of_nat k)) (t_SiafundOutputs t) ltac:(unfold transactionObjects; set_solver) _ _ Hx).
Qed.

Lemma applyTransactions_keeps ts st st' :
  (∀ oid, touches ts oid → ¬ Q oid) → keeps st → applyTransactions st ts = Ok st' → keeps st'.
Proof.
  intros HQ. apply foldM_inv. intros s t s' Ht Hs H. apply bind_Ok in H as (_ & _ & H).
  eapply applyTransaction_keeps; [|exact Hs|exact H]. intros oid Ho. apply HQ. by exists t.
Qed.
End frame.

(** ** Independent sets in sequence *)

Section sequence.
Context `{N : Net} `{C : Crypto}.

(** The sets are valid one by one from [start], and the state [s] shows each of
    them what [start] shows it. *)
Lemma applySets st0 (sets : list (TransactionSetID * list Transaction)) s :
  NoDup sets.*1 →
  (∀ id set id' set' oid, (id, set) ∈ sets → (id', set') ∈ sets → touches set oid → touches set' oid → id = id') →
  (∀ id set, (id, set) ∈ sets → ∃ st', applyTransactions st0 set = Ok st') →
  (∀ id set, (id, set) ∈ sets → sim (touches set) st0 s) → indexed s.1 →
  ∃ s', applyTransactions s (concat sets.*2) = Ok s'.
Proof.
  revert s. induction sets as [|[id set] sets IH]; intros s Hnd Hdis Hval Hsim Hidx; cbn [fmap list_fmap concat].
  { by eexists. }
  cbn in Hnd. apply NoDup_cons in Hnd as [Hid Hnd].
  destruct (Hval id set) as [st1 H1]; [by left|].
  destruct (applyTransactions_sim (touches set) set st0 s st1) as (s1 & E1 & Hs1); [done|apply (Hsim id); by left|done|].
  unfold applyTransactions in *. cbn. rewrite foldM_app, E1. cbn [mbind res_bind].
  apply IH; [done| | | |apply Hs1].
  - intros id1 set1 id2 set2 oid Hin1 Hin2. apply Hdis; by right.
  - intros id1 set1 Hin1. apply (Hval id1). by right.
  - intros id1 set1 Hin1. destruct (Hsim id1 set1) as [Hag _ _]; [by right|].
    assert (∀ oid, touches set oid → ¬ touches set1 oid) as Hd.
    { intros oid Ho Ho1. apply Hid. rewrite (Hdis id set id1 set1 oid); [|by left|by right|done|done].
      apply list_elem_of_fmap. by exists (id1, set1). }
    pose proof (applyTransactions_keeps (touches set1) s.1 set s s1 Hd (agree_refl _ _) E1) as Hk.
    split; [by eapply agree_trans|apply Hs1|apply Hs1].
Qed.
End sequence.

(** ** Theorem *)

Lemma TransactionList_concat `{MO : MapOrder} at_ tp :
  TransactionList at_ tp = concat (range at_ (tp_transactionSets tp)).*2.
Proof.
  unfold TransactionList. generalize (range at_ (tp_transactionSets tp)). intros l.
  assert (∀ acc, foldl (λ txns '(_, tSet), txns ++ tSet) acc l = acc ++ concat l.*2) as H; [|apply H].
  induction l as [|[id set] l IH]; intros acc; cbn; [by rewrite app_nil_r|]. by rewrite IH, (assoc_L (++)).
Qed.

Lemma tryTransactionSet_applies `{N : Net} `{C : Crypto} db ts cc :
  tryTransactionSet db ts = Ok cc → ∃ st,
    applyTransactions (db, mkPB (pb_Block zeroProcessedBlock) (blockHeight db) (pb_Depth zeroProcessedBlock)
      (pb_ChildTarget zeroProcessedBlock) false [] [] [] [] [] zeroHash) ts = Ok st.
Proof. unfold tryTransactionSet. intros (st & H & _)%bind_Ok. eauto. Qed.

(** C6: The transactions of the pool can be put into a block in the order in
    which [TransactionList] returns them, whatever order the map is visited in:
    if the pool satisfies its invariant for the current database (every set was
    checked on its own), the loop of [generateAndApplyDiff] that validates and
    applies the transactions of a block made of them runs to its end without an
    error or a panic. *)
Theorem TransactionList_minable `{MO : MapOrder} `{N : Net} `{C : Crypto} (at_ : list nat)
    (T : Transaction → Prop) (db : DB) (tp : TransactionPool) (pb : processedBlock) :
  pool_ok (tryTransactionSet db) T tp → fcex_ok (db_FileContracts db) (db_FCEX db) →
  ∃ st, applyTransactions (createDSCOBucket db (u64 (pb_Height pb + MaturityDelay)), pb) (TransactionList at_ tp) = Ok st.
Proof.
  intros Hok Hfcex. rewrite TransactionList_concat.
  set (s := (createDSCOBucket db (u64 (pb_Height pb + MaturityDelay)), pb)).
  assert (indexed s.1) as Hidx.
  { unfold s, createDSCOBucket. apply fcex_ok_indexed. cbn. by case_match. }
  eapply (applySets (db, mkPB (pb_Block zeroProcessedBlock) (blockHeight db) (pb_Depth zeroProcessedBlock)
    (pb_ChildTarget zeroProcessedBlock) false [] [] [] [] [] zeroHash)).
  - apply range_NoDup.
  - intros id set id' set' oid H1%elem_of_range H2%elem_of_range. by apply (pool_ok_disjoint (tryTransactionSet db) T tp).
  - intros id set H%elem_of_range. destruct (so_valid _ _ _ _ _ (po_set _ _ _ Hok _ _ H)) as (cc & Hcc & _).
    by eapply tryTransactionSet_applies.
  - intros id set _. split; [|done|].
    + unfold s, createDSCOBucket. cbn. case_match; [apply agree_refl|by split].
    + unfold has_bucket, s, createDSCOBucket. cbn. destruct (db_DSCO db !! _) eqn:E; cbn; [rewrite E|rewrite lookup_insert_eq]; eauto.
  - done.
Qed.

Lemma TransactionList_minable_witness :
  length (TransactionList (MO := reversed) [] example_pool.pool2) = 2%nat ∧
  ∃ st, applyTransactions (N := example.net)
    (createDSCOBucket example.tip (u64 (21 + 3)), example.pblock) (TransactionList (MO := reversed) [] example_pool.pool2) = Ok st.
Proof.
  split; [vm_compute; reflexivity|].
  exact (TransactionList_minable (MO := reversed) (N := example.net) [] example_pool.T example.tip example_pool.pool2
    example.pblock example_pool.ok2 (fcex_ok_singleton (example.key x02) example.open_contract)).
Defined.
