(* ===== verification/PoolSubscribe.v ===== *)
(** * Subscribers of the transaction pool

    A subscriber gets the whole pool when it subscribes and a diff after every
    change.  The theorem says that a subscriber that applies the diffs has the
    sets of the pool.  The abstract state is a map from set ids to transactions
    ([view]); [follow_diff] is what a subscriber does with a diff. *)

From S2P Require Import Prelude Encoding Currency Target Crypto Types Codec Block ConsensusDB BlockDiffs Changelog MapRange Standard FindSets TransactionPool PoolInvariant PoolUpdate.

(** What a subscriber holds. *)
Abbreviation view := (gmap TransactionSetID (list Transaction)) (only parsing).

Definition follow_diff (v : view) (diff : TransactionPoolDiff) : view :=
  let v := foldl (λ v id, delete id v) v (tpd_RevertedTransactions diff) in
  foldl (λ v ut, <[ut_ID ut := ut_Transactions ut]> v) v (tpd_AppliedTransactions diff).

(** What has been sent so far. *)
Definition sent (tp : TransactionPool) : view := ut_Transactions <$> tp_subscriberSets tp.

(** The subscribers have been told everything, and the sets that were sent
    carry their ids. *)
Record synced (tp : TransactionPool) : Prop := {
  sy_sets : sent tp = tp_transactionSets tp;
  sy_ids : ∀ id ut, tp_subscriberSets tp !! id = Some ut → ut_ID ut = id;
}.

Section subscribe.
Context `{MO : MapOrder} `{C : Crypto}.

Definition keyed (tp : TransactionPool) : Prop :=
  ∀ id set, tp_transactionSets tp !! id = Some set → id = TransactionSetID_of set.

(** No two different sets of the two pools have the same hash. *)
Definition hashed_apart (tp tp' : TransactionPool) : Prop :=
  ∀ id id' s s', tp_transactionSets tp !! id = Some s → tp_transactionSets tp' !! id' = Some s' →
    TransactionSetID_of s = TransactionSetID_of s' → s = s'.

Lemma foldl_delete_lookup {A : Type} (l : list TransactionSetID) (m : gmap TransactionSetID A) (id : TransactionSetID) :
  foldl (λ m id, delete id m) m l !! id = if decide (id ∈ l) then None else m !! id.
Proof.
  revert m. induction l as [|x l IH]; intros m; cbn; [done|]. rewrite IH.
  destruct (decide (id ∈ l)); [rewrite decide_True by (by right); done|].
  destruct (decide (id = x)) as [->|].
  - by rewrite lookup_delete_eq, decide_True by (by left).
  - rewrite lookup_delete_ne, decide_False by (try rewrite elem_of_cons; naive_solver). done.
Qed.

(** The body of the loop over the new sets. *)
Definition newSet (tp : TransactionPool)
    (acc : gmap TransactionSetID UnconfirmedTransactionSet * list UnconfirmedTransactionSet)
    (e : TransactionSetID * list Transaction) :=
  let '(id, set) := e in
  match acc.1 !! id with
  | Some _ => acc
  | None => let ut := unconfirmedSet tp id set in (<[id := ut]> acc.1, acc.2 ++ [ut])
  end.

(** A subscriber that applies what the loop sends keeps up with it. *)
Lemma newSets_follow (tp : TransactionPool) (l : list (TransactionSetID * list Transaction))
    (acc : gmap TransactionSetID UnconfirmedTransactionSet * list UnconfirmedTransactionSet) (v : view) :
  foldl (λ v ut, <[ut_ID ut := ut_Transactions ut]> v) v acc.2 = ut_Transactions <$> acc.1 →
  foldl (λ v ut, <[ut_ID ut := ut_Transactions ut]> v) v (foldl (newSet tp) acc l).2 =
  ut_Transactions <$> (foldl (newSet tp) acc l).1.
Proof.
  revert acc. induction l as [|[id set] l IH]; intros acc H; cbn [foldl]; [done|]. apply IH. unfold newSet.
  destruct (acc.1 !! id); [done|]. cbn. rewrite foldl_app, H, fmap_insert. done.
Qed.

Lemma newSets_lookup (tp : TransactionPool) (l : list (TransactionSetID * list Transaction))
    (acc : gmap TransactionSetID UnconfirmedTransactionSet * list UnconfirmedTransactionSet) (id : TransactionSetID) :
  NoDup l.*1 →
  (foldl (newSet tp) acc l).1 !! id =
  match acc.1 !! id with Some ut => Some ut | None => unconfirmedSet tp id <$> (list_to_map l : gmap _ _) !! id end.
Proof.
  revert acc. induction l as [|[id' set] l IH]; intros acc Hnd; cbn [foldl].
  { cbn. rewrite lookup_empty. by destruct (acc.1 !! id). }
  cbn in Hnd. apply NoDup_cons in Hnd as [Hid Hnd]. rewrite IH by done. unfold newSet. cbn [list_to_map foldr].
  cbn [fst snd]. destruct (decide (id = id')) as [->|Hne].
  - rewrite lookup_insert_eq. destruct (acc.1 !! id') as [ut|] eqn:E; [by rewrite E|]. cbn. by rewrite lookup_insert_eq.
  - rewrite lookup_insert_ne by done. destruct (acc.1 !! id') as [ut|]; [done|]. cbn. by rewrite lookup_insert_ne by done.
Qed.

Lemma updateSubscribers_same at_ tp :
  tp_transactionSets (updateSubscribersTransactions at_ tp).1 = tp_transactionSets tp.
Proof. unfold updateSubscribersTransactions. by case_match. Qed.

Lemma updateSubscribers_step at_ tp0 tp :
  synced tp0 → tp_subscriberSets tp = tp_subscriberSets tp0 → keyed tp0 → keyed tp →
  hashed_apart tp0 tp →
  let r := updateSubscribersTransactions at_ tp in
  follow_diff (tp_transactionSets tp0) r.2 = tp_transactionSets r.1 ∧ synced r.1.
Proof.
  intros [Hsent Hids] Hsubs Hk0 Hk Hinj. unfold updateSubscribersTransactions. cbn zeta.
  set (reverted := omap _ _). set (subs := foldl (λ subs revert, delete revert subs) _ reverted).
  change (foldl _ (subs, []) _) with (foldl (newSet tp) (subs, []) (range (1%nat :: at_) (tp_transactionSets tp))).
  assert (∀ id, id ∈ reverted ↔ is_Some (tp_subscriberSets tp !! id) ∧ tp_transactionSets tp !! id = None) as Hrev.
  { intros id. unfold reverted. rewrite list_elem_of_omap. split.
    - intros ([id' ut] & Hin%elem_of_range & H). destruct (tp_transactionSets tp !! id') eqn:E; [done|]. injection H as ->. eauto.
    - intros [[ut Hut] Hn]. exists (id, ut). rewrite elem_of_range. split; [done|]. by rewrite Hn. }
  assert (∀ id, subs !! id = if decide (tp_transactionSets tp !! id = None) then None else tp_subscriberSets tp !! id) as Hsub.
  { intros id. unfold subs. rewrite foldl_delete_lookup. destruct (decide (id ∈ reverted)) as [Hin|Hin].
    - apply Hrev in Hin as [_ Hn]. by rewrite decide_True.
    - case_decide as Hn; [|done]. apply eq_None_not_Some. intros H. apply Hin, Hrev. done. }
  pose proof (newSets_follow tp (range (1%nat :: at_) (tp_transactionSets tp)) (subs, [])
    (foldl (λ v id, delete id v) (tp_transactionSets tp0) reverted)) as Hfollow.
  pose proof (λ id, newSets_lookup tp (range (1%nat :: at_) (tp_transactionSets tp)) (subs, []) id (range_NoDup _ _)) as Hlook.
  destruct (foldl (newSet tp) (subs, []) _) as [subs' applied] eqn:E. cbn [fst snd] in *.
  assert (∀ id, subs' !! id = match subs !! id with Some ut => Some ut | None => unconfirmedSet tp id <$> tp_transactionSets tp !! id end) as Hs'.
  { intros id. rewrite Hlook. destruct (subs !! id); [done|]. f_equal.
    rewrite (list_to_map_proper _ (map_to_list (tp_transactionSets tp))); [by rewrite list_to_map_to_list|apply range_NoDup|apply range_perm]. }
  assert (∀ id ut, tp_subscriberSets tp !! id = Some ut → tp_transactionSets tp0 !! id = Some (ut_Transactions ut)) as Hold.
  { intros id ut Hut. rewrite <- Hsent. unfold sent. rewrite lookup_fmap, <- Hsubs, Hut. done. }
  assert (ut_Transactions <$> subs' = tp_transactionSets tp) as Hfinal.
  { apply map_eq. intros id. rewrite lookup_fmap, Hs', Hsub.
    destruct (tp_transactionSets tp !! id) as [set|] eqn:Eset; [rewrite decide_False by done|by rewrite decide_True].
    destruct (tp_subscriberSets tp !! id) as [ut|] eqn:Eut; cbn; [|done].
    rewrite (Hinj id id (ut_Transactions ut) set (Hold _ _ Eut) Eset); [done|].
    rewrite <- (Hk0 id _ (Hold _ _ Eut)). by apply Hk. }
  split.
  - unfold follow_diff. cbn. rewrite Hfollow; [done|]. apply map_eq. intros id. cbn [fst snd foldl].
    rewrite foldl_delete_lookup, lookup_fmap, Hsub. rewrite <- Hsent. unfold sent. rewrite lookup_fmap, <- Hsubs.
    destruct (decide (id ∈ reverted)) as [Hin|Hin].
    + apply Hrev in Hin as [_ ->]. by rewrite decide_True.
    + case_decide as Hn; [|done]. destruct (tp_subscriberSets tp !! id) eqn:Eut; [|done]. exfalso. apply Hin, Hrev. eauto.
  - split; [exact Hfinal|]. cbn. intros id ut. rewrite Hs', Hsub.
    destruct (tp_transactionSets tp !! id); [rewrite decide_False by done|by rewrite decide_True].
    destruct (tp_subscriberSets tp !! id) as [ut'|] eqn:Eut.
    + intros [= <-]. rewrite Hsubs in Eut. by apply Hids.
    + cbn. by intros [= <-].
Qed.
End subscribe.

(** ** Theorem *)

Section facts.
Context `{MO : MapOrder} `{C : Crypto} `{F : FeeCurve} `{N : Net}.

Lemma followBlocks_same_sets at_ tp cc tp' : followBlocks at_ tp cc = Ok tp' → same_sets tp tp'.
Proof.
  unfold followBlocks. intros H. destruct (match getRecentBlockID tp with Ok id => (id, false) | Err e => _ | Panic => _ end) as [rid reset].
  apply bind_Ok in H as (acc1 & H1 & H). apply bind_Ok in H as ([tp2 cu2] & H2 & H). apply bind_Ok in H as (fee & _ & [= <-]).
  assert (same_sets tp acc1.1) as S1.
  { eapply (foldM_inv (λ acc : TransactionPool * cursor, same_sets tp acc.1) revertBlock (tp, mkCursor rid reset) acc1); [|done|exact H1].
    intros [tp1 cu1] b acc' _ Hs Hb.
    unfold revertBlock in Hb. destruct (_ && _); [done|]. injection Hb as <-. cbn in Hs |- *.
    set (tpa := if (0 <? tp_blockHeight tp1) || _ then _ else tp1).
    destruct (deleteTransactions_spec (b_Transactions b) tpa) as (Hd & _).
    transitivity tpa; [transitivity tp1; [done|unfold tpa; by case_match]|].
    etransitivity; [exact Hd|]. by case_match. }
  assert (same_sets tp tp2) as S2.
  { eapply (foldMi_inv (λ acc, same_sets tp acc.1) _ 0 acc1 (tp2, cu2)); [|exact S1|exact H2].
    intros i [tp1 cu1] b acc' _ Hs Hb. unfold applyBlock in Hb. destruct (_ && _); [done|].
    apply bind_Ok in Hb as (fee' & _ & [= <-]). cbn in Hs |- *.
    set (tpa := if (0 <? tp_blockHeight tp1) || _ then _ else tp1).
    destruct (putTransactions_spec (b_Transactions b) tpa) as (Hd & _).
    transitivity tpa; [transitivity tp1; [done|unfold tpa; by case_match]|]. exact Hd. }
  exact S2.
Qed.

Lemma pool_ok_keyed txnFn T tp : pool_ok txnFn T tp → keyed tp.
Proof. intros Hok id set H. apply (so_id _ _ _ _ _ (po_set _ _ _ Hok _ _ H)). Qed.

(** Sending the whole pool to a new subscriber. *)
Lemma subscribe_view at_ s tp : synced tp → follow_diff ∅ (TransactionPoolSubscribe at_ s tp).2 = tp_transactionSets tp.
Proof.
  intros [Hsent Hids]. rewrite <- Hsent. unfold follow_diff, sent. cbn.
  assert (∀ l : list (TransactionSetID * UnconfirmedTransactionSet), (∀ id ut, (id, ut) ∈ l → ut_ID ut = id) → NoDup l.*1 → ∀ v : view,
    foldl (λ v ut, <[ut_ID ut := ut_Transactions ut]> v) v l.*2 = (ut_Transactions <$> (list_to_map l : gmap _ _)) ∪ v) as H.
  { induction l as [|[id ut] l IH]; intros Hl Hnd v; cbn [fmap list_fmap foldl list_to_map foldr].
    { by rewrite fmap_empty, (left_id_L ∅ (∪)). }
    cbn in Hnd. apply NoDup_cons in Hnd as [Hid Hnd]. rewrite IH; [|intros ? ? Hin; apply Hl; by right|done].
    cbn [fst snd]. rewrite (Hl id ut) by (by left). rewrite fmap_insert.
    assert ((ut_Transactions <$> (list_to_map l : gmap TransactionSetID UnconfirmedTransactionSet)) !! id = None) as Hn.
    { rewrite lookup_fmap, not_elem_of_list_to_map_1 by done. done. }
    rewrite <- insert_union_l, <- insert_union_r by done. done. }
  rewrite H, (right_id_L ∅ (∪)).
  - f_equal. rewrite (list_to_map_proper _ (map_to_list (tp_subscriberSets tp))); [apply list_to_map_to_list|apply range_NoDup|apply range_perm].
  - intros id ut Hin%elem_of_range. by apply Hids.
  - apply range_NoDup.
Qed.

Lemma accept_step txnFn T at_ tp ts out :
  collision_free T → ConsensusView txnFn → pool_ok txnFn T tp → synced tp →
  Forall T ts → AcceptTransactionSet at_ tp ts txnFn = Ok out → hashed_apart tp (ao_pool out) →
  match ao_diff out with
  | Some diff => follow_diff (tp_transactionSets tp) diff = tp_transactionSets (ao_pool out)
  | None => ao_pool out = tp
  end ∧ synced (ao_pool out).
Proof.
  intros Hids Hview Hok Hsync HT. unfold AcceptTransactionSet.
  destruct (acceptTransactionSet (0%nat :: at_) tp ts txnFn) as [tp1|e|] eqn:E; [|by intros [= <-]|done].
  pose proof (acceptTransactionSet_ok txnFn T Hids _ _ _ _ Hok HT E) as Hok1.
  destruct (acceptTransactionSet_rest _ _ _ _ _ E) as (_ & Hsubs & _).
  pose proof (updateSubscribers_step (1%nat :: at_) tp tp1 Hsync Hsubs (pool_ok_keyed _ _ _ Hok) (pool_ok_keyed _ _ _ Hok1)) as Hstep.
  pose proof (updateSubscribers_same (1%nat :: at_) tp1) as Hsame.
  destruct (updateSubscribersTransactions (1%nat :: at_) tp1) as [tp2 diff]. intros [= <-] Happ. cbn in Hstep, Hsame, Happ |- *.
  apply Hstep. unfold hashed_apart in Happ. by rewrite Hsame in Happ.
Qed.

Lemma process_step txnFn0 txnFn T at_ tp cc tp' diff :
  collision_free T → ConsensusView txnFn → (∀ us, txnFn us ≠ Panic) →
  pool_ok txnFn0 T tp → synced tp → Forall (λ b, Forall T (b_Transactions b)) (cc_RevertedBlocks cc) →
  ProcessConsensusChange at_ tp cc txnFn = Ok (tp', diff) → hashed_apart tp tp' →
  follow_diff (tp_transactionSets tp) diff = tp_transactionSets tp' ∧ synced tp'.
Proof.
  intros Hids Hview Htx Hok Hsync Hrev H Happ. unfold ProcessConsensusChange in H.
  apply bind_Ok in H as (tp1 & H1 & H). apply bind_Ok in H as (tp2 & H2 & H).
  pose proof (followBlocks_same_sets _ _ _ _ H1) as (_ & Hsub1 & _ & Hset1 & _).
  destruct (refill_spec txnFn T Hids Htx (1%nat :: at_) tp1 cc) as (tp2' & H2' & Hok2 & _ & Hsub2 & _).
  { intros id set. rewrite Hset1. intros Hs. apply (so_T _ _ _ _ _ (po_set _ _ _ Hok _ _ Hs)). } { done. }
  rewrite H2 in H2'. injection H2' as <-.
  pose proof (updateSubscribers_step (2%nat :: at_) tp tp2 Hsync ltac:(congruence) (pool_ok_keyed _ _ _ Hok) (pool_ok_keyed _ _ _ Hok2)) as Hstep.
  pose proof (updateSubscribers_same (2%nat :: at_) tp2) as Hsame.
  injection H as H. rewrite H in Hstep, Hsame. cbn in Hstep, Hsame. apply Hstep. unfold hashed_apart in Happ. by rewrite Hsame in Happ.
Qed.
End facts.

(** C11: A subscriber of the pool that removes the reverted sets and adds the
    applied ones of every diff it is sent always has exactly the sets of the
    pool: it starts with them when it subscribes, and it still has them after
    every accepted set (a refused one sends nothing and changes nothing) and
    after every consensus change, provided no two different sets have the same
    hash. *)
Theorem pool_subscribers_in_step `{MO : MapOrder} `{C : Crypto} `{F : FeeCurve} `{N : Net}
    (txnFn txnFn' : list Transaction → res ConsensusChange) (T : Transaction → Prop) (at_ : list nat) (tp : TransactionPool) :
  collision_free T → ConsensusView txnFn → ConsensusView txnFn' → (∀ us, txnFn' us ≠ Panic) →
  pool_ok txnFn T tp → synced tp →
  (∀ s, follow_diff ∅ (TransactionPoolSubscribe at_ s tp).2 = tp_transactionSets tp) ∧
  (∀ ts out, Forall T ts → AcceptTransactionSet at_ tp ts txnFn = Ok out → hashed_apart tp (ao_pool out) →
    match ao_diff out with
    | Some diff => follow_diff (tp_transactionSets tp) diff = tp_transactionSets (ao_pool out)
    | None => ao_pool out = tp
    end ∧ synced (ao_pool out)) ∧
  (∀ cc tp' diff, Forall (λ b, Forall T (b_Transactions b)) (cc_RevertedBlocks cc) →
    ProcessConsensusChange at_ tp cc txnFn' = Ok (tp', diff) → hashed_apart tp tp' →
    follow_diff (tp_transactionSets tp) diff = tp_transactionSets tp' ∧ synced tp').
Proof.
  intros Hids Hv Hv' Htx Hok Hsync. split_and!.
  - intros s. by apply subscribe_view.
  - intros ts out HT. by apply (accept_step txnFn T).
  - intros cc tp' diff Hrev. by apply (process_step txnFn txnFn' T).
Qed.

(** ** The concrete pool, with a subscriber *)

Module example_subscriber.
Import example_pool.

(** [pool2], after its sets have been sent. *)
Definition pool : TransactionPool := Eval vm_compute in (updateSubscribersTransactions [9%nat] pool2).1.

Lemma pool_is : pool = (updateSubscribersTransactions [9%nat] pool2).1.
Proof. vm_cast_no_check (eq_refl (pool)). Qed.

Lemma ok : pool_ok txnFn T pool.
Proof. rewrite pool_is. unfold updateSubscribersTransactions. case_match. by apply (pool_ok_ext txnFn T pool2), ok2. Qed.

Lemma in_sync : synced pool.
Proof.
  rewrite pool_is. apply (updateSubscribers_step [9%nat] pool0 pool2).
  - split; [vm_compute; reflexivity|]. intros id ut. vm_compute. discriminate.
  - vm_compute. reflexivity.
  - exact (pool_ok_keyed _ _ _ ok0).
  - exact (pool_ok_keyed _ _ _ ok2).
  - intros id id' s s' H. exfalso. vm_compute in H. discriminate.
Qed.

Definition out : AcceptOutcome :=
  Eval vm_compute in match AcceptTransactionSet [] pool [tA; tC] txnFn with Ok o => o | _ => mkAO pool0 None None None end.
Lemma accepted : AcceptTransactionSet [] pool [tA; tC] txnFn = Ok out.
Proof. vm_cast_no_check (eq_refl (Ok out)). Qed.

Lemma sent_T : Forall T [tA; tC].
Proof. apply all_T. set_solver. Qed.

Lemma diff_sizes : (λ d, (length (tpd_RevertedTransactions d), length (tpd_AppliedTransactions d))) <$> ao_diff out = Some (1%nat, 1%nat).
Proof. vm_compute. reflexivity. Qed.

Lemma apart : hashed_apart pool (ao_pool out).
Proof.
  intros id id' s s' Hs Hs'.
  assert (map_Forall (λ _ s, map_Forall (λ _ s', TransactionSetID_of s = TransactionSetID_of s' → s = s')
    (tp_transactionSets (ao_pool out))) (tp_transactionSets pool)) as H by vm_decide.
  exact (H id s Hs id' s' Hs').
Qed.
End example_subscriber.

(** The set of [tA] becomes the set of [tA] and [tC]: the diff reverts one set
    and applies another, and the subscriber ends with the two sets of the pool. *)
Lemma pool_subscribers_in_step_witness :
  ∃ diff, ao_diff example_subscriber.out = Some diff ∧
    length (tpd_RevertedTransactions diff) = 1%nat ∧ length (tpd_AppliedTransactions diff) = 1%nat ∧
    follow_diff (tp_transactionSets example_subscriber.pool) diff = tp_transactionSets (ao_pool example_subscriber.out).
Proof.
  destruct (pool_subscribers_in_step (MO := inOrder) (F := example_pool.cubic) (N := example.net) example_pool.txnFn example_update.txnFn' example_pool.T []
    example_subscriber.pool example_pool.pool_ids _ example_update.txnFn'_view example_update.txnFn'_total example_subscriber.ok
    example_subscriber.in_sync) as (_ & H & _).
  destruct (H [example_pool.tA; example_pool.tC] example_subscriber.out example_subscriber.sent_T
    example_subscriber.accepted example_subscriber.apart) as [H' _].
  pose proof example_subscriber.diff_sizes as Hs.
  destruct (ao_diff example_subscriber.out) as [diff|]; [|discriminate Hs].
  exists diff. injection Hs as Hr Ha. by split_and!.
Defined.
