(* ===== verification/SplitSetHeap.v ===== *)
(** * The miner's heaps of transaction sets

    Models [modules/miner/splitsetheap.go]: binary heaps of split sets ordered
    by fee, with a map from ids to elements and, in every element, its position,
    so that an element can be removed by id.

    Elements are shared by the slice and the map and only their [index] field is
    ever written; the elements are values here, and the index fields of those in
    a heap are a table of the heap, by id ([heap_ok] says that ids are not
    repeated).  Positions are natural numbers; indexing outside of the slice is
    [Panic]. *)

From S2P Require Import Prelude Encoding Currency Target Crypto Types Codec.

Abbreviation splitSetID := Z (only parsing).

(** [splitSet] of miner.go *)
Record splitSet := mkSS {
  ss_averageFee : Currency;
  ss_size : Z;
  ss_transactions : list Transaction;
}.

Record mapElement := mkME {
  me_set : splitSet;
  me_id : splitSetID;
}.

Record mapHeap := mkMH {
  mh_selectID : gmap splitSetID mapElement;
  mh_data : list mapElement;
  mh_index : gmap splitSetID nat;
  mh_size : Z;
  mh_minHeap : bool;
}.

Definition set_mh_data (data : list mapElement) (index : gmap splitSetID nat) (mh : mapHeap) : mapHeap :=
  mkMH (mh_selectID mh) data index (mh_size mh) (mh_minHeap mh).

Definition elem_at (mh : mapHeap) (i : nat) : res mapElement :=
  match mh_data mh !! i with Some e => Ok e | None => Panic end.

Definition me_fee (e : mapElement) : Currency := ss_averageFee (me_set e).

Definition less (mh : mapHeap) (i j : nat) : res bool :=
  x ← elem_at mh i;
  y ← elem_at mh j;
  Ok (if mh_minHeap mh then Currency_Cmp (me_fee x) (me_fee y) =? -1
      else Currency_Cmp (me_fee x) (me_fee y) =? 1).

Definition swap (mh : mapHeap) (i j : nat) : res mapHeap :=
  x ← elem_at mh i;
  y ← elem_at mh j;
  let data := <[j := x]> (<[i := y]> (mh_data mh)) in
  Ok (set_mh_data data (<[me_id x := j]> (<[me_id y := i]> (mh_index mh))) mh).

(** The parent of the position [j]. *)
Definition parent (j : nat) : nat := ((j - 1) / 2)%nat.

Fixpoint upLoop (fuel : nat) (mh : mapHeap) (j : nat) : res mapHeap :=
  match fuel with
  | O => Panic
  | S fuel =>
      let i := parent j in
      if decide (i = j) then Ok mh else
      l ← less mh j i;
      if negb l then Ok mh else
      mh ← swap mh i j;
      upLoop fuel mh i
  end.
Definition up (mh : mapHeap) (j : nat) : res mapHeap := upLoop (S j) mh j.

Fixpoint downLoop (fuel : nat) (mh : mapHeap) (i n : nat) : res (mapHeap * nat) :=
  match fuel with
  | O => Panic
  | S fuel =>
      let j1 := (2 * i + 1)%nat in
      if decide (n ≤ j1)%nat then Ok (mh, i) else
      let j2 := (j1 + 1)%nat in
      j ← (if decide (j2 < n)%nat then l ← less mh j1 j2; Ok (if negb l then j2 else j1) else Ok j1);
      l ← less mh j i;
      if negb l then Ok (mh, i) else
      mh ← swap mh i j;
      downLoop fuel mh j n
  end.
Definition down (mh : mapHeap) (i0 n : nat) : res (mapHeap * bool) :=
  '(mh, i) ← downLoop (S n) mh i0 n;
  Ok (mh, bool_decide (i0 < i)%nat).

Definition mh_len (mh : mapHeap) : nat := length (mh_data mh).

Definition push (mh : mapHeap) (elem : mapElement) : res mapHeap :=
  let n := length (mh_data mh) in
  let mh := mkMH (<[me_id elem := elem]> (mh_selectID mh)) (mh_data mh ++ [elem]) (<[me_id elem := n]> (mh_index mh))
              (u64 (mh_size mh + ss_size (me_set elem))) (mh_minHeap mh) in
  up mh n.

(** The end of [pop] and [remove]: the last element is taken out. *)
Definition takeLast (mh : mapHeap) (n : nat) : res (mapHeap * mapElement) :=
  elem ← elem_at mh n;
  Ok (mkMH (delete (me_id elem) (mh_selectID mh)) (take n (mh_data mh)) (mh_index mh)
        (u64 (mh_size mh - ss_size (me_set elem))) (mh_minHeap mh), elem).

Definition pop (mh : mapHeap) : res (mapHeap * mapElement) :=
  let n := (mh_len mh - 1)%nat in
  mh ← swap mh 0 n;
  '(mh, _) ← down mh 0 n;
  takeLast mh n.

Definition remove (mh : mapHeap) (i : nat) : res (mapHeap * mapElement) :=
  let n := (mh_len mh - 1)%nat in
  mh ← (if decide (n ≠ i) then
          mh ← swap mh i n;
          '(mh, _) ← down mh i n;
          up mh i
        else Ok mh);
  takeLast mh n.

(** An id without an element is a nil pointer. *)
Definition removeSetByID (mh : mapHeap) (s : splitSetID) : res (mapHeap * mapElement) :=
  match mh_selectID mh !! s with
  | None => Panic
  | Some e => remove mh (default 0%nat (mh_index mh !! me_id e))
  end.

Definition peek (mh : mapHeap) : option mapElement := mh_data mh !! 0%nat.

(** [for i := n/2 - 1; i >= 0; i-- { mh.down(i, n) }] *)
Definition init (mh : mapHeap) : res mapHeap :=
  let n := mh_len mh in
  foldM (λ mh i, '(mh, _) ← down mh i n; Ok mh) mh (rev (seq 0 (n / 2))).

Definition fix_ (mh : mapHeap) (i : nat) : res mapHeap :=
  '(mh, moved) ← down mh i (mh_len mh);
  if negb moved then up mh i else Ok mh.

(** ** The order *)

(** [x] belongs above [y]. *)
Definition before (mn : bool) (x y : mapElement) : Prop :=
  if mn then me_fee x < me_fee y else me_fee y < me_fee x.
#[export] Instance before_dec mn x y : Decision (before mn x y).
Proof. unfold before. destruct mn; apply _. Defined.

Lemma not_before_trans mn x y z : ¬ before mn x y → ¬ before mn y z → ¬ before mn x z.
Proof. unfold before. destruct mn; lia. Qed.
Lemma before_asym mn x y : before mn x y → ¬ before mn y x.
Proof. unfold before. destruct mn; lia. Qed.

Lemma parent_iff i j : (0 < j)%nat → parent j = i ↔ (j = 2 * i + 1 ∨ j = 2 * i + 2)%nat.
Proof.
  intros Hj. unfold parent. pose proof (Nat.div_mod_eq (j - 1) 2). pose proof (Nat.mod_upper_bound (j - 1) 2 ltac:(lia)). lia.
Qed.
Lemma parent_lt j : (0 < j)%nat → (parent j < j)%nat.
Proof. intros Hj. pose proof (proj1 (parent_iff (parent j) j Hj) eq_refl). lia. Qed.

(** The element at [j] does not belong above the one at [i]. *)
Definition apart (mn : bool) (d : list mapElement) (j i : nat) : Prop :=
  ∀ x y, d !! j = Some x → d !! i = Some y → ¬ before mn x y.

Lemma apart_trans mn d k j i : (j < length d)%nat → apart mn d k j → apart mn d j i → apart mn d k i.
Proof.
  intros [y Hy]%lookup_lt_is_Some H1 H2 x z Hx Hz. eapply not_before_trans; [by apply H1|by apply H2].
Qed.

(** The first [n] elements are in heap order. *)
Definition heaped (mn : bool) (n : nat) (d : list mapElement) : Prop :=
  ∀ j, (0 < j < n)%nat → apart mn d j (parent j).

(** The top is extremal. *)
Lemma heaped_top mn n d j : heaped mn n d → (n ≤ length d)%nat → (j < n)%nat → apart mn d j 0.
Proof.
  intros Hh Hn. induction (lt_wf j) as [j _ IH]. intros Hj. destruct (decide (j = 0%nat)) as [->|].
  - intros x y Hx Hy. simplify_eq. unfold before. destruct mn; lia.
  - pose proof (parent_lt j ltac:(lia)). apply (apart_trans _ _ _ (parent j)); [lia|apply Hh; lia|apply IH; lia].
Qed.

(** ** Moving elements *)

Lemma less_value mh i j x y :
  mh_data mh !! i = Some x → mh_data mh !! j = Some y →
  less mh i j = Ok (bool_decide (before (mh_minHeap mh) x y)).
Proof.
  intros Hx Hy. unfold less, elem_at. rewrite Hx, Hy. cbn [mbind res_bind]. f_equal. unfold Currency_Cmp.
  case_bool_decide as Hb; unfold before in Hb; destruct (mh_minHeap mh), (Z.compare_spec (me_fee x) (me_fee y)); done || lia.
Qed.

(** The same elements in another order, and every index field right. *)
Definition index_ok (mh : mapHeap) : Prop :=
  NoDup (me_id <$> mh_data mh) ∧ ∀ i e, mh_data mh !! i = Some e → mh_index mh !! me_id e = Some i.

Record moved (n : nat) (mh mh' : mapHeap) : Prop := {
  mv_select : mh_selectID mh' = mh_selectID mh;
  mv_size : mh_size mh' = mh_size mh;
  mv_min : mh_minHeap mh' = mh_minHeap mh;
  mv_perm : mh_data mh' ≡ₚ mh_data mh;
  mv_index : index_ok mh → index_ok mh';
  mv_rest : ∀ k, (n ≤ k)%nat → mh_data mh' !! k = mh_data mh !! k;
}.

Lemma moved_refl n mh : moved n mh mh.
Proof. by split. Qed.
Lemma moved_trans n mh1 mh2 mh3 : moved n mh1 mh2 → moved n mh2 mh3 → moved n mh1 mh3.
Proof. intros [] []. split; [congruence|congruence|congruence|by etrans|auto|]. intros k Hk. etrans; auto. Qed.
Lemma moved_weaken n n' mh mh' : (n ≤ n')%nat → moved n mh mh' → moved n' mh mh'.
Proof. intros Hn []. split; auto. intros k Hk. apply mv_rest0. lia. Qed.
Lemma moved_length n mh mh' : moved n mh mh' → length (mh_data mh') = length (mh_data mh).
Proof. intros []. by apply Permutation_length. Qed.

Lemma lookup_swap {A} (d : list A) i j x y k :
  d !! i = Some x → d !! j = Some y →
  <[j := x]> (<[i := y]> d) !! k = if decide (k = j) then Some x else if decide (k = i) then Some y else d !! k.
Proof.
  intros Hx Hy. pose proof (lookup_lt_Some _ _ _ Hx). pose proof (lookup_lt_Some _ _ _ Hy).
  destruct (decide (k = j)) as [->|]; [by rewrite list_lookup_insert_eq by (by rewrite length_insert)|].
  rewrite list_lookup_insert_ne by done. destruct (decide (k = i)) as [->|]; [by apply list_lookup_insert_eq|].
  by rewrite list_lookup_insert_ne by done.
Qed.

Lemma swap_value n mh i j x y :
  mh_data mh !! i = Some x → mh_data mh !! j = Some y → (i < n)%nat → (j < n)%nat →
  ∃ mh', swap mh i j = Ok mh' ∧ mh_data mh' = <[j := x]> (<[i := y]> (mh_data mh)) ∧ moved n mh mh'.
Proof.
  intros Hx Hy Hi Hj. unfold swap, elem_at. rewrite Hx, Hy. cbn [mbind res_bind]. eexists. split; [reflexivity|]. split; [done|].
  split; cbn; [done|done|done|by apply Permutation_insert_swap| |].
  - intros [Hnd Hidx]. split; cbn; [by rewrite Permutation_insert_swap|]. intros k e. rewrite (lookup_swap _ _ _ x y) by done.
    assert (∀ k1 k2 e1 e2, mh_data mh !! k1 = Some e1 → mh_data mh !! k2 = Some e2 → me_id e1 = me_id e2 → k1 = k2) as Hinj.
    { intros k1 k2 e1 e2 H1 H2 He. eapply (NoDup_lookup _ _ _ _ Hnd); rewrite list_lookup_fmap; [by rewrite H1|rewrite H2; cbn; by rewrite He]. }
    intros He. destruct (decide (k = j)) as [->|Hkj]; [injection He as <-; by rewrite lookup_insert_eq|].
    destruct (decide (k = i)) as [->|Hki].
    + injection He as <-. rewrite lookup_insert_ne by (intros E; apply Hkj; by apply (Hinj _ _ _ _ Hx Hy)). by rewrite lookup_insert_eq.
    + rewrite !lookup_insert_ne; [by apply Hidx|intros E; apply Hkj; by apply (Hinj _ _ _ _ He Hy)|intros E; apply Hki; by apply (Hinj _ _ _ _ He Hx)].
  - intros k Hk. rewrite (lookup_swap _ _ _ x y) by done. rewrite !decide_False by lia. done.
Qed.

(** ** Sifting *)

Section sift.
Context (n : nat).

(** [apart] after a swap, read back into the list before it. *)
Lemma apart_swap mn d i j x y k k' :
  d !! i = Some x → d !! j = Some y → i ≠ j →
  apart mn (<[j := x]> (<[i := y]> d)) k k' ↔
  apart mn d (if decide (k = j) then i else if decide (k = i) then j else k)
    (if decide (k' = j) then i else if decide (k' = i) then j else k').
Proof.
  intros Hx Hy Hij. unfold apart. setoid_rewrite (lookup_swap d i j x y); [|done..].
  repeat case_decide; subst; by rewrite ?Hx, ?Hy.
Qed.

(** [up] repairs a heap that is only out of order at [j], above. *)
Lemma upLoop_spec fuel mh j :
  (j < fuel)%nat → (j < n)%nat → (n ≤ length (mh_data mh))%nat →
  (∀ k, (0 < k < n)%nat → k ≠ j → apart (mh_minHeap mh) (mh_data mh) k (parent k)) →
  (∀ k, (0 < k < n)%nat → parent k = j → (0 < j)%nat → apart (mh_minHeap mh) (mh_data mh) k (parent j)) →
  ∃ mh', upLoop fuel mh j = Ok mh' ∧ moved n mh mh' ∧ heaped (mh_minHeap mh) n (mh_data mh').
Proof.
  revert mh j. induction fuel as [|fuel IH]; intros mh j Hf Hj Hn Hh Hg; [lia|]. cbn [upLoop].
  destruct (decide (parent j = j)) as [Hp|Hp].
  { exists mh. split; [done|]. split; [apply moved_refl|]. intros k Hk. apply Hh; [done|]. intros ->.
    pose proof (parent_lt j ltac:(lia)). lia. }
  assert (0 < j)%nat as H0 by (destruct j; [done|lia]). pose proof (parent_lt j H0) as Hlt.
  destruct (lookup_lt_is_Some_2 (mh_data mh) j) as [y Hy]; [lia|].
  destruct (lookup_lt_is_Some_2 (mh_data mh) (parent j)) as [x Hx]; [lia|].
  rewrite (less_value _ _ _ y x) by done. cbn [mbind res_bind]. case_bool_decide as Hb; cbn [negb].
  - destruct (swap_value n mh (parent j) j x y) as (mh1 & -> & Hd & Hm); [done|done|lia|lia|]. cbn [mbind res_bind].
    destruct (IH mh1 (parent j)) as (mh' & E & Hm' & Hh'); [lia|lia|by rewrite (moved_length _ _ _ Hm)| | |].
    + rewrite (mv_min _ _ _ Hm), Hd. intros k Hk Hkp. rewrite (apart_swap _ _ _ _ x y) by (done || lia).
      destruct (decide (k = j)) as [->|Hkj].
      * rewrite decide_False by lia. rewrite decide_True by done. intros a b Ha Hb'. simplify_eq. by apply before_asym.
      * rewrite (decide_False (P := k = parent j)) by done. destruct (decide (parent k = j)) as [Hpk|Hpk]; [by apply Hg|].
        destruct (decide (parent k = parent j)) as [Hpk'|].
        -- intros a b Ha Hb'. simplify_eq. eapply not_before_trans; [|apply before_asym, Hb].
           pose proof (Hh k Hk Hkj) as Hk'. rewrite Hpk' in Hk'. by apply Hk'.
        -- by apply Hh.
    + rewrite (mv_min _ _ _ Hm), Hd. intros k Hk Hkp Hpp. rewrite (apart_swap _ _ _ _ x y) by (done || lia).
      pose proof (parent_lt (parent j) Hpp). rewrite (decide_False (P := parent (parent j) = j)) by lia.
      rewrite (decide_False (P := parent (parent j) = parent j)) by lia.
      destruct (decide (k = j)) as [->|Hkj]; [apply Hh; lia|]. rewrite decide_False by (intros ->; lia).
      apply (apart_trans _ _ _ (parent j)); [lia| |apply Hh; lia]. rewrite <- Hkp. by apply Hh.
    + exists mh'. rewrite (mv_min _ _ _ Hm) in Hh'. split; [done|]. split; [by eapply moved_trans|done].
  - exists mh. split; [done|]. split; [apply moved_refl|]. intros k Hk. destruct (decide (k = j)) as [->|]; [|by apply Hh].
    intros a b Ha Hb'. by simplify_eq.
Qed.

(** [down] repairs a heap that is out of order at [i], below; nothing is said of
    [i0] and its parent until the element has moved.  Only the part of the
    heap whose parents are at [lo] or later is looked at. *)
Lemma downLoop_spec lo i0 fuel mh i :
  (n - i < fuel)%nat → (n ≤ length (mh_data mh))%nat → (lo ≤ i0 ≤ i)%nat →
  (∀ k, (0 < k < n)%nat → (lo ≤ parent k)%nat → k ≠ i0 → parent k ≠ i → apart (mh_minHeap mh) (mh_data mh) k (parent k)) →
  (∀ k, (0 < k < n)%nat → parent k = i → (0 < i)%nat → (lo ≤ parent i)%nat → apart (mh_minHeap mh) (mh_data mh) k (parent i)) →
  ((i0 < i)%nat → (0 < i0)%nat → (lo ≤ parent i0)%nat → apart (mh_minHeap mh) (mh_data mh) i0 (parent i0)) →
  ∃ mh' i', downLoop fuel mh i n = Ok (mh', i') ∧ moved n mh mh' ∧
    (∀ k, (0 < k < n)%nat → (lo ≤ parent k)%nat → k ≠ i0 → apart (mh_minHeap mh) (mh_data mh') k (parent k)) ∧
    (∀ k, (0 < k < n)%nat → parent k = i0 → (0 < i0)%nat → (lo ≤ parent i0)%nat → apart (mh_minHeap mh) (mh_data mh') k (parent i0)) ∧
    ((i0 < i')%nat → (0 < i0)%nat → (lo ≤ parent i0)%nat → apart (mh_minHeap mh) (mh_data mh') i0 (parent i0)).
Proof.
  revert mh i. induction fuel as [|fuel IH]; intros mh i Hf Hn Hi Hh Hg Hi0; [lia|]. cbn [downLoop].
  set (d := mh_data mh) in *. set (mn := mh_minHeap mh) in *.
  assert ((∀ k, (0 < k < n)%nat → (lo ≤ parent k)%nat → k ≠ i0 → parent k = i → apart mn d k i) →
    ∃ mh' i', Ok (mh, i) = Ok (mh', i') ∧ moved n mh mh' ∧
    (∀ k, (0 < k < n)%nat → (lo ≤ parent k)%nat → k ≠ i0 → apart mn (mh_data mh') k (parent k)) ∧
    (∀ k, (0 < k < n)%nat → parent k = i0 → (0 < i0)%nat → (lo ≤ parent i0)%nat → apart mn (mh_data mh') k (parent i0)) ∧
    ((i0 < i')%nat → (0 < i0)%nat → (lo ≤ parent i0)%nat → apart mn (mh_data mh') i0 (parent i0))) as Hdone.
  { intros Hall. exists mh, i. split; [done|]. split; [apply moved_refl|]. fold d. split_and!; [|intros k Hk Hp H0 Hlo|by apply Hi0].
    - intros k Hk Hlo Hk0. destruct (decide (parent k = i)) as [Hp|Hp]; [rewrite Hp; by apply Hall|by apply Hh].
    - pose proof (parent_lt k ltac:(lia)). destruct (decide (i = i0)) as [->|Hne]; [by apply Hg|].
      apply (apart_trans _ _ _ i0); [lia| |apply Hi0; lia]. rewrite <- Hp. apply Hh; lia. }
  case_decide as Hj1.
  { apply Hdone. intros k Hk _ _ Hp. apply parent_iff in Hp; lia. }
  destruct (lookup_lt_is_Some_2 d i) as [x Hx]; [lia|].
  destruct (lookup_lt_is_Some_2 d (2 * i + 1)) as [y1 Hy1]; [lia|].
  (* the child that belongs above the other *)
  assert (∃ j y, (if decide (2 * i + 1 + 1 < n)%nat then l ← less mh (2 * i + 1) (2 * i + 1 + 1); Ok (if negb l then (2 * i + 1 + 1)%nat else (2 * i + 1)%nat)
    else Ok (2 * i + 1)%nat) = Ok j ∧ (j = 2 * i + 1 ∨ j = 2 * i + 2)%nat ∧ (j < n)%nat ∧ d !! j = Some y ∧
    ∀ k, (0 < k < n)%nat → parent k = i → apart mn d k j) as (j & y & -> & Hj & Hjn & Hy & Hbest).
  { assert (∀ k, apart mn d k k) as Hrefl by (intros k u v Hu Hv; simplify_eq; unfold before; destruct mn; lia).
    case_decide as Hj2.
    - destruct (lookup_lt_is_Some_2 d (2 * i + 1 + 1)) as [y2 Hy2]; [lia|].
      rewrite (less_value _ _ _ y1 y2) by done. cbn [mbind res_bind]. case_bool_decide as Hb; cbn [negb].
      + exists (2 * i + 1)%nat, y1. split_and!; [done|lia|lia|done|]. intros k Hk [->|Hk2]%parent_iff; [done| |lia].
        replace k with (2 * i + 1 + 1)%nat by lia. intros u v Hu Hv. simplify_eq. by apply before_asym.
      + exists (2 * i + 1 + 1)%nat, y2. split_and!; [done|lia|lia|done|]. intros k Hk [->|Hk2]%parent_iff; [| |lia].
        * intros u v Hu Hv. by simplify_eq.
        * by replace k with (2 * i + 1 + 1)%nat by lia.
    - exists (2 * i + 1)%nat, y1. split_and!; [done|lia|lia|done|]. intros k Hk [->|Hk2]%parent_iff; [done|lia|lia]. }
  assert (parent j = i) as Hpj by (apply parent_iff; lia).
  cbn [mbind res_bind]. rewrite (less_value _ _ _ y x) by done. cbn [mbind res_bind]. case_bool_decide as Hb; cbn [negb].
  2: { apply Hdone. intros k Hk _ _ Hp. apply (apart_trans _ _ _ j); [lia|by apply Hbest|]. intros u v Hu Hv. by simplify_eq. }
  destruct (swap_value n mh i j x y) as (mh1 & -> & Hd & Hm); [done|done|lia|lia|]. cbn [mbind res_bind].
  destruct (IH mh1 j) as (mh' & i' & E & Hm' & H1 & H2 & H3); rewrite ?(moved_length _ _ _ Hm), ?(mv_min _ _ _ Hm), ?Hd; [lia|done|lia|..].
  - intros k Hk Hlo Hk0 Hkp. rewrite (apart_swap _ _ _ _ x y) by (done || lia). rewrite (decide_False (P := parent k = j)) by done.
    destruct (decide (k = j)) as [->|Hkj].
    + rewrite Hpj, decide_True by done. intros u v Hu Hv. fold d in Hu, Hv. simplify_eq. by apply before_asym.
    + destruct (decide (k = i)) as [->|Hki].
      * pose proof (parent_lt i ltac:(lia)). rewrite decide_False by lia. apply Hg; [lia|done|lia|done].
      * destruct (decide (parent k = i)) as [Hpi|Hpi]; [by apply Hbest|by apply Hh].
  - intros k Hk Hkp H0 Hlo. rewrite (apart_swap _ _ _ _ x y) by (done || lia). pose proof (parent_lt k ltac:(lia)).
    rewrite (decide_False (P := k = j)) by lia. rewrite (decide_False (P := k = i)) by lia. rewrite Hpj.
    rewrite (decide_False (P := i = j)), decide_True by (done || lia). rewrite <- Hkp. apply Hh; lia.
  - intros Hij H0 Hlo. rewrite (apart_swap _ _ _ _ x y) by (done || lia). pose proof (parent_lt i0 H0).
    rewrite (decide_False (P := i0 = j)) by lia. rewrite (decide_False (P := parent i0 = j)), (decide_False (P := parent i0 = i)) by lia.
    destruct (decide (i0 = i)) as [->|]; [apply Hg; [lia|done|done|done]|apply Hi0; lia].
  - rewrite (mv_min _ _ _ Hm) in H1, H2, H3. exists mh', i'. split; [done|]. split; [by eapply moved_trans|]. done.
Qed.
End sift.

(** ** The heap as a map *)

(** The heap holds the elements of its map once each, in heap order, knows
    where they are, and its size is the sum of theirs. *)
Record heap_ok (mh : mapHeap) : Prop := {
  ho_ids : ∀ id e, mh_selectID mh !! id = Some e → me_id e = id;
  ho_data : mh_data mh ≡ₚ (map_to_list (mh_selectID mh)).*2;
  ho_index : ∀ i e, mh_data mh !! i = Some e → mh_index mh !! me_id e = Some i;
  ho_heaped : heaped (mh_minHeap mh) (length (mh_data mh)) (mh_data mh);
  ho_size : mh_size mh = u64 (map_sumZ (λ e, ss_size (me_set e)) (mh_selectID mh));
}.

Definition emptyHeap (mn : bool) : mapHeap := mkMH ∅ [] ∅ 0 mn.
Lemma emptyHeap_ok mn : heap_ok (emptyHeap mn).
Proof. split; cbn; [done|by rewrite map_to_list_empty|done| |by rewrite map_sumZ_empty]. intros j Hj. cbn in Hj. lia. Qed.

Section heap.
Implicit Types mh : mapHeap.

Lemma heap_elem mh e : heap_ok mh → e ∈ mh_data mh ↔ mh_selectID mh !! me_id e = Some e.
Proof.
  intros H. rewrite (ho_data _ H), list_elem_of_fmap. split.
  - intros ([id x] & -> & Hx%elem_of_map_to_list). cbn. by rewrite (ho_ids _ H _ _ Hx).
  - intros He. exists (me_id e, e). split; [done|]. by apply elem_of_map_to_list.
Qed.

Lemma heap_lookup mh id e : heap_ok mh → mh_selectID mh !! id = Some e → e ∈ mh_data mh ∧ me_id e = id.
Proof. intros H He. pose proof (ho_ids _ H _ _ He) as <-. split; [by apply heap_elem|done]. Qed.

Lemma heap_NoDup mh : heap_ok mh → NoDup (me_id <$> mh_data mh).
Proof.
  intros H. rewrite (ho_data _ H), <- list_fmap_compose.
  assert (me_id ∘ snd <$> map_to_list (mh_selectID mh) = (map_to_list (mh_selectID mh)).*1) as E.
  { apply list_fmap_ext. intros i [id e] Hi%list_elem_of_lookup_2%elem_of_map_to_list. cbn. by apply (ho_ids _ H). }
  rewrite E. apply NoDup_fst_map_to_list.
Qed.

Lemma heap_index_ok mh : heap_ok mh → index_ok mh.
Proof. intros H. split; [by apply heap_NoDup|apply H]. Qed.

Lemma heap_peek mh :
  heap_ok mh →
  match peek mh with
  | None => mh_selectID mh = ∅
  | Some e => mh_selectID mh !! me_id e = Some e ∧
      ∀ id e', mh_selectID mh !! id = Some e' → ¬ before (mh_minHeap mh) e' e
  end.
Proof.
  intros H. unfold peek. destruct (mh_data mh !! 0%nat) as [e|] eqn:E.
  - split; [by eapply heap_elem, list_elem_of_lookup_2|]. intros id e' He'. apply heap_lookup in He' as [[j Hj]%list_elem_of_lookup _]; [|done].
    apply (heaped_top _ _ _ j (ho_heaped _ H)); [done|by eapply lookup_lt_Some|done|done].
  - apply map_empty. intros id. destruct (mh_selectID mh !! id) as [e|] eqn:He; [|done].
    apply heap_lookup in He as [[j Hj]%list_elem_of_lookup _]; [|done]. apply lookup_ge_None in E. apply lookup_lt_Some in Hj. lia.
Qed.

(** Elements that were moved around in a heap that holds those of [m]. *)
Lemma heap_ok_moved n mh mh' :
  heap_ok mh → moved n mh mh' → heaped (mh_minHeap mh) (length (mh_data mh)) (mh_data mh') → heap_ok mh'.
Proof.
  intros H Hm Hh. pose proof (moved_length _ _ _ Hm) as Hl. destruct Hm. split.
  - rewrite mv_select0. apply H.
  - rewrite mv_select0, mv_perm0. apply H.
  - apply mv_index0. by apply heap_index_ok.
  - by rewrite Hl, mv_min0.
  - rewrite mv_size0, mv_select0. apply H.
Qed.

Lemma push_spec mh e :
  heap_ok mh → mh_selectID mh !! me_id e = None →
  ∃ mh', push mh e = Ok mh' ∧ heap_ok mh' ∧ mh_selectID mh' = <[me_id e := e]> (mh_selectID mh) ∧
    mh_minHeap mh' = mh_minHeap mh.
Proof.
  intros H Hnew. unfold push, up. set (mh1 := mkMH _ _ _ _ _). set (n := length (mh_data mh)).
  assert (index_ok mh1) as Hidx.
  { split; cbn.
    - rewrite fmap_app. cbn. apply NoDup_app. split_and!; [by apply heap_NoDup| |apply NoDup_singleton].
      intros id (e' & -> & He')%list_elem_of_fmap Heq%list_elem_of_singleton. apply heap_elem in He'; [|done]. congruence.
    - intros i x [Hx|[Hi Hx]]%lookup_app_Some.
      + rewrite lookup_insert_ne; [by apply H|]. intros E. apply list_elem_of_lookup_2, heap_elem in Hx; [|done]. congruence.
      + apply list_lookup_singleton_Some in Hx as [Hi' <-]. rewrite lookup_insert_eq. f_equal. unfold n in *. lia. }
  destruct (upLoop_spec (S n) (S n) mh1 n) as (mh' & E & Hm & Hh); [lia|lia| | | |].
  - cbn. rewrite length_app. cbn. unfold n. lia.
  - cbn [mh_data mh_minHeap mh1]. intros k Hk Hkn x y Hx Hy. assert (k < n)%nat by lia. pose proof (parent_lt k ltac:(lia)).
    rewrite lookup_app_l in Hx, Hy by (unfold n in *; lia). apply (ho_heaped _ H k); [unfold n in *; lia|done|done].
  - intros k Hk Hkp. pose proof (parent_lt k ltac:(lia)). lia.
  - exists mh'. split; [done|]. destruct Hm. cbn in *. split; [|done]. split.
    + rewrite mv_select0. intros id x [[<- <-]|[_ Hx]]%lookup_insert_Some; [done|by apply (ho_ids _ H)].
    + rewrite mv_perm0, mv_select0, map_to_list_insert by done. cbn. rewrite (ho_data _ H). symmetry. apply Permutation_cons_append.
    + apply mv_index0. done.
    + rewrite (Permutation_length mv_perm0), mv_min0, length_app. cbn. rewrite Nat.add_1_r. done.
    + rewrite mv_size0, mv_select0, map_sumZ_insert by done. rewrite (ho_size _ H). unfold u64. rewrite Zplus_mod_idemp_l. f_equal. lia.
Qed.

(** Taking out the last element, when the others are a heap. *)
Lemma takeLast_spec mh0 mh n e :
  heap_ok mh0 → moved (S n) mh0 mh → length (mh_data mh0) = S n → mh_data mh !! n = Some e →
  heaped (mh_minHeap mh0) n (mh_data mh) →
  ∃ mh', takeLast mh n = Ok (mh', e) ∧ heap_ok mh' ∧ mh_selectID mh0 !! me_id e = Some e ∧
    mh_selectID mh' = delete (me_id e) (mh_selectID mh0) ∧ mh_minHeap mh' = mh_minHeap mh0.
Proof.
  intros H Hm Hlen He Hh. pose proof (moved_length _ _ _ Hm) as Hlen'.
  pose proof (mv_index _ _ _ Hm (heap_index_ok _ H)) as [Hnd Hidx]. destruct Hm as [Hs Hz Hmn Hp _ _].
  unfold takeLast, elem_at. rewrite He. cbn [mbind res_bind]. eexists. split; [reflexivity|].
  assert (mh_selectID mh0 !! me_id e = Some e) as Hsel by (apply heap_elem; [done|]; rewrite <- Hp; by eapply list_elem_of_lookup_2).
  assert (mh_data mh = take n (mh_data mh) ++ [e]) as Hsplit.
  { rewrite <- (take_drop n (mh_data mh)) at 1. f_equal. rewrite (drop_S _ e) by done. f_equal. apply drop_ge. lia. }
  assert (length (take n (mh_data mh)) = n) as Hlt by (rewrite length_take; lia).
  split; [|by cbn; rewrite Hs]. split; cbn.
  - rewrite Hs. intros id x [_ Hx]%lookup_delete_Some. by apply (ho_ids _ H).
  - rewrite Hs. apply (Permutation_cons_inv (a := e)).
    rewrite Permutation_cons_append, <- Hsplit, Hp, (ho_data _ H).
    rewrite <- (insert_delete_id (mh_selectID mh0) (me_id e) e) at 1 by done. rewrite map_to_list_insert by (apply lookup_delete_eq). done.
  - intros i x Hx. apply Hidx. apply lookup_take_Some in Hx as [? _]. done.
  - rewrite Hlt, Hmn. intros j Hj x y Hx Hy. apply lookup_take_Some in Hx as [Hx _], Hy as [Hy _]. by apply (Hh j).
  - rewrite Hz, Hs, (ho_size _ H). rewrite (map_sumZ_delete _ _ _ _ Hsel). unfold u64. rewrite Zminus_mod_idemp_l. f_equal. lia.
Qed.

(** [swap] with the last element and [down]: the rest is a heap but for [i] and
    its parent. *)
Lemma swap_down_spec mh i n x y :
  heap_ok mh → length (mh_data mh) = S n → (i < S n)%nat → mh_data mh !! i = Some x → mh_data mh !! n = Some y →
  ∃ mh1 mh2 b, swap mh i n = Ok mh1 ∧ down mh1 i n = Ok (mh2, b) ∧ moved (S n) mh mh2 ∧ mh_data mh2 !! n = Some x ∧
    (∀ k, (0 < k < n)%nat → k ≠ i → apart (mh_minHeap mh) (mh_data mh2) k (parent k)) ∧
    (∀ k, (0 < k < n)%nat → parent k = i → (0 < i)%nat → apart (mh_minHeap mh) (mh_data mh2) k (parent i)).
Proof.
  intros H Hlen Hi Hx Hy. destruct (swap_value (S n) mh i n x y) as (mh1 & E1 & Hd & Hm); [done|done|done|lia|].
  assert (∀ k k', (k < n)%nat → (k' < n)%nat → k ≠ i → k' ≠ i → apart (mh_minHeap mh) (mh_data mh) k k' → apart (mh_minHeap mh) (mh_data mh1) k k') as Hk1.
  { intros k k' Hk Hk' Hki Hki' Ha u v. rewrite Hd, !(lookup_swap _ _ _ x y) by done. rewrite !decide_False by lia. apply Ha. }
  assert (∀ k, (0 < k < n)%nat → apart (mh_minHeap mh) (mh_data mh) k (parent k)) as Hh by (intros k Hk; apply (ho_heaped _ H); lia).
  pose proof (moved_length _ _ _ Hm) as Hlen1.
  destruct (downLoop_spec n 0 i (S n) mh1 i) as (mh2 & i' & E2 & Hm2 & H1 & H2 & _); rewrite ?(mv_min _ _ _ Hm); [lia|lia|lia|..|lia|].
  - intros k Hk _ Hki Hpi. pose proof (parent_lt k ltac:(lia)). apply Hk1; [lia|lia|done|done|by apply Hh].
  - intros k Hk Hpi H0 _. pose proof (parent_lt k ltac:(lia)). pose proof (parent_lt i H0).
    apply Hk1; [lia|lia|lia|lia|]. apply (apart_trans _ _ _ i); [lia| |apply Hh; lia]. rewrite <- Hpi. by apply Hh.
  - rewrite (mv_min _ _ _ Hm) in H1, H2. exists mh1, mh2, (bool_decide (i < i')%nat). split; [done|].
    split; [unfold down; by rewrite E2|]. split; [eapply moved_trans; [exact Hm|]; eapply moved_weaken; [|exact Hm2]; lia|].
    split; [|split].
    + rewrite (mv_rest _ _ _ Hm2) by done. rewrite Hd, (lookup_swap _ _ _ x y) by done. by rewrite decide_True.
    + intros k Hk Hki. apply H1; [done|lia|done].
    + intros k Hk Hpi H0. apply H2; [done|done|done|lia].
Qed.

Lemma nonempty_length mh id : heap_ok mh → is_Some (mh_selectID mh !! id) → ∃ n, length (mh_data mh) = S n.
Proof.
  intros H [e [He _]%heap_lookup]; [|done]. destruct (mh_data mh) as [|x l]; [by apply elem_of_nil in He|]. by exists (length l).
Qed.

Lemma pop_spec mh :
  heap_ok mh → mh_selectID mh ≠ ∅ →
  ∃ mh' e, pop mh = Ok (mh', e) ∧ heap_ok mh' ∧ peek mh = Some e ∧ mh_selectID mh !! me_id e = Some e ∧
    mh_selectID mh' = delete (me_id e) (mh_selectID mh) ∧ mh_minHeap mh' = mh_minHeap mh.
Proof.
  intros H Hne. apply map_choose in Hne as (id & e0 & He0). destruct (nonempty_length mh id) as [n Hn]; [done|by eexists|].
  unfold pop, mh_len. rewrite Hn. replace (S n - 1)%nat with n by lia.
  destruct (lookup_lt_is_Some_2 (mh_data mh) 0) as [x Hx]; [lia|].
  destruct (lookup_lt_is_Some_2 (mh_data mh) n) as [y Hy]; [lia|].
  destruct (swap_down_spec mh 0 n x y) as (mh1 & mh2 & b & -> & E2 & Hm & Hlast & H1 & _); [done|done|lia|done|done|].
  cbn [mbind res_bind]. rewrite E2. cbn [mbind res_bind].
  destruct (takeLast_spec mh mh2 n x) as (mh' & E & Hok & Hsel & Hs & Hmn); [done|done|done|done|intros k Hk; apply H1; lia|].
  exists mh', x. by split_and!.
Qed.

Lemma remove_spec mh i e :
  heap_ok mh → mh_data mh !! i = Some e →
  ∃ mh', remove mh i = Ok (mh', e) ∧ heap_ok mh' ∧
    mh_selectID mh' = delete (me_id e) (mh_selectID mh) ∧ mh_minHeap mh' = mh_minHeap mh.
Proof.
  intros H He. pose proof (lookup_lt_Some _ _ _ He) as Hi. destruct (length (mh_data mh)) as [|n] eqn:Hn; [lia|].
  unfold remove, mh_len. rewrite Hn. replace (S n - 1)%nat with n by lia. case_decide as Hni.
  - destruct (lookup_lt_is_Some_2 (mh_data mh) n) as [y Hy]; [lia|].
    destruct (swap_down_spec mh i n e y) as (mh1 & mh2 & b & -> & E2 & Hm & Hlast & H1 & H2); [done|done|lia|done|done|].
    cbn [mbind res_bind]. rewrite E2. cbn [mbind res_bind]. unfold up. pose proof (moved_length _ _ _ Hm).
    destruct (upLoop_spec n (S i) mh2 i) as (mh3 & -> & Hm3 & Hh); rewrite ?(mv_min _ _ _ Hm); [lia|lia|lia|done|done|]. cbn [mbind res_bind].
    rewrite (mv_min _ _ _ Hm) in Hh.
    destruct (takeLast_spec mh mh3 n e) as (mh' & E & Hok & _ & Hs & Hmn); [done| |done| |done|by exists mh'].
    + eapply moved_trans; [exact Hm|]. eapply moved_weaken; [|exact Hm3]. lia.
    + by rewrite (mv_rest _ _ _ Hm3).
  - subst i. cbn [mbind res_bind].
    destruct (takeLast_spec mh mh n e) as (mh' & E & Hok & _ & Hs & Hmn); [done|apply moved_refl|done|done| |by exists mh'].
    intros k Hk. apply (ho_heaped _ H). lia.
Qed.

Lemma removeSetByID_spec mh id e :
  heap_ok mh → mh_selectID mh !! id = Some e →
  ∃ mh', removeSetByID mh id = Ok (mh', e) ∧ heap_ok mh' ∧
    mh_selectID mh' = delete id (mh_selectID mh) ∧ mh_minHeap mh' = mh_minHeap mh.
Proof.
  intros H He. unfold removeSetByID. rewrite He. pose proof (heap_lookup _ _ _ H He) as [[i Hi]%list_elem_of_lookup <-].
  rewrite (ho_index _ H _ _ Hi). by apply remove_spec.
Qed.

(** [init] orders any list. *)
Lemma init_spec mh :
  ∃ mh', init mh = Ok mh' ∧ moved (mh_len mh) mh mh' ∧ heaped (mh_minHeap mh) (mh_len mh) (mh_data mh').
Proof.
  unfold init. set (n := mh_len mh).
  assert (∀ m mh0, moved n mh mh0 →
    (∀ k, (0 < k < n)%nat → (m ≤ parent k)%nat → apart (mh_minHeap mh) (mh_data mh0) k (parent k)) →
    ∃ mh', foldM (λ mh i, '(mh, _) ← down mh i n; Ok mh) mh0 (rev (seq 0 m)) = Ok mh' ∧ moved n mh mh' ∧
      heaped (mh_minHeap mh) n (mh_data mh')) as Hloop.
  { induction m as [|m IH]; intros mh0 Hm Hh.
    - exists mh0. split; [done|]. split; [done|]. intros k Hk. apply Hh; [done|lia].
    - rewrite seq_S, rev_app_distr. cbn [rev app foldM Nat.add].
      pose proof (moved_length _ _ _ Hm) as Hl. fold (mh_len mh) n in Hl.
      destruct (downLoop_spec n m m (S n) mh0 m) as (mh1 & i' & E & Hm1 & H1 & _); rewrite ?(mv_min _ _ _ Hm); [lia|lia|lia|..].
      + intros k Hk Hlo _ Hne. apply Hh; [done|lia].
      + intros k Hk Hp H0 Hlo. pose proof (parent_lt m H0). lia.
      + lia.
      + assert (down mh0 m n = Ok (mh1, bool_decide (m < i')%nat)) as -> by (unfold down; by rewrite E).
        cbn [mbind res_bind]. rewrite (mv_min _ _ _ Hm) in H1. apply IH; [by eapply moved_trans|].
        intros k Hk Hlo. apply H1; [done|done|]. intros ->. pose proof (parent_lt m ltac:(lia)). lia. }
  apply Hloop; [apply moved_refl|]. intros k Hk Hlo. exfalso.
  pose proof (proj1 (parent_iff (parent k) k ltac:(lia)) eq_refl). pose proof (Nat.div_mod_eq n 2). pose proof (Nat.mod_upper_bound n 2). lia.
Qed.

(** [fix] repairs a heap in which the element at [i] was replaced. *)
Lemma fix_spec mh i d x :
  heaped (mh_minHeap mh) (length d) d → mh_data mh = <[i := x]> d → (i < length d)%nat →
  ∃ mh', fix_ mh i = Ok mh' ∧ moved (mh_len mh) mh mh' ∧ heaped (mh_minHeap mh) (mh_len mh) (mh_data mh').
Proof.
  intros Hh Hd Hi. unfold fix_, mh_len, down. rewrite Hd, length_insert. set (n := length d) in *.
  assert (∀ k k', k ≠ i → k' ≠ i → apart (mh_minHeap mh) d k k' → apart (mh_minHeap mh) (mh_data mh) k k') as Hne.
  { intros k k' Hk Hk' Ha u v. rewrite Hd, !list_lookup_insert_ne by done. apply Ha. }
  destruct (downLoop_spec n 0 i (S n) mh i) as (mh1 & i' & -> & Hm1 & H1 & H2 & H3); [lia|rewrite Hd, length_insert; lia|lia|..|lia|].
  - intros k Hk _ Hki Hpi. apply Hne; [done|done|by apply Hh].
  - intros k Hk Hpi H0 _. pose proof (parent_lt k ltac:(lia)). pose proof (parent_lt i H0).
    apply Hne; [lia|lia|]. apply (apart_trans _ _ _ i); [done| |apply Hh; lia]. rewrite <- Hpi. by apply Hh.
  - cbn [mbind res_bind]. case_bool_decide as Hb; cbn [negb].
    + exists mh1. split; [done|]. split; [done|]. intros k Hk. destruct (decide (k = i)) as [->|]; [apply H3; lia|apply H1; lia].
    + unfold up. destruct (upLoop_spec n (S i) mh1 i) as (mh2 & E & Hm2 & Hh2); rewrite ?(mv_min _ _ _ Hm1); [lia|done| | | |].
      * rewrite (moved_length _ _ _ Hm1), Hd, length_insert. done.
      * intros k Hk Hki. apply H1; lia.
      * intros k Hk Hp H0. apply H2; lia.
      * rewrite (mv_min _ _ _ Hm1) in Hh2. exists mh2. split; [done|]. split; [by eapply moved_trans|done].
Qed.
End heap.

(** ** Theorem *)

(** C26: A heap of the miner implements a finite map from ids to sets of which
    the first in fee order can be read off: with [heap_ok], [push] of a new id
    inserts it, [removeSetByID] of a known id returns its element and deletes
    it, [peek] is empty exactly for the empty map, and otherwise [peek] and [pop]
    return an element that no other one belongs above (in a min-heap none pays
    less, in a max-heap none pays more), which [pop] deletes; every operation
    returns, keeps [heap_ok], and leaves the size of the heap equal to the sum of
    the sizes of its sets, as a 64-bit number. *)
Theorem heap_refines_map (mh : mapHeap) :
  heap_ok mh →
  mh_size mh = u64 (map_sumZ (λ e, ss_size (me_set e)) (mh_selectID mh)) ∧
  (∀ e, mh_selectID mh !! me_id e = None →
    ∃ mh', push mh e = Ok mh' ∧ heap_ok mh' ∧ mh_selectID mh' = <[me_id e := e]> (mh_selectID mh)) ∧
  (∀ id e, mh_selectID mh !! id = Some e →
    ∃ mh', removeSetByID mh id = Ok (mh', e) ∧ heap_ok mh' ∧ mh_selectID mh' = delete id (mh_selectID mh)) ∧
  match peek mh with
  | None => mh_selectID mh = ∅
  | Some e => mh_selectID mh !! me_id e = Some e ∧
      (∀ id e', mh_selectID mh !! id = Some e' →
        if mh_minHeap mh then ss_averageFee (me_set e) ≤ ss_averageFee (me_set e')
        else ss_averageFee (me_set e') ≤ ss_averageFee (me_set e)) ∧
      ∃ mh', pop mh = Ok (mh', e) ∧ heap_ok mh' ∧ mh_selectID mh' = delete (me_id e) (mh_selectID mh)
  end.
Proof.
  intros H. split; [apply H|]. split; [|split].
  - intros e He. destruct (push_spec mh e H He) as (mh' & ? & ? & ? & _). eauto.
  - intros id e He. destruct (removeSetByID_spec mh id e H He) as (mh' & ? & ? & ? & _). eauto.
  - pose proof (heap_peek mh H) as Hp. destruct (peek mh) as [e|] eqn:E; [|done]. destruct Hp as [He Hmin]. split; [done|]. split.
    + intros id e' He'. specialize (Hmin id e' He'). unfold before in Hmin. destruct (mh_minHeap mh); unfold me_fee in Hmin; lia.
    + destruct (pop_spec mh H) as (mh' & e1 & ? & ? & Hp1 & _ & ? & _); [intros E0; by rewrite E0 in He|]. simplify_eq. eauto.
Qed.

Module example_heap.
Definition elem (id fee : Z) : mapElement := mkME (mkSS fee (100 * id) []) id.
Definition get (r : res mapHeap) : mapHeap := match r with Ok mh => mh | _ => emptyHeap true end.
Definition three : mapHeap := get (foldM push (emptyHeap true) [elem 1 30; elem 2 10; elem 3 20]).
Lemma three_ok : heap_ok three.
Proof.
  assert (∃ mh, foldM push (emptyHeap true) [elem 1 30; elem 2 10; elem 3 20] = Ok mh ∧ heap_ok mh) as (mh & E & H); [|unfold three; by rewrite E].
  destruct (push_spec (emptyHeap true) (elem 1 30) (emptyHeap_ok true)) as (h1 & E1 & Ok1 & S1 & _); [done|].
  destruct (push_spec h1 (elem 2 10) Ok1) as (h2 & E2 & Ok2 & S2 & _); [rewrite S1; vm_compute; reflexivity|].
  destruct (push_spec h2 (elem 3 20) Ok2) as (h3 & E3 & Ok3 & S3 & _); [rewrite S2, S1; vm_compute; reflexivity|].
  exists h3. split; [|done]. cbn [foldM]. rewrite E1. cbn [mbind res_bind]. rewrite E2. cbn [mbind res_bind]. by rewrite E3.
Qed.
End example_heap.

(** Three sets in a min-heap: the cheapest is on top. *)
Lemma heap_refines_map_witness :
  mh_size example_heap.three = 600 ∧ peek example_heap.three = Some (example_heap.elem 2 10) ∧
  ∃ mh', pop example_heap.three = Ok (mh', example_heap.elem 2 10) ∧ heap_ok mh'.
Proof.
  destruct (heap_refines_map example_heap.three example_heap.three_ok) as (Hs & _ & _ & Hp).
  split; [rewrite Hs; vm_compute; reflexivity|]. assert (peek example_heap.three = Some (example_heap.elem 2 10)) as E by (vm_compute; reflexivity).
  rewrite E in Hp. split; [exact E|]. destruct Hp as (_ & _ & mh' & H1 & H2 & _). exists mh'. split; [exact H1|exact H2].
Defined.
