(* ===== verification/Miner.v ===== *)
(** * The miner

    Models [modules/miner]: the selection of transaction sets for the next
    block (update.go, over the heaps of [SplitSetHeap]), the blocks and headers
    given out for work and the blocks that come back (blockmanager.go), block
    solving (testminer.go), and the state of miner.go and persist.go.

    The wallet's answers, the clock and random bytes are arguments.  Source blocks
    are shared: [m.sourceBlock] and the entries of [m.blockMem] are pointers, and
    [HeaderForWork] writes to the block that all of them point to; they are
    numbers here that refer to [m_store]. *)

From S2P Require Import Prelude Encoding Currency Target Crypto Types Codec Block Signatures ConsensusDB BlockValidation Changelog MapRange Standard FindSets TransactionPool SplitSetHeap.
#[local] Open Scope Z_scope.

#[export] Instance BlockHeader_eq_dec : EqDecision BlockHeader.
Proof. solve_decision. Defined.
#[export] Instance BlockHeader_countable : Countable BlockHeader.
Proof.
  refine (inj_countable' (λ h, (bh_ParentID h, bh_Nonce h, bh_Timestamp h, bh_MerkleRoot h))
    (λ '(p, n, t, r), mkHeader p n t r) _). by intros [].
Defined.

(** ** State *)

(** persist.go *)
Record persistence := mkPersist {
  mp_RecentChange : ConsensusChangeID;
  mp_Height : BlockHeight;
  mp_Target : Target;
  mp_Address : UnlockHash;
  mp_BlocksFound : list BlockID;
  mp_UnsolvedBlock : Block;
}.

(** The transactions of the miner: the second group of fields of [Miner]. *)
Record selection := mkSel {
  s_fullSets : gmap TransactionSetID (list Z);
  s_blockMapHeap : mapHeap;
  s_overflowMapHeap : mapHeap;
  s_setCounter : Z;
  s_splitSets : gmap splitSetID splitSet;
  s_splitSetIDFromTxID : gmap TransactionID splitSetID;
  s_unsolvedBlockIndex : gmap TransactionID nat;
  (** [m.persist.UnsolvedBlock.Transactions] *)
  s_txns : list Transaction;
}.

(** The block manager: the first group of fields. *)
Record blockManager := mkBM {
  bm_store : gmap nat Block;
  bm_blockMem : gmap BlockHeader nat;
  bm_arbDataMem : gmap BlockHeader (list byte);
  bm_headerMem : list BlockHeader;
  bm_sourceBlock : option nat;
  (** [None] is the zero time *)
  bm_sourceBlockTime : option Z;
  bm_memProgress : nat;
}.

Record Miner := mkMiner {
  m_work : blockManager;
  m_sel : selection;
  m_persist : persistence;
}.

Definition set_blockMapHeap (h : mapHeap) (s : selection) : selection :=
  mkSel (s_fullSets s) h (s_overflowMapHeap s) (s_setCounter s) (s_splitSets s) (s_splitSetIDFromTxID s) (s_unsolvedBlockIndex s) (s_txns s).
Definition set_overflowMapHeap (h : mapHeap) (s : selection) : selection :=
  mkSel (s_fullSets s) (s_blockMapHeap s) h (s_setCounter s) (s_splitSets s) (s_splitSetIDFromTxID s) (s_unsolvedBlockIndex s) (s_txns s).
Definition set_txns (txns : list Transaction) (index : gmap TransactionID nat) (s : selection) : selection :=
  mkSel (s_fullSets s) (s_blockMapHeap s) (s_overflowMapHeap s) (s_setCounter s) (s_splitSets s) (s_splitSetIDFromTxID s) index txns.
Definition set_sets (full : gmap TransactionSetID (list Z)) (counter : Z) (split : gmap splitSetID splitSet)
    (fromTx : gmap TransactionID splitSetID) (s : selection) : selection :=
  mkSel full (s_blockMapHeap s) (s_overflowMapHeap s) counter split fromTx (s_unsolvedBlockIndex s) (s_txns s).

(** ** Constants (miner.go), by build *)

Section constants.
Context `{N : Net}.
Definition BlockMemory : nat := match build_Release with standard => 50 | dev => 10 | testing => 5 end.
Definition HeaderMemory : nat := Z.to_nat (match build_Release with standard => 10000 | dev => 500 | testing => 50 end).
(** in nanoseconds *)
Definition MaxSourceBlockAge : Z := match build_Release with standard => 30 | dev => 5 | testing => 1 end * 10 ^ 9.
End constants.

(** The block may be filled up to this size. *)
Definition fillLimit : Z := BlockSizeLimit - 5000.

(** ** Selecting transactions (update.go) *)

Section select.
Context `{MO : MapOrder} `{C : Crypto}.

(** [l[i] = x] *)
Definition go_set {A} (l : list A) (i : nat) (x : A) : res (list A) :=
  if (i <? length l)%nat then Ok (<[i := x]> l) else Panic.

(** Returns the id of the transaction that was last in the block. *)
Definition removeTxFromUnsolvedBlock (s : selection) (id : TransactionID) : res (selection * TransactionID) :=
  let index := default 0%nat (s_unsolvedBlockIndex s !! id) in
  let length := len (s_txns s) in
  let indices := delete id (s_unsolvedBlockIndex s) in
  if Z.of_nat index =? length - 1 then
    Ok (set_txns (take (Z.to_nat (length - 1)) (s_txns s)) indices s, id)
  else
    lastTx ← go_index (s_txns s) (length - 1);
    let lastTxID := Transaction_ID lastTx in
    txns ← go_set (s_txns s) index lastTx;
    Ok (set_txns (take (Z.to_nat (length - 1)) txns) (<[lastTxID := index]> indices) s, lastTxID).

(** The positions in the block are sorted and the transactions of the set put
    there in the order of the set. *)
Definition placeTxns (s : selection) (l : list (Transaction * nat)) : res selection :=
  foldM (λ s '(tx, expectedIndex),
    let index := default 0%nat (s_unsolvedBlockIndex s !! Transaction_ID tx) in
    if decide (index ≠ expectedIndex) then
      txns ← go_set (s_txns s) expectedIndex tx;
      Ok (set_txns txns (<[Transaction_ID tx := expectedIndex]> (s_unsolvedBlockIndex s)) s)
    else Ok s) s l.

Definition fixSplitSetOrdering (s : selection) (id : splitSetID) : res selection :=
  match s_splitSets s !! id with
  | None => Panic
  | Some set =>
      let setTxs := ss_transactions set in
      if (length setTxs <? 2)%nat then Ok s else
      let setTxIndices := map (λ tx, default 0%nat (s_unsolvedBlockIndex s !! Transaction_ID tx)) setTxs in
      placeTxns s (zip setTxs (merge_sort le setTxIndices))
  end.

Definition removeTxns (s : selection) (transactions : list Transaction) : res (selection * gset TransactionID) :=
  foldM (λ '(s, swappedTxs) tx,
    '(s, txID) ← removeTxFromUnsolvedBlock s (Transaction_ID tx);
    Ok (s, {[txID]} ∪ swappedTxs)) (s, ∅) transactions.

Definition fixStep (id : splitSetID) (acc : selection * gset splitSetID) (txID : TransactionID) : res (selection * gset splitSetID) :=
  let '(s, setsFixed) := acc in
  let setID := default 0 (s_splitSetIDFromTxID s !! txID) in
  if decide (setID ∈ setsFixed) then Ok (s, setsFixed)
  else if setID =? id then Ok (s, setsFixed)
  else
    s ← fixSplitSetOrdering s setID;
    Ok (s, {[setID]} ∪ setsFixed).
Definition fixOrderings (s : selection) (id : splitSetID) (swappedTxs : list TransactionID) : res (selection * gset splitSetID) :=
  foldM (fixStep id) (s, ∅) swappedTxs.

Definition removeSplitSetFromUnsolvedBlock (at_ : position) (s : selection) (id : splitSetID) : res selection :=
  match s_splitSets s !! id with
  | None => Panic
  | Some set =>
      '(s, swappedTxs) ← removeTxns s (ss_transactions set);
      '(s, _) ← fixOrderings s id (range_keys at_ swappedTxs);
      Ok s
  end.

Definition appendTxns (s : selection) (transactions : list Transaction) : selection :=
  foldl (λ s tx, set_txns (s_txns s ++ [tx]) (<[Transaction_ID tx := length (s_txns s)]> (s_unsolvedBlockIndex s)) s) s transactions.

Definition pushToBlock (s : selection) (elem : mapElement) : res selection :=
  h ← push (s_blockMapHeap s) elem;
  Ok (appendTxns (set_blockMapHeap h s) (ss_transactions (me_set elem))).

Definition pushToOverflow (s : selection) (elem : mapElement) : res selection :=
  h ← push (s_overflowMapHeap s) elem;
  Ok (set_overflowMapHeap h s).

Definition popFromBlock (at_ : position) (s : selection) : res (selection * mapElement) :=
  '(h, elem) ← pop (s_blockMapHeap s);
  s ← removeSplitSetFromUnsolvedBlock at_ (set_blockMapHeap h s) (me_id elem);
  Ok (s, elem).

Definition popFromOverflow (s : selection) : res (selection * mapElement) :=
  '(h, elem) ← pop (s_overflowMapHeap s);
  Ok (set_overflowMapHeap h s, elem).

Definition peekAtBlock (s : selection) : option mapElement := peek (s_blockMapHeap s).
Definition peekAtOverflow (s : selection) : option mapElement := peek (s_overflowMapHeap s).

(** The loop of [addMapElementTxns].  [averageFeeOfBottomSets] is declared again
    inside the loop, so the variable outside, which the next round reads, stays
    zero. *)
Fixpoint makeRoom (fuel : nat) (at_ : position) (s : selection) (elem : mapElement) (bottomSets : list mapElement)
    (sizeOfBottomSets : Z) : res selection :=
  match fuel with
  | O => Panic
  | S fuel =>
      let candidateSet := me_set elem in
      let averageFeeOfBottomSets := ZeroCurrency in
      if u64 (u64 (mh_size (s_blockMapHeap s) - sizeOfBottomSets) + ss_size candidateSet) <? fillLimit then
        s ← pushToBlock s elem;
        foldM pushToOverflow s bottomSets
      else
        match peek (s_blockMapHeap s) with
        | None =>
            s ← pushToOverflow s elem;
            foldM pushToBlock s bottomSets
        | Some _ =>
            '(s, nextSet) ← popFromBlock (0%nat :: at_) s;
            let bottomSets := bottomSets ++ [nextSet] in
            let totalFeeFromNextSet := Currency_Mul64 (ss_averageFee (me_set nextSet)) (ss_size (me_set nextSet)) in
            let totalBottomFees := Currency_Add (Currency_Mul64 averageFeeOfBottomSets sizeOfBottomSets) totalFeeFromNextSet in
            let sizeOfBottomSets := u64 (sizeOfBottomSets + ss_size (me_set nextSet)) in
            averageFee ← Currency_Div64 totalBottomFees sizeOfBottomSets;
            if Currency_Cmp averageFee (ss_averageFee candidateSet) =? 1 then
              s ← pushToOverflow s elem;
              foldM pushToBlock s bottomSets
            else makeRoom fuel (1%nat :: at_) s elem bottomSets sizeOfBottomSets
        end
  end.

(** Every round takes an element out of the heap of the block. *)
Definition addMapElementTxns (at_ : position) (s : selection) (elem : mapElement) : res selection :=
  if u64 (mh_size (s_blockMapHeap s) + ss_size (me_set elem)) <? fillLimit then pushToBlock s elem
  else makeRoom (S (mh_len (s_blockMapHeap s))) at_ s elem [] 0.

(** The size and the fees of a set. *)
Definition sumSet (newSet : UnconfirmedTransactionSet) : res (Z * Currency) :=
  foldMi (λ i '(size, totalFees) _,
    size_i ← go_index (ut_Sizes newSet) i;
    txn ← go_index (ut_Transactions newSet) i;
    Ok (u64 (size + size_i), foldl Currency_Add totalFees (t_MinerFees txn))) 0 (0, ZeroCurrency) (ut_IDs newSet).

Definition newSplitSet (acc : selection * list mapElement) (newSet : UnconfirmedTransactionSet) : res (selection * list mapElement) :=
  let '(s, newElements) := acc in
  let counter := s_setCounter s + 1 in
  let s := set_sets (<[ut_ID newSet := [counter]]> (s_fullSets s)) counter (s_splitSets s) (s_splitSetIDFromTxID s) s in
  '(size, totalFees) ← sumSet newSet;
  averageFee ← Currency_Div64 totalFees size;
  Ok (s, newElements ++ [mkME (mkSS averageFee size (ut_Transactions newSet)) counter]).

Definition getNewSplitSets (s : selection) (diff : TransactionPoolDiff) : res (selection * list mapElement) :=
  foldM newSplitSet (s, []) (tpd_AppliedTransactions diff).

(** The body of the loop of [addNewTxns]. *)
Definition addElement (at_ : position) (s : selection) (elem : mapElement) : res selection :=
  let fromTx := foldl (λ m tx, <[Transaction_ID tx := me_id elem]> m) (s_splitSetIDFromTxID s) (ss_transactions (me_set elem)) in
  let s := set_sets (s_fullSets s) (s_setCounter s) (<[me_id elem := me_set elem]> (s_splitSets s)) fromTx s in
  addMapElementTxns at_ s elem.

Definition addNewTxns (at_ : position) (s : selection) (diff : TransactionPoolDiff) : res selection :=
  '(s, newElements) ← getNewSplitSets s diff;
  foldMi (λ i s elem, addElement (Z.to_nat i :: at_) s elem) 0 s newElements.

(** The loop that promotes sets: [overflowElem] is read once, before it; every
    round pops, whether or not anything is left. *)
Fixpoint promote (fuel : nat) (s : selection) (overflowElem : mapElement) : res selection :=
  match fuel with
  | O => Panic
  | S fuel =>
      if u64 (mh_size (s_blockMapHeap s) + ss_size (me_set overflowElem)) <? fillLimit then
        '(s, promotedElem) ← popFromOverflow s;
        s ← pushToBlock s promotedElem;
        promote fuel s overflowElem
      else Ok s
  end.

Definition deleteMapElementTxns (at_ : position) (s : selection) (id : splitSetID) : res selection :=
  let inBlockMapHeap := mh_selectID (s_blockMapHeap s) !! id in
  let inOverflowMapHeap := mh_selectID (s_overflowMapHeap s) !! id in
  match inOverflowMapHeap, inBlockMapHeap with
  | Some _, _ =>
      '(h, _) ← removeSetByID (s_overflowMapHeap s) id;
      Ok (set_overflowMapHeap h s)
  | None, Some _ =>
      '(h, _) ← removeSetByID (s_blockMapHeap s) id;
      s ← removeSplitSetFromUnsolvedBlock at_ (set_blockMapHeap h s) id;
      match peekAtOverflow s with
      | None => Ok s
      | Some overflowElem => promote (S (mh_len (s_overflowMapHeap s))) s overflowElem
      end
  | None, None => Ok s
  end.

(** The bodies of the two loops of [deleteReverts]. *)
Definition deleteSplit (at_ : position) (s : selection) (ss : splitSetID) : res selection :=
  s ← deleteMapElementTxns at_ s ss;
  Ok (set_sets (s_fullSets s) (s_setCounter s) (delete ss (s_splitSets s)) (s_splitSetIDFromTxID s) s).
Definition deleteRevert (at_ : position) (s : selection) (id : TransactionSetID) : res selection :=
  let splitSetIndexes := default [] (s_fullSets s !! id) in
  s ← foldMi (λ j s ss, deleteSplit (Z.to_nat j :: at_) s ss) 0 s splitSetIndexes;
  Ok (set_sets (delete id (s_fullSets s)) (s_setCounter s) (s_splitSets s) (s_splitSetIDFromTxID s) s).

Definition deleteReverts (at_ : position) (s : selection) (diff : TransactionPoolDiff) : res selection :=
  foldMi (λ i s id, deleteRevert (Z.to_nat i :: at_) s id) 0 s (tpd_RevertedTransactions diff).

Definition ReceiveUpdatedUnconfirmedTransactions (at_ : position) (s : selection) (diff : TransactionPoolDiff) : res selection :=
  s ← deleteReverts (0%nat :: at_) s diff;
  addNewTxns (1%nat :: at_) s diff.
End select.

(** ** Blocks and headers for work (blockmanager.go) *)

Section work.
Context `{MO : MapOrder} `{C : Crypto} `{N : Net}.

(** What the wallet answers during a call. *)
Record walletAnswers := mkWallet {
  w_Unlocked : res bool;
  w_AllAddresses : res (list UnlockHash);
  w_NextAddress : res UnlockConditions;
}.

Definition set_Address (a : UnlockHash) (m : Miner) : Miner :=
  let p := m_persist m in
  mkMiner (m_work m) (m_sel m)
    (mkPersist (mp_RecentChange p) (mp_Height p) (mp_Target p) a (mp_BlocksFound p) (mp_UnsolvedBlock p)).
Definition set_BlocksFound (l : list BlockID) (m : Miner) : Miner :=
  let p := m_persist m in
  mkMiner (m_work m) (m_sel m)
    (mkPersist (mp_RecentChange p) (mp_Height p) (mp_Target p) (mp_Address p) l (mp_UnsolvedBlock p)).
Definition set_work (w : blockManager) (m : Miner) : Miner := mkMiner w (m_sel m) (m_persist m).

Definition checkAddress (m : Miner) (w : walletAnswers) : Miner * res unit :=
  match w_AllAddresses w with
  | Ok addrs =>
      let hasAddr := bool_decide (mp_Address (m_persist m) ∈ addrs) in
      if bool_decide (mp_Address (m_persist m) ≠ zeroHash) && hasAddr then (m, Ok ()) else
      match w_NextAddress w with
      | Ok uc => (set_Address (UnlockConditions_UnlockHash uc) m, Ok ())
      | Err e => (m, Err e)
      | Panic => (m, Panic)
      end
  | Err e => (m, Err e)
  | Panic => (m, Panic)
  end.

(** [m.persist.UnsolvedBlock]; its transactions are in [m_sel]. *)
Definition UnsolvedBlock (m : Miner) : Block :=
  let b := mp_UnsolvedBlock (m_persist m) in
  mkBlock (b_ParentID b) (b_Nonce b) (b_Timestamp b) (b_MinerPayouts b) (s_txns (m_sel m)).

Definition arbitraryTxn (data : list byte) : Transaction := mkTxn [] [] [] [] [] [] [] [] [data] [].

Definition set_payouts (payouts : list SiacoinOutput) (b : Block) : Block :=
  mkBlock (b_ParentID b) (b_Nonce b) (b_Timestamp b) payouts (b_Transactions b).
Definition set_transactions (txns : list Transaction) (b : Block) : Block :=
  mkBlock (b_ParentID b) (b_Nonce b) (b_Timestamp b) (b_MinerPayouts b) txns.

(** [if b.Timestamp < types.CurrentTimestamp() { b.Timestamp = ... }] *)
Definition stamp (now : Timestamp) (b : Block) : Block :=
  if b_Timestamp b <? now then mkBlock (b_ParentID b) (b_Nonce b) now (b_MinerPayouts b) (b_Transactions b) else b.

(** An error of [checkAddress] is only logged; [rand] are [SpecifierLen] bytes. *)
Definition blockForWorkWithoutDevFund (m : Miner) (w : walletAnswers) (now : Timestamp) (rand : list byte) : res (Miner * Block) :=
  let b := stamp now (UnsolvedBlock m) in
  match checkAddress m w with
  | (_, Panic) => Panic
  | (m, _) =>
      let b := set_payouts [mkSCO (CalculateSubsidy b (u64 (mp_Height (m_persist m) + 1))) (mp_Address (m_persist m))] b in
      let randTxn := arbitraryTxn (PrefixNonSia ++ rand) in
      Ok (m, set_transactions (randTxn :: b_Transactions b) b)
  end.

Definition blockForWorkWithDevFund (m : Miner) (w : walletAnswers) (now : Timestamp) (rand : list byte) : res (Miner * Block) :=
  let b := stamp now (UnsolvedBlock m) in
  match checkAddress m w with
  | (_, Panic) => Panic
  | (m, _) =>
      let height := u64 (mp_Height (m_persist m) + 1) in
      '(minerPayoutVal, subsidyPayoutVal) ← CalculateSubsidies b height;
      let subsidyUnlockHash :=
        if negb (BurnAddressBlockHeight =? 0) && (BurnAddressBlockHeight <=? height)
        then BurnAddressUnlockHash else DevFundUnlockHash in
      let b := set_payouts [mkSCO minerPayoutVal (mp_Address (m_persist m)); mkSCO subsidyPayoutVal subsidyUnlockHash] b in
      let randTxn := arbitraryTxn (PrefixNonSia ++ rand) in
      Ok (m, set_transactions (randTxn :: b_Transactions b) b)
  end.

Definition blockForWork (m : Miner) (w : walletAnswers) (now : Timestamp) (rand : list byte) : res (Miner * Block) :=
  if DevFundEnabled && (DevFundInitialBlockHeight <=? u64 (mp_Height (m_persist m) + 1))
  then blockForWorkWithDevFund m w now rand
  else blockForWorkWithoutDevFund m w now rand.

(** *** Remembering headers *)

(** [delete(m.blockMem, h); delete(m.arbDataMem, h)] for the header in the
    current slot. *)
Definition forgetSlot (bm : blockManager) : res blockManager :=
  match bm_headerMem bm !! bm_memProgress bm with
  | None => Panic
  | Some h => Ok (mkBM (bm_store bm) (delete h (bm_blockMem bm)) (delete h (bm_arbDataMem bm)) (bm_headerMem bm)
                    (bm_sourceBlock bm) (bm_sourceBlockTime bm) (bm_memProgress bm))
  end.

(** [m.memProgress++; if m.memProgress == HeaderMemory { m.memProgress = 0 }] *)
Definition nextSlot (bm : blockManager) : blockManager :=
  let p := S (bm_memProgress bm) in
  mkBM (bm_store bm) (bm_blockMem bm) (bm_arbDataMem bm) (bm_headerMem bm) (bm_sourceBlock bm) (bm_sourceBlockTime bm)
    (if decide (p = HeaderMemory) then 0%nat else p).

(** The slots of one source block. *)
Definition slotsPerBlock : nat := (HeaderMemory / BlockMemory)%nat.

Fixpoint skipSlots (fuel : nat) (bm : blockManager) : res blockManager :=
  if decide (bm_memProgress bm `mod` slotsPerBlock = 0)%nat then Ok bm else
  match fuel with
  | O => Panic
  | S fuel => bm ← forgetSlot bm; skipSlots fuel (nextSlot bm)
  end.

(** [now] in seconds for the timestamp, [time] in nanoseconds. *)
Definition newSourceBlock (m : Miner) (w : walletAnswers) (now : Timestamp) (time : Z) (rand : list byte) : res Miner :=
  bm ← skipSlots slotsPerBlock (m_work m);
  '(m, block) ← blockForWork (set_work bm m) w now rand;
  let p := fresh (dom (bm_store bm)) in
  Ok (set_work (mkBM (<[p := block]> (bm_store bm)) (bm_blockMem bm) (bm_arbDataMem bm) (bm_headerMem bm)
        (Some p) (Some time) (bm_memProgress bm)) m).

(** [copy(b.Transactions[0].ArbitraryData[0], arbData[:])] *)
Definition stampArbData (arbData : list byte) (b : Block) : res Block :=
  match b_Transactions b with
  | t :: txns =>
      match t_ArbitraryData t with
      | d :: ds =>
          let t := mkTxn (t_SiacoinInputs t) (t_SiacoinOutputs t) (t_FileContracts t) (t_FileContractRevisions t)
                     (t_StorageProofs t) (t_SiafundInputs t) (t_SiafundOutputs t) (t_MinerFees t)
                     (go_copy d arbData :: ds) (t_TransactionSignatures t) in
          Ok (set_transactions (t :: txns) b)
      | [] => Panic
      end
  | [] => Panic
  end.

(** A header of the source block, remembered in the current slot. *)
Definition giveHeader (bm : blockManager) (arbData : list byte) : res (blockManager * BlockHeader) :=
  match bm_sourceBlock bm with
  | None => Panic
  | Some p =>
      match bm_store bm !! p with
      | None => Panic
      | Some block =>
          block ← stampArbData arbData block;
          let bm := mkBM (<[p := block]> (bm_store bm)) (bm_blockMem bm) (bm_arbDataMem bm) (bm_headerMem bm)
                      (bm_sourceBlock bm) (bm_sourceBlockTime bm) (bm_memProgress bm) in
          let header := Block_Header block in
          bm ← forgetSlot bm;
          headerMem ← go_set (bm_headerMem bm) (bm_memProgress bm) header;
          let bm := mkBM (bm_store bm) (<[header := p]> (bm_blockMem bm)) (<[header := arbData]> (bm_arbDataMem bm)) headerMem
                      (bm_sourceBlock bm) (bm_sourceBlockTime bm) (bm_memProgress bm) in
          Ok (nextSlot bm, header)
      end
  end.

(** [w1] are the answers of the wallet to [HeaderForWork], [w2] those to
    [newSourceBlock]; [arbData] are the 32 random bytes of the header. *)
Definition HeaderForWork (stopped : bool) (m : Miner) (w1 w2 : walletAnswers) (now : Timestamp) (time : Z)
    (rand arbData : list byte) : res (Miner * res (BlockHeader * Target)) :=
  if stopped then Ok (m, Err ErrStopped) else
  match w_Unlocked w1 with
  | Err e => Ok (m, Err e)
  | Panic => Panic
  | Ok false => Ok (m, Err ErrLockedWallet)
  | Ok true =>
      match checkAddress m w1 with
      | (_, Panic) => Panic
      | (m, Err e) => Ok (m, Err e)
      | (m, Ok _) =>
          let old := match bm_sourceBlockTime (m_work m) with None => true | Some t => MaxSourceBlockAge <? time - t end in
          m ← (if old || bool_decide (bm_memProgress (m_work m) `mod` slotsPerBlock = 0)%nat
               then newSourceBlock m w2 now time rand else Ok m);
          '(bm, header) ← giveHeader (m_work m) arbData;
          Ok (set_work bm m, Ok (header, mp_Target (m_persist m)))
      end
  end.

(** The first part of [SubmitHeader]: the block of a header. *)
Definition recoverBlock (bm : blockManager) (bh : BlockHeader) : res Block :=
  let key := mkHeader (bh_ParentID bh) (replicate 8 x00) (bh_Timestamp bh) (bh_MerkleRoot bh) in
  match bm_blockMem bm !! key, bm_arbDataMem bm !! key with
  | Some p, Some arbData =>
      match bm_store bm !! p with
      | None => Panic
      | Some b =>
          match b_Transactions b with
          | [] => Panic
          | t :: txns =>
              let t := mkTxn (t_SiacoinInputs t) (t_SiacoinOutputs t) (t_FileContracts t) (t_FileContractRevisions t)
                         (t_StorageProofs t) (t_SiafundInputs t) (t_SiafundOutputs t) (t_MinerFees t)
                         [arbData] (t_TransactionSignatures t) in
              Ok (mkBlock (b_ParentID b) (bh_Nonce bh) (b_Timestamp b) (b_MinerPayouts b) (t :: txns))
          end
      end
  | _, _ => Err errLateHeader
  end.

(** After [cs.AcceptBlock(b)], which returned [accepted], with the state [m] that it
    left.  The boolean says whether the transaction pool is purged; [saved] is
    the result of [saveSync]. *)
Definition managedSubmitBlock (m : Miner) (b : Block) (accepted : res unit) (w : walletAnswers) (saved : res unit) :
    Miner * res unit * bool :=
  match accepted with
  | Ok _ =>
      let m := set_BlocksFound (mp_BlocksFound (m_persist m) ++ [Block_ID b]) m in
      match w_NextAddress w with
      | Ok uc => (set_Address (UnlockConditions_UnlockHash uc) m, saved, false)
      | Err e => (m, Err e, false)
      | Panic => (m, Panic, false)
      end
  | Err e =>
      if decide (e = ErrNonExtendingBlock) then
        (set_BlocksFound (mp_BlocksFound (m_persist m) ++ [Block_ID b]) m, Err e, false)
      else if decide (e = ErrBlockUnsolved) then (m, Err e, false)
      else (m, Err e, true)
  | Panic => (m, Panic, false)
  end.

(** [submit b] is [cs.AcceptBlock]: its result and the miner it leaves, which has
    received the consensus change. *)
Definition SubmitHeader (stopped : bool) (m : Miner) (bh : BlockHeader) (submit : Block → Miner * res unit)
    (w : walletAnswers) (saved : res unit) : Miner * res unit * bool :=
  if stopped then (m, Err ErrStopped, false) else
  match recoverBlock (m_work m) bh with
  | Ok b => let '(m, accepted) := submit b in managedSubmitBlock m b accepted w saved
  | Err e => (m, Err e, false)
  | Panic => (m, Panic, false)
  end.

(** *** Following the chain (update.go) *)

(** The branch for the genesis block at a height above zero is never taken. *)
Definition heightDown (h : BlockHeight) (b : Block) : BlockHeight :=
  if (0 <? h) || bool_decide (Block_ID b ≠ GenesisID) then u64 (h - 1)
  else if negb (h =? 0) then 0 else h.
Definition heightUp (h : BlockHeight) (b : Block) : BlockHeight :=
  if (0 <? h) || bool_decide (Block_ID b ≠ GenesisID) then u64 (h + 1)
  else if negb (h =? 0) then 0 else h.

Definition Miner_ProcessConsensusChange (m : Miner) (cc : ConsensusChange) (w : walletAnswers) (now : Timestamp) (time : Z)
    (rand : list byte) : res Miner :=
  let height := foldl heightUp (foldl heightDown (mp_Height (m_persist m)) (cc_RevertedBlocks cc)) (cc_AppliedBlocks cc) in
  lastBlock ← go_index (cc_AppliedBlocks cc) (len (cc_AppliedBlocks cc) - 1);
  let p := m_persist m in
  let ub := mp_UnsolvedBlock p in
  let ub := mkBlock (Block_ID lastBlock) (b_Nonce ub) (cc_MinimumValidChildTimestamp cc) (b_MinerPayouts ub) (b_Transactions ub) in
  let m := mkMiner (m_work m) (m_sel m)
             (mkPersist (mp_RecentChange p) height (cc_ChildTarget cc) (mp_Address p) (mp_BlocksFound p) ub) in
  m ← (if cc_Synced cc then newSourceBlock m w now time rand else Ok m);
  let p := m_persist m in
  Ok (mkMiner (m_work m) (m_sel m)
        (mkPersist (cc_ID cc) (mp_Height p) (mp_Target p) (mp_Address p) (mp_BlocksFound p) (mp_UnsolvedBlock p))).

(** ** Solving blocks (testminer.go) *)

Definition solveAttempts : nat := Z.to_nat 16000.

(** [header] is the 80-byte header, [nonce] the next nonce to try. *)
Fixpoint solveLoop (attempts : nat) (target : Target) (header : list byte) (nonce : Z) : option (list byte) :=
  match attempts with
  | O => None
  | S attempts =>
      let id := HashBytes header in
      if 0 <=? bytes_Compare target id then Some (take 8 (drop 32 header))
      else
        let header := take 32 header ++ EncUint64 nonce ++ drop 40 header in
        solveLoop attempts target header (u64 (nonce + ASICHardforkFactor))
  end.

Definition solveBlock (b : Block) (target : Target) : Block * bool :=
  let merkleRoot := Block_MerkleRoot b in
  let header := replicate 80 x00 in
  let header := go_copy header (b_ParentID b) in
  let header := take 40 header ++ EncUint64 (b_Timestamp b) ++ drop 48 header in
  let header := take 48 header ++ go_copy (drop 48 header) merkleRoot in
  match solveLoop solveAttempts target header 0 with
  | Some nonce => (mkBlock (b_ParentID b) nonce (b_Timestamp b) (b_MinerPayouts b) (b_Transactions b), true)
  | None => (b, false)
  end.

Definition Miner_BlockForWork (m : Miner) (w1 w2 : walletAnswers) (now : Timestamp) (rand : list byte) :
    res (Miner * res (Block * Target)) :=
  match w_Unlocked w1 with
  | Err e => Ok (m, Err e)
  | Panic => Panic
  | Ok false => Ok (m, Err ErrLockedWallet)
  | Ok true =>
      match checkAddress m w1 with
      | (_, Panic) => Panic
      | (m, Err e) => Ok (m, Err e)
      | (m, Ok _) =>
          '(m, b) ← blockForWork m w2 now rand;
          Ok (m, Ok (b, mp_Target (m_persist m)))
      end
  end.

(** [FindBlock] gets its block in the same way as [BlockForWork]. *)
Definition FindBlock (m : Miner) (w1 w2 : walletAnswers) (now : Timestamp) (rand : list byte) : res (Miner * res Block) :=
  '(m, r) ← Miner_BlockForWork m w1 w2 now rand;
  match r with
  | Err e => Ok (m, Err e)
  | Panic => Panic
  | Ok (bfw, target) =>
      let '(block, ok) := solveBlock bfw target in
      if negb ok then Ok (m, Err ErrOther) else Ok (m, Ok block)
  end.

(** [submit b] is [cs.AcceptBlock]. *)
Definition AddBlock (m : Miner) (w1 w2 : walletAnswers) (now : Timestamp) (rand : list byte) (submit : Miner → Block → Miner * res unit) :
    res (Miner * res Block) :=
  '(m, r) ← FindBlock m w1 w2 now rand;
  match r with
  | Ok block =>
      match submit m block with
      | (m, Ok _) => Ok (m, Ok block)
      | (m, Err e) => Ok (m, Err e)
      | (_, Panic) => Panic
      end
  | Err e => Ok (m, Err e)
  | Panic => Panic
  end.

(** ** Starting and queries (miner.go) *)

Definition emptySelection (txns : list Transaction) : selection :=
  mkSel ∅ (emptyHeap true) (emptyHeap false) 0 ∅ ∅ ∅ txns.

(** The fields that [New] makes, over the persistence found on disk: the block
    being assembled is loaded with the transactions it had. *)
Definition Miner_New (p : persistence) : Miner :=
  mkMiner (mkBM ∅ ∅ ∅ (replicate HeaderMemory (mkHeader zeroHash (replicate 8 x00) 0 zeroHash)) None None 0)
    (emptySelection (b_Transactions (mp_UnsolvedBlock p))) p.

(** [subscribe id m] is [ConsensusSetSubscribe(m, id, ...)]: the miner after the
    changes it was sent, and the error; [saved] is the result of [saveSync]. *)
Definition startupRescan (m : Miner) (saved : res unit) (subscribe : ConsensusChangeID → Miner → Miner * res unit) : Miner * res unit :=
  let p := m_persist m in
  let m := mkMiner (m_work m) (m_sel m)
             (mkPersist ConsensusChangeBeginning 0 zeroHash (mp_Address p) (mp_BlocksFound p) (mp_UnsolvedBlock p)) in
  match saved with
  | Ok _ => subscribe ConsensusChangeBeginning m
  | e => (m, e)
  end.

(** The rest of [New]: [diff] is the diff that the transaction pool sends to a
    new subscriber. *)
Definition Miner_start (at_ : position) (p : persistence) (subscribe : ConsensusChangeID → Miner → Miner * res unit)
    (diff : TransactionPoolDiff) (saved1 saved2 : res unit) : res (Miner * res unit) :=
  let m := Miner_New p in
  let '(m, err) :=
    match subscribe (mp_RecentChange p) m with
    | (m, Err e) => if decide (e = ErrInvalidConsensusChangeID) then startupRescan m saved1 subscribe else (m, Err e)
    | r => r
    end in
  match err with
  | Panic => Panic
  | Err _ => Ok (m, Err ErrOther)
  | Ok _ =>
      s ← ReceiveUpdatedUnconfirmedTransactions at_ (m_sel m) diff;
      let m := mkMiner (m_work m) s (m_persist m) in
      match saved2 with Ok _ => Ok (m, Ok ()) | Err _ => Ok (m, Err ErrOther) | Panic => Panic end
  end.

Definition BlocksMined (m : Miner) (inCurrentPath : BlockID → bool) : nat * nat :=
  foldl (λ '(good, stale) id, if inCurrentPath id then (S good, stale) else (good, S stale)) (0%nat, 0%nat)
    (mp_BlocksFound (m_persist m)).
End work.
