(* ===== verification/MinerSelect.v ===== *)
(** * What the miner selects

    The invariant of the miner's selection and its preservation: every set of
    the transaction pool is in one of the two heaps; the block being assembled
    consists of the transactions of the sets in the first heap, and those of one
    set are in the order of the set, whatever removals have moved around. *)

From S2P Require Import Prelude Encoding Currency Target Crypto Types Codec Block ConsensusDB MapRange Standard FindSets TransactionPool PoolUpdate PoolSubscribe SplitSetHeap Miner.
#[local] Open Scope nat_scope.

(** The transactions of an element, and the elements in the two heaps. *)
Abbreviation tx_of e := (ss_transactions (me_set e)).
Abbreviation B_of s := (mh_selectID (s_blockMapHeap s)).
Abbreviation O_of s := (mh_selectID (s_overflowMapHeap s)).

Section index.
Context `{MO : MapOrder} `{C : Crypto}.
Implicit Types (txns : list Transaction) (idx : gmap TransactionID nat).

(** The index says where the transactions are. *)
Definition filed txns idx : Prop :=
  ∀ tid i, idx !! tid = Some i ↔ ∃ t, txns !! i = Some t ∧ Transaction_ID t = tid.

Lemma filed_inj txns idx i j t u :
  filed txns idx → txns !! i = Some t → txns !! j = Some u → Transaction_ID t = Transaction_ID u → i = j.
Proof.
  intros Hf Hi Hj Ht. assert (idx !! Transaction_ID t = Some i) as H1 by (apply Hf; eauto).
  assert (idx !! Transaction_ID t = Some j) as H2 by (apply Hf; exists u; by rewrite Ht). congruence.
Qed.

Lemma filed_lookup txns idx t : filed txns idx → t ∈ txns → ∃ i, idx !! Transaction_ID t = Some i ∧ txns !! i = Some t.
Proof. intros Hf [i Hi]%list_elem_of_lookup. exists i. split; [apply Hf; eauto|done]. Qed.

(** The transactions of [set] are in the block in the order of the set. *)
Definition in_order idx (set : list Transaction) : Prop :=
  ∀ i j t u p q, i < j → set !! i = Some t → set !! j = Some u →
    idx !! Transaction_ID t = Some p → idx !! Transaction_ID u = Some q → p < q.

Lemma in_order_ext idx idx' set :
  (∀ t, t ∈ set → idx' !! Transaction_ID t = idx !! Transaction_ID t) → in_order idx set → in_order idx' set.
Proof.
  intros He Ho i j t u p q Hij Ht Hu. rewrite !He by (by eapply list_elem_of_lookup_2). by apply (Ho i j t u p q).
Qed.

(** What stays when only the block changes. *)
Definition same_sets (s s' : selection) : Prop := s' = set_txns (s_txns s') (s_unsolvedBlockIndex s') s.

Lemma same_sets_refl s : same_sets s s.
Proof. by destruct s. Qed.
Lemma same_sets_trans s1 s2 s3 : same_sets s1 s2 → same_sets s2 s3 → same_sets s1 s3.
Proof. intros H1 H2. unfold same_sets in *. rewrite H2, H1. by destruct s1, s2, s3. Qed.
Lemma same_sets_set s txns idx : same_sets s (set_txns txns idx s).
Proof. by destruct s. Qed.

(** ** Taking one transaction out *)

Lemma removeTx_spec s t i :
  filed (s_txns s) (s_unsolvedBlockIndex s) → s_txns s !! i = Some t →
  ∃ s' l, removeTxFromUnsolvedBlock s (Transaction_ID t) = Ok (s', Transaction_ID l) ∧ l ∈ s_txns s ∧ same_sets s s' ∧
    filed (s_txns s') (s_unsolvedBlockIndex s') ∧
    (∀ u, u ∈ s_txns s' ↔ u ∈ s_txns s ∧ Transaction_ID u ≠ Transaction_ID t) ∧
    (∀ tid, tid ≠ Transaction_ID t → tid ≠ Transaction_ID l → s_unsolvedBlockIndex s' !! tid = s_unsolvedBlockIndex s !! tid).
Proof.
  intros Hf Hi. pose proof (lookup_lt_Some _ _ _ Hi) as Hlt. set (n := length (s_txns s)) in *.
  assert (s_unsolvedBlockIndex s !! Transaction_ID t = Some i) as Hidx by (apply Hf; eauto).
  unfold removeTxFromUnsolvedBlock. rewrite Hidx. change (default 0 (Some i)) with i. unfold len. fold n.
  destruct (Z.eqb_spec (Z.of_nat i) (Z.of_nat n - 1)) as [Hlast|Hlast].
  - replace (Z.to_nat (Z.of_nat n - 1)) with i by lia. eexists _, t. split; [reflexivity|].
    split; [by eapply list_elem_of_lookup_2|]. split; [apply same_sets_set|]. cbn.
    assert (∀ j u, take i (s_txns s) !! j = Some u ↔ s_txns s !! j = Some u ∧ j ≠ i) as Htake.
    { intros j u. rewrite lookup_take_Some. split; intros [Hj Hji]; (split; [done|]); [lia|].
      apply lookup_lt_Some in Hj. fold n in Hj. lia. }
    split; [|split].
    + intros tid j. rewrite lookup_delete_Some. setoid_rewrite Htake. split.
      * intros [Hne (u & Hu & <-)%Hf]. exists u. split; [|done]. split; [done|]. intros ->. congruence.
      * intros (u & [Hu Hj] & <-). split; [|apply Hf; eauto]. intros E. apply Hj. by eapply filed_inj.
    + intros u. rewrite !list_elem_of_lookup. setoid_rewrite Htake. split.
      * intros (j & Hj & Hji). split; [eauto|]. intros E. apply Hji. by eapply filed_inj.
      * intros [(j & Hj) Hu]. exists j. split; [done|]. intros ->. congruence.
    + intros tid Ht _. by apply lookup_delete_ne.
  - assert (n - 1 < n) as Hn by lia. destruct (lookup_lt_is_Some_2 (s_txns s) (n - 1)) as [l Hl]; [done|].
    unfold go_index. destruct (Z.ltb_spec (Z.of_nat n - 1) 0); [lia|]. replace (Z.to_nat (Z.of_nat n - 1)) with (n - 1) by lia.
    rewrite Hl. cbn [mbind res_bind]. unfold go_set. fold n. destruct (Nat.ltb_spec i n); [|lia]. cbn [mbind res_bind].
    eexists _, l. split; [reflexivity|]. split; [by eapply list_elem_of_lookup_2|]. split; [apply same_sets_set|]. cbn.
    assert (Transaction_ID l ≠ Transaction_ID t) as Hlt'.
    { intros E. assert (n - 1 = i) by (by eapply filed_inj). lia. }
    assert (∀ j u, take (n - 1) (<[i := l]> (s_txns s)) !! j = Some u ↔ j < n - 1 ∧ if decide (j = i) then u = l else s_txns s !! j = Some u) as Htake.
    { intros j u. rewrite lookup_take_Some. destruct (decide (j = i)) as [->|Hji].
      - rewrite list_lookup_insert_eq by done. split; [intros [[= ->] ?]; done|intros [? ->]; done].
      - rewrite list_lookup_insert_ne by done. tauto. }
    split; [|split].
    + intros tid j. setoid_rewrite Htake. destruct (decide (tid = Transaction_ID l)) as [->|Hne].
      * rewrite lookup_insert_eq. split.
        -- intros [= <-]. exists l. rewrite decide_True by done. split; [|done]. split; [lia|done].
        -- intros (u & [Hj Hu] & E). destruct (decide (j = i)) as [->|]; [done|]. assert (j = n - 1) by (by eapply filed_inj). lia.
      * rewrite lookup_insert_ne, lookup_delete_Some by done. split.
        -- intros [Hnt (u & Hu & <-)%Hf]. exists u. split; [|done]. pose proof (lookup_lt_Some _ _ _ Hu) as Hju. fold n in Hju.
           assert (j ≠ i) by (intros ->; congruence). rewrite decide_False by done. split; [|done].
           assert (j ≠ n - 1) by (intros ->; congruence). lia.
        -- intros (u & [Hj Hu] & <-). destruct (decide (j = i)) as [->|Hji]; [by subst u|]. split; [|apply Hf; eauto].
           intros E. apply Hji. by eapply filed_inj.
    + intros u. rewrite !list_elem_of_lookup. setoid_rewrite Htake. split.
      * intros (j & Hj & Hu). destruct (decide (j = i)) as [->|Hji]; [subst u; split; [eauto|done]|].
        split; [eauto|]. intros E. apply Hji. by eapply filed_inj.
      * intros [(j & Hj) Hu]. pose proof (lookup_lt_Some _ _ _ Hj) as Hjn. fold n in Hjn.
        destruct (decide (j = n - 1)) as [->|Hjl].
        -- exists i. rewrite decide_True by done. split; [lia|congruence].
        -- exists j. assert (j ≠ i) by (intros ->; congruence). rewrite decide_False by done. split; [lia|done].
    + intros tid Ht Hl'. rewrite lookup_insert_ne by done. by apply lookup_delete_ne.
Qed.

(** ** The sets and the block *)

Implicit Types (E B : gmap splitSetID mapElement).

(** The sets that the miner knows, [E], share no transaction. *)
Record knows E (s : selection) : Prop := {
  kn_split : s_splitSets s = me_set <$> E;
  kn_NoDup : ∀ id e, E !! id = Some e → NoDup (Transaction_ID <$> tx_of e);
  kn_disjoint : ∀ id id' e e' t t', E !! id = Some e → E !! id' = Some e' → t ∈ tx_of e → t' ∈ tx_of e' →
    Transaction_ID t = Transaction_ID t' → id = id';
  kn_from : ∀ id e t, E !! id = Some e → t ∈ tx_of e → s_splitSetIDFromTxID s !! Transaction_ID t = Some id;
}.

Lemma knows_same E s s' : same_sets s s' → knows E s → knows E s'.
Proof. intros -> []. by split. Qed.

Lemma same_tx E s id e e' t t' :
  knows E s → E !! id = Some e → E !! id = Some e' → t ∈ tx_of e → t' ∈ tx_of e' → Transaction_ID t = Transaction_ID t' → t = t'.
Proof.
  intros Hk He He' [i Hi]%list_elem_of_lookup [j Hj]%list_elem_of_lookup Ht. simplify_eq.
  assert (i = j) as ->; [|congruence]. eapply (NoDup_lookup _ _ _ _ (kn_NoDup _ _ Hk _ _ He)); rewrite list_lookup_fmap; [by rewrite Hi|rewrite Hj; cbn; by rewrite Ht].
Qed.

(** The block holds the transactions of the sets [B], and those in [R]. *)
Record holds B (R : list Transaction) (s : selection) : Prop := {
  hd_filed : filed (s_txns s) (s_unsolvedBlockIndex s);
  hd_elem : ∀ t, t ∈ s_txns s ↔ (∃ id e, B !! id = Some e ∧ t ∈ tx_of e) ∨ t ∈ R;
}.

(** The transactions of every set, apart from those that [swapped] mentions, are
    in order. *)
Definition ordered_but B (swapped : TransactionID → Prop) (s : selection) : Prop :=
  ∀ id e, B !! id = Some e → in_order (s_unsolvedBlockIndex s) (tx_of e) ∨ ∃ t, t ∈ tx_of e ∧ swapped (Transaction_ID t).

(** Every transaction mentioned is one of the set [id] or of a set in [B]. *)
Definition mentions E B (id : splitSetID) (tid : TransactionID) : Prop :=
  ∃ id' e t, E !! id' = Some e ∧ t ∈ tx_of e ∧ Transaction_ID t = tid ∧ (id' = id ∨ B !! id' = Some e).

Lemma removeTxns_loop E B id e R : ∀ s (sw : gset TransactionID),
  knows E s → B ⊆ E → E !! id = Some e → B !! id = None → NoDup (Transaction_ID <$> R) → (∀ t, t ∈ R → t ∈ tx_of e) →
  holds B R s → ordered_but B (.∈ sw) s → (∀ tid, tid ∈ sw → mentions E B id tid) →
  ∃ s' sw', foldM (λ '(s, swappedTxs) tx,
      '(s, txID) ← removeTxFromUnsolvedBlock s (Transaction_ID tx);
      Ok (s, {[txID]} ∪ swappedTxs)) (s, sw) R = Ok (s', sw') ∧
    same_sets s s' ∧ holds B [] s' ∧ ordered_but B (.∈ sw') s' ∧ (∀ tid, tid ∈ sw' → mentions E B id tid).
Proof.
  induction R as [|t R IH]; intros s sw Hk HBE He HB Hnd HR Hh Ho Hm.
  { exists s, sw. split; [done|]. split; [apply same_sets_refl|done]. }
  cbn [foldM]. destruct (filed_lookup _ _ t (hd_filed _ _ _ Hh)) as (i & Hidx & Hi); [apply Hh; right; by left|].
  destruct (removeTx_spec s t i (hd_filed _ _ _ Hh) Hi) as (s1 & l & -> & Hl & Hsame & Hf1 & He1 & Hother). cbn [mbind res_bind].
  cbn in Hnd. apply NoDup_cons in Hnd as [HtR Hnd].
  assert (∀ id' e' u, B !! id' = Some e' → u ∈ tx_of e' → Transaction_ID u ≠ Transaction_ID t) as Hne.
  { intros id' e' u HB' Hu E'. assert (id' = id) as ->; [|congruence].
    apply (kn_disjoint _ _ Hk id' id e' e u t); [by eapply lookup_weaken|done|done|apply HR; by left|done]. }
  assert (mentions E B id (Transaction_ID l)) as Hml.
  { apply Hh in Hl as [(id' & e' & HB' & Hl)|Hl].
    - exists id', e', l. split_and!; [by eapply lookup_weaken|done|done|by right].
    - exists id, e, l. split_and!; [done|by apply HR|done|by left]. }
  destruct (IH s1 ({[Transaction_ID l]} ∪ sw)) as (s' & sw' & E1 & Hs' & Hrest); [by eapply knows_same|done|done|done|done|intros u Hu; apply HR; by right|..].
  - split; [done|]. intros u. rewrite He1, (hd_elem _ _ _ Hh), elem_of_cons. split.
    + intros [[H|[->|H]] Hu]; [by left|done|by right].
    + intros [(id' & e' & HB' & Hu)|Hu]; (split; [by eauto 10|]).
      * by eapply Hne.
      * intros E'. apply HtR. rewrite <- E'. by apply list_elem_of_fmap_2.
  - intros id' e' HB'. destruct (Ho id' e' HB') as [Hord|(u & Hu & Hsw)]; [|right; exists u; split; [done|set_solver]].
    destruct (decide (Transaction_ID l ∈ Transaction_ID <$> tx_of e')) as [(u & Hu & Hin)%list_elem_of_fmap|Hnin].
    { right. exists u. split; [done|]. rewrite <- Hu. set_solver. }
    left. eapply in_order_ext; [|exact Hord]. intros u Hu. apply Hother; [by eapply Hne|]. intros E'. apply Hnin. rewrite <- E'. by apply list_elem_of_fmap_2.
  - intros tid [->%elem_of_singleton|Htid]%elem_of_union; [done|by apply Hm].
  - exists s', sw'. split; [done|]. split; [by eapply same_sets_trans|done].
Qed.

(** ** Putting a set back in order *)

Lemma placeTxns_spec l : ∀ s,
  NoDup l.*2 → NoDup (Transaction_ID <$> l.*1) →
  (∀ tx p, (tx, p) ∈ l → p < length (s_txns s)) →
  (∀ tx p, (tx, p) ∈ l → ∃ q, s_unsolvedBlockIndex s !! Transaction_ID tx = Some q ∧ (q = p → s_txns s !! p = Some tx)) →
  ∃ s', placeTxns s l = Ok s' ∧ same_sets s s' ∧ length (s_txns s') = length (s_txns s) ∧
    (∀ tx p, (tx, p) ∈ l → s_txns s' !! p = Some tx ∧ s_unsolvedBlockIndex s' !! Transaction_ID tx = Some p) ∧
    (∀ p, p ∉ l.*2 → s_txns s' !! p = s_txns s !! p) ∧
    (∀ tid, tid ∉ Transaction_ID <$> l.*1 → s_unsolvedBlockIndex s' !! tid = s_unsolvedBlockIndex s !! tid).
Proof.
  induction l as [|[tx p] l IH]; intros s Hnd Hids Hlt Hq; cbn [placeTxns foldM].
  { exists s. split; [done|]. split; [apply same_sets_refl|]. split; [done|]. split; [intros tx p []%elem_of_nil|done]. }
  cbn in Hnd, Hids. apply NoDup_cons in Hnd as [Hp Hnd]. apply NoDup_cons in Hids as [Htx Hids].
  destruct (Hq tx p) as (q & Hidx & Hsame); [by left|]. rewrite Hidx. change (default 0 (Some q)) with q.
  (* in both cases the transaction is where it belongs afterwards *)
  assert (∃ s1, (if decide (q ≠ p) then txns ← go_set (s_txns s) p tx; Ok (set_txns txns (<[Transaction_ID tx := p]> (s_unsolvedBlockIndex s)) s) else Ok s) = Ok s1 ∧
    same_sets s s1 ∧ s_txns s1 = <[p := tx]> (s_txns s) ∧ s_unsolvedBlockIndex s1 = <[Transaction_ID tx := p]> (s_unsolvedBlockIndex s)) as (s1 & -> & Hs1 & Ht1 & Hi1).
  { case_decide as Hqp.
    - unfold go_set. destruct (Nat.ltb_spec p (length (s_txns s))) as [_|Hge]; [|specialize (Hlt tx p ltac:(by left)); lia].
      cbn [mbind res_bind]. eexists. split; [reflexivity|]. split; [apply same_sets_set|done].
    - subst q. exists s. split; [done|]. split; [apply same_sets_refl|].
      rewrite list_insert_id by (by apply Hsame). by rewrite insert_id. }
  cbn [mbind res_bind]. destruct (IH s1) as (s' & E & Hs' & Hlen & Hin & Hout & Hidx'); [done|done|..].
  - intros tx' p' Hin. rewrite Ht1, length_insert. apply (Hlt tx' p'). by right.
  - intros tx' p' Hin. destruct (Hq tx' p') as (q' & Hq' & Hsame'); [by right|]. exists q'. rewrite Hi1, Ht1.
    rewrite lookup_insert_ne by (intros E; apply Htx; rewrite E; apply list_elem_of_fmap_2; by apply (list_elem_of_fmap_2 fst) in Hin).
    split; [done|]. intros Hqp. rewrite list_lookup_insert_ne; [by apply Hsame'|]. intros ->. apply Hp. by apply (list_elem_of_fmap_2 snd) in Hin.
  - exists s'. split; [done|]. split; [by eapply same_sets_trans|]. split; [by rewrite Hlen, Ht1, length_insert|]. split; [|split].
    + intros tx' p' [[= -> ->]|Hin']%elem_of_cons; [|by apply Hin]. rewrite Hout, Hidx', Ht1, Hi1 by done. rewrite lookup_insert_eq.
      split; [|done]. apply list_lookup_insert_eq. apply (Hlt tx p). by left.
    + intros p' [Hne Hp']%not_elem_of_cons. rewrite Hout, Ht1 by done. by rewrite list_lookup_insert_ne.
    + intros tid [Hne Htid]%not_elem_of_cons. rewrite Hidx', Hi1 by done. by rewrite lookup_insert_ne.
Qed.

(** Sorting positions that are all different. *)
Lemma sorted_lt (l : list nat) i j p q :
  NoDup l → i < j → merge_sort le l !! i = Some p → merge_sort le l !! j = Some q → p < q.
Proof.
  intros Hnd Hij Hi Hj. assert (NoDup (merge_sort le l)) as Hnd' by (by rewrite merge_sort_Permutation).
  assert (p ≤ q); [|assert (p ≠ q); [|lia]].
  - pose proof (StronglySorted_merge_sort le l) as Hs. rewrite <- (take_drop_middle _ _ _ Hi) in Hs.
    apply StronglySorted_app in Hs as (_ & _ & Hs). inversion_clear Hs as [|? ? _ Hall]. rewrite Forall_forall in Hall.
    apply Hall. apply list_elem_of_lookup. exists (j - S i). rewrite lookup_drop. by replace (S i + (j - S i)) with j by lia.
  - intros ->. pose proof (NoDup_lookup _ _ _ _ Hnd' Hi Hj). lia.
Qed.

(** Transactions of the block and the sorted list of their positions. *)
Section place.
Context (s : selection) (txs : list Transaction).
Context (Hf : filed (s_txns s) (s_unsolvedBlockIndex s)) (Htxs : ∀ t, t ∈ txs → t ∈ s_txns s).
Context (Hnd : NoDup (Transaction_ID <$> txs)).
Let ix := map (λ tx, default 0 (s_unsolvedBlockIndex s !! Transaction_ID tx)) txs.
Let srt := merge_sort le ix.

Lemma place_index k t :
  txs !! k = Some t → ∃ q, ix !! k = Some q ∧ s_unsolvedBlockIndex s !! Transaction_ID t = Some q ∧ s_txns s !! q = Some t.
Proof.
  intros Ht. destruct (filed_lookup _ _ t Hf) as (q & Hq & Hqt); [apply Htxs; by eapply list_elem_of_lookup_2|].
  exists q. split; [|done]. unfold ix. rewrite list_lookup_fmap, Ht. cbn. by rewrite Hq.
Qed.

Lemma place_length : length ix = length txs ∧ length srt = length txs.
Proof. unfold srt. rewrite (Permutation_length (merge_sort_Permutation le ix)). unfold ix. by rewrite length_map. Qed.

Lemma place_at q : q ∈ srt ↔ ∃ t, t ∈ txs ∧ s_txns s !! q = Some t ∧ s_unsolvedBlockIndex s !! Transaction_ID t = Some q.
Proof.
  unfold srt. rewrite merge_sort_Permutation. split.
  - intros [k Hk]%list_elem_of_lookup. destruct (lookup_lt_is_Some_2 txs k) as [t Ht]; [apply lookup_lt_Some in Hk; by rewrite (proj1 place_length) in Hk|].
    destruct (place_index k t Ht) as (q' & ? & ? & ?). simplify_eq. exists t. split; [by eapply list_elem_of_lookup_2|done].
  - intros (t & [k Ht]%list_elem_of_lookup & _ & Hq). destruct (place_index k t Ht) as (q' & Hq' & ? & _). simplify_eq. by eapply list_elem_of_lookup_2.
Qed.

Lemma place_NoDup : NoDup ix.
Proof.
  apply NoDup_alt. intros i j q Hi Hj. pose proof (lookup_lt_Some _ _ _ Hi) as Hil. pose proof (lookup_lt_Some _ _ _ Hj) as Hjl.
  rewrite (proj1 place_length) in Hil, Hjl.
  destruct (lookup_lt_is_Some_2 txs i Hil) as [t Ht]. destruct (lookup_lt_is_Some_2 txs j Hjl) as [u Hu].
  destruct (place_index i t Ht) as (q1 & ? & ? & ?). destruct (place_index j u Hu) as (q2 & ? & ? & ?). simplify_eq.
  eapply (NoDup_lookup _ _ _ _ Hnd); rewrite list_lookup_fmap; [by rewrite Ht|by rewrite Hu].
Qed.

Lemma place_zip : (zip txs srt).*1 = txs ∧ (zip txs srt).*2 = srt ∧
  ∀ k t, txs !! k = Some t → ∃ p, srt !! k = Some p ∧ (t, p) ∈ zip txs srt.
Proof.
  destruct place_length as [_ Hl]. split; [apply fst_zip; lia|]. split; [apply snd_zip; lia|]. intros k t Ht.
  destruct (lookup_lt_is_Some_2 srt k) as [p Hp]; [apply lookup_lt_Some in Ht; lia|]. exists p. split; [done|].
  apply list_elem_of_lookup. exists k. by rewrite lookup_zip_with, Ht, Hp.
Qed.

Lemma place_sorted :
  ∃ s', placeTxns s (zip txs srt) = Ok s' ∧ same_sets s s' ∧ filed (s_txns s') (s_unsolvedBlockIndex s') ∧
    (∀ u, u ∈ s_txns s' ↔ u ∈ s_txns s) ∧ in_order (s_unsolvedBlockIndex s') txs ∧
    (∀ tid, tid ∉ Transaction_ID <$> txs → s_unsolvedBlockIndex s' !! tid = s_unsolvedBlockIndex s !! tid).
Proof.
  destruct place_zip as (Hz1 & Hz2 & Hz).
  assert (∀ t p, (t, p) ∈ zip txs srt → t ∈ txs ∧ p ∈ srt) as Hun.
  { intros t p Hp. split; [apply (list_elem_of_fmap_2 fst) in Hp; by rewrite Hz1 in Hp|apply (list_elem_of_fmap_2 snd) in Hp; by rewrite Hz2 in Hp]. }
  destruct (placeTxns_spec (zip txs srt) s) as (s' & E & Hs' & Hl' & Hin & Hout & Hidx).
  { rewrite Hz2. unfold srt. rewrite merge_sort_Permutation. apply place_NoDup. } { by rewrite Hz1. }
  { intros tx p [_ (t & _ & Ht & _)%place_at]%Hun. by eapply lookup_lt_Some. }
  { intros tx p [[k Hk]%list_elem_of_lookup _]%Hun. destruct (place_index k tx Hk) as (q & _ & Hq & Ht). exists q. split; [done|]. by intros <-. }
  rewrite Hz1 in Hidx. rewrite Hz2 in Hout.
  assert (∀ p, p ∈ srt → ∃ t, t ∈ txs ∧ s_txns s' !! p = Some t ∧ s_unsolvedBlockIndex s' !! Transaction_ID t = Some p) as Hat.
  { intros p Hp. rewrite <- Hz2 in Hp. apply list_elem_of_fmap in Hp as ([t q] & -> & Hq). exists t. split; [by eapply Hun|by apply Hin]. }
  assert (∀ t, t ∈ txs → ∃ p, p ∈ srt ∧ s_txns s' !! p = Some t ∧ s_unsolvedBlockIndex s' !! Transaction_ID t = Some p) as Hto.
  { intros t [k Hk]%list_elem_of_lookup. destruct (Hz k t Hk) as (p & Hp & Htp). exists p. split; [by eapply list_elem_of_lookup_2|by apply Hin]. }
  assert (∀ p, p ∉ srt → ∀ t, s_txns s !! p = Some t → Transaction_ID t ∉ Transaction_ID <$> txs) as Hfree.
  { intros p Hp t Ht (u & Hu & Huin)%list_elem_of_fmap. apply Hp, place_at. exists u. pose proof (Htxs u Huin) as [q Hq]%list_elem_of_lookup.
    assert (p = q) as -> by (by eapply filed_inj). split; [done|]. split; [done|]. apply Hf. eauto. }
  exists s'. split; [done|]. split; [done|]. split; [|split; [|split; [|done]]].
  - intros tid i. destruct (decide (i ∈ srt)) as [Hi|Hi].
    + destruct (Hat i Hi) as (t & Ht & Hti & Htid). split.
      * intros Hx. exists t. split; [done|]. destruct (decide (tid ∈ Transaction_ID <$> txs)) as [(u & -> & Hu)%list_elem_of_fmap|Hn].
        -- destruct (Hto u Hu) as (p & _ & Hp & Hp'). by simplify_eq.
        -- exfalso. apply Hn. rewrite Hidx in Hx by done. apply place_at in Hi as (v & Hv & Hvi & _). apply Hf in Hx as (w & Hw & <-). simplify_eq.
           by apply list_elem_of_fmap_2.
      * intros (u & Hu & <-). by simplify_eq.
    + rewrite (Hout i Hi). split.
      * intros Hx. apply Hf. rewrite <- Hidx; [done|]. intros (u & -> & Hu)%list_elem_of_fmap. destruct (Hto u Hu) as (p & Hp & _ & Hp'). by simplify_eq.
      * intros (t & Ht & <-). rewrite Hidx by (by eapply Hfree). apply Hf. eauto.
  - intros u. rewrite !list_elem_of_lookup. split.
    + intros (i & Hi). destruct (decide (i ∈ srt)) as [Hin'|Hn]; [|rewrite Hout in Hi by done; eauto].
      destruct (Hat i Hin') as (t & Ht & Hti & _). simplify_eq. by apply list_elem_of_lookup, Htxs.
    + intros (i & Hi). destruct (decide (i ∈ srt)) as [(t & Ht & Hti & _)%place_at|Hn]; [|exists i; by rewrite Hout].
      simplify_eq. destruct (Hto _ Ht) as (p & _ & Hp & _). eauto.
  - intros i j t u p q Hij Ht Hu Hp Hq. destruct (Hz i t Ht) as (p' & Hp' & Htp). destruct (Hz j u Hu) as (q' & Hq' & Huq).
    destruct (Hin _ _ Htp) as [_ E1]. destruct (Hin _ _ Huq) as [_ E2]. assert (p = p') as -> by congruence. assert (q = q') as -> by congruence.
    by apply (sorted_lt ix i j p' q' place_NoDup).
Qed.
End place.

(** The set [id] is put in order, and the others stay where they are. *)
Lemma fixSplitSetOrdering_spec E B s id e :
  knows E s → B ⊆ E → B !! id = Some e → holds B [] s →
  ∃ s', fixSplitSetOrdering s id = Ok s' ∧ same_sets s s' ∧ holds B [] s' ∧
    in_order (s_unsolvedBlockIndex s') (tx_of e) ∧
    (∀ id' e' t, B !! id' = Some e' → id' ≠ id → t ∈ tx_of e' →
      s_unsolvedBlockIndex s' !! Transaction_ID t = s_unsolvedBlockIndex s !! Transaction_ID t).
Proof.
  intros Hk HBE He Hh. pose proof (lookup_weaken _ _ _ _ He HBE) as HeE.
  unfold fixSplitSetOrdering. rewrite (kn_split _ _ Hk), lookup_fmap, HeE. cbn [fmap option_fmap option_map].
  destruct (Nat.ltb_spec (length (tx_of e)) 2) as [Hlen|Hlen].
  { exists s. split; [done|]. split; [apply same_sets_refl|]. split; [done|]. split; [|done].
    intros i j t u p q Hij Ht Hu. apply lookup_lt_Some in Ht, Hu. lia. }
  destruct (place_sorted s (tx_of e)) as (s' & E' & Hs' & Hf' & Hel & Hord & Hidx).
  { apply Hh. } { intros t Ht. apply Hh. left. eauto. } { by eapply kn_NoDup. }
  exists s'. split; [exact E'|]. split; [done|]. split; [|split; [done|]].
  - split; [done|]. intros t. by rewrite Hel, (hd_elem _ _ _ Hh).
  - intros id' e' t HB' Hne Ht. apply Hidx. intros (u & Hu & Huin)%list_elem_of_fmap. apply Hne.
    by apply (kn_disjoint _ _ Hk id' id e' e t u); [eapply lookup_weaken| | | |].
Qed.

Lemma fixOrderings_loop E B id l : ∀ s (setsFixed : gset splitSetID),
  knows E s → B ⊆ E → B !! id = None → holds B [] s →
  (∀ tid, tid ∈ l → mentions E B id tid) →
  (∀ id' e', B !! id' = Some e' → in_order (s_unsolvedBlockIndex s) (tx_of e') ∨
    (id' ∉ setsFixed) ∧ ∃ t, t ∈ tx_of e' ∧ Transaction_ID t ∈ l) →
  ∃ s' fixed', foldM (fixStep id) (s, setsFixed) l = Ok (s', fixed') ∧
    same_sets s s' ∧ holds B [] s' ∧ ∀ id' e', B !! id' = Some e' → in_order (s_unsolvedBlockIndex s') (tx_of e').
Proof.
  induction l as [|tid l IH]; intros s fixed Hk HBE HB Hh Hm Ho.
  { exists s, fixed. split; [done|]. split; [apply same_sets_refl|]. split; [done|]. intros id' e' He'.
    destruct (Ho id' e' He') as [?|(_ & t & _ & []%elem_of_nil)]. done. }
  cbn [foldM]. destruct (Hm tid) as (id0 & e0 & t0 & He0 & Ht0 & Htid & Hid0); [by left|].
  assert (fixStep id (s, fixed) tid = if decide (id0 ∈ fixed) then Ok (s, fixed) else if (id0 =? id)%Z then Ok (s, fixed)
    else s ← fixSplitSetOrdering s id0; Ok (s, {[id0]} ∪ fixed)) as ->.
  { unfold fixStep. by rewrite <- Htid, (kn_from _ _ Hk _ _ _ He0 Ht0). }
  (* a set with this transaction is [id0] *)
  assert (∀ id' e', B !! id' = Some e' → in_order (s_unsolvedBlockIndex s) (tx_of e') ∨ id' = id0 ∧ (id' ∉ fixed) ∨
    (id' ∉ fixed) ∧ ∃ t, t ∈ tx_of e' ∧ Transaction_ID t ∈ l) as Ho'.
  { intros id' e' HB'. destruct (Ho id' e' HB') as [?|(Hf & t & Ht & [Hl|Hl]%elem_of_cons)]; [by left| |right; right; eauto].
    right. left. split; [|done]. apply (kn_disjoint _ _ Hk id' id0 e' e0 t t0); [by eapply lookup_weaken|done|done|done|congruence]. }
  assert (∀ tid, tid ∈ l → mentions E B id tid) as Hm' by (intros tid' Hin; apply Hm; by right).
  case_decide as Hfix; [|destruct (Z.eqb_spec id0 id) as [->|Hne]].
  - cbn [mbind res_bind]. apply IH; [done..|]. intros id' e' HB'. destruct (Ho' id' e' HB') as [?|[[-> ?]|?]]; [by left|done|by right].
  - cbn [mbind res_bind]. apply IH; [done..|]. intros id' e' HB'. destruct (Ho' id' e' HB') as [?|[[-> ?]|?]]; [by left|congruence|by right].
  - destruct Hid0 as [?|HB0]; [done|].
    destruct (fixSplitSetOrdering_spec E B s id0 e0) as (s1 & -> & Hs1 & Hh1 & Hord & Hother); [done..|]. cbn [mbind res_bind].
    destruct (IH s1 ({[id0]} ∪ fixed)) as (s' & fixed' & E1 & Hs' & Hrest); [by eapply knows_same|done..| |].
    + intros id' e' HB'. destruct (decide (id' = id0)) as [->|Hne']; [left; by simplify_eq|].
      destruct (Ho' id' e' HB') as [Hi|[[-> ?]|[? ?]]]; [|done|right; set_solver].
      left. eapply in_order_ext; [|exact Hi]. intros t Ht. by eapply Hother.
    + exists s', fixed'. split; [done|]. split; [by eapply same_sets_trans|done].
Qed.

(** The block without the set [id]. *)
Lemma removeSplitSet_spec at_ E B s id e :
  knows E s → B ⊆ E → E !! id = Some e → B !! id = None → holds B (tx_of e) s → ordered_but B (λ _, False) s →
  ∃ s', removeSplitSetFromUnsolvedBlock at_ s id = Ok s' ∧ same_sets s s' ∧ holds B [] s' ∧ ordered_but B (λ _, False) s'.
Proof.
  intros Hk HBE He HB Hh Ho. unfold removeSplitSetFromUnsolvedBlock. rewrite (kn_split _ _ Hk), lookup_fmap, He. cbn [fmap option_fmap option_map].
  destruct (removeTxns_loop E B id e (tx_of e) s ∅) as (s1 & sw & E1 & Hs1 & Hh1 & Ho1 & Hm1); [done..|by eapply kn_NoDup|done|done| |set_solver|].
  { intros id' e' HB'. destruct (Ho id' e' HB') as [?|(t & _ & [])]. by left. }
  unfold removeTxns. rewrite E1. cbn [mbind res_bind].
  destruct (fixOrderings_loop E B id (range_keys at_ sw) s1 ∅) as (s2 & fixed & E2 & Hs2 & Hh2 & Ho2); [by eapply knows_same|done|done|done| | |].
  { intros tid Htid%elem_of_range_keys. by apply Hm1. }
  { intros id' e' HB'. destruct (Ho1 id' e' HB') as [?|(t & Ht & Htsw)]; [by left|]. right. split; [set_solver|]. exists t. by rewrite elem_of_range_keys. }
  unfold fixOrderings. rewrite E2. cbn [mbind res_bind]. exists s2. split; [done|]. split; [by eapply same_sets_trans|]. split; [done|].
  intros id' e' HB'. left. by eapply Ho2.
Qed.

(** ** Appending a set *)

Lemma filed_snoc txns idx t :
  filed txns idx → idx !! Transaction_ID t = None → filed (txns ++ [t]) (<[Transaction_ID t := length txns]> idx).
Proof.
  intros Hf Hn tid i. destruct (decide (tid = Transaction_ID t)) as [->|Hne].
  - rewrite lookup_insert_eq. split.
    + intros [= <-]. exists t. by rewrite list_lookup_middle.
    + intros (u & [Hu|[Hi Hu]]%lookup_app_Some & E).
      * assert (idx !! Transaction_ID t = Some i) by (apply Hf; eauto). congruence.
      * apply list_lookup_singleton_Some in Hu as [? _]. f_equal. lia.
  - rewrite lookup_insert_ne, (Hf tid i) by done. split; intros (u & Hu & <-); exists u; (split; [|done]).
    + by apply lookup_app_l_Some.
    + apply lookup_app_Some in Hu as [?|[_ [_ <-]%list_lookup_singleton_Some]]; done.
Qed.

Lemma appendTxns_spec txs : ∀ s,
  filed (s_txns s) (s_unsolvedBlockIndex s) → NoDup (Transaction_ID <$> txs) →
  (∀ t, t ∈ txs → s_unsolvedBlockIndex s !! Transaction_ID t = None) →
  same_sets s (appendTxns s txs) ∧ s_txns (appendTxns s txs) = s_txns s ++ txs ∧
  filed (s_txns s ++ txs) (s_unsolvedBlockIndex (appendTxns s txs)) ∧
  (∀ tid, tid ∉ Transaction_ID <$> txs → s_unsolvedBlockIndex (appendTxns s txs) !! tid = s_unsolvedBlockIndex s !! tid).
Proof.
  induction txs as [|t txs IH]; intros s Hf Hnd Hnew; cbn [appendTxns foldl].
  { rewrite app_nil_r. split; [apply same_sets_refl|done]. }
  cbn in Hnd. apply NoDup_cons in Hnd as [Ht Hnd].
  destruct (IH (set_txns (s_txns s ++ [t]) (<[Transaction_ID t := length (s_txns s)]> (s_unsolvedBlockIndex s)) s)) as (H1 & H2 & H3 & H4).
  - cbn. apply filed_snoc; [done|]. apply Hnew. by left.
  - done.
  - cbn. intros u Hu. rewrite lookup_insert_ne; [apply Hnew; by right|]. intros E. apply Ht. rewrite E. by apply list_elem_of_fmap_2.
  - cbn in H2, H3, H4. rewrite <- (assoc_L (++)) in H2, H3. split; [eapply same_sets_trans; [apply same_sets_set|exact H1]|].
    split; [exact H2|]. split; [exact H3|]. intros tid [Hne Htid]%not_elem_of_cons. etransitivity; [by apply H4|]. by rewrite lookup_insert_ne.
Qed.

(** ** The invariant *)

(** The sets [E] are in the heap of the block, in the overflow, or, in the
    middle of an operation, in [X]. *)
Record sel_ok E (X : gmap splitSetID mapElement) (s : selection) : Prop := {
  ok_block : heap_ok (s_blockMapHeap s);
  ok_over : heap_ok (s_overflowMapHeap s);
  ok_min : mh_minHeap (s_blockMapHeap s) = true;
  ok_max : mh_minHeap (s_overflowMapHeap s) = false;
  ok_parts : ∀ id e, E !! id = Some e ↔ B_of s !! id = Some e ∨ O_of s !! id = Some e ∨ X !! id = Some e;
  ok_BO : B_of s ##ₘ O_of s;
  ok_BX : B_of s ##ₘ X;
  ok_OX : O_of s ##ₘ X;
  ok_ids : ∀ id e, E !! id = Some e → me_id e = id;
  ok_knows : knows E s;
  ok_holds : holds (B_of s) [] s;
  ok_order : ∀ id e, B_of s !! id = Some e → in_order (s_unsolvedBlockIndex s) (tx_of e);
}.

Lemma ok_sub E X s : sel_ok E X s → B_of s ⊆ E.
Proof. intros H. apply map_subseteq_spec. intros id e He. apply H. by left. Qed.

(** Nothing but the heaps and the block changes. *)
Definition same_world (s s' : selection) : Prop :=
  s_fullSets s' = s_fullSets s ∧ s_setCounter s' = s_setCounter s ∧ s_splitSets s' = s_splitSets s ∧
  s_splitSetIDFromTxID s' = s_splitSetIDFromTxID s.

Lemma same_world_refl s : same_world s s.
Proof. done. Qed.
Lemma same_world_trans s1 s2 s3 : same_world s1 s2 → same_world s2 s3 → same_world s1 s3.
Proof. intros (?&?&?&?) (?&?&?&?). repeat split; congruence. Qed.
Lemma same_sets_world s s' : same_sets s s' → same_world s s'.
Proof. intros ->. done. Qed.
Lemma knows_ext E s s' :
  s_splitSets s' = s_splitSets s → s_splitSetIDFromTxID s' = s_splitSetIDFromTxID s → knows E s → knows E s'.
Proof. intros E1 E2 []. split; [congruence|done|done|]. intros. rewrite E2. eauto. Qed.
Lemma knows_world E s s' : same_world s s' → knows E s → knows E s'.
Proof. intros (_ & _ & E1 & E2). by apply knows_ext. Qed.

Lemma holds_ext B R s s' :
  s_txns s' = s_txns s → s_unsolvedBlockIndex s' = s_unsolvedBlockIndex s → holds B R s → holds B R s'.
Proof. intros E1 E2 []. split; by rewrite E1, ?E2. Qed.

(** A transaction of a set that is not in the block has no position. *)
Lemma not_in_block E X s id e t :
  sel_ok E X s → E !! id = Some e → B_of s !! id = None → t ∈ tx_of e → s_unsolvedBlockIndex s !! Transaction_ID t = None.
Proof.
  intros H He HB Ht. destruct (s_unsolvedBlockIndex s !! Transaction_ID t) as [i|] eqn:E1; [|done]. exfalso.
  apply (hd_filed _ _ _ (ok_holds _ _ _ H)) in E1 as (u & Hu & Htu). apply list_elem_of_lookup_2, (hd_elem _ _ _ (ok_holds _ _ _ H)) in Hu as [(id' & e' & He' & Hu)|[]%elem_of_nil].
  assert (id' = id) as ->; [|congruence]. by apply (kn_disjoint _ _ (ok_knows _ _ _ H) id' id e' e u t); [apply H; left| | | |].
Qed.

Lemma pushToBlock_ok E X s e :
  sel_ok E X s → X !! me_id e = Some e →
  ∃ s', pushToBlock s e = Ok s' ∧ sel_ok E (delete (me_id e) X) s' ∧ same_world s s' ∧
    B_of s' = <[me_id e := e]> (B_of s) ∧ s_overflowMapHeap s' = s_overflowMapHeap s.
Proof.
  intros H He. assert (B_of s !! me_id e = None) as HB by exact (map_disjoint_Some_r _ _ _ _ (ok_BX _ _ _ H) He).
  assert (O_of s !! me_id e = None) as HO by exact (map_disjoint_Some_r _ _ _ _ (ok_OX _ _ _ H) He).
  assert (E !! me_id e = Some e) as HE by (apply H; auto).
  destruct (push_spec (s_blockMapHeap s) e (ok_block _ _ _ H) HB) as (h & Eh & Hh & Hsel & Hmn).
  unfold pushToBlock. rewrite Eh. cbn [mbind res_bind]. eexists. split; [reflexivity|].
  set (s1 := set_blockMapHeap h s). destruct (appendTxns_spec (tx_of e) s1) as (Hs & Ht & Hf & Hidx).
  { apply (ok_holds _ _ _ H). } { by apply (kn_NoDup _ _ (ok_knows _ _ _ H) _ _ HE). } { intros t Htx. exact (not_in_block E X s (me_id e) e t H HE HB Htx). }
  rewrite <- Ht in Hf. set (s2 := appendTxns s1 (tx_of e)) in *.
  assert (same_world s s2) as Hw by (eapply same_world_trans; [|by apply same_sets_world]; done).
  assert (s_blockMapHeap s2 = h ∧ s_overflowMapHeap s2 = s_overflowMapHeap s) as [Eb Eo] by (rewrite Hs; done).
  split; [|split; [done|]; by rewrite Eb, Eo]. split; rewrite ?Eb, ?Eo; [done|apply H|rewrite Hmn; apply H|apply H|..].
  - intros id x. rewrite Hsel, (ok_parts _ _ _ H), lookup_insert_Some, lookup_delete_Some.
    destruct (decide (me_id e = id)) as [<-|Hne]; [rewrite HB, HO, He|]; naive_solver.
  - rewrite Hsel. apply map_disjoint_insert_l_2; [done|apply H].
  - rewrite Hsel. apply map_disjoint_insert_l_2; [apply lookup_delete_eq|]. apply map_disjoint_delete_r, H.
  - apply map_disjoint_delete_r, H.
  - apply H.
  - by eapply knows_world; [|apply H].
  - split; [done|]. intros t. rewrite Ht, elem_of_app, Hsel. change (s_txns s1) with (s_txns s). rewrite (hd_elem _ _ _ (ok_holds _ _ _ H)).
    setoid_rewrite lookup_insert_Some. split.
    + intros [[(id & x & Hx & Hin)|[]%elem_of_nil]|Hin]; left.
      * exists id, x. split; [|done]. right. split; [congruence|done].
      * exists (me_id e), e. split; [by left|done].
    + intros [(id & x & [[<- <-]|[_ Hx]] & Hin)|[]%elem_of_nil]; eauto 10.
  - rewrite Hsel. intros id x [[<- <-]|[Hne Hx]]%lookup_insert_Some.
    + intros i j t u p q Hij Hti Huj Hp Hq. apply Hf in Hp as (t' & Ht' & Et), Hq as (u' & Hu' & Eu). rewrite Ht in Ht', Hu'. rewrite Ht in Hf.
      assert (p = length (s_txns s1) + i) as ->.
      { eapply (filed_inj _ _ _ _ _ t Hf Ht'); [by rewrite lookup_app_r, Nat.add_comm, Nat.add_sub by lia|done]. }
      assert (q = length (s_txns s1) + j) as ->; [|lia].
      eapply (filed_inj _ _ _ _ _ u Hf Hu'); [by rewrite lookup_app_r, Nat.add_comm, Nat.add_sub by lia|done].
    + eapply in_order_ext; [|by apply (ok_order _ _ _ H id x)]. intros t Htx. apply Hidx. intros (u & Hu & Huin)%list_elem_of_fmap.
      apply Hne. by apply (kn_disjoint _ _ (ok_knows _ _ _ H) (me_id e) id e x u t); [|apply H; left| | |].
Qed.

Lemma pushToOverflow_ok E X s e :
  sel_ok E X s → X !! me_id e = Some e →
  ∃ s', pushToOverflow s e = Ok s' ∧ sel_ok E (delete (me_id e) X) s' ∧ same_world s s' ∧
    s_blockMapHeap s' = s_blockMapHeap s ∧ O_of s' = <[me_id e := e]> (O_of s) ∧ s_txns s' = s_txns s.
Proof.
  intros H He. assert (B_of s !! me_id e = None) as HB by exact (map_disjoint_Some_r _ _ _ _ (ok_BX _ _ _ H) He).
  assert (O_of s !! me_id e = None) as HO by exact (map_disjoint_Some_r _ _ _ _ (ok_OX _ _ _ H) He).
  destruct (push_spec (s_overflowMapHeap s) e (ok_over _ _ _ H) HO) as (h & Eh & Hh & Hsel & Hmn).
  unfold pushToOverflow. rewrite Eh. cbn [mbind res_bind]. eexists. split; [reflexivity|]. split; [|done].
  destruct H. split; cbn; [done|done|done|by rewrite Hmn|..|done|by apply (knows_world E s)|by apply (holds_ext _ _ s)|done].
  - intros id x. rewrite Hsel, ok_parts0, lookup_insert_Some, lookup_delete_Some.
    destruct (decide (me_id e = id)) as [<-|Hne]; [rewrite HB, HO, He|]; naive_solver.
  - rewrite Hsel. by apply map_disjoint_insert_r_2.
  - by apply map_disjoint_delete_r.
  - rewrite Hsel. apply map_disjoint_insert_l_2; [apply lookup_delete_eq|]. by apply map_disjoint_delete_r.
Qed.

Lemma popFromOverflow_ok E X s :
  sel_ok E X s → O_of s ≠ ∅ →
  ∃ s' e, popFromOverflow s = Ok (s', e) ∧ sel_ok E (<[me_id e := e]> X) s' ∧ same_world s s' ∧
    O_of s !! me_id e = Some e ∧ O_of s' = delete (me_id e) (O_of s) ∧ s_blockMapHeap s' = s_blockMapHeap s.
Proof.
  intros H Hne. destruct (pop_spec (s_overflowMapHeap s) (ok_over _ _ _ H) Hne) as (h & e & Eh & Hh & _ & He & Hsel & Hmn).
  unfold popFromOverflow. rewrite Eh. cbn [mbind res_bind]. eexists _, e. split; [reflexivity|].
  assert (B_of s !! me_id e = None) as HB by exact (map_disjoint_Some_r _ _ _ _ (ok_BO _ _ _ H) He).
  assert (X !! me_id e = None) as HX by exact (map_disjoint_Some_l _ _ _ _ (ok_OX _ _ _ H) He).
  split; [|done]. destruct H. split; cbn; [done|done|done|by rewrite Hmn|..|done|by apply (knows_world E s)|by apply (holds_ext _ _ s)|done].
  - intros id x. rewrite Hsel, ok_parts0, lookup_insert_Some, lookup_delete_Some.
    destruct (decide (me_id e = id)) as [<-|Hne']; [rewrite HB, HX, He|]; naive_solver.
  - rewrite Hsel. by apply map_disjoint_delete_r.
  - by apply map_disjoint_insert_r_2.
  - rewrite Hsel. apply map_disjoint_insert_r_2; [apply lookup_delete_eq|]. by apply map_disjoint_delete_l.
Qed.

(** A set that has left the heap of the block leaves the block. *)
Lemma takeFromBlock_ok at_ E X s h id e :
  sel_ok E X s → B_of s !! id = Some e → heap_ok h → mh_selectID h = delete id (B_of s) → mh_minHeap h = true →
  ∃ s', removeSplitSetFromUnsolvedBlock at_ (set_blockMapHeap h s) id = Ok s' ∧ sel_ok E (<[id := e]> X) s' ∧ same_world s s' ∧
    s_blockMapHeap s' = h ∧ s_overflowMapHeap s' = s_overflowMapHeap s.
Proof.
  intros H He Hh Hsel Hmn. assert (E !! id = Some e) as HE by (apply H; auto).
  assert (O_of s !! id = None) as HO by exact (map_disjoint_Some_l _ _ _ _ (ok_BO _ _ _ H) He).
  assert (X !! id = None) as HX by exact (map_disjoint_Some_l _ _ _ _ (ok_BX _ _ _ H) He).
  destruct (removeSplitSet_spec at_ E (delete id (B_of s)) (set_blockMapHeap h s) id e) as (s' & Es & Hs & Hhold & Hord).
  - by apply (knows_world E s), H.
  - etrans; [apply delete_subseteq|by apply (ok_sub E X)].
  - done.
  - apply lookup_delete_eq.
  - split; [apply (ok_holds _ _ _ H)|]. intros t. cbn. rewrite (hd_elem _ _ _ (ok_holds _ _ _ H)). setoid_rewrite lookup_delete_Some. split.
    + intros [(id' & e' & He' & Ht)|[]%elem_of_nil]. destruct (decide (id = id')) as [<-|]; [right; by simplify_eq|left; eauto 10].
    + intros [(id' & e' & [_ He'] & Ht)|Ht]; left; eauto.
  - intros id' e' [_ He']%lookup_delete_Some. left. by apply (ok_order _ _ _ H id').
  - assert (same_world s s') as Hw by (eapply same_world_trans; [|by apply same_sets_world]; done).
    assert (s_blockMapHeap s' = h ∧ s_overflowMapHeap s' = s_overflowMapHeap s) as [Eb Eo] by (rewrite Hs; done).
    exists s'. split; [done|]. split; [|done]. destruct H. split; rewrite ?Eb, ?Eo, ?Hsel; [done|done|done|done|..|done|by apply (knows_world E s)|done|].
    + intros id' x. rewrite ok_parts0, lookup_insert_Some, lookup_delete_Some.
      destruct (decide (id = id')) as [<-|Hne']; [rewrite HO, HX, He|]; naive_solver.
    + by apply map_disjoint_delete_l.
    + apply map_disjoint_insert_r_2; [apply lookup_delete_eq|]. by apply map_disjoint_delete_l.
    + by apply map_disjoint_insert_r_2.
    + intros id' e' He'. by destruct (Hord id' e' He') as [?|(? & _ & [])].
Qed.

Lemma popFromBlock_ok at_ E X s :
  sel_ok E X s → B_of s ≠ ∅ →
  ∃ s' e, popFromBlock at_ s = Ok (s', e) ∧ sel_ok E (<[me_id e := e]> X) s' ∧ same_world s s' ∧
    B_of s !! me_id e = Some e ∧ B_of s' = delete (me_id e) (B_of s) ∧ s_overflowMapHeap s' = s_overflowMapHeap s ∧
    peek (s_blockMapHeap s) = Some e.
Proof.
  intros H Hne. destruct (pop_spec (s_blockMapHeap s) (ok_block _ _ _ H) Hne) as (h & e & Eh & Hh & Hpk & He & Hsel & Hmn).
  unfold popFromBlock. rewrite Eh. cbn [mbind res_bind]. rewrite (ok_min _ _ _ H) in Hmn.
  destruct (takeFromBlock_ok at_ E X s h (me_id e) e) as (s' & -> & Hok & Hw & Eb & Eo); [done..|]. cbn [mbind res_bind].
  exists s', e. split; [done|]. split; [done|]. split; [done|]. by rewrite Eb, Eo.
Qed.

(** ** Adding a set *)

(** [X] holds the elements of a list. *)
Definition in_flight (X : gmap splitSetID mapElement) (l : list mapElement) : Prop :=
  NoDup (me_id <$> l) ∧ ∀ id e, X !! id = Some e ↔ e ∈ l ∧ me_id e = id.

Lemma in_flight_nil X : in_flight X [] ↔ X = ∅.
Proof.
  split.
  - intros [_ HX]. apply map_empty. intros id. destruct (X !! id) as [e|] eqn:He; [|done]. apply HX in He as [[]%elem_of_nil _].
  - intros ->. split; [constructor|]. intros id e. rewrite lookup_empty. split; [done|intros [[]%elem_of_nil _]].
Qed.

Lemma in_flight_cons X e l : in_flight X (e :: l) → X !! me_id e = Some e ∧ in_flight (delete (me_id e) X) l.
Proof.
  intros [Hnd HX]. cbn in Hnd. apply NoDup_cons in Hnd as [He Hnd]. split; [apply HX; split; [by left|done]|]. split; [done|].
  intros id x. rewrite lookup_delete_Some, HX, elem_of_cons. split.
  - intros [Hne [[->|Hx] Hid]]; done.
  - intros [Hx <-]. split; [|by auto]. intros E. apply He. rewrite E. by apply list_elem_of_fmap_2.
Qed.

Lemma in_flight_snoc X e l : in_flight X l → X !! me_id e = None → in_flight (<[me_id e := e]> X) (l ++ [e]).
Proof.
  intros [Hnd HX] He. split.
  - rewrite fmap_app. apply NoDup_app. split_and!; [done| |apply NoDup_singleton].
    intros id (x & -> & Hx)%list_elem_of_fmap E%list_elem_of_singleton. assert (X !! me_id e = Some x) by (apply HX; by rewrite <- E). congruence.
  - intros id x. rewrite lookup_insert_Some, HX, elem_of_app, list_elem_of_singleton. split.
    + intros [[<- <-]|[Hne [Hx Hid]]]; auto.
    + intros [[Hx| ->] <-]; [|by left]. right. split; [|done]. intros E. assert (X !! me_id e = Some x) by (apply HX; by rewrite E). congruence.
Qed.

Lemma in_flight_perm X l l' : l ≡ₚ l' → in_flight X l → in_flight X l'.
Proof. intros Hp [Hnd HX]. split; [by rewrite <- Hp|]. intros id e. by rewrite HX, Hp. Qed.

Lemma push_all_over E l : ∀ X s, sel_ok E X s → in_flight X l →
  ∃ s', foldM pushToOverflow s l = Ok s' ∧ sel_ok E ∅ s' ∧ same_world s s'.
Proof.
  induction l as [|e l IH]; intros X s H HX; cbn [foldM].
  { apply in_flight_nil in HX as ->. exists s. split; [done|]. split; [done|apply same_world_refl]. }
  apply in_flight_cons in HX as [He HX]. destruct (pushToOverflow_ok E X s e H He) as (s1 & -> & H1 & Hw & _). cbn [mbind res_bind].
  destruct (IH _ s1 H1 HX) as (s' & E' & H' & Hw'). exists s'. split; [done|]. split; [done|by eapply same_world_trans].
Qed.

Lemma push_all_block E l : ∀ X s, sel_ok E X s → in_flight X l →
  ∃ s', foldM pushToBlock s l = Ok s' ∧ sel_ok E ∅ s' ∧ same_world s s'.
Proof.
  induction l as [|e l IH]; intros X s H HX; cbn [foldM].
  { apply in_flight_nil in HX as ->. exists s. split; [done|]. split; [done|apply same_world_refl]. }
  apply in_flight_cons in HX as [He HX]. destruct (pushToBlock_ok E X s e H He) as (s1 & -> & H1 & Hw & _). cbn [mbind res_bind].
  destruct (IH _ s1 H1 HX) as (s' & E' & H' & Hw'). exists s'. split; [done|]. split; [done|by eapply same_world_trans].
Qed.

(** Sets are not empty, and together not larger than a 64-bit number. *)
Definition sized E : Prop :=
  (∀ id e, E !! id = Some e → (0 < ss_size (me_set e))%Z) ∧ (map_sumZ (λ e, ss_size (me_set e)) E < 2 ^ 64)%Z.

Lemma sum_in_map E l :
  (∀ id e, E !! id = Some e → (0 < ss_size (me_set e))%Z) → NoDup (me_id <$> l) → (∀ e, e ∈ l → E !! me_id e = Some e) →
  (sumZ (λ e, ss_size (me_set e)) l ≤ map_sumZ (λ e, ss_size (me_set e)) E)%Z.
Proof.
  revert E. induction l as [|e l IH]; intros E HE Hnd Hl; cbn [sumZ].
  { apply map_sumZ_nonneg. intros id e He. specialize (HE id e He). lia. }
  cbn in Hnd. apply NoDup_cons in Hnd as [He Hnd]. rewrite (map_sumZ_delete _ E (me_id e) e) by (apply Hl; by left).
  assert (sumZ (λ e, ss_size (me_set e)) l ≤ map_sumZ (λ e, ss_size (me_set e)) (delete (me_id e) E))%Z; [|lia]. apply IH; [|done|].
  - intros id x [_ Hx]%lookup_delete_Some. by apply (HE id).
  - intros x Hx. apply lookup_delete_Some. split; [|apply Hl; by right]. intros E'. apply He. rewrite E'. by apply list_elem_of_fmap_2.
Qed.

(** However room is made, every set ends up in one of the heaps. *)
Lemma makeRoom_ok E elem fuel : ∀ at_ X s bottom,
  sized E → sel_ok E X s → in_flight X (elem :: bottom) → size (B_of s) < fuel →
  ∃ s', makeRoom fuel at_ s elem bottom (sumZ (λ e, ss_size (me_set e)) bottom) = Ok s' ∧ sel_ok E ∅ s' ∧ same_world s s'.
Proof.
  induction fuel as [|fuel IH]; intros at_ X s bottom HE H HX Hf; [lia|]. cbn [makeRoom].
  pose proof (in_flight_cons _ _ _ HX) as [He HX1].
  assert (∃ s', (s0 ← pushToOverflow s elem; foldM pushToBlock s0 bottom) = Ok s' ∧ sel_ok E ∅ s' ∧ same_world s s') as Hback.
  { destruct (pushToOverflow_ok E X s elem H He) as (s1 & -> & H1 & Hw & _). cbn [mbind res_bind].
    destruct (push_all_block E bottom _ s1 H1 HX1) as (s' & -> & H' & Hw'). eauto using same_world_trans. }
  destruct (_ <? fillLimit)%Z.
  { destruct (pushToBlock_ok E X s elem H He) as (s1 & -> & H1 & Hw & _). cbn [mbind res_bind].
    destruct (push_all_over E bottom _ s1 H1 HX1) as (s' & -> & H' & Hw'). eauto using same_world_trans. }
  pose proof (heap_peek _ (ok_block _ _ _ H)) as Hp. destruct (peek (s_blockMapHeap s)) as [top|]; [|done]. destruct Hp as [Htop _].
  destruct (popFromBlock_ok (0 :: at_) E X s H) as (s1 & e & -> & H1 & Hw & HeB & HB & _); [intros E0; by rewrite E0 in Htop|]. cbn [mbind res_bind].
  assert (X !! me_id e = None) as HXe by exact (map_disjoint_Some_l _ _ _ _ (ok_BX _ _ _ H) HeB).
  assert (in_flight (<[me_id e := e]> X) (elem :: bottom ++ [e])) as HX' by (by apply (in_flight_snoc X e (elem :: bottom))).
  assert (∀ x, x ∈ elem :: bottom ++ [e] → E !! me_id x = Some x) as HinE.
  { intros x Hx. apply H1. right. right. apply HX'. done. }
  pose proof (sum_in_map E (elem :: bottom ++ [e]) (proj1 HE) (proj1 HX') HinE) as Hsum. cbn [sumZ] in Hsum.
  pose proof (proj1 HE _ _ (HinE elem ltac:(by left))). pose proof (proj2 HE).
  assert (0 < ss_size (me_set e))%Z by (apply (proj1 HE (me_id e)); apply HinE; right; apply elem_of_app; right; by left).
  assert (0 ≤ sumZ (λ e, ss_size (me_set e)) bottom)%Z.
  { apply sumZ_nonneg. intros x Hx. assert (0 < ss_size (me_set x))%Z; [|lia]. apply (proj1 HE (me_id x)), HinE. right. apply elem_of_app. by left. }
  rewrite sumZ_app in Hsum. cbn [sumZ] in Hsum. rewrite u64_id by ulia.
  unfold Currency_Div64. destruct (Z.eqb_spec (sumZ (λ e, ss_size (me_set e)) bottom + ss_size (me_set e)) 0) as [E0|_]; [lia|]. cbn [mbind res_bind].
  replace (sumZ (λ e, ss_size (me_set e)) bottom + ss_size (me_set e))%Z with (sumZ (λ e, ss_size (me_set e)) (bottom ++ [e])) by (rewrite sumZ_app; cbn; lia).
  destruct (_ =? 1)%Z.
  - pose proof (in_flight_cons _ _ _ HX') as [He' HX1']. destruct (pushToOverflow_ok E _ s1 elem H1 He') as (s2 & -> & Hok2 & Hw2 & _). cbn [mbind res_bind].
    destruct (push_all_block E (bottom ++ [e]) _ s2 Hok2 HX1') as (s' & -> & H' & Hw'). eauto 10 using same_world_trans.
  - destruct (IH (1 :: at_) _ s1 (bottom ++ [e]) HE H1 HX') as (s' & -> & H' & Hw').
    { rewrite HB, map_size_delete_Some by eauto. assert (size (B_of s) ≠ 0) by (apply map_size_ne_0_lookup; eauto). lia. }
    eauto using same_world_trans.
Qed.

Lemma addMapElementTxns_ok at_ E s elem :
  sized E → sel_ok E {[me_id elem := elem]} s →
  ∃ s', addMapElementTxns at_ s elem = Ok s' ∧ sel_ok E ∅ s' ∧ same_world s s' ∧
    ((u64 (mh_size (s_blockMapHeap s) + ss_size (me_set elem)) < fillLimit)%Z →
      B_of s' = <[me_id elem := elem]> (B_of s) ∧ s_overflowMapHeap s' = s_overflowMapHeap s).
Proof.
  intros HE H. unfold addMapElementTxns. destruct (Z.ltb_spec (u64 (mh_size (s_blockMapHeap s) + ss_size (me_set elem))) fillLimit) as [Hlt|Hge].
  - destruct (pushToBlock_ok E _ s elem H) as (s' & -> & H' & Hw & Hrest); [by rewrite lookup_singleton_eq|].
    rewrite delete_singleton_eq in H'. exists s'. done.
  - destruct (makeRoom_ok E elem (S (mh_len (s_blockMapHeap s))) at_ {[me_id elem := elem]} s [] HE H) as (s' & E' & H' & Hw).
    + split; [apply NoDup_singleton|]. intros id e. rewrite lookup_singleton_Some, list_elem_of_singleton. naive_solver.
    + unfold mh_len. rewrite (Permutation_length (ho_data _ (ok_block _ _ _ H))), length_fmap, length_map_to_list. lia.
    + exists s'. split; [exact E'|]. split; [done|]. split; [done|]. lia.
Qed.

(** ** Removing a set *)

Lemma popFromOverflow_empty E X s : sel_ok E X s → O_of s = ∅ → popFromOverflow s = Panic.
Proof.
  intros H HO. unfold popFromOverflow, pop, swap, elem_at. pose proof (ho_data _ (ok_over _ _ _ H)) as Hd.
  rewrite HO, map_to_list_empty in Hd. apply Permutation_nil_r in Hd. by rewrite Hd.
Qed.

Lemma promote_ok E X e fuel : ∀ s s', sel_ok E X s → promote fuel s e = Ok s' → sel_ok E X s' ∧ same_world s s'.
Proof.
  induction fuel as [|fuel IH]; intros s s' H Hp; cbn [promote] in Hp; [done|].
  destruct (_ <? fillLimit)%Z; [|injection Hp as <-; split; [done|apply same_world_refl]].
  destruct (decide (O_of s = ∅)) as [HO|HO]; [by rewrite (popFromOverflow_empty E X s H HO) in Hp|].
  destruct (popFromOverflow_ok E X s H HO) as (s1 & x & Ep & H1 & Hw1 & HxO & _). rewrite Ep in Hp. cbn [mbind res_bind] in Hp.
  destruct (pushToBlock_ok E _ s1 x H1) as (s2 & E2 & H2 & Hw2 & _); [by rewrite lookup_insert_eq|]. rewrite E2 in Hp. cbn [mbind res_bind] in Hp.
  rewrite delete_insert_id in H2 by exact (map_disjoint_Some_l _ _ _ _ (ok_OX _ _ _ H) HxO).
  destruct (IH s2 s' H2 Hp) as [H' Hw']. split; [done|]. eauto using same_world_trans.
Qed.

Lemma knows_delete E s id : knows E s →
  knows (delete id E) (set_sets (s_fullSets s) (s_setCounter s) (delete id (s_splitSets s)) (s_splitSetIDFromTxID s) s).
Proof.
  intros []. split; cbn.
  - by rewrite kn_split0, fmap_delete.
  - intros id' e [_ He]%lookup_delete_Some. eauto.
  - intros id1 id2 e1 e2 t1 t2 [_ H1]%lookup_delete_Some [_ H2]%lookup_delete_Some. eauto.
  - intros id' e t [_ He]%lookup_delete_Some. eauto.
Qed.

Lemma drop_flight E s id e : sel_ok E {[id := e]} s →
  sel_ok (delete id E) ∅ (set_sets (s_fullSets s) (s_setCounter s) (delete id (s_splitSets s)) (s_splitSetIDFromTxID s) s).
Proof.
  intros H. pose proof (knows_delete E s id (ok_knows _ _ _ H)) as Hk.
  pose proof (map_disjoint_Some_r _ _ id e (ok_BX _ _ _ H) (lookup_singleton_eq _ _)) as HB.
  pose proof (map_disjoint_Some_r _ _ id e (ok_OX _ _ _ H) (lookup_singleton_eq _ _)) as HO.
  destruct H. split; try done; cbn; [|apply map_disjoint_empty_r|apply map_disjoint_empty_r| |by apply (holds_ext _ _ s)].
  - intros id' x. rewrite lookup_delete_Some, ok_parts0, lookup_singleton_Some, lookup_empty. split; [naive_solver|].
    intros Hx. split; [|naive_solver]. intros <-. destruct Hx as [Hx|[Hx|Hx]]; congruence.
  - intros id' x [_ Hx]%lookup_delete_Some. eauto.
Qed.

Lemma deleteSplit_ok at_ E s id e s' :
  sel_ok E ∅ s → E !! id = Some e → deleteSplit at_ s id = Ok s' →
  sel_ok (delete id E) ∅ s' ∧ s_fullSets s' = s_fullSets s ∧ s_setCounter s' = s_setCounter s.
Proof.
  intros H He Hd. unfold deleteSplit in Hd. apply bind_Ok in Hd as (s1 & Hd & [= <-]).
  assert (sel_ok E {[id := e]} s1 ∧ same_world s s1) as [H1 Hw]; [|by split; [apply (drop_flight E s1 id e)|destruct Hw as (? & ? & _)]].
  unfold deleteMapElementTxns in Hd. apply (ok_parts _ _ _ H) in He as [HB|[HO|HX]]; [| |by rewrite lookup_empty in HX].
  - rewrite (map_disjoint_Some_l _ _ _ _ (ok_BO _ _ _ H) HB), HB in Hd.
    destruct (removeSetByID_spec _ id e (ok_block _ _ _ H) HB) as (h & Eh & Hh & Hsel & Hmn). rewrite Eh in Hd. cbn [mbind res_bind] in Hd.
    rewrite (ok_min _ _ _ H) in Hmn. destruct (takeFromBlock_ok at_ E ∅ s h id e H HB Hh Hsel Hmn) as (s2 & E2 & H2 & Hw2 & _).
    rewrite E2 in Hd. cbn [mbind res_bind] in Hd. rewrite insert_empty in H2.
    destruct (peekAtOverflow s2); [|by injection Hd as <-]. destruct (promote_ok E _ _ _ _ _ H2 Hd) as [H3 Hw3]. eauto using same_world_trans.
  - rewrite HO in Hd. destruct (removeSetByID_spec _ id e (ok_over _ _ _ H) HO) as (h & Eh & Hh & Hsel & Hmn). rewrite Eh in Hd. cbn [mbind res_bind] in Hd.
    injection Hd as <-. split; [|done]. pose proof (map_disjoint_Some_r _ _ _ _ (ok_BO _ _ _ H) HO) as HB.
    destruct H. split; cbn; rewrite ?Hsel; [done|done|done|by rewrite Hmn|..|done|by apply (knows_world E s)|by apply (holds_ext _ _ s)|done].
    + intros id' x. rewrite ok_parts0, lookup_delete_Some, lookup_singleton_Some, lookup_empty.
      destruct (decide (id = id')) as [<-|Hne]; [rewrite HB, HO|]; naive_solver.
    + by apply map_disjoint_delete_r.
    + by apply map_disjoint_singleton_r_2.
    + apply map_disjoint_singleton_r_2, lookup_delete_eq.
Qed.

(** With nothing in the overflow, nothing is promoted. *)
Lemma deleteSplit_total at_ E s id e :
  sel_ok E ∅ s → E !! id = Some e → O_of s = ∅ → ∃ s', deleteSplit at_ s id = Ok s' ∧ O_of s' = ∅.
Proof.
  intros H He HO. pose proof He as He'. apply (ok_parts _ _ _ H) in He' as [HB|[HO'|HX]]; [|by rewrite HO in HO'|by rewrite lookup_empty in HX].
  unfold deleteSplit, deleteMapElementTxns. rewrite HO, lookup_empty, HB.
  destruct (removeSetByID_spec _ id e (ok_block _ _ _ H) HB) as (h & -> & Hh & Hsel & Hmn). cbn [mbind res_bind].
  rewrite (ok_min _ _ _ H) in Hmn. destruct (takeFromBlock_ok at_ E ∅ s h id e H HB Hh Hsel Hmn) as (s2 & -> & H2 & _ & _ & Eo). cbn [mbind res_bind].
  unfold peekAtOverflow. rewrite Eo. pose proof (heap_peek _ (ok_over _ _ _ H)) as Hp.
  destruct (peek (s_overflowMapHeap s)) as [x|]; [destruct Hp as [Hp _]; by rewrite HO in Hp|]. cbn [mbind res_bind].
  eexists. split; [reflexivity|]. cbn. by rewrite Eo.
Qed.

(** ** Following the pool *)

(** The sets share no transaction. *)
Definition apart_sets E : Prop :=
  (∀ id e, E !! id = Some e → NoDup (Transaction_ID <$> tx_of e)) ∧
  (∀ id id' e e' t t', E !! id = Some e → E !! id' = Some e' → t ∈ tx_of e → t' ∈ tx_of e' →
    Transaction_ID t = Transaction_ID t' → id = id').

Definition own_ids E : Prop := ∀ id e, E !! id = Some e → me_id e = id.

Lemma map_sumZ_sub E E' :
  own_ids E' → (∀ id e, E' !! id = Some e → (0 < ss_size (me_set e))%Z) → E ⊆ E' →
  (map_sumZ (λ e, ss_size (me_set e)) E ≤ map_sumZ (λ e, ss_size (me_set e)) E')%Z.
Proof.
  intros Hid Hpos Hsub. unfold map_sumZ at 1. rewrite <- (sumZ_map snd (λ e, ss_size (me_set e))). change (map snd (map_to_list E)) with ((map_to_list E).*2).
  assert (∀ id e, E !! id = Some e → me_id e = id) as HidE by (intros id e He; apply Hid; by eapply lookup_weaken).
  apply sum_in_map; [done| |].
  - rewrite <- list_fmap_compose. assert (me_id ∘ snd <$> map_to_list E = (map_to_list E).*1) as ->; [|apply NoDup_fst_map_to_list].
    apply list_fmap_ext. intros i [id e] Hi%list_elem_of_lookup_2%elem_of_map_to_list. cbn. by apply HidE.
  - intros e ([id x] & -> & Hx%elem_of_map_to_list)%list_elem_of_fmap. cbn. rewrite (HidE _ _ Hx). by eapply lookup_weaken.
Qed.

Lemma foldl_fromTx id txs : ∀ (m : gmap TransactionID splitSetID) tid,
  foldl (λ m tx, <[Transaction_ID tx := id]> m) m txs !! tid = if decide (tid ∈ Transaction_ID <$> txs) then Some id else m !! tid.
Proof.
  induction txs as [|t txs IH]; intros m tid; cbn [foldl]; [done|]. rewrite IH. cbn [fmap list_fmap].
  destruct (decide (tid ∈ Transaction_ID <$> txs)); [rewrite decide_True by (by right); done|].
  destruct (decide (tid = Transaction_ID t)) as [->|].
  - by rewrite lookup_insert_eq, decide_True by (by left).
  - rewrite lookup_insert_ne, decide_False by (try rewrite elem_of_cons; naive_solver). done.
Qed.

Lemma addElement_ok at_ E E' s el :
  sel_ok E ∅ s → E !! me_id el = None → <[me_id el := el]> E ⊆ E' → apart_sets E' → sized E' → own_ids E' →
  ∃ s', addElement at_ s el = Ok s' ∧ sel_ok (<[me_id el := el]> E) ∅ s' ∧
    s_fullSets s' = s_fullSets s ∧ s_setCounter s' = s_setCounter s ∧
    (O_of s = ∅ → (map_sumZ (λ e, ss_size (me_set e)) E' < fillLimit)%Z → O_of s' = ∅).
Proof.
  intros H Hnew Hsub [Hnd Hdis] Hsz Hid. unfold addElement. set (s1 := set_sets _ _ _ _ s). set (E1 := <[me_id el := el]> E) in *.
  assert (∀ id e, E1 !! id = Some e → E' !! id = Some e) as Hin by (intros id e He; by eapply lookup_weaken).
  assert (E ⊆ E1) as HEE1 by (by apply insert_subseteq).
  assert (sized E1) as Hsz1.
  { split; [intros id e He; by apply (proj1 Hsz id), Hin|]. eapply Z.le_lt_trans; [|apply (proj2 Hsz)]. by apply map_sumZ_sub; [|apply Hsz|]. }
  assert (sel_ok E1 {[me_id el := el]} s1) as H1.
  { assert (B_of s !! me_id el = None) as HB.
    { destruct (B_of s !! me_id el) as [x|] eqn:Ex; [|done]. assert (E !! me_id el = Some x) by (apply H; auto). congruence. }
    assert (O_of s !! me_id el = None) as HO.
    { destruct (O_of s !! me_id el) as [x|] eqn:Ex; [|done]. assert (E !! me_id el = Some x) by (apply H; auto). congruence. }
    destruct H. split; cbn; try done.
    - intros id x. unfold E1. rewrite lookup_insert_Some, ok_parts0, lookup_singleton_Some, lookup_empty.
      destruct (decide (me_id el = id)) as [<-|Hne]; [rewrite HB, HO|]; naive_solver.
    - by apply map_disjoint_singleton_r_2.
    - by apply map_disjoint_singleton_r_2.
    - intros id x Hx. by apply Hid, Hin.
    - split; cbn.
      + unfold E1. by rewrite fmap_insert, (kn_split _ _ ok_knows0).
      + intros id x Hx. by apply (Hnd id), Hin.
      + intros id id' x x' t t' Hx Hx'. apply Hdis; by apply Hin.
      + intros id x t Hx Ht. rewrite foldl_fromTx. case_decide as Htid.
        * apply list_elem_of_fmap in Htid as (u & Hu & Huin). f_equal.
          by apply (Hdis (me_id el) id el x u t); [apply Hin, lookup_insert_eq|apply Hin| | |].
        * pose proof Hx as Hx'. unfold E1 in Hx'. apply lookup_insert_Some in Hx' as [[<- <-]|[_ Hx']]; [|by apply (kn_from _ _ ok_knows0 id x)].
          exfalso. apply Htid. by apply list_elem_of_fmap_2.
    - by apply (holds_ext _ _ s). }
  destruct (addMapElementTxns_ok at_ E1 s1 el Hsz1 H1) as (s' & -> & H' & (Hw1 & Hw2 & _) & Hfit).
  exists s'. split; [done|]. split; [done|]. split; [done|]. split; [done|]. intros HO Hlim.
  assert (B_of s = E) as HBE.
  { apply map_eq. intros id. apply option_eq. intros x. rewrite (ok_parts _ _ _ H), HO, lookup_empty. naive_solver. }
  destruct Hfit as [_ ->]; [|done]. change (s_blockMapHeap s1) with (s_blockMapHeap s). rewrite (ho_size _ (ok_block _ _ _ H)), HBE.
  pose proof (map_sumZ_sub E1 E' Hid (proj1 Hsz) Hsub) as Hle. unfold E1 in Hle. rewrite map_sumZ_insert in Hle by done.
  assert (0 < ss_size (me_set el))%Z by (apply (proj1 Hsz (me_id el)), Hin, lookup_insert_eq).
  assert (0 ≤ map_sumZ (λ e, ss_size (me_set e)) E)%Z.
  { apply map_sumZ_nonneg. intros id x Hx. assert (0 < ss_size (me_set x))%Z; [|lia]. apply (proj1 Hsz id), Hin. by eapply lookup_weaken. }
  pose proof (proj2 Hsz). rewrite (u64_id (map_sumZ _ E)) by ulia. rewrite u64_id by ulia. lia.
Qed.

(** The elements are added one after the other. *)
Lemma addElements_ok at_ E' l : ∀ i E s,
  sel_ok E ∅ s → NoDup (me_id <$> l) → (∀ el, el ∈ l → E !! me_id el = None ∧ E' !! me_id el = Some el) →
  E ⊆ E' → (∀ id e, E' !! id = Some e → E !! id = Some e ∨ e ∈ l) → apart_sets E' → sized E' → own_ids E' →
  ∃ s', foldMi (λ i s elem, addElement (Z.to_nat i :: at_) s elem) i s l = Ok s' ∧ sel_ok E' ∅ s' ∧
    s_fullSets s' = s_fullSets s ∧ s_setCounter s' = s_setCounter s ∧
    (O_of s = ∅ → (map_sumZ (λ e, ss_size (me_set e)) E' < fillLimit)%Z → O_of s' = ∅).
Proof.
  induction l as [|el l IH]; intros i E s H Hnd Hl Hsub Hcov Hap Hsz Hid; cbn [foldMi].
  { exists s. assert (E = E') as ->; [|done]. apply map_eq. intros id. apply option_eq. intros e. split; [intros; by eapply lookup_weaken|].
    intros [?|[]%elem_of_nil]%Hcov. done. }
  cbn in Hnd. apply NoDup_cons in Hnd as [Hel Hnd]. destruct (Hl el ltac:(by left)) as [HE HE'].
  assert (<[me_id el := el]> E ⊆ E') as Hsub1 by (by apply insert_subseteq_l).
  destruct (addElement_ok (Z.to_nat i :: at_) E E' s el H HE Hsub1 Hap Hsz Hid) as (s1 & -> & H1 & Hf1 & Hc1 & Hfit1). cbn [mbind res_bind].
  destruct (IH (i + 1)%Z _ s1 H1) as (s' & E1 & H' & Hf' & Hc' & Hfit'); [done| |done| |done|done|done|].
  - intros x Hx. destruct (Hl x ltac:(by right)) as [Hx1 Hx2]. split; [|done]. rewrite lookup_insert_ne; [done|]. intros E0. apply Hel. rewrite E0. by apply list_elem_of_fmap_2.
  - intros id e He. destruct (Hcov id e He) as [He1|[->|He1]%elem_of_cons]; [left|left|by right].
    + rewrite lookup_insert_ne; [done|]. intros <-. congruence.
    + rewrite <- (Hid id el He). apply lookup_insert_eq.
  - exists s'. split; [done|]. split; [done|]. split; [congruence|]. split; [congruence|]. auto.
Qed.

(** [K] gives the number of every set of the pool; [v] are the sets of the pool. *)
Record view_of (K : gmap TransactionSetID Z) E (v : gmap TransactionSetID (list Transaction)) : Prop := {
  vo_inj : ∀ x y k, K !! x = Some k → K !! y = Some k → x = y;
  vo_K : ∀ x k, K !! x = Some k → is_Some (E !! k);
  vo_E : ∀ k e, E !! k = Some e → ∃ x, K !! x = Some k;
  vo_v : ∀ x, v !! x = K !! x ≫= λ k, (λ e, tx_of e) <$> E !! k;
}.

(** The miner knows exactly the sets of [v], and their sizes. *)
Record follows (v : gmap TransactionSetID (list Transaction)) E (s : selection) : Prop := {
  fl_ok : sel_ok E ∅ s;
  fl_view : ∃ K, s_fullSets s = (λ k, [k]) <$> K ∧ view_of K E v;
  fl_counter : ∀ k e, E !! k = Some e → (k ≤ s_setCounter s)%Z;
  fl_sizes : ∀ k e, E !! k = Some e → ss_size (me_set e) = set_size (tx_of e);
}.

Lemma follows_lookup v E s k e : follows v E s → E !! k = Some e → ∃ x, v !! x = Some (tx_of e).
Proof.
  intros [_ (K & _ & HK) _ _] He. destruct (vo_E _ _ _ HK k e He) as [x Hx]. exists x. rewrite (vo_v _ _ _ HK), Hx. cbn. by rewrite He.
Qed.

Lemma view_delete K E v x k :
  view_of K E v → K !! x = Some k → view_of (delete x K) (delete k E) (delete x v).
Proof.
  intros [] Hx. split.
  - intros y z j [_ Hy]%lookup_delete_Some [_ Hz]%lookup_delete_Some. eauto.
  - intros y j [Hne Hy]%lookup_delete_Some. rewrite lookup_delete_ne; [eauto|]. intros ->. apply Hne. eauto.
  - intros j e [Hne He]%lookup_delete_Some. destruct (vo_E0 j e He) as [y Hy]. exists y. apply lookup_delete_Some. split; [|done]. intros ->. congruence.
  - intros y. destruct (decide (x = y)) as [<-|Hne]; [by rewrite !lookup_delete_eq|]. rewrite !lookup_delete_ne, vo_v0 by done.
    destruct (K !! y) as [j|] eqn:Ey; [|done]. cbn. rewrite lookup_delete_ne; [done|]. intros ->. apply Hne. eauto.
Qed.

Lemma deleteRevert_ok at_ v E s x s' :
  follows v E s → deleteRevert at_ s x = Ok s' → ∃ E', E' ⊆ E ∧ follows (delete x v) E' s'.
Proof.
  intros [Hok (K & HF & HK) Hc Hs] Hd. unfold deleteRevert in Hd. rewrite HF, lookup_fmap in Hd. destruct (K !! x) as [k|] eqn:Ex.
  - change (default [] ((λ k : Z, [k]) <$> Some k)) with [k] in Hd. cbn [foldMi] in Hd. destruct (vo_K _ _ _ HK x k Ex) as [e He].
    apply bind_Ok in Hd as (s1 & Hd & [= <-]). apply bind_Ok in Hd as (s2 & Hd & [= <-]).
    destruct (deleteSplit_ok _ E s k e s2 Hok He Hd) as (H2 & HF2 & Hc2). exists (delete k E). split; [apply delete_subseteq|]. split.
    + destruct H2. by split; [..|apply (knows_ext _ s2)|apply (holds_ext _ _ s2)|].
    + exists (delete x K). split; [cbn; by rewrite HF2, HF, fmap_delete|by apply view_delete].
    + cbn. rewrite Hc2. intros j y [_ Hy]%lookup_delete_Some. eauto.
    + intros j y [_ Hy]%lookup_delete_Some. eauto.
  - cbn in Hd. injection Hd as <-. exists E. split; [done|]. assert (v !! x = None) as Hv by (by rewrite (vo_v _ _ _ HK), Ex).
    rewrite delete_id by done. split; [|exists K; split; [|done]|done|done].
    + destruct Hok. by split; [..|apply (knows_ext _ s)|apply (holds_ext _ _ s)|].
    + cbn. rewrite delete_id; [done|]. by rewrite HF, lookup_fmap, Ex.
Qed.

Lemma deleteRevert_total at_ v E s x :
  follows v E s → O_of s = ∅ → ∃ s', deleteRevert at_ s x = Ok s' ∧ O_of s' = ∅.
Proof.
  intros [Hok (K & HF & HK) Hc Hs] HO. unfold deleteRevert. rewrite HF, lookup_fmap. destruct (K !! x) as [k|] eqn:Ex; [|by eexists].
  change (default [] ((λ k : Z, [k]) <$> Some k)) with [k]. cbn [foldMi]. destruct (vo_K _ _ _ HK x k Ex) as [e He].
  destruct (deleteSplit_total (Z.to_nat 0 :: at_) E s k e Hok He HO) as (s' & -> & HO'). cbn [mbind res_bind]. by eexists.
Qed.

Lemma deleteReverts_loop at_ l : ∀ i v E s s',
  follows v E s → foldMi (λ i s id, deleteRevert (Z.to_nat i :: at_) s id) i s l = Ok s' →
  ∃ E', E' ⊆ E ∧ follows (foldl (λ v id, delete id v) v l) E' s'.
Proof.
  induction l as [|x l IH]; intros i v E s s' H Hd; cbn [foldMi foldl] in *; [injection Hd as <-; eauto|].
  apply bind_Ok in Hd as (s1 & H1 & Hd). destruct (deleteRevert_ok _ _ _ _ _ _ H H1) as (E1 & Hsub & H1').
  destruct (IH _ _ _ _ _ H1' Hd) as (E' & Hsub' & H'). exists E'. split; [by etrans|done].
Qed.

Lemma deleteReverts_total at_ l : ∀ i v E s,
  follows v E s → O_of s = ∅ → ∃ s', foldMi (λ i s id, deleteRevert (Z.to_nat i :: at_) s id) i s l = Ok s' ∧ O_of s' = ∅.
Proof.
  induction l as [|x l IH]; intros i v E s H HO; cbn [foldMi]; [eauto|].
  destruct (deleteRevert_total (Z.to_nat i :: at_) v E s x H HO) as (s1 & E1 & HO1). rewrite E1. cbn [mbind res_bind].
  destruct (deleteRevert_ok _ _ _ _ _ _ H E1) as (E2 & _ & H2). by eapply IH.
Qed.

(** ** New sets *)

(** What the pool says of a set it sends. *)
Record honest (ut : UnconfirmedTransactionSet) : Prop := {
  hn_IDs : ut_IDs ut = map Transaction_ID (ut_Transactions ut);
  hn_Sizes : ut_Sizes ut = map (λ t, u64 (len (Transaction_MarshalSia t))) (ut_Transactions ut);
  hn_ne : ut_Transactions ut ≠ [];
  hn_size : (set_size (ut_Transactions ut) < 2 ^ 64)%Z;
}.

Lemma sumSet_value ut : honest ut → sumSet ut = Ok (set_size (ut_Transactions ut), add_fees 0%Z (ut_Transactions ut)).
Proof.
  intros [HI HS _ Hlt]. unfold sumSet. rewrite HI.
  assert (∀ l pre acc, ut_Transactions ut = pre ++ l → acc = (set_size pre, add_fees 0%Z pre) →
    foldMi (λ i '(size, totalFees) _, size_i ← go_index (ut_Sizes ut) i; txn ← go_index (ut_Transactions ut) i;
      Ok (u64 (size + size_i), foldl Currency_Add totalFees (t_MinerFees txn))) (len pre) acc (map Transaction_ID l) =
    Ok (set_size (ut_Transactions ut), add_fees 0%Z (ut_Transactions ut))) as Hloop.
  { induction l as [|t l IH]; intros pre acc Hl ->; cbn [map foldMi]; [by rewrite app_nil_r in Hl; rewrite Hl|].
    assert (∀ {A} (k : list A) j, k !! length pre = Some j → go_index k (len pre) = Ok j) as Hat.
    { intros A k j Hk. unfold go_index. pose proof (len_nonneg pre). destruct (Z.ltb_spec (len pre) 0); [lia|]. unfold len. by rewrite Nat2Z.id, Hk. }
    assert (ut_Transactions ut !! length pre = Some t) as Ht by (rewrite Hl; by apply list_lookup_middle).
    rewrite (Hat _ _ (u64 (len (Transaction_MarshalSia t)))) by (rewrite HS, list_lookup_fmap, Ht; done). cbn [mbind res_bind].
    rewrite (Hat _ _ t Ht). cbn [mbind res_bind]. replace (len pre + 1)%Z with (len (pre ++ [t])) by (by rewrite len_app).
    apply IH; [by rewrite <- (assoc_L (++))|]. f_equal; [|unfold add_fees; by rewrite foldl_app]. unfold set_size in *. rewrite Hl, sumZ_app in Hlt. cbn [sumZ] in Hlt. rewrite sumZ_app. cbn [sumZ].
    pose proof (len_nonneg (Transaction_MarshalSia t)).
    assert (0 ≤ sumZ (λ t, len (Transaction_MarshalSia t)) pre)%Z by (apply sumZ_nonneg; intros; apply len_nonneg).
    assert (0 ≤ sumZ (λ t, len (Transaction_MarshalSia t)) l)%Z by (apply sumZ_nonneg; intros; apply len_nonneg).
    rewrite (u64_id (len _)) by ulia. rewrite u64_id by ulia. lia. }
  apply (Hloop _ [] (0%Z, 0%Z)); [done|done].
Qed.

(** The element made of the [n]-th set. *)
Definition element (n : Z) (ut : UnconfirmedTransactionSet) : mapElement :=
  mkME (mkSS (set_rate (ut_Transactions ut)) (set_size (ut_Transactions ut)) (ut_Transactions ut)) n.

Lemma getNewSplitSets_spec l : ∀ s acc K,
  Forall honest l → NoDup (ut_ID <$> l) → s_fullSets s = (λ k, [k]) <$> K →
  ∃ K' els, foldM newSplitSet (s, acc) l =
      Ok (set_sets ((λ k, [k]) <$> K') (s_setCounter s + len l)%Z (s_splitSets s) (s_splitSetIDFromTxID s) s, acc ++ els) ∧
    (∀ i, els !! i = element (s_setCounter s + 1 + Z.of_nat i) <$> l !! i) ∧
    (∀ i ut, l !! i = Some ut → K' !! ut_ID ut = Some (s_setCounter s + 1 + Z.of_nat i)%Z) ∧
    (∀ x, x ∉ ut_ID <$> l → K' !! x = K !! x).
Proof.
  induction l as [|ut l IH]; intros s acc K Hh Hnd HF; cbn [foldM].
  { exists K, []. rewrite <- HF, app_nil_r, len_nil, Z.add_0_r. split; [by destruct s|]. split; [done|]. split; [done|done]. }
  apply Forall_cons in Hh as [Hut Hh]. cbn in Hnd. apply NoDup_cons in Hnd as [Hid Hnd].
  set (c := (s_setCounter s + 1)%Z). set (s1 := set_sets (<[ut_ID ut := [c]]> (s_fullSets s)) c (s_splitSets s) (s_splitSetIDFromTxID s) s).
  assert (newSplitSet (s, acc) ut = Ok (s1, acc ++ [element c ut])) as ->.
  { unfold newSplitSet. rewrite (sumSet_value ut Hut). cbn [mbind res_bind]. pose proof (set_size_pos (ut_Transactions ut) (hn_ne _ Hut)).
    unfold Currency_Div64. destruct (Z.eqb_spec (set_size (ut_Transactions ut)) 0); [lia|]. done. }
  cbn [mbind res_bind]. destruct (IH s1 (acc ++ [element c ut]) (<[ut_ID ut := c]> K)) as (K' & els & -> & Hels & HK & HK0); [done|done|cbn; by rewrite HF, fmap_insert|].
  exists K', (element c ut :: els). cbn [s_setCounter s1 set_sets] in *. split; [|split; [|split]].
  - rewrite <- (assoc_L (++)), len_cons. unfold c. by rewrite <- (assoc_L Z.add (s_setCounter s)).
  - intros [|i]; cbn; [unfold c; by rewrite Z.add_0_r|]. rewrite Hels. f_equal. f_equal. unfold c. lia.
  - intros [|i] u Hu; cbn in Hu.
    + injection Hu as <-. rewrite HK0, lookup_insert_eq by done. f_equal. unfold c. lia.
    + rewrite (HK i u Hu). f_equal. unfold c. lia.
  - intros x [Hne Hx]%not_elem_of_cons. rewrite HK0, lookup_insert_ne by done. done.
Qed.

(** ** A diff *)

(** The diffs that the pool sends to a subscriber that has [v]: new sets under
    new ids. *)
Record pool_diff (v : gmap TransactionSetID (list Transaction)) (diff : TransactionPoolDiff) : Prop := {
  pd_honest : Forall honest (tpd_AppliedTransactions diff);
  pd_ids : NoDup (ut_ID <$> tpd_AppliedTransactions diff);
  pd_new : ∀ ut, ut ∈ tpd_AppliedTransactions diff →
    foldl (λ v id, delete id v) v (tpd_RevertedTransactions diff) !! ut_ID ut = None;
}.

(** The sets of the pool have no transaction in common, and fit into 64 bits. *)
Record pool_sets (v : gmap TransactionSetID (list Transaction)) : Prop := {
  ps_NoDup : ∀ x set, v !! x = Some set → NoDup (Transaction_ID <$> set);
  ps_disjoint : ∀ x y set set' t t', v !! x = Some set → v !! y = Some set' → t ∈ set → t' ∈ set' →
    Transaction_ID t = Transaction_ID t' → x = y;
  ps_ne : ∀ x set, v !! x = Some set → set ≠ [];
  ps_size : (map_sumZ set_size v < 2 ^ 64)%Z;
}.

Lemma follow_inserts (l : list UnconfirmedTransactionSet) : ∀ (v : gmap TransactionSetID (list Transaction)) x,
  NoDup (ut_ID <$> l) →
  (∀ ut, ut ∈ l → ut_ID ut = x → foldl (λ v ut, <[ut_ID ut := ut_Transactions ut]> v) v l !! x = Some (ut_Transactions ut)) ∧
  (x ∉ ut_ID <$> l → foldl (λ v ut, <[ut_ID ut := ut_Transactions ut]> v) v l !! x = v !! x).
Proof.
  induction l as [|u l IH]; intros v x Hnd; cbn [foldl]; [split; [intros ut []%elem_of_nil|done]|].
  cbn in Hnd. apply NoDup_cons in Hnd as [Hu Hnd]. destruct (IH (<[ut_ID u := ut_Transactions u]> v) x Hnd) as [H1 H2]. split.
  - intros ut [->|Hut]%elem_of_cons <-; [|by apply H1]. rewrite H2, lookup_insert_eq by done. done.
  - intros [Hne Hx]%not_elem_of_cons. rewrite H2, lookup_insert_ne by done. done.
Qed.

Lemma view_lookup K E v k e : view_of K E v → E !! k = Some e → ∃ x, K !! x = Some k ∧ v !! x = Some (tx_of e).
Proof. intros HK He. destruct (vo_E _ _ _ HK k e He) as [x Hx]. exists x. split; [done|]. rewrite (vo_v _ _ _ HK), Hx. cbn. by rewrite He. Qed.

Lemma view_sum E : ∀ K v,
  view_of K E v → (∀ k e, E !! k = Some e → ss_size (me_set e) = set_size (tx_of e)) →
  map_sumZ (λ e, ss_size (me_set e)) E = map_sumZ set_size v.
Proof.
  induction E as [|k e E Hk IH] using map_ind; intros K v HK Hs.
  - assert (v = ∅) as ->; [|by rewrite !map_sumZ_empty]. apply map_empty. intros x. rewrite (vo_v _ _ _ HK).
    destruct (K !! x) as [k|] eqn:Ex; [|done]. destruct (vo_K _ _ _ HK x k Ex) as [e He]. by rewrite lookup_empty in He.
  - destruct (view_lookup K _ v k e HK (lookup_insert_eq _ _ _)) as (x & Hx & Hv). pose proof (view_delete _ _ _ x k HK Hx) as HK'.
    rewrite delete_insert_id in HK' by done. rewrite map_sumZ_insert by done. rewrite (map_sumZ_delete set_size v x _ Hv), (IH _ _ HK').
    + f_equal. apply (Hs k), lookup_insert_eq.
    + intros j y Hy. apply (Hs j). rewrite lookup_insert_ne; [done|]. intros ->. congruence.
Qed.

(** The sets of the pool are apart, so those of the miner are. *)
Lemma view_apart K E v : view_of K E v → pool_sets v → apart_sets E.
Proof.
  intros HK []. split.
  - intros k e He. destruct (view_lookup _ _ _ _ _ HK He) as (x & _ & Hx). eauto.
  - intros k k' e e' t t' He He' Ht Ht' Htt. destruct (view_lookup _ _ _ _ _ HK He) as (x & Hk & Hx). destruct (view_lookup _ _ _ _ _ HK He') as (y & Hk' & Hy).
    assert (x = y) as -> by eauto. congruence.
Qed.

Lemma view_sized K E v :
  view_of K E v → pool_sets v → (∀ k e, E !! k = Some e → ss_size (me_set e) = set_size (tx_of e)) → sized E.
Proof.
  intros HK Hps Hs. split; [|rewrite (view_sum E K v HK Hs); apply Hps].
  intros k e He. rewrite (Hs k e He). apply set_size_pos. destruct (view_lookup _ _ _ _ _ HK He) as (x & _ & Hx). by apply (ps_ne _ Hps x).
Qed.

(** The sets after the new ones are known. *)
Definition with_elements E (els : list mapElement) : gmap splitSetID mapElement :=
  list_to_map ((λ el, (me_id el, el)) <$> els) ∪ E.

Lemma with_elements_lookup E els id e :
  NoDup (me_id <$> els) → (∀ el, el ∈ els → E !! me_id el = None) →
  with_elements E els !! id = Some e ↔ (e ∈ els ∧ me_id e = id) ∨ E !! id = Some e.
Proof.
  intros Hnd Hnew. assert (((λ el, (me_id el, el)) <$> els).*1 = me_id <$> els) as H1 by (by rewrite <- list_fmap_compose).
  unfold with_elements. rewrite lookup_union_Some_raw. rewrite <- elem_of_list_to_map by (by rewrite H1). rewrite list_elem_of_fmap. split.
  - intros [(el & [= -> ->] & Hel)|[_ He]]; auto.
  - intros [[He <-]|He]; [left; by exists e|]. right. split; [|done]. apply not_elem_of_list_to_map_1. rewrite H1.
    intros (el & -> & Hel)%list_elem_of_fmap. rewrite (Hnew el Hel) in He. done.
Qed.

(** New sets, numbered from [c + 1] on. *)
Section extend.
Context (K K' : gmap TransactionSetID Z) (E : gmap splitSetID mapElement) (v : gmap TransactionSetID (list Transaction)) (c : Z).
Context (l : list UnconfirmedTransactionSet) (els : list mapElement).
Context (HK : view_of K E v) (Hc : ∀ k e, E !! k = Some e → (k ≤ c)%Z) (Hnd : NoDup (ut_ID <$> l)).
Context (Hnew : ∀ ut, ut ∈ l → v !! ut_ID ut = None).
Context (Hels : ∀ i, els !! i = element (c + 1 + Z.of_nat i) <$> l !! i).
Context (HK' : ∀ i ut, l !! i = Some ut → K' !! ut_ID ut = Some (c + 1 + Z.of_nat i)%Z).
Context (HK0 : ∀ x, x ∉ ut_ID <$> l → K' !! x = K !! x).

Lemma extend_elem el : el ∈ els ↔ ∃ i ut, l !! i = Some ut ∧ el = element (c + 1 + Z.of_nat i) ut.
Proof.
  rewrite list_elem_of_lookup. setoid_rewrite Hels. split.
  - intros (i & Hi). destruct (l !! i) as [ut|] eqn:E0; [|done]. injection Hi as <-. eauto.
  - intros (i & ut & Hi & ->). exists i. by rewrite Hi.
Qed.

Lemma extend_ids : NoDup (me_id <$> els).
Proof.
  apply NoDup_alt. intros i j k. rewrite !list_lookup_fmap, !Hels. destruct (l !! i), (l !! j); cbn; try done. intros [= Hi] [= Hj]. lia.
Qed.

Lemma extend_fresh el : el ∈ els → E !! me_id el = None.
Proof. intros (i & ut & Hi & ->)%extend_elem. cbn. destruct (E !! _) as [e|] eqn:He; [|done]. apply Hc in He. lia. Qed.

Lemma extend_lookup id e : with_elements E els !! id = Some e ↔ (e ∈ els ∧ me_id e = id) ∨ E !! id = Some e.
Proof. apply with_elements_lookup; [apply extend_ids|apply extend_fresh]. Qed.

(** A number of [K'] is new or old. *)
Lemma extend_K x k : K' !! x = Some k → (∃ i ut, l !! i = Some ut ∧ ut_ID ut = x ∧ k = (c + 1 + Z.of_nat i)%Z) ∨ (x ∉ ut_ID <$> l) ∧ K !! x = Some k.
Proof.
  intros Hx. destruct (decide (x ∈ ut_ID <$> l)) as [(ut & -> & [i Hi]%list_elem_of_lookup)%list_elem_of_fmap|Hn].
  - left. exists i, ut. rewrite (HK' i ut Hi) in Hx. by injection Hx as <-.
  - right. by rewrite <- HK0.
Qed.

Lemma extend_view : view_of K' (with_elements E els) (foldl (λ v ut, <[ut_ID ut := ut_Transactions ut]> v) v l).
Proof.
  assert (∀ x k, K !! x = Some k → (k ≤ c)%Z) as HKc by (intros x k Hx; destruct (vo_K _ _ _ HK x k Hx) as [e He]; eauto).
  split.
  - intros x y k Hx Hy. apply extend_K in Hx as [(i & ut & Hi & <- & ->)|[_ Hx]], Hy as [(j & u & Hj & <- & Hk)|[_ Hy]].
    + assert (i = j) as -> by lia. by simplify_eq.
    + apply HKc in Hy. lia.
    + apply HKc in Hx. lia.
    + by eapply vo_inj.
  - intros x k Hx. apply extend_K in Hx as [(i & ut & Hi & <- & ->)|[_ Hx]].
    + eexists. apply extend_lookup. left. split; [apply extend_elem; eauto|done].
    + destruct (vo_K _ _ _ HK x k Hx) as [e He]. exists e. apply extend_lookup. by right.
  - intros k e He. apply extend_lookup in He as [[(i & ut & Hi & ->)%extend_elem <-]|He].
    + exists (ut_ID ut). by apply HK'.
    + destruct (view_lookup _ _ _ _ _ HK He) as (x & Hx & Hv). exists x. rewrite HK0; [done|].
      intros (ut & -> & Hut)%list_elem_of_fmap. by rewrite Hnew in Hv.
  - intros x. destruct (follow_inserts l v x Hnd) as [H1 H2]. destruct (decide (x ∈ ut_ID <$> l)) as [(ut & -> & Hut)%list_elem_of_fmap|Hn].
    + rewrite (H1 ut) by done. apply list_elem_of_lookup in Hut as [i Hi]. rewrite (HK' i ut Hi). cbn.
      by rewrite (proj2 (extend_lookup (c + 1 + Z.of_nat i)%Z (element (c + 1 + Z.of_nat i) ut)) (or_introl (conj (proj2 (extend_elem _) (ex_intro _ i (ex_intro _ ut (conj Hi eq_refl)))) eq_refl))).
    + rewrite H2, HK0, (vo_v _ _ _ HK) by done. destruct (K !! x) as [k|] eqn:Hx; [|done]. cbn.
      destruct (vo_K _ _ _ HK x k Hx) as [e He]. by rewrite He, (proj2 (extend_lookup k e) (or_intror He)).
Qed.
End extend.

Lemma addNewTxns_ok at_ v E s diff :
  follows v E s → Forall honest (tpd_AppliedTransactions diff) → NoDup (ut_ID <$> tpd_AppliedTransactions diff) →
  (∀ ut, ut ∈ tpd_AppliedTransactions diff → v !! ut_ID ut = None) →
  let v' := foldl (λ v ut, <[ut_ID ut := ut_Transactions ut]> v) v (tpd_AppliedTransactions diff) in
  pool_sets v' →
  ∃ s' E', addNewTxns at_ s diff = Ok s' ∧ follows v' E' s' ∧
    (O_of s = ∅ → (map_sumZ set_size v' < fillLimit)%Z → O_of s' = ∅).
Proof.
  intros [Hok (K & HF & HK) Hc Hs] Hh Hnd Hnew v' Hps. unfold addNewTxns, getNewSplitSets. set (l := tpd_AppliedTransactions diff) in *.
  destruct (getNewSplitSets_spec l s [] K Hh Hnd HF) as (K' & els & -> & Hels & HK' & HK0). cbn [mbind res_bind app].
  set (E' := with_elements E els). pose proof (extend_lookup E (s_setCounter s) l els Hc Hels) as HE'. fold E' in HE'.
  pose proof (extend_view K K' E v (s_setCounter s) l els HK Hc Hnd Hnew Hels HK' HK0) as HV. fold v' E' in HV.
  assert (∀ k e, E' !! k = Some e → ss_size (me_set e) = set_size (tx_of e)) as Hs'.
  { intros k e [[(i & ut & Hi & ->)%(extend_elem _ l els Hels) _]|He]%HE'; [done|by apply (Hs k)]. }
  set (s1 := set_sets _ _ _ _ s).
  assert (sel_ok E ∅ s1) as Hok1 by (destruct Hok; by split; [..|apply (knows_ext _ s)|apply (holds_ext _ _ s)|]).
  destruct (addElements_ok at_ E' els 0%Z E s1) as (s' & Es & Hok' & HF' & Hc' & Hfit).
  - done.
  - by apply (extend_ids (s_setCounter s) l).
  - intros el Hel. split; [by apply (extend_fresh E (s_setCounter s) l els Hc Hels)|]. apply HE'. by left.
  - apply map_subseteq_spec. intros k e He. apply HE'. by right.
  - intros k e [[He _]|He]%HE'; auto.
  - by eapply view_apart.
  - by eapply view_sized.
  - intros k e [[_ Hk]|He]%HE'; [done|]. by apply (ok_ids _ _ _ Hok).
  - exists s', E'. split; [exact Es|]. rewrite <- (view_sum E' K' v' HV Hs'). split; [|exact Hfit]. split; [done| | |done].
    + exists K'. by rewrite HF'.
    + intros k e He. rewrite Hc'. cbn. pose proof (len_nonneg l). apply HE' in He as [[(i & ut & Hi & ->)%(extend_elem _ l els Hels) <-]|He].
      * cbn. apply lookup_lt_Some in Hi. unfold len. lia.
      * apply Hc in He. lia.
Qed.
End index.
