(* ===== verification/MinerPool.v ===== *)
(** * The miner and the transaction pool

    The miner receives the diffs of the transaction pool: the block that it
    assembles is made of sets of the pool, with the transactions of one set in
    the order of the set but between those of other sets, and such a block can be
    applied to the ledger. *)

From S2P Require Import Prelude Encoding Currency Target Crypto Types Codec Block Signatures ValidTransaction ConsensusDB ConsensusValid MapDiffs Diffs ApplyTransaction BlockDiffs Changelog MapRange Standard FindSets TransactionPool PoolInvariant PoolUpdate PoolSubscribe PoolOrder SplitSetHeap Miner MinerSelect.
#[local] Open Scope nat_scope.

Section receive.
Context `{MO : MapOrder} `{C : Crypto}.
Implicit Types (E : gmap splitSetID mapElement) (v : gmap TransactionSetID (list Transaction)).

Lemma receive_ok at_ v E s diff s' :
  follows v E s → pool_diff v diff → pool_sets (follow_diff v diff) →
  ReceiveUpdatedUnconfirmedTransactions at_ s diff = Ok s' → ∃ E', follows (follow_diff v diff) E' s'.
Proof.
  intros HF [Hh Hnd Hnew] Hps H. apply bind_Ok in H as (s1 & Hd & Ha).
  destruct (deleteReverts_loop _ _ _ _ _ _ _ HF Hd) as (E1 & _ & HF1).
  destruct (addNewTxns_ok (1 :: at_) _ E1 s1 diff HF1 Hh Hnd Hnew Hps) as (s2 & E2 & Es & HF2 & _).
  rewrite Ha in Es. injection Es as <-. eauto.
Qed.

Lemma receive_total at_ v E s diff :
  follows v E s → pool_diff v diff → pool_sets (follow_diff v diff) →
  (tpd_RevertedTransactions diff = [] → ∃ s', ReceiveUpdatedUnconfirmedTransactions at_ s diff = Ok s') ∧
  (O_of s = ∅ → (map_sumZ set_size (follow_diff v diff) < fillLimit)%Z →
    ∃ s', ReceiveUpdatedUnconfirmedTransactions at_ s diff = Ok s' ∧ O_of s' = ∅).
Proof.
  intros HF [Hh Hnd Hnew] Hps. unfold ReceiveUpdatedUnconfirmedTransactions, deleteReverts. split.
  - intros Hr. rewrite Hr in *. cbn [foldMi mbind res_bind].
    destruct (addNewTxns_ok (1 :: at_) v E s diff HF Hh Hnd Hnew) as (s2 & E2 & Es & _); [|eauto].
    unfold follow_diff in Hps. rewrite Hr in Hps. exact Hps.
  - intros HO Hfit. destruct (deleteReverts_total (0 :: at_) (tpd_RevertedTransactions diff) 0%Z v E s HF HO) as (s1 & Hd & HO1).
    destruct (deleteReverts_loop _ _ _ _ _ _ _ HF Hd) as (E1 & _ & HF1). rewrite Hd. cbn [mbind res_bind].
    destruct (addNewTxns_ok (1 :: at_) _ E1 s1 diff HF1 Hh Hnd Hnew Hps) as (s2 & E2 & Es & _ & Hf). eauto.
Qed.

(** ** What the pool sends *)

Lemma newSets_applied tp (l : list (TransactionSetID * list Transaction)) : ∀ acc,
  NoDup l.*1 → NoDup (ut_ID <$> acc.2) → (∀ ut, ut ∈ acc.2 → is_Some (acc.1 !! ut_ID ut)) →
  let r := foldl (newSet tp) acc l in
  NoDup (ut_ID <$> r.2) ∧
  ∀ ut, ut ∈ r.2 → ut ∈ acc.2 ∨ ∃ id set, (id, set) ∈ l ∧ acc.1 !! id = None ∧ ut = unconfirmedSet tp id set.
Proof.
  induction l as [|[id set] l IH]; intros acc Hl Hnd Hin; cbn [foldl]; [auto|].
  cbn in Hl. apply NoDup_cons in Hl as [Hid Hl]. unfold newSet at 2 4. destruct (acc.1 !! id) as [ut|] eqn:Eid.
  - destruct (IH acc Hl Hnd Hin) as [H1 H2]. split; [done|]. intros u [Hu|(id' & set' & Hm & Hn & ->)]%H2; [by left|].
    right. exists id', set'. split; [by right|done].
  - destruct (IH (<[id := unconfirmedSet tp id set]> acc.1, acc.2 ++ [unconfirmedSet tp id set]) Hl) as [H1 H2]; cbn [fst snd] in *.
    + rewrite fmap_app. apply NoDup_app. split; [done|]. split; [|apply NoDup_singleton].
      intros x (ut & -> & Hut)%list_elem_of_fmap Hx%list_elem_of_singleton. cbn in Hx. destruct (Hin ut Hut) as [y Hy]. congruence.
    + intros ut [Hut|Hut%list_elem_of_singleton]%elem_of_app; [|subst ut; cbn; rewrite lookup_insert_eq; eauto].
      destruct (Hin ut Hut) as [y Hy]. apply lookup_insert_is_Some. destruct (decide (id = ut_ID ut)); [by left|right; eauto].
    + split; [exact H1|]. intros u [[Hu|Hu%list_elem_of_singleton]%elem_of_app|(id' & set' & Hm & Hn & ->)]%H2.
      * by left.
      * subst u. right. exists id, set. split; [by left|done].
      * right. exists id', set'. split; [by right|]. apply lookup_insert_None in Hn as [Hn _]. done.
Qed.

Lemma set_size_in_map v x set : v !! x = Some set → (set_size set ≤ map_sumZ set_size v)%Z.
Proof.
  intros Hx. rewrite (map_sumZ_delete set_size v x set Hx).
  assert (0 ≤ map_sumZ set_size (delete x v))%Z; [|lia]. generalize (delete x v). clear. intros v.
  induction v as [|k l v Hk IH] using map_ind; [by rewrite map_sumZ_empty|]. rewrite map_sumZ_insert by done.
  assert (0 ≤ set_size l)%Z; [|lia]. apply sumZ_nonneg. intros. apply len_nonneg.
Qed.

Lemma unconfirmedSet_honest tp x set :
  pool_sets (tp_transactionSets tp) → tp_transactionSets tp !! x = Some set → honest (unconfirmedSet tp x set).
Proof.
  intros Hps Hx. split; cbn; [done|done|by eapply ps_ne|].
  apply (Z.le_lt_trans _ (map_sumZ set_size (tp_transactionSets tp))); [by eapply set_size_in_map|apply Hps].
Qed.

(** The diffs that the pool sends are diffs for a subscriber that has what the
    pool sent before. *)
Lemma updateSubscribers_diff at_ tp :
  pool_sets (tp_transactionSets tp) → pool_diff (sent tp) (updateSubscribersTransactions at_ tp).2.
Proof.
  intros Hps. unfold updateSubscribersTransactions. cbn zeta.
  set (reverted := omap _ _). set (subs := foldl (λ subs revert, delete revert subs) _ reverted).
  change (foldl _ (subs, []) _) with (foldl (newSet tp) (subs, []) (range (1%nat :: at_) (tp_transactionSets tp))).
  destruct (newSets_applied tp (range (1 :: at_) (tp_transactionSets tp)) (subs, [])) as [H1 H2]; cbn [fst snd] in *;
    [apply range_NoDup|constructor|intros ut []%elem_of_nil|].
  destruct (foldl (newSet tp) _ _) as [subs' applied] eqn:Ef. cbn in *. split; cbn.
  - apply Forall_forall. intros ut [[]%elem_of_nil|(id & set & Hin%elem_of_range & _ & ->)]%H2. by apply unconfirmedSet_honest.
  - done.
  - intros ut [[]%elem_of_nil|(id & set & _ & Hn & ->)]%H2. cbn. unfold subs in Hn. rewrite foldl_delete_lookup in Hn. rewrite foldl_delete_lookup.
    unfold sent. rewrite lookup_fmap. destruct (decide (id ∈ reverted)); [done|]. by rewrite Hn.
Qed.

(** ** What the block is made of *)

(** The transactions are those of the sets [chosen] from [v], and the ones of a
    set are in its order. *)
Record assembled v (chosen : gset TransactionSetID) (txns : list Transaction) : Prop := {
  as_chosen : chosen ⊆ dom v;
  as_elem : ∀ t, t ∈ txns ↔ ∃ x set, x ∈ chosen ∧ v !! x = Some set ∧ t ∈ set;
  as_order : ∀ x set, x ∈ chosen → v !! x = Some set → filter (λ t, t ∈ set) txns = set;
  as_apart : ∀ x y set set' t, x ∈ chosen → y ∈ chosen → v !! x = Some set → v !! y = Some set' → t ∈ set → t ∈ set' → x = y;
}.

Lemma filter_on (P Q : Transaction → Prop) `{∀ t, Decision (P t), ∀ t, Decision (Q t)} (l : list Transaction) :
  (∀ t, t ∈ l → P t ↔ Q t) → filter P l = filter Q l.
Proof.
  induction l as [|t l IH]; intros H1; [done|]. rewrite !filter_cons. rewrite IH by (intros u Hu; apply H1; by right).
  pose proof (H1 t (list_elem_of_here t l)). repeat case_decide; tauto.
Qed.

(** A list whose elements are at increasing positions of another is a filter of it. *)
Lemma filter_positions (l set : list Transaction) :
  NoDup l → (∀ t, t ∈ set → t ∈ l) →
  (∀ i j t u p q, i < j → set !! i = Some t → set !! j = Some u → l !! p = Some t → l !! q = Some u → p < q) →
  filter (λ t, t ∈ set) l = set.
Proof.
  revert set. induction l as [|x l IH]; intros set Hnd Hsub Hord.
  - destruct set as [|t set]; [done|]. by destruct (not_elem_of_nil t (Hsub t (list_elem_of_here t set))).
  - apply NoDup_cons in Hnd as [Hx Hnd]. rewrite filter_cons. case_decide as Hin.
    + destruct set as [|t set]; [by apply elem_of_nil in Hin|]. assert (t = x) as ->.
      { pose proof (Hsub t ltac:(by left)) as [[|p] Hp]%list_elem_of_lookup; [by injection Hp|].
        apply elem_of_cons in Hin as [->|[j Hj]%list_elem_of_lookup]; [done|].
        specialize (Hord 0 (S j) t x (S p) 0 ltac:(lia) eq_refl Hj Hp eq_refl). lia. }
      assert (x ∉ set) as Hxs.
      { intros [j Hj]%list_elem_of_lookup. specialize (Hord 0 (S j) x x 0 0 ltac:(lia) eq_refl Hj eq_refl eq_refl). lia. }
      f_equal. trans (filter (λ t, t ∈ set) l); [|apply IH; [done| |]].
      * apply filter_on. intros t Ht. rewrite elem_of_cons. split; [|by right]. intros [->|?]; done.
      * intros t Ht. specialize (Hsub t ltac:(by right)). apply elem_of_cons in Hsub as [->|?]; done.
      * intros i j t u p q Hij Hi Hj Hp Hq. specialize (Hord (S i) (S j) t u (S p) (S q) ltac:(lia) Hi Hj Hp Hq). lia.
    + apply IH; [done| |].
      * intros t Ht. specialize (Hsub t Ht). apply elem_of_cons in Hsub as [->|?]; done.
      * intros i j t u p q Hij Hi Hj Hp Hq. specialize (Hord i j t u (S p) (S q) Hij Hi Hj Hp Hq). lia.
Qed.

Lemma filed_NoDup txns idx : filed txns idx → NoDup txns.
Proof. intros Hf. apply NoDup_alt. intros i j t Hi Hj. by eapply filed_inj. Qed.

Lemma follows_assembled v E s :
  follows v E s → ∃ chosen, assembled v chosen (s_txns s) ∧ (O_of s = ∅ → chosen = dom v).
Proof.
  intros [Hok (K & HF & HK) Hc Hs]. pose proof (ok_holds _ _ _ Hok) as [Hfiled Helem].
  set (chosen := dom (filter (λ '(_, k), is_Some (B_of s !! k)) K)).
  assert (∀ x, x ∈ chosen ↔ ∃ k e, K !! x = Some k ∧ B_of s !! k = Some e ∧ v !! x = Some (tx_of e)) as Hch.
  { intros x. unfold chosen. rewrite elem_of_dom. split.
    - intros [k [Hk [e He]]%map_lookup_filter_Some]. exists k, e. split; [done|]. split; [done|].
      rewrite (vo_v _ _ _ HK), Hk. cbn. by rewrite (proj2 (ok_parts _ _ _ Hok k e) (or_introl He)).
    - intros (k & e & Hk & He & _). exists k. apply map_lookup_filter_Some. eauto. }
  exists chosen. split; [split|].
  - intros x (k & e & _ & _ & Hv)%Hch. apply elem_of_dom. eauto.
  - intros t. rewrite Helem. split.
    + intros [(k & e & He & Ht)|[]%elem_of_nil]. assert (E !! k = Some e) as HE by (apply (ok_parts _ _ _ Hok); by left).
      destruct (view_lookup _ _ _ _ _ HK HE) as (x & Hx & Hv). exists x, (tx_of e). split; [apply Hch; eauto|done].
    + intros (x & set & (k & e & Hk & He & Hv)%Hch & Hx & Ht). left. exists k, e. split; [done|]. congruence.
  - intros x set (k & e & Hk & He & Hv)%Hch Hx. assert (set = tx_of e) as -> by congruence.
    assert (∀ p t, s_txns s !! p = Some t → s_unsolvedBlockIndex s !! Transaction_ID t = Some p) as Hpos by (intros p t Hp; apply Hfiled; eauto).
    apply filter_positions; [by eapply filed_NoDup| |].
    + intros t Ht. apply Helem. left. eauto.
    + intros i j t u p q Hij Hi Hj Hp Hq. exact (ok_order _ _ _ Hok k e He i j t u p q Hij Hi Hj (Hpos p t Hp) (Hpos q u Hq)).
  - intros x y set set' t (k & e & Hk & He & Hv)%Hch (j & f & Hj & Hf & Hv')%Hch Hx Hy Ht Ht'.
    assert (set = tx_of e) as -> by congruence. assert (set' = tx_of f) as -> by congruence.
    assert (k = j) as ->; [|by eapply (vo_inj _ _ _ HK)].
    apply (kn_disjoint _ _ (ok_knows _ _ _ Hok) k j e f t t); [apply (ok_parts _ _ _ Hok); by left|apply (ok_parts _ _ _ Hok); by left|done|done|done].
  - intros HO. apply set_eq. intros x. rewrite Hch, elem_of_dom. split; [intros (k & e & _ & _ & Hv); eauto|].
    intros [set Hv]. rewrite (vo_v _ _ _ HK) in Hv. destruct (K !! x) as [k|] eqn:Ex; [|done]. cbn in Hv.
    destruct (E !! k) as [e|] eqn:Ee; [|done]. injection Hv as <-. exists k, e. split; [done|].
    split; [|by rewrite (vo_v _ _ _ HK), Ex; cbn; rewrite Ee].
    destruct (proj1 (ok_parts _ _ _ Hok k e) Ee) as [He|[He|He]]; [done| |by rewrite lookup_empty in He]. rewrite HO in He. by rewrite lookup_empty in He.
Qed.
End receive.

(** ** Mining what the pool has *)

Lemma follows_empty `{C : Crypto} : follows ∅ ∅ (emptySelection []).
Proof.
  split.
  - split; [apply emptyHeap_ok|apply emptyHeap_ok|done|done| |apply map_disjoint_empty_l|apply map_disjoint_empty_l|apply map_disjoint_empty_l|..].
    + intros id e. cbn. rewrite lookup_empty. split; [done|]. intros [?|[?|?]]; done.
    + intros id e. by rewrite lookup_empty.
    + split; [by rewrite fmap_empty|..]; intros *; rewrite lookup_empty; done.
    + split; cbn.
      * intros tid i. rewrite lookup_empty. split; [done|]. intros (t & Ht & _). done.
      * intros t. split; [intros []%elem_of_nil|]. intros [(id & e & H & _)|H]; [by rewrite lookup_empty in H|done].
    + intros id e. cbn. by rewrite lookup_empty.
  - exists ∅. split; [cbn; by rewrite fmap_empty|]. split; intros *; by rewrite ?lookup_empty.
  - intros k e. by rewrite lookup_empty.
  - intros k e. by rewrite lookup_empty.
Qed.

Section pool.
Context `{MO : MapOrder} `{C : Crypto}.

(** What a subscriber that is in step sees of a step of the pool. *)
Lemma pool_step_diff at_ tp0 tp :
  synced tp0 → tp_subscriberSets tp = tp_subscriberSets tp0 → keyed tp0 → keyed tp → hashed_apart tp0 tp →
  pool_sets (tp_transactionSets tp) →
  let r := updateSubscribersTransactions at_ tp in
  tp_transactionSets r.1 = tp_transactionSets tp ∧ pool_diff (tp_transactionSets tp0) r.2 ∧
  follow_diff (tp_transactionSets tp0) r.2 = tp_transactionSets tp.
Proof.
  intros Hsync Hsubs Hk0 Hk Happ Hps r. pose proof (updateSubscribers_same at_ tp) as Hsame.
  destruct (updateSubscribers_step at_ tp0 tp Hsync Hsubs Hk0 Hk Happ) as [Hfol _]. fold r in Hsame, Hfol.
  split; [done|]. split; [|by rewrite <- Hsame]. rewrite <- (sy_sets _ Hsync). unfold sent. rewrite <- Hsubs. by apply updateSubscribers_diff.
Qed.
End pool.

(** C7: The miner keeps in step with the transaction pool.  When the sets of the
    pool have changed and the miner, which knew the sets it was sent before,
    receives the diff, it knows exactly the sets of the pool: each is in the
    heap of the block or in the overflow, and the block it assembles consists of
    the transactions of the sets in the heap, every set complete and in its
    order, although removals move transactions around.  It does not fail when the
    diff removes nothing, nor when the sets of the pool fit into one block and
    nothing overflowed before; the block then has every transaction of the pool.
    The sets of the pool are taken to have no transaction twice, neither in one
    set nor in two, to be non-empty and hashed apart, and to be smaller than 2^64
    bytes together.  The first is not a promise of the pool: two sets share no
    object of the ledger, but a transaction that carries only data touches none,
    the pool accepts it twice, and then the miner's removal takes other
    transactions out of the block. *)
Theorem miner_follows_pool `{MO : MapOrder} `{C : Crypto} (at1 at2 : list nat) (tp0 tp : TransactionPool)
    (E : gmap splitSetID mapElement) (s : selection) :
  follows (tp_transactionSets tp0) E s → synced tp0 → tp_subscriberSets tp = tp_subscriberSets tp0 →
  keyed tp0 → keyed tp → hashed_apart tp0 tp → pool_sets (tp_transactionSets tp) →
  let '(tp', diff) := updateSubscribersTransactions at1 tp in
  (∀ s', ReceiveUpdatedUnconfirmedTransactions at2 s diff = Ok s' → ∃ E' chosen,
    follows (tp_transactionSets tp') E' s' ∧ assembled (tp_transactionSets tp') chosen (s_txns s')) ∧
  (tpd_RevertedTransactions diff = [] → ∃ s', ReceiveUpdatedUnconfirmedTransactions at2 s diff = Ok s') ∧
  (O_of s = ∅ → (map_sumZ set_size (tp_transactionSets tp') < fillLimit)%Z → ∃ s',
    ReceiveUpdatedUnconfirmedTransactions at2 s diff = Ok s' ∧ O_of s' = ∅ ∧
    assembled (tp_transactionSets tp') (dom (tp_transactionSets tp')) (s_txns s')).
Proof.
  intros HF Hsync Hsubs Hk0 Hk Happ Hps. pose proof (pool_step_diff at1 tp0 tp Hsync Hsubs Hk0 Hk Happ Hps) as (Hsame & Hd & Hfol).
  destruct (updateSubscribersTransactions at1 tp) as [tp' diff]. cbn [fst snd] in *. rewrite Hsame. rewrite <- Hfol in Hps |- *.
  destruct (receive_total at2 _ E s diff HF Hd Hps) as [H1 H2]. split_and!.
  - intros s' Hs'. destruct (receive_ok at2 _ E s diff s' HF Hd Hps Hs') as [E' HF']. exists E'.
    destruct (follows_assembled _ _ _ HF') as (chosen & Ha & _). eauto.
  - exact H1.
  - intros HO Hfit. destruct (H2 HO Hfit) as (s' & Hs' & HO'). exists s'. split; [done|]. split; [done|].
    destruct (receive_ok at2 _ E s diff s' HF Hd Hps Hs') as [E' HF'].
    destruct (follows_assembled _ _ _ HF') as (chosen & Ha & Hch). by rewrite <- (Hch HO').
Qed.

(** ** The block and the ledger *)

Section ledger.
Context `{N : Net} `{C : Crypto}.

(** Sets that touch no common object can be applied with their transactions
    interleaved.  [st x] is the state that the set [x] sees. *)
Lemma applyInterleaved (sets : gmap TransactionSetID (list Transaction)) rest : ∀ s,
  (∀ x y set set' oid, sets !! x = Some set → sets !! y = Some set' → touches set oid → touches set' oid → x = y) →
  (∀ x y set set' t, sets !! x = Some set → sets !! y = Some set' → t ∈ set → t ∈ set' → x = y) →
  (∀ t, t ∈ rest → ∃ x set, sets !! x = Some set ∧ t ∈ set) →
  (∀ x set, sets !! x = Some set → ∃ st st', sim (touches set) st s ∧ applyTransactions st (filter (λ t, t ∈ set) rest) = Ok st') →
  ∃ s', applyTransactions s rest = Ok s'.
Proof.
  induction rest as [|t rest IH]; intros s Hobj Htx Hin Hsim; [by eexists|].
  destruct (Hin t ltac:(by left)) as (x & set & Hx & Ht). destruct (Hsim x set Hx) as (st & st2 & Hst & Happ).
  rewrite filter_cons, decide_True in Happ by done. change (t :: filter (λ t, t ∈ set) rest) with ([t] ++ filter (λ t, t ∈ set) rest) in Happ.
  unfold applyTransactions in Happ. rewrite foldM_app in Happ. apply bind_Ok in Happ as (st1 & H1 & H2).
  destruct (applyTransactions_sim (touches set) [t] st s st1) as (s1 & E1 & Hs1); [|done|done|].
  { intros oid (u & ->%list_elem_of_singleton & Ho). by exists t. }
  change (t :: rest) with ([t] ++ rest). unfold applyTransactions in *. rewrite foldM_app, E1. cbn [mbind res_bind].
  apply IH; [done|done|intros u Hu; apply Hin; by right|]. intros y set' Hy. destruct (decide (y = x)) as [->|Hne].
  - assert (set' = set) as -> by congruence. eauto.
  - destruct (Hsim y set' Hy) as (sty & sty' & Hsty & Happ). rewrite filter_cons, decide_False in Happ by (intros Ht'; apply Hne; eauto).
    exists sty, sty'. split; [|done]. destruct Hsty as [Hag _ _].
    assert (∀ oid, touches [t] oid → ¬ touches set' oid) as Hd.
    { intros oid (u & ->%list_elem_of_singleton & Ho) Ho'. apply Hne. apply (Hobj y x set' set oid); [done|done|done|by exists t]. }
    pose proof (applyTransactions_keeps (touches set') s.1 [t] s s1 Hd (agree_refl _ _) E1) as Hk.
    split; [by eapply agree_trans|apply Hs1|apply Hs1].
Qed.
End ledger.

(** The transaction that makes the block unique spends nothing. *)
Lemma arbitraryTxn_applies `{N : Net} `{C : Crypto} (s : State) data :
  (len data ≤ 1000)%Z → applyTransactions s [arbitraryTxn data] = Ok s.
Proof.
  intros Hd. pose proof (len_nonneg data). assert (Transaction_MarshalSiaSize (arbitraryTxn data) = 88 + len data)%Z as Hsz by (unfold Transaction_MarshalSiaSize, arbitraryTxn; cbn [t_SiacoinInputs t_SiacoinOutputs t_FileContracts t_FileContractRevisions t_StorageProofs t_SiafundInputs t_SiafundOutputs t_MinerFees t_ArbitraryData t_TransactionSignatures sumZ SiacoinOutputs_size]; lia).
  assert (StandaloneValid (arbitraryTxn data) (blockHeight s.1) = Ok ()) as Hsv.
  { unfold StandaloneValid, fitsInABlock. rewrite Hsz, u64_id by ulia. unfold BlockSizeLimit, OakHardforkTxnSizeLimit.
    destruct (Z.ltb_spec (2000000 - 5000) (88 + len data)); [lia|]. cbn [guard_err mbind res_bind].
    assert ((if (OakHardforkBlock <=? blockHeight s.1)%Z then guard_err (64000 <? 88 + len data)%Z ErrTransactionTooLarge else Ok ()) = Ok ()) as ->.
    { case_match; [|done]. destruct (Z.ltb_spec 64000 (88 + len data)); [lia|done]. }
    reflexivity. }
  unfold applyTransactions. cbn [foldM]. unfold validTransaction. rewrite Hsv. cbn [mbind res_bind].
  assert (validStorageProofs s.1 (arbitraryTxn data) = Ok ()) as Hsp by (unfold validStorageProofs; by case_match).
  assert (validSiacoins s.1 (arbitraryTxn data) = Ok ()) as -> by reflexivity. cbn [mbind res_bind]. rewrite Hsp. reflexivity.
Qed.

(** ** A concrete pool *)

(** The miner receives the two sets of a pool: one of two transactions, which
    must stay in order, and one of one. *)
Module example_miner.
Import example_pool.

Lemma ok3 : pool_ok txnFn T pool3.
Proof. eapply acceptTransactionSet_ok; [apply pool_ids|apply _|apply ok2| |apply accept3]. apply all_T. set_solver. Qed.

Lemma sets3 : pool_sets (tp_transactionSets pool3).
Proof.
  assert (map_Forall (λ _ set, NoDup (Transaction_ID <$> set) ∧ set ≠ []) (tp_transactionSets pool3)) as H by vm_decide.
  assert (map_Forall (λ x set, map_Forall (λ y set', Forall (λ t, Forall (λ t', Transaction_ID t = Transaction_ID t' → x = y) set') set)
    (tp_transactionSets pool3)) (tp_transactionSets pool3)) as H' by vm_decide.
  split; [intros x set Hx; by apply (H x)| |intros x set Hx; by apply (H x)|by vm_compute].
  intros x y set set' t t' Hx Hy Ht Ht'. specialize (H' x set Hx y set' Hy). rewrite Forall_forall in H'. specialize (H' t Ht).
  rewrite Forall_forall in H'. by apply H'.
Qed.

Definition diff : TransactionPoolDiff := (updateSubscribersTransactions [4] pool3).2.
Definition selected (r : res selection) : selection := match r with Ok s => s | _ => emptySelection [] end.
Definition s3 : selection := Eval vm_compute in selected (ReceiveUpdatedUnconfirmedTransactions [5] (emptySelection []) diff).
Lemma received : ReceiveUpdatedUnconfirmedTransactions [5] (emptySelection []) diff = Ok s3.
Proof. vm_cast_no_check (eq_refl (Ok s3)). Qed.

Lemma sync0 : synced pool0.
Proof. split; [vm_compute; reflexivity|]. intros id ut. vm_compute. discriminate. Qed.
Lemma apart0 : hashed_apart pool0 pool3.
Proof. intros id id' s s' H. exfalso. vm_compute in H. discriminate. Qed.

Lemma follows3 : ∃ E, follows (tp_transactionSets pool3) E s3.
Proof.
  destruct (pool_step_diff [4] pool0 pool3 sync0 ltac:(vm_compute; reflexivity) (pool_ok_keyed _ _ _ ok0) (pool_ok_keyed _ _ _ ok3) apart0 sets3) as (_ & Hd & Hfol).
  fold diff in Hd, Hfol. rewrite <- Hfol. apply (receive_ok [5] ∅ ∅ (emptySelection []) diff); [apply follows_empty|exact Hd| |exact received].
  change ∅ with (tp_transactionSets pool0) at 1. rewrite Hfol. exact sets3.
Qed.
End example_miner.

Lemma miner_follows_pool_witness :
  ∃ s', ReceiveUpdatedUnconfirmedTransactions (MO := inOrder) [5] (emptySelection []) example_miner.diff = Ok s' ∧ O_of s' = ∅ ∧
    assembled (tp_transactionSets example_pool.pool3) (dom (tp_transactionSets example_pool.pool3)) (s_txns s') ∧ length (s_txns s') = 3.
Proof.
  pose proof (miner_follows_pool (MO := inOrder) [4] [5] example_pool.pool0 example_pool.pool3 ∅ (emptySelection []) follows_empty example_miner.sync0
    ltac:(vm_compute; reflexivity) (pool_ok_keyed _ _ _ example_pool.ok0) (pool_ok_keyed _ _ _ example_miner.ok3) example_miner.apart0 example_miner.sets3) as H.
  pose proof (updateSubscribers_same (MO := inOrder) [4] example_pool.pool3) as Hsame. unfold example_miner.diff.
  pose proof example_miner.received as Hr. unfold example_miner.diff in Hr.
  destruct (updateSubscribersTransactions (MO := inOrder) [4] example_pool.pool3) as [tp' diff']. cbn [fst snd] in *. destruct H as (_ & _ & H).
  rewrite Hsame in H. destruct (H eq_refl) as (s' & Hs & HO & Ha); [by vm_compute|]. exists s'. split; [done|]. split; [done|]. split; [done|].
  rewrite <- (Ok_inj _ _ (eq_trans (eq_sym Hr) Hs)). vm_compute. reflexivity.
Defined.
