(* ===== verification/MinerFlaws.v ===== *)
(** * Where the selection of the miner goes wrong

    Consequences of the code of update.go that its comments do not intend: the
    loop that makes room in the block counts the sets it has taken out twice,
    the loop that promotes sets from the overflow never looks at the overflow
    again, and the removal of a set that has a transaction twice takes another
    transaction out of the block. *)

From S2P Require Import Prelude Encoding Currency Target Crypto Types Codec Block ConsensusDB BlockDiffs MapRange Standard FindSets TransactionPool PoolInvariant SplitSetHeap Miner MinerSelect MinerPool.
#[local] Open Scope Z_scope.

(** The size of the sets of a heap. *)
Abbreviation sizes m := (map_sumZ (λ e, ss_size (me_set e)) m).

Section flaws.
Context `{MO : MapOrder} `{C : Crypto}.

Lemma sizes_bounds E X s :
  sel_ok E X s → sized E → 0 ≤ sizes (B_of s) < 2 ^ 64 ∧ 0 ≤ sizes (O_of s) < 2 ^ 64 ∧ mh_size (s_blockMapHeap s) = sizes (B_of s).
Proof.
  intros H [Hp Hlt]. assert (∀ m : gmap splitSetID mapElement, m ⊆ E → 0 ≤ sizes m < 2 ^ 64) as Hm.
  { intros m Hsub. split.
    - apply map_sumZ_nonneg. intros id e He. assert (0 < ss_size (me_set e)); [|lia]. apply (Hp id). by eapply lookup_weaken.
    - eapply Z.le_lt_trans; [apply (map_sumZ_sub m E); [exact (ok_ids _ _ _ H)|done|done]|done]. }
  assert (0 ≤ sizes (B_of s) < 2 ^ 64) as HB by (apply Hm; by eapply ok_sub). split; [done|]. split.
  - apply Hm, map_subseteq_spec. intros id e He. apply (ok_parts _ _ _ H). auto.
  - rewrite (ho_size _ (ok_block _ _ _ H)). by apply u64_id.
Qed.

(** Nothing ends the promotion but the size of the first set. *)
Lemma promote_panics E X e0 fuel : ∀ s,
  sel_ok E X s → sized E → 0 < ss_size (me_set e0) → sizes (B_of s) + sizes (O_of s) + ss_size (me_set e0) < fillLimit →
  promote fuel s e0 = Panic.
Proof.
  induction fuel as [|fuel IH]; intros s H HE H0 Hlt; cbn [promote]; [done|]. destruct (sizes_bounds E X s H HE) as (HB & HO & ->).
  unfold fillLimit, BlockSizeLimit in *. rewrite u64_id by ulia. rewrite (proj2 (Z.ltb_lt _ _)) by lia.
  destruct (decide (O_of s = ∅)) as [Hnil|Hne]; [by rewrite (popFromOverflow_empty E X s H Hnil)|].
  destruct (popFromOverflow_ok E X s H Hne) as (s1 & x & -> & H1 & _ & HxO & HO1 & HB1). cbn [mbind res_bind].
  destruct (pushToBlock_ok E _ s1 x H1) as (s2 & -> & H2 & _ & HB2 & HO2); [by rewrite lookup_insert_eq|]. cbn [mbind res_bind].
  apply IH; [|done|done|].
  - rewrite delete_insert_id in H2 by exact (map_disjoint_Some_l _ _ _ _ (ok_OX _ _ _ H) HxO). exact H2.
  - rewrite HB2, HO2, HO1, HB1. rewrite map_sumZ_insert by exact (map_disjoint_Some_r _ _ _ _ (ok_BO _ _ _ H) HxO).
    rewrite (map_sumZ_delete _ (O_of s) (me_id x) x HxO) in Hlt. lia.
Qed.
End flaws.

(** C38: The miner panics when everything in its overflow fits into the block.
    [deleteMapElementTxns] removes a set from the block and promotes sets while
    the one that was first in the overflow would fit; it looks at the overflow
    only once, so when the remaining sets of the block and all of the overflow,
    with the size of that first set counted once more, stay under the limit,
    the loop pops from the empty heap. *)
Theorem promotion_panics `{MO : MapOrder} `{C : Crypto} (at_ : list nat) (E : gmap splitSetID mapElement) (s : selection)
    (id : splitSetID) (e e0 : mapElement) :
  sel_ok E ∅ s → sized E → B_of s !! id = Some e → peekAtOverflow s = Some e0 →
  sizes (B_of s) - ss_size (me_set e) + sizes (O_of s) + ss_size (me_set e0) < fillLimit →
  deleteMapElementTxns at_ s id = Panic.
Proof.
  intros H HE He Hpk Hlt. unfold deleteMapElementTxns. rewrite (map_disjoint_Some_l _ _ _ _ (ok_BO _ _ _ H) He), He.
  destruct (removeSetByID_spec _ id e (ok_block _ _ _ H) He) as (h & -> & Hh & Hsel & Hmn). cbn [mbind res_bind].
  rewrite (ok_min _ _ _ H) in Hmn. destruct (takeFromBlock_ok at_ E ∅ s h id e H He Hh Hsel Hmn) as (s2 & -> & H2 & _ & Eb & Eo). cbn [mbind res_bind].
  unfold peekAtOverflow in *. rewrite Eo, Hpk. apply (promote_panics E (<[id := e]> ∅)); [done|done| |].
  - pose proof (heap_peek _ (ok_over _ _ _ H)) as Hp. rewrite Hpk in Hp. destruct Hp as [Hp _]. apply (proj1 HE (me_id e0)), H. auto.
  - rewrite Eb, Eo, Hsel. rewrite (map_sumZ_delete _ (B_of s) id e He) in Hlt. lia.
Qed.

(** C39: The block is filled over its limit.  When a set does not fit,
    [addMapElementTxns] takes the set with the lowest fee out of the block; the
    size of the heap is then already reduced, but the loop subtracts the size of
    the removed set from it again.  The new set is put into the block although
    the sets of the block are then larger than the limit, by up to the size of
    the removed set. *)
Theorem makeRoom_overfills `{MO : MapOrder} `{C : Crypto} (at_ : list nat) (E : gmap splitSetID mapElement) (s : selection)
    (elem e0 : mapElement) :
  sel_ok E {[me_id elem := elem]} s → sized E → peekAtBlock s = Some e0 →
  ss_averageFee (me_set e0) ≤ ss_averageFee (me_set elem) →
  let size := sizes (B_of s) - ss_size (me_set e0) + ss_size (me_set elem) in
  ss_size (me_set e0) ≤ size - ss_size (me_set elem) → fillLimit ≤ size < fillLimit + ss_size (me_set e0) →
  ∃ s', addMapElementTxns at_ s elem = Ok s' ∧ B_of s' = <[me_id elem := elem]> (delete (me_id e0) (B_of s)) ∧
    sizes (B_of s') = size ∧ mh_size (s_blockMapHeap s') = size.
Proof.
  intros H HE Hpk Hfee size Hge Hsz. subst size. destruct (sizes_bounds E _ s H HE) as (HB & HO & Hmh).
  pose proof (heap_peek _ (ok_block _ _ _ H)) as Hp. unfold peekAtBlock in Hpk. rewrite Hpk in Hp. destruct Hp as [He0 _].
  assert (E !! me_id e0 = Some e0) as HE0 by (apply H; auto). assert (E !! me_id elem = Some elem) as HEe by (apply H; rewrite lookup_singleton_eq; auto).
  pose proof (proj1 HE _ _ HE0) as Hp0. pose proof (proj1 HE _ _ HEe) as Hpe.
  assert (sizes (<[me_id elem := elem]> (B_of s)) ≤ sizes E) as Hsub.
  { apply map_sumZ_sub; [exact (ok_ids _ _ _ H)|apply HE|]. apply insert_subseteq_l; [done|]. by eapply ok_sub. }
  pose proof (map_disjoint_Some_r _ _ _ _ (ok_BX _ _ _ H) (lookup_singleton_eq (me_id elem) elem)) as Hnone.
  assert (me_id e0 ≠ me_id elem) as Hne by (intros E1; rewrite E1, Hnone in He0; done).
  rewrite map_sumZ_insert in Hsub by done. pose proof (proj2 HE) as Hlt.
  unfold addMapElementTxns. rewrite Hmh. unfold fillLimit, BlockSizeLimit in *. rewrite u64_id by ulia. rewrite (proj2 (Z.ltb_ge _ _)) by lia.
  destruct (popFromBlock_ok (0%nat :: at_) E _ s H) as (s1 & e & Hpop & H1 & _ & He & HB1 & HO1 & Hpk1); [intros E0; by rewrite E0 in He0|].
  rewrite Hpk in Hpk1. injection Hpk1 as <-. destruct (sizes_bounds E _ s1 H1 HE) as (_ & _ & Hmh1). rewrite HB1 in Hmh1.
  rewrite (map_sumZ_delete _ (B_of s) _ _ He0) in *. set (rest := sizes (delete (me_id e0) (B_of s))) in *.
  assert (∃ n, mh_len (s_blockMapHeap s) = S n) as [n ->].
  { unfold mh_len. destruct (mh_data (s_blockMapHeap s)) eqn:Ed; [|cbn; eauto]. unfold peek in Hpk. by rewrite Ed in Hpk. }
  remember (S n) as k eqn:Ek. cbn [makeRoom]. unfold fillLimit, BlockSizeLimit. rewrite Hmh, Z.sub_0_r, (u64_id (_ + rest)), (u64_id (_ + ss_size (me_set elem))) by ulia. rewrite (proj2 (Z.ltb_ge _ _)) by lia. rewrite Hpk, Hpop. cbn [mbind res_bind app].
  unfold Currency_Div64. rewrite Z.add_0_l, u64_id by ulia. rewrite (proj2 (Z.eqb_neq _ _)) by lia. cbn [mbind res_bind].
  assert ((Currency_Cmp (Currency_Add (Currency_Mul64 ZeroCurrency 0) (Currency_Mul64 (ss_averageFee (me_set e0)) (ss_size (me_set e0))) / ss_size (me_set e0))
    (ss_averageFee (me_set elem)) =? 1) = false) as ->.
  { unfold Currency_Add, Currency_Mul64, ZeroCurrency. rewrite Z.mul_0_l, Z.add_0_l, Z.div_mul by lia. apply Z.eqb_neq. intros E1. pose proof (Currency_Cmp_gt (ss_averageFee (me_set e0)) (ss_averageFee (me_set elem))) as Hc. rewrite E1 in Hc. symmetry in Hc. apply Z.ltb_lt in Hc. lia. }
  subst k. cbn [makeRoom]. unfold fillLimit, BlockSizeLimit. rewrite Hmh1, (u64_id (rest - _)), (u64_id (_ + ss_size (me_set elem))) by ulia. rewrite (proj2 (Z.ltb_lt _ _)) by lia.
  destruct (pushToBlock_ok E _ s1 elem H1) as (s2 & -> & H2 & _ & HB2 & HO2); [by rewrite lookup_insert_ne, lookup_singleton_eq by done|].
  cbn [mbind res_bind foldM].
  destruct (pushToOverflow_ok E _ s2 e0 H2) as (s3 & -> & H3 & _ & HB3 & _); [|].
  { by rewrite lookup_delete_ne, lookup_insert_eq by done. }
  exists s3. split; [done|]. assert (B_of s3 = <[me_id elem := elem]> (delete (me_id e0) (B_of s))) as HB4 by (by rewrite HB3, HB2, HB1).
  split; [done|]. destruct (sizes_bounds E _ s3 H3 HE) as (_ & _ & ->). rewrite HB4, map_sumZ_insert; [fold rest; lia|].
  apply lookup_delete_None. by right.
Qed.

(** ** Examples *)

(** A miner that has been told of its sets but has placed none of them. *)
Lemma unplaced `{C : Crypto} (E : gmap splitSetID mapElement) (fromTx : gmap TransactionID splitSetID) :
  let s := mkSel ∅ (emptyHeap true) (emptyHeap false) 0 (me_set <$> E) fromTx ∅ [] in
  own_ids E → knows E s → sel_ok E E s.
Proof.
  intros s Hids Hk. split; [apply emptyHeap_ok|apply emptyHeap_ok|done|done| |apply map_disjoint_empty_l|apply map_disjoint_empty_l|apply map_disjoint_empty_l|done|done| |].
  - intros id e. cbn. rewrite lookup_empty. naive_solver.
  - split; cbn.
    + intros tid i. rewrite lookup_empty. split; [done|]. intros (t & Ht & _). done.
    + intros t. split; [intros []%elem_of_nil|]. intros [(id & e & H & _)|H]; [by rewrite lookup_empty in H|done].
  - intros id e. cbn. by rewrite lookup_empty.
Qed.

Module example_flaws.
Import example_pool.

Definition elem1 (size : Z) : mapElement := mkME (mkSS 50 size [tA]) 1.
Definition elem2 (size : Z) : mapElement := mkME (mkSS 10 size [tB]) 2.
Definition elem3 (size : Z) : mapElement := mkME (mkSS 20 size [tC]) 3.
Definition sets (a b c : Z) : gmap splitSetID mapElement := {[1 := elem1 a; 2 := elem2 b; 3 := elem3 c]}.
Definition fromTx : gmap TransactionID splitSetID := Eval vm_compute in {[Transaction_ID tA := 1; Transaction_ID tB := 2; Transaction_ID tC := 3]}.
Definition start (a b c : Z) : selection := mkSel ∅ (emptyHeap true) (emptyHeap false) 0 (me_set <$> sets a b c) fromTx ∅ [].

Lemma lookups a b c id e : sets a b c !! id = Some e → (id = 1 ∧ e = elem1 a) ∨ (id = 2 ∧ e = elem2 b) ∨ (id = 3 ∧ e = elem3 c).
Proof. unfold sets. rewrite !lookup_insert_Some, lookup_singleton_Some. naive_solver. Qed.

Lemma in_order_ids : fromTx !! Transaction_ID tA = Some 1 ∧ fromTx !! Transaction_ID tB = Some 2 ∧ fromTx !! Transaction_ID tC = Some 3.
Proof. vm_compute. done. Qed.

Lemma start_ok a b c : sel_ok (sets a b c) (sets a b c) (start a b c).
Proof.
  assert (∀ id e t, sets a b c !! id = Some e → t ∈ tx_of e → fromTx !! Transaction_ID t = Some id) as Hfrom.
  { destruct in_order_ids as (HA & HB & HC). intros id e t [[-> ->]|[[-> ->]|[-> ->]]]%lookups Ht%list_elem_of_singleton; rewrite Ht; assumption. }
  apply unplaced.
  - intros id e [[-> ->]|[[-> ->]|[-> ->]]]%lookups; reflexivity.
  - split; cbn [s_splitSets s_splitSetIDFromTxID].
    + reflexivity.
    + intros id e [[-> ->]|[[-> ->]|[-> ->]]]%lookups; apply NoDup_singleton.
    + intros id id' e e' t t' He He' Ht Ht' Et. pose proof (Hfrom id e t He Ht) as H1. rewrite Et, (Hfrom id' e' t' He' Ht') in H1. by injection H1.
    + exact Hfrom.
Qed.

Lemma sets_sized a b c : 0 < a → 0 < b → 0 < c → a + b + c < 2 ^ 64 → sized (sets a b c).
Proof.
  intros. split; [intros id e [[-> ->]|[[-> ->]|[-> ->]]]%lookups; done|]. unfold sets. rewrite !map_sumZ_insert, map_sumZ_singleton by (by vm_compute). cbn. lia.
Qed.

(** 1.99 MB in the block; a set of 250 KB arrives. *)
Definition full : selection :=
  Eval vm_compute in match foldM pushToBlock (start 1865000 125000 250000) [elem1 1865000; elem2 125000] with Ok s => s | _ => start 0 0 0 end.
Lemma full_is : foldM pushToBlock (start 1865000 125000 250000) [elem1 1865000; elem2 125000] = Ok full.
Proof. vm_cast_no_check (eq_refl (Ok full)). Qed.
Lemma full_ok : sel_ok (sets 1865000 125000 250000) {[3 := elem3 250000]} full.
Proof.
  destruct (pushToBlock_ok _ _ _ (elem1 1865000) (start_ok 1865000 125000 250000) ltac:(by vm_compute)) as (s1 & E1 & H1 & _).
  destruct (pushToBlock_ok _ _ _ (elem2 125000) H1 ltac:(by vm_compute)) as (s2 & E2 & H2 & _).
  assert (foldM pushToBlock (start 1865000 125000 250000) [elem1 1865000; elem2 125000] = Ok s2) as Hf by (cbn [foldM]; by rewrite E1; cbn [mbind res_bind]; rewrite E2).
  rewrite (Ok_inj _ _ (eq_trans (eq_sym full_is) Hf)). exact H2.
Qed.

(** A set of 10 KB is in the overflow. *)
Definition spare : selection :=
  Eval vm_compute in match (s ← foldM pushToBlock (start 1700000 250000 10000) [elem1 1700000; elem2 250000]; pushToOverflow s (elem3 10000)) with Ok s => s | _ => start 0 0 0 end.
Lemma spare_is : (s ← foldM pushToBlock (start 1700000 250000 10000) [elem1 1700000; elem2 250000]; pushToOverflow s (elem3 10000)) = Ok spare.
Proof. vm_cast_no_check (eq_refl (Ok spare)). Qed.
Lemma spare_ok : sel_ok (sets 1700000 250000 10000) ∅ spare.
Proof.
  destruct (pushToBlock_ok _ _ _ (elem1 1700000) (start_ok 1700000 250000 10000) ltac:(by vm_compute)) as (s1 & E1 & H1 & _).
  destruct (pushToBlock_ok _ _ _ (elem2 250000) H1 ltac:(by vm_compute)) as (s2 & E2 & H2 & _).
  destruct (pushToOverflow_ok _ _ _ (elem3 10000) H2 ltac:(by vm_compute)) as (s3 & E3 & H3 & _).
  assert ((s ← foldM pushToBlock (start 1700000 250000 10000) [elem1 1700000; elem2 250000]; pushToOverflow s (elem3 10000)) = Ok s3) as Hf
    by (cbn [foldM]; rewrite E1; cbn [mbind res_bind]; rewrite E2; exact E3).
  rewrite (Ok_inj _ _ (eq_trans (eq_sym spare_is) Hf)). exact H3.
Qed.

(** A transaction that carries only data touches no object, so the pool takes a
    set that has it twice.  The index of the miner has one entry for both, and
    when the set is removed the second lookup finds none and takes the
    transaction at place 0: the transaction that stays in the pool is gone from
    the block, and the one that left the pool is still there. *)
Definition tD : Transaction := mkTxn [] [] [] [] [] [] [] [] [PrefixNonSia ++ [x00]] [].
Definition step1 : TransactionPool * TransactionPoolDiff := updateSubscribersTransactions [4%nat] pool1.
Definition poolD : TransactionPool := Eval vm_compute in get (acceptTransactionSet [2%nat] step1.1 [tD; tD] txnFn).
Definition step2 : TransactionPool * TransactionPoolDiff := updateSubscribersTransactions [4%nat] poolD.
Definition minerD : res selection :=
  s ← ReceiveUpdatedUnconfirmedTransactions [5%nat] (emptySelection []) step1.2; ReceiveUpdatedUnconfirmedTransactions [5%nat] s step2.2.

Definition minerD_after : res (list Transaction * list Transaction) :=
  s ← minerD; s' ← ReceiveUpdatedUnconfirmedTransactions [6%nat] s (mkTPD [] [TransactionSetID_of [tD; tD]]); Ok (s_txns s, s_txns s').

Lemma repeated_transaction_accepted : acceptTransactionSet [2%nat] step1.1 [tD; tD] txnFn = Ok poolD.
Proof. vm_cast_no_check (eq_refl (Ok poolD)). Qed.
Lemma repeated_transaction_drops_other : minerD_after = Ok ([tA; tD; tD], [tD]).
Proof. vm_cast_no_check (eq_refl (Ok ([tA; tD; tD], [tD]))). Qed.
End example_flaws.

Lemma promotion_panics_witness : deleteMapElementTxns (MO := inOrder) [] example_flaws.spare 2 = Panic.
Proof.
  exact (promotion_panics (MO := inOrder) [] (example_flaws.sets 1700000 250000 10000) example_flaws.spare 2 (example_flaws.elem2 250000) (example_flaws.elem3 10000)
    example_flaws.spare_ok (example_flaws.sets_sized 1700000 250000 10000 eq_refl eq_refl eq_refl eq_refl) eq_refl eq_refl ltac:(by vm_compute)).
Defined.

(** The sets of the block are then larger than the largest block allowed. *)
Lemma makeRoom_overfills_witness :
  ∃ s', addMapElementTxns (MO := inOrder) [] example_flaws.full (example_flaws.elem3 250000) = Ok s' ∧ BlockSizeLimit < sizes (B_of s').
Proof.
  destruct (makeRoom_overfills (MO := inOrder) [] (example_flaws.sets 1865000 125000 250000) example_flaws.full (example_flaws.elem3 250000) (example_flaws.elem2 125000)
    example_flaws.full_ok (example_flaws.sets_sized 1865000 125000 250000 eq_refl eq_refl eq_refl eq_refl) eq_refl ltac:(vm_decide) ltac:(vm_decide) ltac:(vm_decide)) as (s' & Hs & _ & Hsz & _).
  exists s'. split; [exact Hs|]. rewrite Hsz. vm_compute. reflexivity.
Defined.
