(* ===== verification/MinerBlock.v ===== *)
(** * The blocks of the miner

    A block that the miner gives out for work is valid: its transactions can be
    applied to the ledger, and when it has been solved it passes every check of
    the consensus set. *)

From S2P Require Import Prelude Encoding Currency Target Crypto Types Codec Block Signatures ValidTransaction ConsensusDB ConsensusValid BlockValidation Difficulty MapDiffs Diffs ApplyTransaction BlockDiffs Changelog Subscribe MapRange Standard FindSets TransactionPool PoolInvariant PoolUpdate PoolSubscribe PoolOrder SplitSetHeap Miner MinerSelect MinerPool.
#[local] Open Scope Z_scope.

Section work.
Context `{N : Net} `{C : Crypto}.

(** What is in a block for work: everything but its payouts. *)
Lemma checkAddress_same m w : m_sel (checkAddress m w).1 = m_sel m ∧ m_work (checkAddress m w).1 = m_work m ∧
  mp_Height (m_persist (checkAddress m w).1) = mp_Height (m_persist m) ∧
  mp_Target (m_persist (checkAddress m w).1) = mp_Target (m_persist m) ∧
  mp_UnsolvedBlock (m_persist (checkAddress m w).1) = mp_UnsolvedBlock (m_persist m).
Proof. unfold checkAddress. by repeat case_match. Qed.

Lemma blockForWork_txns m w now rand m' b :
  blockForWork m w now rand = Ok (m', b) →
  b_Transactions b = arbitraryTxn (PrefixNonSia ++ rand) :: s_txns (m_sel m) ∧
  b_ParentID b = b_ParentID (UnsolvedBlock m) ∧ b_Nonce b = b_Nonce (UnsolvedBlock m) ∧
  b_Timestamp b = Z.max now (b_Timestamp (UnsolvedBlock m)) ∧ m' = (checkAddress m w).1.
Proof.
  assert (∀ b, b_Timestamp (stamp now b) = Z.max now (b_Timestamp b)) as Hst.
  { intros b0. unfold stamp. destruct (Z.ltb_spec (b_Timestamp b0) now); cbn; lia. }
  assert (∀ b, b_Transactions (stamp now b) = b_Transactions b ∧ b_ParentID (stamp now b) = b_ParentID b ∧ b_Nonce (stamp now b) = b_Nonce b) as Hs.
  { intros b0. unfold stamp. by case_match. }
  unfold blockForWork, blockForWorkWithDevFund, blockForWorkWithoutDevFund. destruct (Hs (UnsolvedBlock m)) as (H1 & H2 & H3).
  case_match; destruct (checkAddress m w) as [m0 [| |]]; try done; intros H0.
  1,2: apply bind_Ok in H0 as ([v1 v2] & _ & [= <- <-]); cbn; rewrite H1, H2, H3, Hst; done.
  all: injection H0 as <- <-; cbn; rewrite H1, H2, H3, Hst; done.
Qed.
End work.

(** C8: Every block that the miner gives out can be applied to the ledger: if the
    pool satisfies its invariant for the current database and the miner is in
    step with the pool, the loop of [generateAndApplyDiff] over the transactions
    of the block, those of different sets interleaved as the removals have left
    them and the random one in front, runs to its end without an error or a
    panic. *)
Theorem miner_block_applies `{MO : MapOrder} `{N : Net} `{C : Crypto} (T : Transaction → Prop) (db : DB) (tp : TransactionPool)
    (pb : processedBlock) (m m' : Miner) (w : walletAnswers) (now : Timestamp) (rand : list byte) (b : Block)
    (E : gmap splitSetID mapElement) :
  pool_ok (tryTransactionSet db) T tp → fcex_ok (db_FileContracts db) (db_FCEX db) →
  follows (tp_transactionSets tp) E (m_sel m) → length rand = SpecifierLen →
  blockForWork m w now rand = Ok (m', b) →
  ∃ st, applyTransactions (createDSCOBucket db (u64 (pb_Height pb + MaturityDelay)), pb) (b_Transactions b) = Ok st.
Proof.
  intros Hok Hfcex HF Hr Hb. destruct (blockForWork_txns _ _ _ _ _ _ Hb) as (-> & _).
  set (s := (createDSCOBucket db (u64 (pb_Height pb + MaturityDelay)), pb)).
  change (?t :: ?l) with ([t] ++ l). unfold applyTransactions. rewrite foldM_app.
  assert (foldM (λ st txn, _ ← validTransaction st.1 txn; applyTransaction st txn) s [arbitraryTxn (PrefixNonSia ++ rand)] = Ok s) as ->.
  { apply arbitraryTxn_applies. unfold len. rewrite length_app, Hr. vm_compute. discriminate. }
  cbn [mbind res_bind]. destruct (follows_assembled _ _ _ HF) as (chosen & [Hc He Ho Ha] & _).
  assert (indexed s.1) as Hidx by (unfold s, createDSCOBucket; apply fcex_ok_indexed; cbn; by case_match).
  apply (applyInterleaved (filter (λ '(x, _), x ∈ chosen) (tp_transactionSets tp))).
  - intros x y set set' oid [Hx _]%map_lookup_filter_Some [Hy _]%map_lookup_filter_Some. by apply (pool_ok_disjoint (tryTransactionSet db) T tp).
  - intros x y set set' t [Hx Hx']%map_lookup_filter_Some [Hy Hy']%map_lookup_filter_Some. by apply Ha.
  - intros t (x & set & Hx & Hv & Ht)%He. exists x, set. split; [|done]. by apply map_lookup_filter_Some.
  - intros x set [Hx Hch]%map_lookup_filter_Some. destruct (so_valid _ _ _ _ _ (po_set _ _ _ Hok _ _ Hx)) as (cc & Hcc & _).
    destruct (tryTransactionSet_applies _ _ _ Hcc) as [st Hst]. eexists _, st. rewrite (Ho x set Hch Hx). split; [|exact Hst]. split; [|done|].
    + unfold s, createDSCOBucket. cbn. case_match; [apply agree_refl|by split].
    + unfold has_bucket, s, createDSCOBucket. cbn. destruct (db_DSCO db !! _) eqn:Ed; cbn; [rewrite Ed|rewrite lookup_insert_eq]; eauto.
Qed.

(** ** Payouts *)

Section payouts.
Context `{N : Net} `{!NetOk N} `{C : Crypto}.

Lemma fees_nonneg txns : Forall (λ t, Forall (λ f, 0 ≤ f) (t_MinerFees t)) txns → 0 ≤ sumZ (λ t, sumZ id (t_MinerFees t)) txns.
Proof.
  intros H. apply sumZ_nonneg. intros t Ht. apply sumZ_nonneg. intros f Hf. rewrite Forall_forall in H. specialize (H t Ht).
  rewrite Forall_forall in H. by apply H.
Qed.

Lemma blockForWork_payouts m w now rand m' b :
  Forall (λ t, Forall (λ f, 0 ≤ f) (t_MinerFees t)) (s_txns (m_sel m)) → blockForWork m w now rand = Ok (m', b) →
  payouts_valid b (u64 (mp_Height (m_persist m) + 1)).
Proof.
  intros Hf Hb. pose proof (blockForWork_txns _ _ _ _ _ _ Hb) as (Htx & _ & _ & _ & Hm').
  assert (b_Transactions (stamp now (UnsolvedBlock m)) = s_txns (m_sel m)) as Hst by (unfold stamp; by case_match).
  pose proof (fees_nonneg _ Hf) as Hfees. destruct (checkAddress_same m w) as (_ & _ & Hh & _).
  set (h := u64 (mp_Height (m_persist m) + 1)) in *. assert (is_u64 h) as Hu by apply u64_range.
  pose proof (CalculateCoinbase_pos h Hu). pose proof (devSubsidy_bounds h Hu) as Hd.
  assert (CalculateCoinbase h / 5 < CalculateCoinbase h) as Hlt by (apply Z.div_lt; lia).
  unfold payouts_valid, CalculateSubsidy. rewrite Htx, add_fees_sum. cbn [sumZ arbitraryTxn t_MinerFees].
  unfold blockForWork in Hb. cbn [DevFundEnabled andb] in Hb. change DevFundInitialBlockHeight with 1 in Hb. fold h in Hb.
  destruct (1 <=? h) eqn:E1.
  - assert (CalculateSubsidies (stamp now (UnsolvedBlock m)) h =
      Ok (CalculateCoinbase h - CalculateCoinbase h * devFundPercentage h / 10000 + sumZ (λ t, sumZ id (t_MinerFees t)) (s_txns (m_sel m)),
          CalculateCoinbase h * devFundPercentage h / 10000)) as Hs.
    { unfold CalculateSubsidies, CalculateMinerFees. cbn [DevFundEnabled andb]. change DevFundInitialBlockHeight with 1. rewrite E1, Hst.
      cbn [mbind res_bind]. change (Currency_Div ?x (NewCurrency64 10000)) with (Ok (x / 10000)). cbn [mbind res_bind].
      unfold Currency_Mul, NewCurrency64 in *. rewrite Currency_Sub_le by lia. rewrite add_fees_sum. done. }
    unfold blockForWorkWithDevFund in Hb. destruct (checkAddress m w) as [m0 [| |]]; try done; cbn [fst] in *; rewrite Hh in Hb; fold h in Hb; rewrite Hs in Hb;
      cbn [mbind res_bind] in Hb; injection Hb as <- <-; cbn [b_MinerPayouts set_transactions set_payouts sumZ sco_Value]; (split; [lia|]); eexists [_], _; (split; [reflexivity|]);
      (split; [done|]); (split; [apply Forall_singleton; cbn; lia|]); (split; [by rewrite CalculateDevSubsidy_value, E1|done]).
  - unfold blockForWorkWithoutDevFund in Hb. destruct (checkAddress m w) as [m0 [| |]]; try done; cbn [fst] in *; rewrite Hh in Hb; fold h in Hb;
      injection Hb as <- <-; cbn [b_MinerPayouts set_transactions set_payouts sumZ sco_Value]; unfold CalculateSubsidy; cbn [b_Transactions set_payouts];
      rewrite Hst, add_fees_sum; (split; [lia|]); apply Forall_singleton; cbn; lia.
Qed.

(** ** Solving *)

Lemma solveLoop_spec target p q : ∀ attempts n nonce n',
  length p = 32%nat → length n = 8%nat → solveLoop attempts target (p ++ n ++ q) nonce = Some n' →
  length n' = 8%nat ∧ 0 ≤ bytes_Compare target (HashBytes (p ++ n' ++ q)).
Proof.
  induction attempts as [|a IH]; intros n nonce n' Hp Hn; cbn [solveLoop]; [done|].
  destruct (Z.leb_spec 0 (bytes_Compare target (HashBytes (p ++ n ++ q)))).
  - intros [= <-]. rewrite drop_app_length' by done. rewrite take_app_length' by done. done.
  - rewrite take_app_length' by done. assert (drop 40 (p ++ n ++ q) = q) as ->.
    { rewrite (assoc_L (++)), drop_app_length'; [done|]. rewrite length_app. lia. }
    apply IH; [done|]. apply length_EncUint64.
Qed.

(** The header that is hashed is that of the block. *)
Lemma solveBlock_spec b target b' :
  length (b_ParentID b) = 32%nat → solveBlock b target = (b', true) →
  b' = mkBlock (b_ParentID b) (b_Nonce b') (b_Timestamp b) (b_MinerPayouts b) (b_Transactions b) ∧
  0 ≤ bytes_Compare target (Block_ID b').
Proof.
  intros Hp. unfold solveBlock. set (header := take 48 _ ++ _).
  assert (header = b_ParentID b ++ replicate 8 x00 ++ (EncUint64 (b_Timestamp b) ++ Block_MerkleRoot b)) as ->.
  { assert (go_copy (replicate 80 x00) (b_ParentID b) = b_ParentID b ++ replicate 48 x00) as Hc.
    { unfold go_copy. rewrite length_replicate, take_ge by (rewrite Hp; lia). by rewrite Hp. }
    unfold header. rewrite Hc.
    assert (take 40 (b_ParentID b ++ replicate 48 x00) = b_ParentID b ++ replicate 8 x00) as ->.
    { rewrite take_app_ge, Hp, take_replicate by lia. done. }
    assert (drop 48 (b_ParentID b ++ replicate 48 x00) = replicate 32 x00) as -> by (rewrite drop_app_ge, Hp, drop_replicate by lia; done).
    rewrite <- (assoc_L (++)). change (replicate 8 x00 ++ ?x ++ ?y) with (replicate 8 x00 ++ (x ++ y)).
    assert (∀ r : list byte, take 48 (b_ParentID b ++ replicate 8 x00 ++ EncUint64 (b_Timestamp b) ++ r) = b_ParentID b ++ replicate 8 x00 ++ EncUint64 (b_Timestamp b)) as Ht.
    { intros r. rewrite !(assoc_L (++)). rewrite take_app_length'; [done|]. rewrite !length_app, Hp, length_EncUint64. done. }
    assert (∀ r : list byte, drop 48 (b_ParentID b ++ replicate 8 x00 ++ EncUint64 (b_Timestamp b) ++ r) = r) as Hdr.
    { intros r. rewrite !(assoc_L (++)). rewrite drop_app_length'; [done|]. rewrite !length_app, Hp, length_EncUint64. done. }
    rewrite Ht, Hdr. rewrite go_copy_full by (rewrite length_replicate; apply MerkleTree_Root_ok). by rewrite <- !(assoc_L (++)). }
  destruct (solveLoop _ _ _ _) as [n'|] eqn:E; [|done]. intros [= <-]. apply solveLoop_spec in E as [Hl Hc]; [|done|done].
  cbn [b_Nonce]. split; [done|]. exact Hc.
Qed.
End payouts.

(** ** Following the chain *)

Section height.
Context `{N : Net} `{C : Crypto}.

Lemma heightDown_fold bs : ∀ h, Forall (λ b, Block_ID b ≠ GenesisID) bs → len bs ≤ h < 2 ^ 64 → foldl heightDown h bs = h - len bs.
Proof.
  induction bs as [|b bs IH]; intros h Hg Hh; cbn [foldl]; [rewrite len_nil; lia|]. apply Forall_cons in Hg as [Hb Hg].
  rewrite len_cons in *. pose proof (len_nonneg bs). unfold heightDown at 2. rewrite (bool_decide_true _ Hb), orb_true_r, u64_id by ulia. rewrite IH by (done || lia). lia.
Qed.

Lemma heightUp_fold bs : ∀ h, Forall (λ b, Block_ID b ≠ GenesisID) bs → 0 ≤ h → h + len bs < 2 ^ 64 → foldl heightUp h bs = h + len bs.
Proof.
  induction bs as [|b bs IH]; intros h Hg Hh; cbn [foldl]; [rewrite len_nil; lia|]. apply Forall_cons in Hg as [Hb Hg].
  rewrite len_cons. pose proof (len_nonneg bs). intros Hlt. unfold heightUp at 2. rewrite (bool_decide_true _ Hb), orb_true_r, u64_id by ulia. rewrite IH by (done || lia). lia.
Qed.

(** What the miner works on after a change. *)
Record works_on (m : Miner) (parent : BlockID) (height : BlockHeight) (target : Target) (minTime : Timestamp) : Prop := {
  wo_parent : b_ParentID (UnsolvedBlock m) = parent;
  wo_height : mp_Height (m_persist m) = height;
  wo_target : mp_Target (m_persist m) = target;
  wo_time : b_Timestamp (UnsolvedBlock m) = minTime;
}.

Lemma newSourceBlock_same m w now time rand m' :
  newSourceBlock m w now time rand = Ok m' → m_sel m' = m_sel m ∧ mp_Height (m_persist m') = mp_Height (m_persist m) ∧
  mp_Target (m_persist m') = mp_Target (m_persist m) ∧ mp_UnsolvedBlock (m_persist m') = mp_UnsolvedBlock (m_persist m).
Proof.
  intros H. apply bind_Ok in H as (bm & _ & H). apply bind_Ok in H as ([m1 b] & Hb & [= <-]).
  destruct (blockForWork_txns _ _ _ _ _ _ Hb) as (_ & _ & _ & _ & ->). by destruct (checkAddress_same (set_work bm m) w) as (H1 & _ & H2 & H3 & H4).
Qed.

Lemma ProcessConsensusChange_works m cc w now time rand m' bs b :
  cc_AppliedBlocks cc = bs ++ [b] →
  Forall (λ b, Block_ID b ≠ GenesisID) (cc_RevertedBlocks cc) → Forall (λ b, Block_ID b ≠ GenesisID) (cc_AppliedBlocks cc) →
  let h := mp_Height (m_persist m) - len (cc_RevertedBlocks cc) in
  0 ≤ h → mp_Height (m_persist m) < 2 ^ 64 → h + len (cc_AppliedBlocks cc) < 2 ^ 64 →
  Miner_ProcessConsensusChange m cc w now time rand = Ok m' →
  works_on m' (Block_ID b) (h + len (cc_AppliedBlocks cc)) (cc_ChildTarget cc) (cc_MinimumValidChildTimestamp cc) ∧ m_sel m' = m_sel m.
Proof.
  intros Hb Hr Ha h Hh Hm Hlt. unfold Miner_ProcessConsensusChange. rewrite heightDown_fold by (done || lia). fold h. rewrite heightUp_fold by done.
  rewrite Hb at 1 2. rewrite go_index_last. cbn [mbind res_bind]. set (m1 := mkMiner _ _ _). intros (m2 & Hs & [= <-])%bind_Ok.
  assert (m_sel m2 = m_sel m1 ∧ mp_Height (m_persist m2) = mp_Height (m_persist m1) ∧ mp_Target (m_persist m2) = mp_Target (m_persist m1) ∧
    mp_UnsolvedBlock (m_persist m2) = mp_UnsolvedBlock (m_persist m1)) as (Es & Eh & Et & Eu).
  { destruct (cc_Synced cc); [by eapply newSourceBlock_same|]. by injection Hs as <-. }
  split; [|exact Es]. split; cbn; [by rewrite Eu|by rewrite Eh|by rewrite Et|by rewrite Eu].
Qed.
End height.

Section found.
Context `{N : Net} `{!NetOk N} `{C : Crypto}.

(** The blocks that [FindBlock] returns. *)
Lemma FindBlock_spec m w1 w2 now rand m' b parent height target minTime :
  works_on m parent height target minTime → length parent = 32%nat → 0 ≤ height < 2 ^ 64 - 1 →
  Forall (λ t, Forall (λ f, 0 ≤ f) (t_MinerFees t)) (s_txns (m_sel m)) →
  FindBlock m w1 w2 now rand = Ok (m', Ok b) →
  b_ParentID b = parent ∧ b_Timestamp b = Z.max now minTime ∧ 0 ≤ bytes_Compare target (Block_ID b) ∧ payouts_valid b (height + 1) ∧
  b_Transactions b = arbitraryTxn (PrefixNonSia ++ rand) :: s_txns (m_sel m).
Proof.
  intros [Hp Hh Ht Hm] Hlp Hu Hf H. apply bind_Ok in H as ([m0 r] & Hw & H). unfold Miner_BlockForWork in Hw.
  destruct (w_Unlocked w1) as [[]| |]; try done; [|injection Hw as <- <-; done|injection Hw as <- <-; done].
  pose proof (checkAddress_same m w1) as (Es & _ & Eh & Et & Eu). destruct (checkAddress m w1) as [m1 [u| |]]; try done; [|injection Hw as <- <-; done]. cbn [fst] in *.
  apply bind_Ok in Hw as ([m2 b0] & Hb & [= <- <-]). destruct (solveBlock b0 (mp_Target (m_persist m2))) as [b1 []] eqn:Hsol; [|done]. injection H as <- <-.
  pose proof (blockForWork_payouts m1 w2 now rand m2 b0 ltac:(by rewrite Es) Hb) as Hpay. rewrite Eh, Hh, u64_id in Hpay by ulia.
  destruct (blockForWork_txns _ _ _ _ _ _ Hb) as (Etx & Ep & _ & Ets & ->). destruct (checkAddress_same m1 w2) as (_ & _ & _ & Et2 & _).
  unfold UnsolvedBlock in Ep, Ets, Hp, Hm. cbn in Ep, Ets, Hp, Hm. rewrite Eu in Ep, Ets. rewrite Hp in Ep. rewrite Hm in Ets. rewrite Es in Etx.
  apply solveBlock_spec in Hsol as [Hb1 Hc]; [|by rewrite Ep]. rewrite Hb1. cbn [b_ParentID b_Timestamp b_Transactions].
  split; [done|]. split; [done|]. split; [rewrite <- Hb1, <- Ht, <- Et, <- Et2; done|]. split; [exact Hpay|done].
Qed.
End found.

(** C9: A block that the miner finds is accepted.  The miner receives a consensus
    change, computed by the consensus set for an entry of the change log, whose
    last block is [tip]; when [FindBlock] then returns a block, the block passes
    every check of [validateHeaderAndBlock] as a child of [tip]: the miner has
    followed the height of the chain through the reverted and applied blocks, the
    parent, target and minimum timestamp are those of [tip], the payouts are
    exactly the subsidy, and the hash that was solved is the id of the block.
    Left to the environment are the clock, the size of the transactions and that
    the block is not already known. *)
Theorem found_block_accepted `{N : Net} `{!NetOk N} `{C : Crypto} (synced : bool) (tx : DB) (ce : changeEntry)
    (rs bs : list processedBlock) (tip : processedBlock) (cc : ConsensusChange) (m m1 m2 : Miner) (w w1 w2 : walletAnswers)
    (now0 now now' : Timestamp) (time : Z) (rand0 rand : list byte) (b : Block) (dosBlocks : gset BlockID) :
  entry_blocks tx ce rs bs tip → ancestors_stored (db_BlockMap tx) → db_BlockMap tx !! Block_ID (pb_Block tip) = Some tip →
  length (Block_ID (pb_Block tip)) = 32%nat →
  Forall (λ pb, Block_ID (pb_Block pb) ≠ GenesisID) (rs ++ bs ++ [tip]) →
  len rs ≤ mp_Height (m_persist m) < 2 ^ 64 → pb_Height tip = mp_Height (m_persist m) - len rs + len (bs ++ [tip]) → pb_Height tip < 2 ^ 64 - 1 →
  Forall (λ t, Forall (λ f, 0 ≤ f) (t_MinerFees t)) (s_txns (m_sel m)) →
  computeConsensusChange synced tx ce = Ok cc →
  Miner_ProcessConsensusChange m cc w now0 time rand0 = Ok m1 → FindBlock m1 w1 w2 now rand = Ok (m2, Ok b) →
  Z.max now (cc_MinimumValidChildTimestamp cc) ≤ u64 (now' + FutureThreshold) → u64 (now' + FutureThreshold) ≤ u64 (now' + ExtremeFutureThreshold) →
  u64 (len (Block_MarshalSia b)) ≤ BlockSizeLimit → Block_ID b ∉ dosBlocks → db_BlockMap tx !! Block_ID b = None →
  validateHeaderAndBlock dosBlocks now' tx b (Block_ID b) = Ok tip.
Proof.
  intros Hent Hanc Htip Hlen Hg Hh Hht Hlt Hf Hcc Hp Hfb Hnow Hthr Hsize Hdos Hnew.
  destruct (computeConsensusChange_value synced tx ce rs bs tip Hent Hanc) as (minT & Hmin & Hval). rewrite Hcc in Hval.
  assert (cc_RevertedBlocks cc = map pb_Block rs ∧ cc_AppliedBlocks cc = map pb_Block bs ++ [pb_Block tip] ∧
    cc_ChildTarget cc = pb_ChildTarget tip ∧ cc_MinimumValidChildTimestamp cc = minT) as (Hr & Ha & Ht & Hm).
  { injection Hval as ->. cbn. by rewrite map_app. }
  rewrite !Forall_app in Hg. destruct Hg as (Hgr & Hgb & Hgt).
  pose proof (ProcessConsensusChange_works m cc w now0 time rand0 m1 (map pb_Block bs) (pb_Block tip) Ha) as Hw. cbn zeta in Hw.
  unfold len in *. rewrite Hr, Ha, !length_app, !length_map in Hw. rewrite length_app in Hht. cbn [length] in Hht, Hw. rewrite <- Hht in Hw.
  destruct Hw as [Hw Hsel]; [by apply Forall_map|apply Forall_app; split; [by apply Forall_map|apply Forall_singleton; exact (proj1 (Forall_singleton _ _) Hgt)]|lia|lia|lia|exact Hp|].
  rewrite Ht, Hm in *.
  destruct (FindBlock_spec m1 w1 w2 now rand m2 b _ _ _ _ Hw Hlen) as (Hpar & Hts & Hsol & Hpay & _); [lia|by rewrite Hsel|done|].
  unfold validateHeaderAndBlock. rewrite (bool_decide_false _ Hdos). rewrite (bool_decide_false (is_Some _)) by (rewrite Hnew; by intros []).
  cbn [guard_err mbind res_bind]. rewrite Hpar, Htip, Hmin. cbn [mbind res_bind]. rewrite u64_id by ulia.
  rewrite (proj2 (proj2 (ValidateBlock_rules now' minT b (Block_ID b) (pb_ChildTarget tip) (pb_Height tip + 1) ltac:(ulia)))); [done|].
  rewrite Hts. split_and!; try done; try lia. intros _. apply Z.mod_1_r.
Qed.

(** ** A concrete block *)

(** The miner of [example_miner] receives the block at the tip and finds the next
    one. *)
Module example_work.
Import example_pool.

Definition wallet : walletAnswers := mkWallet (Ok true) (Ok [example.key x05]) (Err ErrLockedWallet).
Definition m19 : Miner :=
  set_work (m_work (Miner_New (mkPersist zeroHash 0 zeroHash zeroHash [] (mkBlock zeroHash (replicate 8 x00) 0 [] []))))
    (mkMiner (mkBM ∅ ∅ ∅ [] None None 0) example_miner.s3
      (mkPersist zeroHash 19 zeroHash (example.key x05) [] (mkBlock zeroHash (replicate 8 x00) 0 [] []))).
Definition ce : changeEntry := mkEntry [] [example.parentID].
Definition cc : ConsensusChange :=
  Eval vm_compute in match computeConsensusChange true example.tip ce with Ok cc => cc | _ => mkCC zeroHash [] [] [] [] [] [] [] zeroHash 0 false end.
Lemma computed : computeConsensusChange true example.tip ce = Ok cc.
Proof. vm_cast_no_check (eq_refl (Ok cc)). Qed.

Definition rand : list byte := replicate 16 x2a.
Definition m20 : Miner :=
  match Miner_ProcessConsensusChange m19 cc wallet 1998000100 0 rand with Ok m => m | _ => m19 end.
Lemma processed : Miner_ProcessConsensusChange m19 cc wallet 1998000100 0 rand = Ok m20.
Proof. vm_cast_no_check (eq_refl (Ok m20)). Qed.

Definition found : option (Miner * Block) :=
  Eval vm_compute in match FindBlock m20 wallet wallet 1999000000 rand with Ok (m, Ok b) => Some (m, b) | _ => None end.
Definition m21 : Miner := match found with Some (m, _) => m | None => m19 end.
Definition block : Block := match found with Some (_, b) => b | None => example.block end.
Lemma found_block : FindBlock m20 wallet wallet 1999000000 rand = Ok (m21, Ok block).
Proof. vm_cast_no_check (eq_refl (Ok (m21, Ok block))). Qed.
Lemma fits : (u64 (len (Block_MarshalSia block)) <=? BlockSizeLimit) = true.
Proof. vm_cast_no_check (eq_refl true). Qed.

Lemma sel20 : m_sel m20 = example_miner.s3.
Proof. vm_cast_no_check (eq_refl example_miner.s3). Qed.
Lemma follows20 : ∃ E, follows (tp_transactionSets pool3) E (m_sel m20).
Proof. rewrite sel20. exact example_miner.follows3. Qed.

Definition working : res (Miner * Block) := blockForWork m20 wallet 1999000000 rand.
Definition given : Miner * Block := match working with Ok r => r | _ => (m19, example.block) end.
Lemma given_block : blockForWork m20 wallet 1999000000 rand = Ok (given.1, given.2).
Proof. vm_cast_no_check (eq_refl (Ok (given.1, given.2))). Qed.
End example_work.

Lemma miner_block_applies_witness :
  length (b_Transactions example_work.given.2) = 4%nat ∧
  ∃ st, applyTransactions (createDSCOBucket example.tip (u64 (21 + 3)), example.pblock) (b_Transactions example_work.given.2) = Ok st.
Proof.
  split; [vm_compute; reflexivity|]. destruct example_work.follows20 as [El HF].
  exact (miner_block_applies (MO := inOrder) example_pool.T example.tip example_pool.pool3 example.pblock example_work.m20 example_work.given.1 example_work.wallet
    1999000000 example_work.rand example_work.given.2 El example_miner.ok3 (fcex_ok_singleton (example.key x02) example.open_contract) HF eq_refl example_work.given_block).
Defined.

Lemma found_block_accepted_witness :
  validateHeaderAndBlock ∅ 1999000002 example.tip example_work.block (Block_ID example_work.block) = Ok example.parent.
Proof.
  apply (found_block_accepted (NetOk0 := testingNet_ok _ _) true example.tip example_work.ce [] [] example.parent example_work.cc example_work.m19 example_work.m20
    example_work.m21 example_work.wallet example_work.wallet example_work.wallet 1998000100 1999000000 1999000002 0 example_work.rand example_work.rand).
  - split; [constructor|]. constructor; [vm_compute; reflexivity|constructor].
  - unfold ancestors_stored. vm_decide.
  - vm_compute. reflexivity.
  - vm_compute. reflexivity.
  - vm_decide.
  - vm_decide.
  - vm_compute. reflexivity.
  - vm_decide.
  - vm_decide.
  - exact example_work.computed.
  - exact example_work.processed.
  - exact example_work.found_block.
  - vm_decide.
  - vm_decide.
  - apply Z.leb_le. exact example_work.fits.
  - apply not_elem_of_empty.
  - vm_compute. reflexivity.
Defined.
