(* ===== verification/MinerHeaders.v ===== *)
(** * The headers of the miner

    [HeaderForWork] gives out headers of one source block that differ in a few
    random bytes, which it writes into the block itself; the block that belongs
    to a header is put together again from the current source block and the
    bytes of the header when the header is submitted.  The headers are
    remembered in a ring of [HeaderMemory] slots, and source blocks are changed
    only at multiples of [slotsPerBlock]. *)

From S2P Require Import Prelude Encoding Currency Target Crypto Types Codec Block ConsensusDB BlockDiffs Changelog MapRange Standard FindSets TransactionPool PoolInvariant SplitSetHeap Miner MinerBlock.
#[local] Open Scope nat_scope.

Section headers.
Context `{MO : MapOrder} `{N : Net} `{C : Crypto}.

Definition zeroNonce : list byte := replicate 8 x00.

(** The block with [arb] as its arbitrary data. *)
Definition restamp (arb : list byte) (b : Block) : Block :=
  match b_Transactions b with
  | [] => b
  | t :: txns =>
      mkBlock (b_ParentID b) (b_Nonce b) (b_Timestamp b) (b_MinerPayouts b)
        (mkTxn (t_SiacoinInputs t) (t_SiacoinOutputs t) (t_FileContracts t) (t_FileContractRevisions t) (t_StorageProofs t)
           (t_SiafundInputs t) (t_SiafundOutputs t) (t_MinerFees t) [arb] (t_TransactionSignatures t) :: txns)
  end.

(** A source block: no nonce, and room for the random bytes. *)
Record source_ok (b : Block) : Prop := {
  so_nonce : b_Nonce b = zeroNonce;
  so_data : ∃ t txns d, b_Transactions b = t :: txns ∧ t_ArbitraryData t = [d] ∧ length d = 32;
}.

Record mem_ok (bm : blockManager) : Prop := {
  mo_len : length (bm_headerMem bm) = HeaderMemory;
  mo_pos : bm_memProgress bm < HeaderMemory;
  mo_source : ∀ p, bm_sourceBlock bm = Some p → ∃ b, bm_store bm !! p = Some b ∧ source_ok b;
  mo_block : ∀ h p, bm_blockMem bm !! h = Some p → ∃ b arb, bm_store bm !! p = Some b ∧ source_ok b ∧
    bm_arbDataMem bm !! h = Some arb ∧ Block_Header (restamp arb b) = h;
  mo_slot : ∀ h, is_Some (bm_blockMem bm !! h) → h ∈ bm_headerMem bm;
  mo_unique : ∀ h i j, is_Some (bm_blockMem bm !! h) → bm_headerMem bm !! i = Some h → bm_headerMem bm !! j = Some h → i = j;
}.

(** ** Submitting *)

Definition with_nonce (nonce : list byte) (h : BlockHeader) : BlockHeader :=
  mkHeader (bh_ParentID h) nonce (bh_Timestamp h) (bh_MerkleRoot h).

Lemma recoverBlock_ok bm h nonce :
  mem_ok bm → is_Some (bm_blockMem bm !! h) → ∃ b, recoverBlock bm (with_nonce nonce h) = Ok b ∧ Block_Header b = with_nonce nonce h.
Proof.
  intros Hok [p Hp]. destruct (mo_block _ Hok h p Hp) as (b & arb & Hb & [Hn (t & txns & d & Ht & Hd & Hl)] & Harb & Hh).
  assert (bh_Nonce h = zeroNonce) as Hz by (rewrite <- Hh; unfold restamp; rewrite Ht; exact Hn).
  unfold recoverBlock. cbn [with_nonce bh_ParentID bh_Timestamp bh_MerkleRoot bh_Nonce].
  assert (mkHeader (bh_ParentID h) (replicate 8 x00) (bh_Timestamp h) (bh_MerkleRoot h) = h) as ->.
  { change (replicate 8 x00) with zeroNonce. rewrite <- Hz. by destruct h. }
  rewrite Hp, Harb, Hb, Ht. eexists. split; [reflexivity|]. rewrite <- Hh. unfold restamp. rewrite Ht. reflexivity.
Qed.

Lemma recoverBlock_late bm h nonce :
  bh_Nonce h = zeroNonce → bm_blockMem bm !! h = None → recoverBlock bm (with_nonce nonce h) = Err errLateHeader.
Proof.
  intros Hz Hp. unfold recoverBlock. cbn [with_nonce bh_ParentID bh_Timestamp bh_MerkleRoot bh_Nonce].
  assert (mkHeader (bh_ParentID h) (replicate 8 x00) (bh_Timestamp h) (bh_MerkleRoot h) = h) as ->; [|by rewrite Hp].
  change (replicate 8 x00) with zeroNonce. rewrite <- Hz. by destruct h.
Qed.

Lemma size_list_to_set_le (l : list BlockHeader) : size (list_to_set l : gset BlockHeader) ≤ length l.
Proof.
  induction l as [|h l IH]; cbn [list_to_set length]; [by rewrite size_empty|]. rewrite size_union_alt, size_singleton.
  pose proof (subseteq_size (list_to_set l ∖ {[h]} : gset BlockHeader) (list_to_set l) ltac:(set_solver)). lia.
Qed.

(** The memory is bounded. *)
Lemma mem_bounded bm : mem_ok bm → size (bm_blockMem bm) ≤ HeaderMemory.
Proof.
  intros Hok. rewrite <- (mo_len _ Hok), <- size_dom. etrans; [apply (subseteq_size _ (list_to_set (bm_headerMem bm) : gset BlockHeader))|].
  - intros h [p Hp]%elem_of_dom. apply elem_of_list_to_set, (mo_slot _ Hok). eauto.
  - apply size_list_to_set_le.
Qed.

(** ** The ring *)

(** [n] slots have been used again; the headers in the others are kept. *)
Record advanced (n : nat) (bm bm' : blockManager) : Prop := {
  mv_pos : bm_memProgress bm' = (bm_memProgress bm + n) mod HeaderMemory;
  mv_keep : ∀ j h, (∀ i, i < n → j ≠ (bm_memProgress bm + i) mod HeaderMemory) →
    bm_headerMem bm !! j = Some h → is_Some (bm_blockMem bm !! h) →
    bm_headerMem bm' !! j = Some h ∧ is_Some (bm_blockMem bm' !! h);
}.

Lemma HeaderMemory_pos : 0 < HeaderMemory.
Proof. unfold HeaderMemory. destruct build_Release; lia. Qed.

Lemma HeaderMemory_blocks : HeaderMemory = BlockMemory * slotsPerBlock ∧ 0 < slotsPerBlock ∧ 1 < BlockMemory.
Proof. unfold slotsPerBlock, HeaderMemory, BlockMemory. destruct build_Release; vm_compute; split_and!; lia. Qed.

Lemma advanced_refl bm : bm_memProgress bm < HeaderMemory → advanced 0 bm bm.
Proof. intros H. split; [|done]. rewrite Nat.add_0_r. symmetry. by apply Nat.mod_small. Qed.

Lemma advanced_trans n k a b c : advanced n a b → advanced k b c → advanced (n + k) a c.
Proof.
  intros H1 H2. pose proof HeaderMemory_pos. assert (∀ i, (bm_memProgress b + i) mod HeaderMemory = (bm_memProgress a + n + i) mod HeaderMemory) as Hm.
  { intros i. rewrite (mv_pos _ _ _ H1). by rewrite Nat.Div0.add_mod_idemp_l. }
  split.
  - rewrite (mv_pos _ _ _ H2), Hm. f_equal. lia.
  - intros j h Hj Hs Hb. destruct (mv_keep _ _ _ H1 j h) as [Hs' Hb']; [intros i Hi; apply Hj; lia|done|done|].
    apply (mv_keep _ _ _ H2); [|done|done]. intros i Hi. rewrite Hm, <- Nat.add_assoc. apply Hj. lia.
Qed.

(** Only the memory of headers differs. *)
Definition same_blocks (bm bm' : blockManager) : Prop :=
  bm_store bm' = bm_store bm ∧ bm_sourceBlock bm' = bm_sourceBlock bm ∧ bm_headerMem bm' = bm_headerMem bm.

Lemma nextSlot_pos bm : bm_memProgress bm < HeaderMemory → bm_memProgress (nextSlot bm) = (bm_memProgress bm + 1) mod HeaderMemory.
Proof.
  intros H. cbn. rewrite Nat.add_1_r. case_decide as E.
  - rewrite E. symmetry. apply Nat.Div0.mod_same.
  - rewrite Nat.mod_small; [done|lia].
Qed.

Lemma forgetSlot_ok bm : mem_ok bm → ∃ bm', forgetSlot bm = Ok bm' ∧ mem_ok bm' ∧ mem_ok (nextSlot bm') ∧ advanced 1 bm (nextSlot bm') ∧
  same_blocks bm (nextSlot bm') ∧ (∀ h, bm_headerMem bm !! bm_memProgress bm = Some h → bm_blockMem bm' !! h = None) ∧
  (∀ h, is_Some (bm_blockMem bm' !! h) → is_Some (bm_blockMem bm !! h)) ∧ bm_memProgress bm' = bm_memProgress bm ∧ same_blocks bm bm'.
Proof.
  intros Hok. unfold forgetSlot. destruct (lookup_lt_is_Some_2 (bm_headerMem bm) (bm_memProgress bm)) as [h0 H0]; [rewrite (mo_len _ Hok); apply Hok|].
  rewrite H0. eexists. split; [reflexivity|]. set (bm' := mkBM _ _ _ _ _ _ _).
  assert (mem_ok bm') as Hok'.
  { destruct Hok. split; cbn; try done.
    - intros h p [Hne Hp]%lookup_delete_Some. rewrite lookup_delete_ne by done. eauto.
    - intros h [p [_ Hp]%lookup_delete_Some]. eauto.
    - intros h i j [p [_ Hp]%lookup_delete_Some]. eauto. }
  pose proof (nextSlot_pos bm' (mo_pos _ Hok')) as Hpos. split; [done|]. split; [|split; [|split; [done|split; [|split; [|split; [done|done]]]]]].
  - destruct Hok'. split; try done. rewrite Hpos. apply Nat.mod_upper_bound. pose proof HeaderMemory_pos. lia.
  - split; [exact Hpos|]. intros j h Hj Hs [p Hp]. split; [done|]. cbn. rewrite lookup_delete_ne; [eauto|]. intros <-.
    apply (Hj 0); [lia|]. rewrite Nat.add_0_r, Nat.mod_small by apply Hok. by eapply (mo_unique _ Hok); [eexists| |].
  - intros h [= <-]. cbn. apply lookup_delete_eq.
  - intros h. cbn. rewrite lookup_delete_is_Some. tauto.
Qed.

Lemma mod_next p : p < HeaderMemory → ((p + 1) mod HeaderMemory) mod slotsPerBlock = (p + 1) mod slotsPerBlock.
Proof.
  intros H. destruct HeaderMemory_blocks as (E & Hs & Hb). destruct (decide (p + 1 = HeaderMemory)) as [->|Hne].
  - rewrite Nat.Div0.mod_same, E, Nat.Div0.mod_0_l, Nat.Div0.mod_mul. done.
  - by rewrite (Nat.mod_small (p + 1) HeaderMemory) by lia.
Qed.

Lemma skipSlots_ok fuel : ∀ bm, mem_ok bm →
  (bm_memProgress bm mod slotsPerBlock = 0 ∨ slotsPerBlock - bm_memProgress bm mod slotsPerBlock ≤ fuel) →
  ∃ n bm', skipSlots fuel bm = Ok bm' ∧
    n = (if decide (bm_memProgress bm mod slotsPerBlock = 0) then 0 else slotsPerBlock - bm_memProgress bm mod slotsPerBlock) ∧
    mem_ok bm' ∧ advanced n bm bm' ∧ same_blocks bm bm' ∧ (∀ h, is_Some (bm_blockMem bm' !! h) → is_Some (bm_blockMem bm !! h)).
Proof.
  destruct HeaderMemory_blocks as (E & Hs & Hb).
  induction fuel as [|fuel IH]; intros bm Hok Hf; cbn [skipSlots]; pose proof (Nat.mod_upper_bound (bm_memProgress bm) slotsPerBlock ltac:(lia)).
  - case_decide as Hr; [|lia]. exists 0, bm. split; [done|]. split; [done|]. split; [done|]. split; [apply advanced_refl, Hok|done].
  - case_decide as Hr; [exists 0, bm; split; [done|]; split; [done|]; split; [done|]; split; [apply advanced_refl, Hok|done]|].
    destruct (forgetSlot_ok bm Hok) as (bm1 & -> & _ & Hok1 & Hmv & Hsame & _ & Hsub & Hp1 & _). cbn [mbind res_bind].
    assert (bm_memProgress (nextSlot bm1) mod slotsPerBlock = (bm_memProgress bm + 1) mod slotsPerBlock) as Hn.
    { rewrite (mv_pos _ _ _ Hmv). apply mod_next, Hok. }
    assert ((bm_memProgress bm + 1) mod slotsPerBlock = if decide (bm_memProgress bm mod slotsPerBlock + 1 = slotsPerBlock) then 0 else bm_memProgress bm mod slotsPerBlock + 1) as Hstep.
    { rewrite <- Nat.Div0.add_mod_idemp_l. case_decide as Hd; [rewrite Hd; apply Nat.Div0.mod_same|]. apply Nat.mod_small. lia. }
    destruct (IH (nextSlot bm1) Hok1) as (n & bm' & Hsk & Hle & Hok' & Hmv' & Hsame' & Hsub').
    { rewrite Hn, Hstep. case_decide; [by left|]. right. lia. }
    exists (1 + n), bm'. split; [done|]. split; [rewrite Hn, Hstep in Hle; repeat case_decide; lia|].
    split; [done|]. split; [by eapply advanced_trans|].
    split; [|eauto]. destruct Hsame as (E1 & E2 & E3), Hsame' as (F1 & F2 & F3). split_and!; congruence.
Qed.

(** ** Giving out a header *)

Lemma restamp_source arb b : source_ok b → length arb = 32 → source_ok (restamp arb b).
Proof.
  intros [Hn (t & txns & d & Ht & Hd & Hl)] Ha. unfold restamp. rewrite Ht. split; [done|]. cbn. eexists _, _, arb. split; [reflexivity|done].
Qed.

Lemma restamp_twice a b x : restamp a (restamp b x) = restamp a x.
Proof. destruct x as [p n ts ps [|t txns]]; done. Qed.

Lemma stampArbData_ok arb b : source_ok b → length arb = 32 → stampArbData arb b = Ok (restamp arb b).
Proof.
  intros [_ (t & txns & d & Ht & Hd & Hl)] Ha. unfold stampArbData, restamp. rewrite Ht, Hd, go_copy_full by (by rewrite Hl). done.
Qed.

(** The header that comes next. *)
Definition nextHeader (bm : blockManager) (arb : list byte) : option BlockHeader :=
  match bm_sourceBlock bm with
  | Some p => (λ b, Block_Header (restamp arb b)) <$> bm_store bm !! p
  | None => None
  end.

(** What [giveHeader] leaves before it goes to the next slot. *)
Lemma remember_ok bm arb p b h :
  mem_ok bm → bm_store bm !! p = Some b → source_ok b → length arb = 32 → Block_Header (restamp arb b) = h → h ∉ bm_headerMem bm →
  (∀ h', bm_headerMem bm !! bm_memProgress bm = Some h' → bm_blockMem bm !! h' = None) →
  mem_ok (mkBM (bm_store bm) (<[h := p]> (bm_blockMem bm)) (<[h := arb]> (bm_arbDataMem bm)) (<[bm_memProgress bm := h]> (bm_headerMem bm))
    (bm_sourceBlock bm) (bm_sourceBlockTime bm) (bm_memProgress bm)).
Proof.
  intros Hok Hb Hs Ha Hh Hfresh Hold. pose proof (mo_len _ Hok) as Hlen. pose proof (mo_pos _ Hok) as Hlt. split; cbn.
  - by rewrite length_insert.
  - exact Hlt.
  - intros q Hq. by apply (mo_source _ Hok).
  - intros h' q [[<- <-]|[Hne Hq]]%lookup_insert_Some.
    + exists b, arb. by rewrite lookup_insert_eq.
    + rewrite lookup_insert_ne by done. by apply (mo_block _ Hok).
  - intros h' [q [[<- _]|[Hne Hq]]%lookup_insert_Some]; [apply list_elem_of_lookup; exists (bm_memProgress bm); apply list_lookup_insert_eq; by rewrite Hlen|].
    destruct (proj1 (list_elem_of_lookup _ _) (mo_slot _ Hok h' (ex_intro _ q Hq))) as [j Hj]. apply list_elem_of_lookup. exists j.
    rewrite list_lookup_insert_ne; [done|]. intros <-. by rewrite (Hold h' Hj) in Hq.
  - intros h' i j [q Hq] Hi Hj. apply list_lookup_insert_Some in Hi, Hj. apply lookup_insert_Some in Hq as [[<- _]|[Hne Hq]].
    + destruct Hi as [(<- & _ & _)|[Hi Hi']]; [|exfalso; apply Hfresh; by eapply list_elem_of_lookup_2].
      destruct Hj as [(<- & _ & _)|[Hj Hj']]; [done|exfalso; apply Hfresh; by eapply list_elem_of_lookup_2].
    + destruct Hi as [(_ & -> & _)|[Hi Hi']]; [done|]. destruct Hj as [(_ & -> & _)|[Hj Hj']]; [done|].
      apply (mo_unique _ Hok h' i j); [by eexists|done|done].
Qed.

(** Writing the bytes of the next header into the source block does not disturb
    the headers that are out. *)
Lemma stamp_ok bm arb p b :
  mem_ok bm → bm_sourceBlock bm = Some p → bm_store bm !! p = Some b → source_ok b → length arb = 32 →
  mem_ok (mkBM (<[p := restamp arb b]> (bm_store bm)) (bm_blockMem bm) (bm_arbDataMem bm) (bm_headerMem bm)
    (bm_sourceBlock bm) (bm_sourceBlockTime bm) (bm_memProgress bm)).
Proof.
  intros [] Hp Hb Hs Ha. split; cbn; try done.
  - intros q Hq. rewrite Hp in Hq. injection Hq as <-. exists (restamp arb b). split; [apply lookup_insert_eq|by apply restamp_source].
  - intros h' q Hq. destruct (mo_block0 h' q Hq) as (b' & arb' & Hb' & Hs' & Harb & Hh). destruct (decide (p = q)) as [<-|Hne].
    + rewrite Hb in Hb'. injection Hb' as <-. exists (restamp arb b), arb'. split; [apply lookup_insert_eq|]. split; [by apply restamp_source|].
      split; [done|]. by rewrite restamp_twice.
    + exists b', arb'. by rewrite lookup_insert_ne by done.
Qed.

Lemma giveHeader_ok bm arb p :
  mem_ok bm → bm_sourceBlock bm = Some p → length arb = 32 → (∀ h, nextHeader bm arb = Some h → h ∉ bm_headerMem bm) →
  ∃ bm' h, giveHeader bm arb = Ok (bm', h) ∧ nextHeader bm arb = Some h ∧ mem_ok bm' ∧ advanced 1 bm bm' ∧
    bm_headerMem bm' !! bm_memProgress bm = Some h ∧ is_Some (bm_blockMem bm' !! h).
Proof.
  intros Hok Hp Ha Hfresh. destruct (mo_source _ Hok p Hp) as (b & Hb & Hsrc). unfold nextHeader in *. rewrite Hp, Hb in *. cbn [fmap option_fmap option_map] in *.
  set (h := Block_Header (restamp arb b)) in *. specialize (Hfresh h eq_refl). unfold giveHeader. rewrite Hp, Hb, stampArbData_ok by done. cbn [mbind res_bind].
  pose proof (stamp_ok bm arb p b Hok Hp Hb Hsrc Ha) as Hok1. rewrite Hp in Hok1. set (bm1 := mkBM _ _ _ _ _ _ _) in *.
  destruct (forgetSlot_ok bm1 Hok1) as (bm2 & E2 & Hok2 & _ & Hmv & _ & Hold & Hsub & Hpos & Hst & Hsb & Hhm). rewrite E2. cbn [mbind res_bind].
  assert (length (bm_headerMem bm2) = HeaderMemory) as Hlen by (rewrite Hhm; apply Hok). pose proof (mo_pos _ Hok2) as Hlt.
  unfold go_set. rewrite (proj2 (Nat.ltb_lt _ _)) by (rewrite Hlen; exact Hlt). cbn [mbind res_bind]. eexists _, h. split; [reflexivity|]. split; [done|].
  assert (bm_headerMem bm2 = bm_headerMem bm) as Ehm by exact Hhm. assert (bm_memProgress bm2 = bm_memProgress bm) as Epos by exact Hpos.
  pose proof (remember_ok bm2 arb p (restamp arb b) h Hok2) as Hok3. rewrite Hst, Ehm, Epos in Hok3. specialize (Hok3 (lookup_insert_eq _ _ _) (restamp_source _ _ Hsrc Ha) Ha).
  specialize (Hok3 ltac:(by rewrite restamp_twice) Hfresh Hold). 
  rewrite Epos in Hlt. rewrite Ehm in Hlen. rewrite Hst, Ehm, Epos. match type of Hok3 with mem_ok ?x => set (bm3 := x) in * end.
  pose proof (nextSlot_pos bm3 (mo_pos _ Hok3)) as Hnx. change (bm_memProgress bm3) with (bm_memProgress bm) in Hnx.
  split; [|split; [split; [exact Hnx|]|split]].
  - split; [apply (mo_len _ Hok3)| |apply (mo_source _ Hok3)|apply (mo_block _ Hok3)|apply (mo_slot _ Hok3)|apply (mo_unique _ Hok3)].
    apply (Nat.le_lt_trans _ _ _ (Nat.eq_le_incl _ _ Hnx)), Nat.mod_upper_bound. pose proof HeaderMemory_pos. lia.
  - intros j h' Hj Hs Hb'. destruct (mv_keep _ _ _ Hmv j h' Hj Hs Hb') as [H1 H2].
    assert (j ≠ bm_memProgress bm) as Hjp by (specialize (Hj 0 ltac:(lia)); by rewrite Nat.add_0_r, Nat.mod_small in Hj by apply Hok).
    split; [cbn; by rewrite list_lookup_insert_ne by done|]. cbn. apply lookup_insert_is_Some. destruct (decide (h = h')); [by left|by right].
  - cbn. apply list_lookup_insert_eq. by rewrite Hlen.
  - cbn. rewrite lookup_insert_eq. eauto.
Qed.

(** ** The operations of the miner *)

(** The unsolved block of the miner has no nonce. *)
Definition miner_ok (m : Miner) : Prop := mem_ok (m_work m) ∧ b_Nonce (mp_UnsolvedBlock (m_persist m)) = zeroNonce.

Lemma blockForWork_source m w now rand m' b :
  b_Nonce (mp_UnsolvedBlock (m_persist m)) = zeroNonce → length rand = SpecifierLen → blockForWork m w now rand = Ok (m', b) → source_ok b.
Proof.
  intros Hn Hr Hb. destruct (blockForWork_txns _ _ _ _ _ _ Hb) as (Ht & _ & Hno & _). split; [by rewrite Hno|].
  rewrite Ht. eexists _, _, _. split; [reflexivity|]. split; [reflexivity|]. rewrite length_app, Hr. reflexivity.
Qed.

Lemma newSourceBlock_ok m w now time rand m' :
  miner_ok m → length rand = SpecifierLen → newSourceBlock m w now time rand = Ok m' →
  miner_ok m' ∧ is_Some (bm_sourceBlock (m_work m')) ∧ bm_headerMem (m_work m') = bm_headerMem (m_work m) ∧
  advanced (if decide (bm_memProgress (m_work m) mod slotsPerBlock = 0) then 0 else slotsPerBlock - bm_memProgress (m_work m) mod slotsPerBlock) (m_work m) (m_work m').
Proof.
  intros [Hok Hn] Hr H. pose proof (newSourceBlock_same _ _ _ _ _ _ H) as (_ & _ & _ & Hub). unfold newSourceBlock in H.
  destruct HeaderMemory_blocks as (_ & Hs & _). pose proof (Nat.mod_upper_bound (bm_memProgress (m_work m)) slotsPerBlock ltac:(lia)).
  destruct (skipSlots_ok slotsPerBlock (m_work m) Hok ltac:(lia)) as (n & bm & Hsk & <- & Hok1 & Hmv & (Est & Esb & Ehm) & Hsub). rewrite Hsk in H. cbn [mbind res_bind] in H.
  apply bind_Ok in H as ([m1 b] & Hb & [= <-]). pose proof (blockForWork_source (set_work bm m) w now rand m1 b Hn Hr Hb) as Hsrc.
  cbn. set (p := fresh (dom (bm_store bm))). assert (bm_store bm !! p = None) as Hp by (apply not_elem_of_dom, is_fresh).
  split; [split; [|etrans; [apply (f_equal b_Nonce Hub)|exact Hn]]|split; [eauto|split; [done|]]].
  - destruct Hok1. split; try done.
    + intros q [= <-]. exists b. split; [apply lookup_insert_eq|done].
    + intros h q Hq. destruct (mo_block0 h q Hq) as (b' & arb & Hb' & H'). exists b', arb. split; [|done]. cbn. rewrite lookup_insert_ne; [done|]. intros <-. congruence.
  - destruct Hmv. by split.
Qed.

Lemma giveHeader_header bm arb bm' h : mem_ok bm → length arb = 32 → giveHeader bm arb = Ok (bm', h) → nextHeader bm arb = Some h ∧ is_Some (bm_sourceBlock bm).
Proof.
  intros Hok Ha. unfold giveHeader, nextHeader. destruct (bm_sourceBlock bm) as [p|] eqn:Ep; [|done]. destruct (mo_source _ Hok p Ep) as (b & -> & Hs).
  rewrite stampArbData_ok by done. cbn [mbind res_bind]. intros (bm1 & _ & H)%bind_Ok. apply bind_Ok in H as (hm & _ & [= _ <-]). eauto.
Qed.

(** The source block is too old. *)
Definition stale (m : Miner) (time : Z) : bool :=
  match bm_sourceBlockTime (m_work m) with None => true | Some t => (MaxSourceBlockAge <? time - t)%Z end.

Lemma HeaderForWork_ok m w1 w2 now time rand arb m' h target :
  miner_ok m → length rand = SpecifierLen → length arb = 32 → h ∉ bm_headerMem (m_work m) →
  HeaderForWork false m w1 w2 now time rand arb = Ok (m', Ok (h, target)) →
  miner_ok m' ∧ (∃ n, n ≤ (if stale m time then slotsPerBlock else 1) ∧ advanced n (m_work m) (m_work m')) ∧
  ∃ j, j < HeaderMemory ∧ bm_memProgress (m_work m') = (j + 1) mod HeaderMemory ∧
    bm_headerMem (m_work m') !! j = Some h ∧ is_Some (bm_blockMem (m_work m') !! h).
Proof.
  intros [Hok Hn] Hr Ha Hfresh H. unfold HeaderForWork in H. destruct (w_Unlocked w1) as [[]| |]; try done; [|by injection H..].
  pose proof (checkAddress_same m w1) as (_ & Ew & _ & _ & Eu). destruct (checkAddress m w1) as [m0 [u| |]]; try done. cbn [fst] in *.
  assert (miner_ok m0) as Hok0 by (split; [by rewrite Ew|by rewrite Eu]). fold (stale m0 time) in H.
  assert (stale m0 time = stale m time) as Est by (unfold stale; by rewrite Ew). rewrite Est in H.
  apply bind_Ok in H as (m1 & Hsrc & H). apply bind_Ok in H as ([bm h'] & Hg & [= <- <- <-]).
  destruct HeaderMemory_blocks as (_ & Hs & _). pose proof (Nat.mod_upper_bound (bm_memProgress (m_work m)) slotsPerBlock ltac:(lia)).
  assert (miner_ok m1 ∧ bm_headerMem (m_work m1) = bm_headerMem (m_work m) ∧
    ∃ n, n < (if stale m time then slotsPerBlock else 1) ∧ advanced n (m_work m) (m_work m1)) as (Hok1 & Ehm & n & Hlt & Hmv).
  { rewrite <- Ew. destruct (stale m time || _) eqn:Eb.
    - destruct (newSourceBlock_ok _ _ _ _ _ _ Hok0 Hr Hsrc) as (H1 & _ & H2 & H3). split; [done|]. split; [done|]. rewrite Ew in *. eexists. split; [|exact H3].
      destruct (stale m time); cbn [orb] in Eb; [|apply bool_decide_eq_true in Eb]; case_decide; lia.
    - injection Hsrc as <-. split; [done|]. split; [done|]. exists 0. split; [case_match; lia|]. apply advanced_refl, Hok0. }
  destruct Hok1 as [Hok1 Hn1]. destruct (giveHeader_header _ _ _ _ Hok1 Ha Hg) as [Hnext [p Hp]].
  destruct (giveHeader_ok (m_work m1) arb p Hok1 Hp Ha) as (bm2 & h2 & Hg2 & Hnext2 & Hok2 & Hmv2 & Hslot & Hmem).
  { intros x Hx. rewrite Hnext in Hx. injection Hx as <-. by rewrite Ehm. }
  rewrite Hg in Hg2. injection Hg2 as <- <-. split; [by split|]. split.
  - exists (n + 1). split; [lia|]. by eapply advanced_trans.
  - exists (bm_memProgress (m_work m1)). split; [apply Hok1|]. split; [apply (mv_pos _ _ _ Hmv2)|done].
Qed.

Lemma ProcessConsensusChange_ok m cc w now time rand m' :
  miner_ok m → length rand = SpecifierLen → Miner_ProcessConsensusChange m cc w now time rand = Ok m' →
  miner_ok m' ∧ ∃ n, n ≤ (if cc_Synced cc then slotsPerBlock else 0) ∧ advanced n (m_work m) (m_work m').
Proof.
  intros [Hok Hn] Hr H. unfold Miner_ProcessConsensusChange in H. apply bind_Ok in H as (last & _ & H). apply bind_Ok in H as (m1 & Hs & [= <-]).
  match type of Hs with (if _ then newSourceBlock ?x _ _ _ _ else _) = _ => set (m0 := x) in * end. assert (miner_ok m0) as Hok0 by done.
  destruct (cc_Synced cc).
  - destruct (newSourceBlock_ok _ _ _ _ _ _ Hok0 Hr Hs) as (H1 & _ & _ & Hmv). split; [done|]. eexists. split; [|exact Hmv]. case_decide; lia.
  - injection Hs as <-. split; [done|]. exists 0. split; [done|]. apply advanced_refl, Hok.
Qed.

(** What the miner does, and how many slots it may take: one per header, the rest
    of the slots of a source block when the block is replaced. *)
Inductive work_step : nat → Miner → Miner → Prop :=
| ws_header m w1 w2 now time rand arb m' h target :
    HeaderForWork false m w1 w2 now time rand arb = Ok (m', Ok (h, target)) → length rand = SpecifierLen → length arb = 32 →
    h ∉ bm_headerMem (m_work m) → work_step (if stale m time then slotsPerBlock else 1) m m'
| ws_change m cc w now time rand m' :
    Miner_ProcessConsensusChange m cc w now time rand = Ok m' → length rand = SpecifierLen →
    work_step (if cc_Synced cc then slotsPerBlock else 0) m m'
| ws_receive m at_ diff s :
    ReceiveUpdatedUnconfirmedTransactions at_ (m_sel m) diff = Ok s → work_step 0 m (mkMiner (m_work m) s (m_persist m))
| ws_submitted m b accepted w saved :
    work_step 0 m (managedSubmitBlock m b accepted w saved).1.1.

Inductive work_run : nat → Miner → Miner → Prop :=
| wr_done m : work_run 0 m m
| wr_step n k m1 m2 m3 : work_step n m1 m2 → work_run k m2 m3 → work_run (n + k) m1 m3.

Lemma work_step_ok n m m' : work_step n m m' → miner_ok m → miner_ok m' ∧ ∃ k, k ≤ n ∧ advanced k (m_work m) (m_work m').
Proof.
  intros H Hok. inversion H as [? w1 w2 now time rand arb ? h target Hh Hr Ha Hf|? cc w now time rand ? Hc Hr|? at_ diff s Hs|? b accepted w saved]; subst.
  - destruct (HeaderForWork_ok _ _ _ _ _ _ _ _ _ _ Hok Hr Ha Hf Hh) as (H1 & H2 & _). done.
  - by eapply ProcessConsensusChange_ok.
  - split; [done|]. exists 0. split; [done|]. apply advanced_refl, Hok.
  - assert (m_work (managedSubmitBlock m b accepted w saved).1.1 = m_work m ∧
      mp_UnsolvedBlock (m_persist (managedSubmitBlock m b accepted w saved).1.1) = mp_UnsolvedBlock (m_persist m)) as [Ew Eu] by (unfold managedSubmitBlock; by repeat case_match).
    unfold miner_ok. rewrite Ew, Eu. split; [done|]. exists 0. split; [done|]. apply advanced_refl, Hok.
Qed.

Lemma work_run_ok n m m' : work_run n m m' → miner_ok m → miner_ok m' ∧ ∃ k, k ≤ n ∧ advanced k (m_work m) (m_work m').
Proof.
  intros H. induction H as [m|n k m1 m2 m3 Hs _ IH]; intros Hok.
  - split; [done|]. exists 0. split; [done|]. apply advanced_refl, Hok.
  - destruct (work_step_ok _ _ _ Hs Hok) as (Hok2 & i & Hi & Hmv). destruct (IH Hok2) as (Hok3 & j & Hj & Hmv').
    split; [done|]. exists (i + j). split; [lia|]. by eapply advanced_trans.
Qed.
End headers.

(** C27: A header that the miner has given out is remembered until the ring of
    [HeaderMemory] slots has come round: whatever the miner does meanwhile (more
    headers, new blocks of the chain, new transactions, submitted blocks), while
    fewer than [HeaderMemory] slots have been taken, the header with any nonce is
    recognised, and the block that [SubmitHeader] submits for it has exactly this
    header, although the random bytes of later headers have been written into
    the same source block.  At most [HeaderMemory] headers are kept. *)
Theorem header_remembered `{MO : MapOrder} `{N : Net} `{C : Crypto} (m m1 m2 : Miner) (w1 w2 : walletAnswers) (now : Timestamp)
    (time : Z) (rand arb : list byte) (h : BlockHeader) (target : Target) (n : nat) (nonce : list byte) :
  miner_ok m → length rand = SpecifierLen → length arb = 32 → h ∉ bm_headerMem (m_work m) →
  HeaderForWork false m w1 w2 now time rand arb = Ok (m1, Ok (h, target)) → work_run n m1 m2 → n < HeaderMemory →
  (∃ b, recoverBlock (m_work m2) (with_nonce nonce h) = Ok b ∧ Block_Header b = with_nonce nonce h ∧
    ∀ submit w saved, SubmitHeader false m2 (with_nonce nonce h) submit w saved =
      let '(m, accepted) := submit b in managedSubmitBlock m b accepted w saved) ∧
  size (bm_blockMem (m_work m2)) ≤ HeaderMemory.
Proof.
  intros Hok Hr Ha Hf Hh Hrun Hlt. destruct (HeaderForWork_ok _ _ _ _ _ _ _ _ _ _ Hok Hr Ha Hf Hh) as (Hok1 & _ & j & Hj & Hpos & Hslot & Hmem).
  destruct (work_run_ok _ _ _ Hrun Hok1) as ([Hok2 _] & k & Hk & Hmv). split; [|by apply mem_bounded].
  destruct (mv_keep _ _ _ Hmv j h) as [_ Hkept]; [|done|done|].
  - intros i Hi E. rewrite Hpos, Nat.Div0.add_mod_idemp_l in E. destruct (decide (j + 1 + i < HeaderMemory)).
    + rewrite Nat.mod_small in E; lia.
    + replace (j + 1 + i) with (j + 1 + i - HeaderMemory + 1 * HeaderMemory) in E by lia. rewrite Nat.Div0.mod_add, Nat.mod_small in E; lia.
  - destruct (recoverBlock_ok _ h nonce Hok2 Hkept) as (b & Hb & Hhb). exists b. split; [done|]. split; [done|].
    intros submit w saved. unfold SubmitHeader. by rewrite Hb.
Qed.

Lemma Miner_New_ok `{N : Net} `{C : Crypto} p : b_Nonce (mp_UnsolvedBlock p) = zeroNonce → miner_ok (Miner_New p).
Proof.
  intros Hn. split; [|done]. split; cbn.
  - apply length_replicate.
  - apply HeaderMemory_pos.
  - done.
  - intros h q. by rewrite lookup_empty.
  - intros h [q Hq]. by rewrite lookup_empty in Hq.
  - intros h i j [q Hq]. by rewrite lookup_empty in Hq.
Qed.

(** ** A header is given out *)

Lemma blockForWork_total `{N : Net} `{C : Crypto} m w now rand : (checkAddress m w).2 ≠ Panic → ∃ m' b, blockForWork m w now rand = Ok (m', b).
Proof.
  intros Hw. unfold blockForWork, blockForWorkWithDevFund, blockForWorkWithoutDevFund, CalculateSubsidies.
  change (Currency_Div ?x (NewCurrency64 10000)) with (Ok (x / 10000)%Z).
  destruct (checkAddress m w) as [m0 [| |]]; [| |done]; repeat case_match; cbn [mbind res_bind]; eauto.
Qed.

(** A request that starts a new source block, later than all the headers that are
    remembered. *)
Lemma HeaderForWork_total `{N : Net} `{C : Crypto} m w1 w2 now time rand arb :
  miner_ok m → length rand = SpecifierLen → length arb = 32 → w_Unlocked w1 = Ok true → checkAddress m w1 = (m, Ok ()) →
  (∀ m, (checkAddress m w2).2 ≠ Panic) → Forall (λ h, (bh_Timestamp h < now)%Z) (bm_headerMem (m_work m)) → stale m time = true →
  ∃ m' h target, HeaderForWork false m w1 w2 now time rand arb = Ok (m', Ok (h, target)) ∧ h ∉ bm_headerMem (m_work m).
Proof.
  intros Hok Hr Ha Hu Hc Hw Hold Hst. unfold HeaderForWork. rewrite Hu, Hc. fold (stale m time). rewrite Hst. cbn [orb].
  assert (∃ bm m1 b, skipSlots slotsPerBlock (m_work m) = Ok bm ∧ blockForWork (set_work bm m) w2 now rand = Ok (m1, b)) as (bm & m1 & b & Hsk & Hb).
  { destruct HeaderMemory_blocks as (_ & Hs & _). destruct (skipSlots_ok slotsPerBlock (m_work m) (proj1 Hok) ltac:(lia)) as (n & bm & Hsk & _).
    destruct (blockForWork_total (set_work bm m) w2 now rand (Hw _)) as (m1 & b & Hb). eauto. }
  assert (∃ m2 p, newSourceBlock m w2 now time rand = Ok m2 ∧ bm_sourceBlock (m_work m2) = Some p ∧ bm_store (m_work m2) !! p = Some b) as (m2 & p & Hn & Hp & Hpb).
  { unfold newSourceBlock. rewrite Hsk. cbn [mbind res_bind]. rewrite Hb. cbn [mbind res_bind]. eexists _, _. split; [reflexivity|]. split; [reflexivity|]. apply lookup_insert_eq. }
  rewrite Hn. cbn [mbind res_bind]. destruct (newSourceBlock_ok _ _ _ _ _ _ Hok Hr Hn) as ([Hok2 _] & _ & Ehm & _).
  assert (∀ h, nextHeader (m_work m2) arb = Some h → h ∉ bm_headerMem (m_work m)) as Hfresh.
  { intros h. unfold nextHeader. rewrite Hp, Hpb. intros [= <-] Hin. rewrite Forall_forall in Hold. specialize (Hold _ Hin).
    destruct (blockForWork_txns _ _ _ _ _ _ Hb) as (_ & _ & _ & Ht & _).
    assert (bh_Timestamp (Block_Header (restamp arb b)) = b_Timestamp b) as E by (unfold restamp; by case_match). rewrite E, Ht in Hold. lia. }
  destruct (giveHeader_ok (m_work m2) arb p Hok2 Hp Ha) as (bm' & h & -> & Hh & _); [by rewrite Ehm|]. cbn [mbind res_bind]. eauto 10.
Qed.

Module example_headers.
Import example_work.

Definition arb : list byte := replicate 32 x11.

Lemma ok20 : miner_ok m20.
Proof.
  apply (ProcessConsensusChange_ok m19 cc wallet 1998000100 0 rand); [|vm_compute; reflexivity|exact processed].
  exact (Miner_New_ok (mkPersist zeroHash 19 zeroHash (example.key x05) [] (mkBlock zeroHash (replicate 8 x00) 0 [] [])) eq_refl).
Qed.

Lemma request : ∃ m h target, HeaderForWork false m20 wallet wallet 1998000200 (10 ^ 10) rand arb = Ok (m, Ok (h, target)) ∧ h ∉ bm_headerMem (m_work m20).
Proof.
  assert (mp_Address (m_persist m20) = example.key x05) as Ha by (vm_compute; reflexivity).
  apply HeaderForWork_total; [exact ok20|reflexivity|reflexivity|reflexivity| | |vm_decide|vm_compute; reflexivity].
  - unfold checkAddress. cbn [wallet w_AllAddresses]. rewrite Ha. vm_compute. reflexivity.
  - intros m. unfold checkAddress. cbn [wallet w_AllAddresses w_NextAddress]. by case_match.
Qed.
End example_headers.

(** A header that was given out is recognised, with its block, after another block
    has been submitted. *)
Lemma header_remembered_witness :
  ∃ m h target b, HeaderForWork false example_work.m20 example_work.wallet example_work.wallet 1998000200 (10 ^ 10) example_work.rand example_headers.arb = Ok (m, Ok (h, target)) ∧
    recoverBlock (m_work (managedSubmitBlock m example.block (Ok ()) example_work.wallet (Ok ())).1.1) (with_nonce (replicate 8 x07) h) = Ok b ∧
    Block_ID b = BlockHeader_ID (with_nonce (replicate 8 x07) h).
Proof.
  destruct example_headers.request as (m & h & target & Hg & Hf). exists m, h, target.
  destruct (header_remembered (MO := inOrder) example_work.m20 m _ example_work.wallet example_work.wallet 1998000200 (10 ^ 10)
    example_work.rand example_headers.arb h target 0 (replicate 8 x07) example_headers.ok20 eq_refl eq_refl Hf Hg
    (wr_step (MO := inOrder) 0 0 _ _ _ (ws_submitted (MO := inOrder) m example.block (Ok ()) example_work.wallet (Ok ())) (wr_done (MO := inOrder) _)) HeaderMemory_pos) as [(b & Hb & Hh & _) _].
  exists b. split; [exact Hg|]. split; [exact Hb|]. unfold Block_ID. by rewrite Hh.
Defined.
